(** * RevPiModIO: process-image synchronisation and event dispatch

    A shallow embedding of [revpimodio2/modio.py] (class [RevPiModIO]) and
    the properties of its process-image transactions, its address
    bookkeeping, its two cyclic loops and its shutdown path.

    Conventions of the embedding:
    - Python integers are [Z]; byte counts, offsets and slice bounds, which are
      never negative in the source, are [nat].
    - A [bytearray] is a [list byte]; a [slice(start, stop)] is a record.
    - Device objects live in an object store (a list); every reference to a
      device (the device list, the refresh list, an argument) is an index
      into that store, so that a mutation through one reference is seen
      through all of them.
    - A method returns its outcome (a value or a raised exception) together
      with the state it leaves behind: what was mutated before a [raise]
      stays mutated. *)

From Stdlib Require Import List ZArith Bool String Lia Arith PeanoNat Sorted.
From Stdlib Require Import Permutation DecimalString.
Import ListNotations.

(** ** Python primitives *)

Module Py.

Definition byte := Byte.byte.

(** [slice(start, stop)] with non-negative bounds and step 1. *)
Record slice := Slice { start : nat; stop : nat }.

(** [l[s]]: out-of-range bounds are clipped, [stop <= start] gives the
    empty sequence. *)
Definition getslice {A} (l : list A) (s : slice) : list A :=
  firstn (stop s - start s) (skipn (start s) l).

(** [l[s] = new] on a [bytearray]: the elements of the (clipped) range are
    replaced by [new], whatever its length. *)
Definition setslice {A} (l : list A) (s : slice) (new : list A) : list A :=
  firstn (start s) l ++ new ++ skipn (Nat.max (start s) (stop s)) l.

Inductive ByteOrder := Little | Big.

Fixpoint from_little (bs : list byte) : Z :=
  match bs with
  | [] => 0%Z
  | b :: rest => (Z.of_N (Byte.to_N b) + 256 * from_little rest)%Z
  end.

(** [int.from_bytes(bs, byteorder=order)] (unsigned). *)
Definition int_from_bytes (bs : list byte) (order : ByteOrder) : Z :=
  match order with
  | Little => from_little bs
  | Big => from_little (rev bs)
  end.

(** [bool(n & 1 << k)]. *)
Definition bool_and_shift (n k : Z) : bool :=
  negb (Z.land n (Z.shiftl 1 k) =? 0)%Z.

(** [d / r] on integers, the true division of Python: the binary64 number
    that is nearest to the exact quotient, a tie going to the even
    mantissa, given as [(m, e)] for the number [m * 2^e]. [None] stands
    for the exception that the division raises: [ZeroDivisionError] for
    [r = 0] and [OverflowError] for a quotient beyond the range of
    binary64. [lg] is the floor of the binary logarithm of the quotient and
    [e] the exponent of the last place of the result, which has 53 binary
    digits or ends at [2^(-1074)]. *)
Definition true_div (d r : Z) : option (Z * Z) :=
  if (r =? 0)%Z then None
  else if (d =? 0)%Z then Some (0, 0)%Z
  else
    let x := Z.abs d in
    let y := Z.abs r in
    let k := (Z.log2 x - Z.log2 y)%Z in
    let lg :=
      if (y * 2 ^ Z.max 0 k <=? x * 2 ^ Z.max 0 (- k))%Z then k
      else (k - 1)%Z in
    let e := Z.max (lg - 52) (-1074) in
    let num := (x * 2 ^ Z.max 0 (- e))%Z in
    let den := (y * 2 ^ Z.max 0 e)%Z in
    let q := (num / den)%Z in
    let rem := (num mod den)%Z in
    let m :=
      if (den <? 2 * rem)%Z || ((den =? 2 * rem)%Z && Z.odd q)
      then (q + 1)%Z else q in
    if (971 <? e)%Z || ((e =? 971)%Z && (m =? 2 ^ 53)%Z) then None
    else Some (Z.sgn d * Z.sgn r * m, e)%Z.

(** [math.ceil] of the number [m * 2^e]. *)
Definition ceil_float (q : Z * Z) : Z :=
  let '(m, e) := q in
  if (0 <=? e)%Z then (m * 2 ^ e)%Z else (- ((- m) / 2 ^ (- e)))%Z.

(** [ceil(d / r)] on integers. Where the division raises, the result is 0:
    the callers are followed where it does not raise. *)
Definition ceil_div (d r : Z) : Z :=
  match true_div d r with
  | Some q => ceil_float q
  | None => 0%Z
  end.

Definition bytes_eq_dec (a b : list byte) : {a = b} + {a <> b} :=
  list_eq_dec Byte.byte_eq_dec a b.

(** Exceptions raised by the methods of the manager. *)
Inductive Exn :=
| RuntimeError (msg : string)
| ValueError
| AttributeError
| KeyError.

(** The result of a call: a returned value or a raised exception. *)
Inductive Outcome (A : Type) :=
| Return (a : A)
| Raise (e : Exn).
Arguments Return {A} a.
Arguments Raise {A} e.

Definition raises {A} (o : Outcome A) : bool :=
  match o with Raise _ => true | Return _ => false end.

End Py.
Import Py.

(** ** Data model of the event dispatcher *)

(** The edge constants of the package ([RISING], [FALLING], [BOTH]). *)
Inductive Edge := RISING | FALLING | BOTH.

Definition Edge_eq_dec (a b : Edge) : {a = b} + {a <> b}.
Proof. decide equality. Defined.

Definition edge_eqb (a b : Edge) : bool :=
  if Edge_eq_dec a b then true else false.

(** An event registration, the tuple
    [(func, edge, as_thread, delay, overwrite)] of the source; the callback
    is represented by its identity. *)
Record RegFunc := mkRegFunc {
  reg_func : nat;
  reg_edge : Edge;
  reg_as_thread : bool;
  reg_delay : Z;
  reg_overwrite : bool
}.

Definition RegFunc_eq_dec (a b : RegFunc) : {a = b} + {a <> b}.
Proof.
  decide equality; auto using Bool.bool_dec, Z.eq_dec, Edge_eq_dec, Nat.eq_dec.
Defined.

(** The value of an I/O point: a boolean for a point with a bit index, the
    bytes of its range otherwise. *)
Inductive Value :=
| VBool (b : bool)
| VBytes (bs : list byte).

Definition Value_eq_dec (a b : Value) : {a = b} + {a <> b}.
Proof.
  decide equality; auto using Bool.bool_dec, bytes_eq_dec.
Defined.

(** The firing tuple [(regfunc, io_name, io_value)]; it is both an element
    of [lst_fire] and a key of [dict_delay]. Python compares such tuples
    structurally. *)
Definition EventTuple : Type := RegFunc * string * Value.

Definition EventTuple_eq_dec (a b : EventTuple) : {a = b} + {a <> b}.
Proof.
  decide equality; auto using Value_eq_dec.
  decide equality; auto using string_dec, RegFunc_eq_dec.
Defined.

(** *** [dict_delay]: an insertion-ordered dictionary *)

Module Dict.

Definition t := list (EventTuple * Z).

Fixpoint get (k : EventTuple) (d : t) : option Z :=
  match d with
  | [] => None
  | (k', v) :: rest => if EventTuple_eq_dec k k' then Some v else get k rest
  end.

(** [k in d] *)
Definition mem (k : EventTuple) (d : t) : bool :=
  match get k d with Some _ => true | None => false end.

(** [d[k] = v]: an existing key keeps its place, a new one goes last. *)
Fixpoint set (k : EventTuple) (v : Z) (d : t) : t :=
  match d with
  | [] => [(k, v)]
  | (k', v') :: rest =>
      if EventTuple_eq_dec k k' then (k', v) :: rest
      else (k', v') :: set k v rest
  end.

(** [del d[k]] *)
Fixpoint del (k : EventTuple) (d : t) : t :=
  match d with
  | [] => []
  | (k', v') :: rest =>
      if EventTuple_eq_dec k k' then del k rest
      else (k', v') :: del k rest
  end.

(** [list(d.keys())] *)
Definition keys (d : t) : list EventTuple := map fst d.

End Dict.

(** An I/O point as the dispatcher sees it. [io_bitaddress] is negative for
    a point that has no bit index. *)
Record IOPoint := mkIO {
  io_name : string;
  io_slc_address : slice;
  io_bitaddress : Z;
  io_byteorder : ByteOrder
}.

(** A device: identity, placement in the image, the ranges of its regions
    (within its own buffer and, with the [off] suffix, within the image),
    the self-updating flag, the live buffer [_ba_devdata], the baseline copy
    [_ba_datacp] and the registrations per I/O point, in registration order. *)
Record Device := mkDevice {
  dev_position : Z;
  dev_name : string;
  dev_offset : nat;
  dev_length : nat;
  dev_selfupdate : bool;
  dev_slc_inp : slice;
  dev_slc_out : slice;
  dev_slc_mem : slice;
  dev_slc_inpoff : slice;
  dev_slc_outoff : slice;
  dev_slc_memoff : slice;
  dev_slc_devoff : slice;
  dev_ba_devdata : list byte;
  dev_ba_datacp : list byte;
  dev_dict_events : list (IOPoint * list RegFunc)
}.

Definition set_ba_devdata (d : Device) (ba : list byte) : Device :=
  mkDevice (dev_position d) (dev_name d) (dev_offset d) (dev_length d)
    (dev_selfupdate d) (dev_slc_inp d) (dev_slc_out d) (dev_slc_mem d)
    (dev_slc_inpoff d) (dev_slc_outoff d) (dev_slc_memoff d)
    (dev_slc_devoff d) ba (dev_ba_datacp d) (dev_dict_events d).

Definition set_ba_datacp (d : Device) (ba : list byte) : Device :=
  mkDevice (dev_position d) (dev_name d) (dev_offset d) (dev_length d)
    (dev_selfupdate d) (dev_slc_inp d) (dev_slc_out d) (dev_slc_mem d)
    (dev_slc_inpoff d) (dev_slc_outoff d) (dev_slc_memoff d)
    (dev_slc_devoff d) (dev_ba_devdata d) ba (dev_dict_events d).

Definition set_selfupdate (d : Device) (b : bool) : Device :=
  mkDevice (dev_position d) (dev_name d) (dev_offset d) (dev_length d)
    b (dev_slc_inp d) (dev_slc_out d) (dev_slc_mem d)
    (dev_slc_inpoff d) (dev_slc_outoff d) (dev_slc_memoff d)
    (dev_slc_devoff d) (dev_ba_devdata d) (dev_ba_datacp d)
    (dev_dict_events d).

(** Modelled from the spec: the current-value accessor of an I/O point
    ([io_event.value]; the I/O classes are not part of this file). A point
    with a bit index reads that bit of its byte range in the live buffer, in
    the point's byte order; a point without one yields the bytes of its
    range. *)
Definition io_value (dev : Device) (io : IOPoint) : Value :=
  let live := getslice (dev_ba_devdata dev) (io_slc_address io) in
  if (0 <=? io_bitaddress io)%Z
  then VBool (bool_and_shift (int_from_bytes live (io_byteorder io))
                (io_bitaddress io))
  else VBytes live.

(** ** The event dispatcher: one pass of [mainloop] *)

Module Mainloop.

(** The two locals of [mainloop] that survive from one cycle to the next. *)
Definition Locals : Type := list EventTuple * Dict.t.

(** [regfunc[1] == BOTH or regfunc[1] == RISING and boolor
     or regfunc[1] == FALLING and not boolor] *)
Definition edge_selected (regfunc : RegFunc) (boolor : bool) : bool :=
  edge_eqb (reg_edge regfunc) BOTH
  || edge_eqb (reg_edge regfunc) RISING && boolor
  || edge_eqb (reg_edge regfunc) FALLING && negb boolor.

(** Body of [for regfunc in dev._dict_events[io_event]] for a point with a
    bit index. *)
Definition fire_bit (refresh : Z) (name : string) (value : Value)
    (boolor : bool) (acc : Locals) (regfunc : RegFunc) : Locals :=
  let '(lst_fire, dict_delay) := acc in
  if edge_selected regfunc boolor then
    if (reg_delay regfunc =? 0)%Z then
      (lst_fire ++ [(regfunc, name, value)], dict_delay)
    else
      let tupfire := (regfunc, name, value) in
      if reg_overwrite regfunc || negb (Dict.mem tupfire dict_delay) then
        (lst_fire,
         Dict.set tupfire (ceil_div (reg_delay regfunc) refresh) dict_delay)
      else acc
  else acc.

(** [regfunc == key] for a registration, a tuple of five components, and a
    key of [dict_delay], a tuple of three: tuples of different lengths are
    never equal. *)
Definition regfunc_eq_key (regfunc : RegFunc) (key : EventTuple) : bool :=
  Nat.eqb 5 3.

(** [regfunc in dict_delay] *)
Definition regfunc_mem (regfunc : RegFunc) (dict_delay : Dict.t) : bool :=
  existsb (regfunc_eq_key regfunc) (Dict.keys dict_delay).

(** Body of [for regfunc in dev._dict_events[io_event]] for a point
    without a bit index. *)
Definition fire_nobit (refresh : Z) (name : string) (value : Value)
    (acc : Locals) (regfunc : RegFunc) : Locals :=
  let '(lst_fire, dict_delay) := acc in
  if (reg_delay regfunc =? 0)%Z then
    (lst_fire ++ [(regfunc, name, value)], dict_delay)
  else
    if reg_overwrite regfunc || negb (regfunc_mem regfunc dict_delay) then
      (lst_fire,
       Dict.set (regfunc, name, value)
         (ceil_div (reg_delay regfunc) refresh) dict_delay)
    else acc.

(** Body of [for io_event in dev._dict_events]. *)
Definition scan_io (refresh : Z) (dev : Device) (acc : Locals)
    (entry : IOPoint * list RegFunc) : Locals :=
  let '(io_event, regs) := entry in
  let cp := getslice (dev_ba_datacp dev) (io_slc_address io_event) in
  let live := getslice (dev_ba_devdata dev) (io_slc_address io_event) in
  if bytes_eq_dec cp live then acc
  else if (0 <=? io_bitaddress io_event)%Z then
    let boolcp :=
      bool_and_shift (int_from_bytes cp (io_byteorder io_event))
        (io_bitaddress io_event) in
    let boolor :=
      bool_and_shift (int_from_bytes live (io_byteorder io_event))
        (io_bitaddress io_event) in
    if Bool.eqb boolor boolcp then acc
    else
      fold_left
        (fire_bit refresh (io_name io_event) (io_value dev io_event) boolor)
        regs acc
  else
    fold_left
      (fire_nobit refresh (io_name io_event) (io_value dev io_event))
      regs acc.

(** Body of [for dev in self._lst_refresh]: the device is skipped when it
    has no registration or its buffer equals the baseline; otherwise its
    points are scanned and the baseline is renewed. *)
Definition scan_device (refresh : Z) (dev : Device) (acc : Locals)
    : Device * Locals :=
  if (Nat.eqb (List.length (dev_dict_events dev)) 0)
     || (if bytes_eq_dec (dev_ba_datacp dev) (dev_ba_devdata dev)
         then true else false)
  then (dev, acc)
  else
    (set_ba_datacp dev (dev_ba_devdata dev),
     fold_left (scan_io refresh dev) (dev_dict_events dev) acc).

(** Body of [for tup_fire in list(dict_delay.keys())]; [cur name] is
    [getattr(self.io, name).value] at that moment. Every key of the
    snapshot is still in the dictionary when its turn comes, the last case
    of the match is not reached. *)
Definition delay_step (cur : string -> Value) (acc : Locals)
    (tup_fire : EventTuple) : Locals :=
  let '(lst_fire, dict_delay) := acc in
  let '(regfunc, name, value) := tup_fire in
  if reg_overwrite regfunc
     && (if Value_eq_dec (cur name) value then false else true)
  then (lst_fire, Dict.del tup_fire dict_delay)
  else
    match Dict.get tup_fire dict_delay with
    | Some count =>
        let count' := (count - 1)%Z in
        if (count' <=? 0)%Z
        then (lst_fire ++ [tup_fire], Dict.del tup_fire dict_delay)
        else (lst_fire, Dict.set tup_fire count' dict_delay)
    | None => acc
    end.

Definition delayed_pass (cur : string -> Value) (acc : Locals) : Locals :=
  fold_left (delay_step cur) (Dict.keys (snd acc)) acc.

(** What the drain loop does with one firing tuple. *)
Inductive Dispatch :=
| StartThread (func : nat) (name : string) (value : Value)
| CallInline (func : nat) (name : string) (value : Value).

Definition dispatch_one (tup_fire : EventTuple) : Dispatch :=
  let '(regfunc, name, value) := tup_fire in
  if reg_as_thread regfunc
  then StartThread (reg_func regfunc) name value
  else CallInline (reg_func regfunc) name value.

(** [while len(lst_fire) > 0: tup_fire = lst_fire.pop(); ...]: the list is
    emptied from its end. *)
Definition drain (lst_fire : list EventTuple) : list Dispatch :=
  map dispatch_one (rev lst_fire).

End Mainloop.

(** ** The hardware channel *)

(** One operation on the file object of the process image: [seek(0)] and
    [read(n)], [seek(pos)] and [write(data)], or [flush()]. *)
Inductive FhOp :=
| FhRead (n : nat)
| FhWrite (pos : nat) (data : list byte)
| FhFlush.

(** The file object: the bytes behind it, the operations performed so far,
    and which operations fail with [IOError] ([fh_fails i] for the [i]-th
    operation, counted from 0). *)
Record FileHandle := mkFh {
  fh_image : list byte;
  fh_log : list FhOp;
  fh_fails : nat -> bool
}.

Definition fh_ok (fh : FileHandle) : bool :=
  negb (fh_fails fh (List.length (fh_log fh))).

Definition fh_logged (fh : FileHandle) (op : FhOp) (image : list byte)
    : FileHandle :=
  mkFh image (fh_log fh ++ [op]) (fh_fails fh).

(** [self._myfh.seek(0); self._myfh.read(n)]: [None] stands for [IOError]. *)
Definition fh_read (fh : FileHandle) (n : nat)
    : option (list byte) * FileHandle :=
  (if fh_ok fh then Some (firstn n (fh_image fh)) else None,
   fh_logged fh (FhRead n) (fh_image fh)).

(** The bytes behind a file after [data] was written at [pos]: the bytes
    from [pos] on are replaced, the file grows when the data go beyond its
    end, and a gap between the end of the file and [pos] is filled with
    zero bytes. *)
Definition written (image : list byte) (pos : nat) (data : list byte)
    : list byte :=
  firstn pos image ++ repeat Byte.x00 (pos - List.length image)
  ++ data ++ skipn (pos + List.length data) image.

(** [self._myfh.seek(pos); self._myfh.write(data)]: [false] stands for
    [IOError]. *)
Definition fh_write (fh : FileHandle) (pos : nat) (data : list byte)
    : bool * FileHandle :=
  (fh_ok fh,
   fh_logged fh (FhWrite pos data)
     (if fh_ok fh then written (fh_image fh) pos data else fh_image fh)).

(** [self._myfh.flush()] *)
Definition fh_flush (fh : FileHandle) : bool * FileHandle :=
  (fh_ok fh, fh_logged fh FhFlush (fh_image fh)).

(** ** The device registry *)

(** Modelled from the spec: the device registry [DeviceList] (the device
    classes are not part of this file). It resolves a device by name, one
    attribute per name, and by position; setting a device under its name
    also enters it under its position; removing a name that is not set is an
    [AttributeError], as for every Python attribute; iteration goes by
    ascending position. Devices are references into the object store. *)
Module DeviceList.

Record t := mk {
  names : list (string * nat);
  positions : list (Z * nat)
}.

Definition empty : t := mk [] [].

Fixpoint lookup {K} (eq_dec : forall a b : K, {a = b} + {a <> b})
    (k : K) (l : list (K * nat)) : option nat :=
  match l with
  | [] => None
  | (k', v) :: rest => if eq_dec k k' then Some v else lookup eq_dec k rest
  end.

Fixpoint assign {K} (eq_dec : forall a b : K, {a = b} + {a <> b})
    (k : K) (v : nat) (l : list (K * nat)) : list (K * nat) :=
  match l with
  | [] => [(k, v)]
  | (k', v') :: rest =>
      if eq_dec k k' then (k', v) :: rest
      else (k', v') :: assign eq_dec k v rest
  end.

Fixpoint remove {K} (eq_dec : forall a b : K, {a = b} + {a <> b})
    (k : K) (l : list (K * nat)) : list (K * nat) :=
  match l with
  | [] => []
  | (k', v') :: rest =>
      if eq_dec k k' then remove eq_dec k rest
      else (k', v') :: remove eq_dec k rest
  end.

(** [getattr(self.device, name)], by name *)
Definition by_name (dl : t) (name : string) : option nat :=
  lookup string_dec name (names dl).

(** [self.device[position]], by position *)
Definition by_position (dl : t) (position : Z) : option nat :=
  lookup Z.eq_dec position (positions dl).

(** [hasattr(self.device, name)] *)
Definition hasattr (dl : t) (name : string) : bool :=
  match by_name dl name with Some _ => true | None => false end.

(** [position in self.device] *)
Definition contains (dl : t) (position : Z) : bool :=
  match by_position dl position with Some _ => true | None => false end.

(** [setattr(self.device, name, dev)] for a device at [position] *)
Definition setattr (dl : t) (name : string) (position : Z) (dev : nat) : t :=
  mk (assign string_dec name dev (names dl))
     (assign Z.eq_dec position dev (positions dl)).

(** [delattr(self.device, name)] *)
Definition delattr (dl : t) (name : string) : Outcome t :=
  if hasattr dl name
  then Return (mk (remove string_dec name (names dl)) (positions dl))
  else Raise AttributeError.

Fixpoint insert_sorted (p : Z * nat) (l : list (Z * nat)) : list (Z * nat) :=
  match l with
  | [] => [p]
  | q :: rest =>
      if (fst p <=? fst q)%Z then p :: l else q :: insert_sorted p rest
  end.

(** [iter(self.device)] *)
Definition iter (dl : t) : list nat :=
  map snd (fold_right insert_sorted [] (positions dl)).

(** [len(self.device)] *)
Definition len (dl : t) : nat := List.length (positions dl).

End DeviceList.

(** ** The manager *)

(** Modelled from the spec: the refresh coordinator ([self._imgwriter], a
    class of the helper module, which is not part of this file), as far as
    the manager looks at it: its refresh interval, whether its thread is
    alive, whether it was told to stop, its own error counter and
    maximum. *)
Record ProcimgWriter := mkWriter {
  iw_refresh : Z;
  iw_alive : bool;
  iw_stopped : bool;
  iw_ioerror : Z;
  iw_maxioerrors : Z
}.

Inductive Warning :=
| WarnUnknownType
| WarnEqualName
| WarnIOError (count : Z).

(** The attributes of a [RevPiModIO] object, under the names of the source;
    [objects] is the store of device objects, [warned] collects the
    warnings emitted through [warnings.warn]. *)
Record RevPiModIO := mkModIO {
  _monitoring : bool;
  _syncoutputs : bool;
  _buffedwrite : bool;
  _exit : bool;
  _waitexit : bool;
  _imgwriter : option ProcimgWriter;
  _ioerror : Z;
  _length : nat;
  _looprunning : bool;
  _lst_refresh : list nat;
  _maxioerrors : Z;
  _th_mainloop : option bool;
  _myfh : FileHandle;
  device : DeviceList.t;
  objects : list Device;
  warned : list Warning
}.

Definition with_exit (s : RevPiModIO) (e w : bool) : RevPiModIO :=
  mkModIO (_monitoring s) (_syncoutputs s) (_buffedwrite s) e w
    (_imgwriter s) (_ioerror s) (_length s) (_looprunning s) (_lst_refresh s)
    (_maxioerrors s) (_th_mainloop s) (_myfh s) (device s) (objects s)
    (warned s).

Definition with_imgwriter (s : RevPiModIO) (w : option ProcimgWriter)
    : RevPiModIO :=
  mkModIO (_monitoring s) (_syncoutputs s) (_buffedwrite s) (_exit s)
    (_waitexit s) w (_ioerror s) (_length s) (_looprunning s) (_lst_refresh s)
    (_maxioerrors s) (_th_mainloop s) (_myfh s) (device s) (objects s)
    (warned s).

Definition with_ioerror (s : RevPiModIO) (n : Z) : RevPiModIO :=
  mkModIO (_monitoring s) (_syncoutputs s) (_buffedwrite s) (_exit s)
    (_waitexit s) (_imgwriter s) n (_length s) (_looprunning s)
    (_lst_refresh s) (_maxioerrors s) (_th_mainloop s) (_myfh s) (device s)
    (objects s) (warned s).

Definition with_length (s : RevPiModIO) (n : nat) : RevPiModIO :=
  mkModIO (_monitoring s) (_syncoutputs s) (_buffedwrite s) (_exit s)
    (_waitexit s) (_imgwriter s) (_ioerror s) n (_looprunning s)
    (_lst_refresh s) (_maxioerrors s) (_th_mainloop s) (_myfh s) (device s)
    (objects s) (warned s).

Definition with_looprunning (s : RevPiModIO) (b : bool) : RevPiModIO :=
  mkModIO (_monitoring s) (_syncoutputs s) (_buffedwrite s) (_exit s)
    (_waitexit s) (_imgwriter s) (_ioerror s) (_length s) b (_lst_refresh s)
    (_maxioerrors s) (_th_mainloop s) (_myfh s) (device s) (objects s)
    (warned s).

Definition with_lst_refresh (s : RevPiModIO) (l : list nat) : RevPiModIO :=
  mkModIO (_monitoring s) (_syncoutputs s) (_buffedwrite s) (_exit s)
    (_waitexit s) (_imgwriter s) (_ioerror s) (_length s) (_looprunning s) l
    (_maxioerrors s) (_th_mainloop s) (_myfh s) (device s) (objects s)
    (warned s).

Definition with_maxioerrors (s : RevPiModIO) (n : Z) : RevPiModIO :=
  mkModIO (_monitoring s) (_syncoutputs s) (_buffedwrite s) (_exit s)
    (_waitexit s) (_imgwriter s) (_ioerror s) (_length s) (_looprunning s)
    (_lst_refresh s) n (_th_mainloop s) (_myfh s) (device s) (objects s)
    (warned s).

Definition with_th_mainloop (s : RevPiModIO) (t : option bool) : RevPiModIO :=
  mkModIO (_monitoring s) (_syncoutputs s) (_buffedwrite s) (_exit s)
    (_waitexit s) (_imgwriter s) (_ioerror s) (_length s) (_looprunning s)
    (_lst_refresh s) (_maxioerrors s) t (_myfh s) (device s) (objects s)
    (warned s).

Definition with_myfh (s : RevPiModIO) (fh : FileHandle) : RevPiModIO :=
  mkModIO (_monitoring s) (_syncoutputs s) (_buffedwrite s) (_exit s)
    (_waitexit s) (_imgwriter s) (_ioerror s) (_length s) (_looprunning s)
    (_lst_refresh s) (_maxioerrors s) (_th_mainloop s) fh (device s)
    (objects s) (warned s).

Definition with_device (s : RevPiModIO) (dl : DeviceList.t) : RevPiModIO :=
  mkModIO (_monitoring s) (_syncoutputs s) (_buffedwrite s) (_exit s)
    (_waitexit s) (_imgwriter s) (_ioerror s) (_length s) (_looprunning s)
    (_lst_refresh s) (_maxioerrors s) (_th_mainloop s) (_myfh s) dl
    (objects s) (warned s).

Definition with_objects (s : RevPiModIO) (o : list Device) : RevPiModIO :=
  mkModIO (_monitoring s) (_syncoutputs s) (_buffedwrite s) (_exit s)
    (_waitexit s) (_imgwriter s) (_ioerror s) (_length s) (_looprunning s)
    (_lst_refresh s) (_maxioerrors s) (_th_mainloop s) (_myfh s) (device s)
    o (warned s).

Definition warn (s : RevPiModIO) (w : Warning) : RevPiModIO :=
  mkModIO (_monitoring s) (_syncoutputs s) (_buffedwrite s) (_exit s)
    (_waitexit s) (_imgwriter s) (_ioerror s) (_length s) (_looprunning s)
    (_lst_refresh s) (_maxioerrors s) (_th_mainloop s) (_myfh s) (device s)
    (objects s) (warned s ++ [w]).

(** Dereferencing and updating a device object. *)
Definition get_dev (s : RevPiModIO) (id : nat) : option Device :=
  nth_error (objects s) id.

Fixpoint replace_nth {A} (l : list A) (n : nat) (x : A) : list A :=
  match l, n with
  | [], _ => []
  | _ :: rest, O => x :: rest
  | y :: rest, S m => y :: replace_nth rest m x
  end.

Definition put_dev (s : RevPiModIO) (id : nat) (d : Device) : RevPiModIO :=
  with_objects s (replace_nth (objects s) id d).

(** *** I/O error accounting *)

(** [_gotioerror]: count the error, then raise when a non-zero maximum is
    reached and warn otherwise. *)
Definition _gotioerror (s : RevPiModIO) (action : string)
    : Outcome unit * RevPiModIO :=
  let s1 := with_ioerror s (_ioerror s + 1) in
  if negb (_maxioerrors s1 =? 0)%Z && (_maxioerrors s1 <=? _ioerror s1)%Z
  then (Raise (RuntimeError "reach max io error count on process image"), s1)
  else (Return tt, warn s1 (WarnIOError (_ioerror s1))).

(** [_set_maxioerrors] (the argument is an [int]) *)
Definition _set_maxioerrors (s : RevPiModIO) (value : Z)
    : Outcome unit * RevPiModIO :=
  if (0 <=? value)%Z then
    let s1 := with_maxioerrors s value in
    match _imgwriter s1 with
    | Some w =>
        (Return tt,
         with_imgwriter s1
           (Some (mkWriter (iw_refresh w) (iw_alive w) (iw_stopped w)
                    (iw_ioerror w) value)))
    | None => (Raise AttributeError, s1)
    end
  else (Raise ValueError, s).

(** [_get_ioerrors] *)
Definition _get_ioerrors (s : RevPiModIO) : Outcome Z :=
  if _looprunning s then
    match _imgwriter s with
    | Some w => Return (iw_ioerror w)
    | None => Raise AttributeError
    end
  else Return (_ioerror s).

(** [resetioerrors] *)
Definition resetioerrors (s : RevPiModIO) : Outcome unit * RevPiModIO :=
  let s1 := with_ioerror s 0 in
  match _imgwriter s1 with
  | Some w =>
      (Return tt,
       with_imgwriter s1
         (Some (mkWriter (iw_refresh w) (iw_alive w) (iw_stopped w) 0
                  (iw_maxioerrors w))))
  | None => (Raise AttributeError, s1)
  end.

(** *** Foreground transactions on the process image *)

(** The [device] argument of the transactions, when it is not [None]: a
    device object, a position or a name. *)
Inductive DeviceArg :=
| ByObject (id : nat)
| ByPosition (position : Z)
| ByName (name : string).

(** [device if issubclass(type(device), devicemodule.Device)
     else self.device.__getitem__(device)] *)
Definition device_of_registry (s : RevPiModIO) (arg : DeviceArg)
    : Outcome nat :=
  match arg with
  | ByObject id => Return id
  | ByPosition p =>
      match DeviceList.by_position (device s) p with
      | Some id => Return id
      | None => Raise KeyError
      end
  | ByName n =>
      match DeviceList.by_name (device s) n with
      | Some id => Return id
      | None => Raise AttributeError
      end
  end.

(** [device if issubclass(type(device), devicemodule.Device)
     else self.__getitem__(device)]: the manager class defines no
    [__getitem__], the attribute lookup fails. *)
Definition device_of_self (s : RevPiModIO) (arg : DeviceArg) : Outcome nat :=
  match arg with
  | ByObject id => Return id
  | ByPosition _ | ByName _ => Raise AttributeError
  end.

Definition selfupdate_of (s : RevPiModIO) (id : nat) : bool :=
  match get_dev s id with
  | Some dev => dev_selfupdate dev
  | None => false
  end.

(** Apply a buffer update to every device of [mylist], through the store. *)
Definition update_devices (f : Device -> Device) (mylist : list nat)
    (s : RevPiModIO) : RevPiModIO :=
  fold_left
    (fun s id =>
       match get_dev s id with
       | Some dev => put_dev s id (f dev)
       | None => s
       end)
    mylist s.

(** Body of the [for dev in mylist] loop of [readprocimg]. *)
Definition read_device (monitoring : bool) (bytesbuff : list byte)
    (dev : Device) : Device :=
  if dev_selfupdate dev then dev
  else if monitoring then
    set_ba_devdata dev (getslice bytesbuff (dev_slc_devoff dev))
  else
    let ba :=
      setslice (dev_ba_devdata dev) (dev_slc_inp dev)
        (getslice bytesbuff (dev_slc_inpoff dev)) in
    set_ba_devdata dev
      (setslice ba (dev_slc_mem dev)
         (getslice bytesbuff (dev_slc_memoff dev))).

(** Body of the [for dev in mylist] loop of [syncoutputs]. *)
Definition sync_device (bytesbuff : list byte) (dev : Device) : Device :=
  if dev_selfupdate dev then dev
  else
    set_ba_devdata dev
      (setslice (dev_ba_devdata dev) (dev_slc_out dev)
         (getslice bytesbuff (dev_slc_outoff dev))).

(** The common tail of [readprocimg] and [syncoutputs]: read the whole
    image, account for a failure, otherwise update the devices. *)
Definition read_image_then (f : list byte -> Device -> Device)
    (mylist : list nat) (s : RevPiModIO) : Outcome bool * RevPiModIO :=
  let '(res, fh) := fh_read (_myfh s) (_length s) in
  let s1 := with_myfh s fh in
  match res with
  | None =>
      match _gotioerror s1 "read" with
      | (Raise e, s2) => (Raise e, s2)
      | (Return _, s2) => (Return false, s2)
      end
  | Some bytesbuff => (Return true, update_devices (f bytesbuff) mylist s1)
  end.

Definition readprocimg (s : RevPiModIO) (device_arg : option DeviceArg)
    : Outcome bool * RevPiModIO :=
  match device_arg with
  | None =>
      read_image_then (read_device (_monitoring s))
        (DeviceList.iter (device s)) s
  | Some arg =>
      match device_of_registry s arg with
      | Raise e => (Raise e, s)
      | Return dev =>
          if selfupdate_of s dev then
            (Raise (RuntimeError
               "can not read process image, while device is in autorefresh mode"),
             s)
          else read_image_then (read_device (_monitoring s)) [dev] s
      end
  end.

Definition syncoutputs (s : RevPiModIO) (device_arg : option DeviceArg)
    : Outcome bool * RevPiModIO :=
  match device_arg with
  | None => read_image_then sync_device (DeviceList.iter (device s)) s
  | Some arg =>
      match device_of_self s arg with
      | Raise e => (Raise e, s)
      | Return dev =>
          if selfupdate_of s dev then
            (Raise (RuntimeError
               "can not sync process image, while device is in autorefresh mode"),
             s)
          else read_image_then sync_device [dev] s
      end
  end.

(** Body of the [for dev in mylist] loop of [writeprocimg]; the accumulator
    is the file object and [workokay]. *)
Definition write_device (s : RevPiModIO) (acc : FileHandle * bool)
    (id : nat) : FileHandle * bool :=
  match get_dev s id with
  | Some dev =>
      if dev_selfupdate dev then acc
      else
        let '(ok, fh) :=
          fh_write (fst acc) (start (dev_slc_outoff dev))
            (getslice (dev_ba_devdata dev) (dev_slc_out dev)) in
        (fh, snd acc && ok)
  | None => acc
  end.

Definition write_devices (mylist : list nat) (s : RevPiModIO)
    : Outcome bool * RevPiModIO :=
  let '(fh1, ok1) := fold_left (write_device s) mylist (_myfh s, true) in
  let '(fh2, workokay) :=
    if _buffedwrite s
    then let '(ok, fh) := fh_flush fh1 in (fh, ok1 && ok)
    else (fh1, ok1) in
  let s1 := with_myfh s fh2 in
  if negb workokay then
    match _gotioerror s1 "write" with
    | (Raise e, s2) => (Raise e, s2)
    | (Return _, s2) => (Return workokay, s2)
    end
  else (Return workokay, s1).

Definition writeprocimg (s : RevPiModIO) (device_arg : option DeviceArg)
    : Outcome bool * RevPiModIO :=
  if _monitoring s then
    (Raise (RuntimeError
       "can not write process image, while system is in monitoring mode"),
     s)
  else
    match device_arg with
    | None => write_devices (DeviceList.iter (device s)) s
    | Some arg =>
        match device_of_self s arg with
        | Raise e => (Raise e, s)
        | Return dev =>
            if selfupdate_of s dev then
              (Raise (RuntimeError
                 "can not write process image, while device is in autorefresh mode"),
               s)
            else write_devices [dev] s
        end
    end.

(** *** Shutdown *)

(** [self._imgwriter.stop()] followed by the bounded [join], for a
    coordinator that is alive. *)
Definition stop_imgwriter (s : RevPiModIO) : RevPiModIO :=
  match _imgwriter s with
  | Some w =>
      if iw_alive w then
        with_imgwriter s
          (Some (mkWriter (iw_refresh w) (iw_alive w) true (iw_ioerror w)
                   (iw_maxioerrors w)))
      else s
  | None => s
  end.

(** The [while len(self._lst_refresh) > 0] loop of [exit]; [todo] is the
    refresh list in the order in which [pop()] hands the devices out, last
    one first. *)
Fixpoint exit_refresh (todo : list nat) (s : RevPiModIO)
    : Outcome unit * RevPiModIO :=
  match todo with
  | [] => (Return tt, s)
  | dev :: rest =>
      let s1 := with_lst_refresh s (rev rest) in
      let s2 :=
        match get_dev s1 dev with
        | Some d => put_dev s1 dev (set_selfupdate d false)
        | None => s1
        end in
      if negb (_monitoring s2) then
        match writeprocimg s2 (Some (ByObject dev)) with
        | (Raise e, s3) => (Raise e, s3)
        | (Return _, s3) => exit_refresh rest s3
        end
      else exit_refresh rest s2
  end.

Definition exit (s : RevPiModIO) (full : bool) : Outcome unit * RevPiModIO :=
  let s1 := with_exit s true true in
  if full then
    match exit_refresh (rev (_lst_refresh s1)) (stop_imgwriter s1) with
    | (Raise e, s2) => (Raise e, s2)
    | (Return _, s2) => (Return tt, with_looprunning s2 false)
    end
  else (Return tt, with_looprunning s1 false).

(** *** The cyclic loops *)

(** What happens around one [self._imgwriter.newdata.wait(2.5)] of a loop:
    [st_others] is what the other threads (the refresh coordinator, a signal
    handler) did to the manager and its devices until the wait came back,
    [st_newdata] is the result of the wait, and [st_values name] is
    [getattr(self.io, name).value] as the delayed events are checked. *)
Record Step := mkStep {
  st_others : RevPiModIO -> RevPiModIO;
  st_newdata : bool;
  st_values : string -> Value
}.

(** The [func] argument of [cycleloop]: an object that is not callable, or a
    function that is given the cycle tools (here the number of the cycle),
    may act on the manager and returns [None] or an exit value. *)
Inductive UserFunc :=
| NotCallable
| Callable (f : nat -> RevPiModIO -> option Z * RevPiModIO).

Definition imgwriter_alive (s : RevPiModIO) : bool :=
  match _imgwriter s with Some w => iw_alive w | None => false end.

(** [self._imgwriter.refresh] *)
Definition refresh_of (s : RevPiModIO) : Z :=
  match _imgwriter s with Some w => iw_refresh w | None => 0%Z end.

(** The [while ec is None and not self._exit.is_set()] loop of [cycleloop],
    run along a schedule; the result is [None] while the loop is still
    waiting when the schedule ends. The last component counts the calls of
    the user function. *)
Fixpoint cycle_run (sched : list Step)
    (f : nat -> RevPiModIO -> option Z * RevPiModIO) (calls : nat)
    (s : RevPiModIO) : option (Outcome (option Z)) * RevPiModIO * nat :=
  if _exit s then (Some (Return None), with_looprunning s false, calls)
  else
    match sched with
    | [] => (None, s, calls)
    | st :: rest =>
        let s1 := st_others st s in
        match _imgwriter s1 with
        | None => (Some (Raise AttributeError), s1, calls)
        | Some _ =>
            if negb (st_newdata st) then
              if negb (_exit s1) && negb (imgwriter_alive s1) then
                (Some (Raise (RuntimeError "autorefresh thread not running")),
                 s1, calls)
              else cycle_run rest f calls s1
            else
              let '(ec, s2) := f calls s1 in
              match ec with
              | Some v =>
                  (Some (Return (Some v)), with_looprunning s2 false, S calls)
              | None => cycle_run rest f (S calls) s2
              end
        end
    end.

Definition cycleloop (s : RevPiModIO) (func : UserFunc)
    (cycletime : option Z) (sched : list Step)
    : option (Outcome (option Z)) * RevPiModIO * nat :=
  if _looprunning s then
    (Some (Raise (RuntimeError
       "can not start multiple loops mainloop/cycleloop")), s, 0)
  else if Nat.eqb (List.length (_lst_refresh s)) 0 then
    (Some (Raise (RuntimeError "no device with autorefresh activated")), s, 0)
  else
    match func with
    | NotCallable =>
        (Some (Raise (RuntimeError "registered function ist not callable")),
         s, 0)
    | Callable f =>
        let started :=
          match cycletime with
          | None => Return s
          | Some c =>
              match _imgwriter s with
              | None => Raise AttributeError
              | Some w =>
                  if (c =? iw_refresh w)%Z then Return s
                  else
                    Return
                      (with_imgwriter s
                         (Some (mkWriter c (iw_alive w) (iw_stopped w)
                                  (iw_ioerror w) (iw_maxioerrors w))))
              end
          end in
        match started with
        | Raise e => (Some (Raise e), s, 0)
        | Return s1 => cycle_run sched f 0 (with_looprunning s1 true)
        end
    end.

(** The diff pass of one cycle of [mainloop] over the devices under cyclic
    refresh, each one read from and written back to the store. *)
Definition mainloop_scan (s : RevPiModIO) (locals : Mainloop.Locals)
    : RevPiModIO * Mainloop.Locals :=
  fold_left
    (fun (st : RevPiModIO * Mainloop.Locals) id =>
       match get_dev (fst st) id with
       | Some dev =>
           let '(dev', acc) :=
             Mainloop.scan_device (refresh_of (fst st)) dev (snd st) in
           (put_dev (fst st) id dev', acc)
       | None => st
       end)
    (_lst_refresh s) (s, locals).

(** One cycle of [mainloop] after the wait: the diff pass, the check of the
    delayed events and the drain of [lst_fire]. The third component lists
    the tuples in the order in which they are fired. *)
Definition mainloop_tick (s : RevPiModIO) (cur : string -> Value)
    (locals : Mainloop.Locals)
    : RevPiModIO * Mainloop.Locals * list EventTuple :=
  let '(s1, acc) := mainloop_scan s locals in
  let '(lst_fire, dict_delay) := Mainloop.delayed_pass cur acc in
  (s1, ([], dict_delay), rev lst_fire).

(** The [while not self._exit.is_set()] loop of [mainloop] along a
    schedule. The callbacks are recorded as they are dispatched; what an
    inline callback does to the manager is not followed. *)
Fixpoint main_run (sched : list Step) (s : RevPiModIO)
    (locals : Mainloop.Locals) (trace : list Mainloop.Dispatch)
    : option (Outcome unit) * RevPiModIO * list Mainloop.Dispatch :=
  if _exit s then (Some (Return tt), with_looprunning s false, trace)
  else
    match sched with
    | [] => (None, s, trace)
    | st :: rest =>
        let s1 := st_others st s in
        match _imgwriter s1 with
        | None => (Some (Raise AttributeError), s1, trace)
        | Some _ =>
            if negb (st_newdata st) then
              if negb (_exit s1) && negb (imgwriter_alive s1) then
                (Some (Raise (RuntimeError "autorefresh thread not running")),
                 s1, trace)
              else main_run rest s1 locals trace
            else
              let '(s2, locals', fired) :=
                mainloop_tick s1 (st_values st) locals in
              main_run rest s2 locals'
                (trace ++ map Mainloop.dispatch_one fired)
        end
    end.

Definition mainloop (s : RevPiModIO) (freeze blocking : bool)
    (sched : list Step)
    : option (Outcome unit) * RevPiModIO * list Mainloop.Dispatch :=
  if _looprunning s then
    (Some (Raise (RuntimeError
       "can not start multiple loops mainloop/cycleloop")), s, [])
  else if Nat.eqb (List.length (_lst_refresh s)) 0 then
    (Some (Raise (RuntimeError "no device with autorefresh activated")), s, [])
  else if negb blocking then
    (Some (Return tt), with_th_mainloop s (Some freeze), [])
  else
    let s1 := with_looprunning (with_exit s false (_waitexit s)) true in
    let s2 :=
      update_devices (fun dev => set_ba_datacp dev (dev_ba_devdata dev))
        (_lst_refresh s1) s1 in
    main_run sched s2 ([], []) [].

(** *** Configuration: the address map and the registry *)

Inductive DevType :=
| BASE | LEFT_RIGHT | VIRTUAL | EDGE
| OtherType (tag : string).

(** The [position] entry of a descriptor: the legacy placeholder
    ["adap."] or a number. *)
Inductive Position := Adap | Pos (p : Z).

(** A device descriptor of the configuration: type tag, name, position,
    declared offset and the lengths of its input, output and memory
    regions. *)
Record Descriptor := mkDescriptor {
  d_type : DevType;
  d_name : string;
  d_position : Position;
  d_offset : nat;
  d_inp : nat;
  d_out : nat;
  d_mem : nat
}.

(** Modelled from the spec: the constructor of the device classes (not part
    of this file). It takes the declared offset and lays the input, output
    and memory regions out one after the other, within the device buffer and
    within the image; the buffer is zeroed and nothing is registered. *)
Definition new_device (d : Descriptor) (position : Z) : Device :=
  let len := d_inp d + d_out d + d_mem d in
  mkDevice position (d_name d) (d_offset d) len false
    (Slice 0 (d_inp d))
    (Slice (d_inp d) (d_inp d + d_out d))
    (Slice (d_inp d + d_out d) len)
    (Slice (d_offset d) (d_offset d + d_inp d))
    (Slice (d_offset d + d_inp d) (d_offset d + d_inp d + d_out d))
    (Slice (d_offset d + d_inp d + d_out d) (d_offset d + len))
    (Slice (d_offset d) (d_offset d + len))
    (repeat Byte.x00 len) (repeat Byte.x00 len) [].

(** [device["position"] = -1; while device["position"] in self.device:
    device["position"] -= 1]; the registry holds finitely many positions,
    one step more than their number is enough. *)
Fixpoint free_position (fuel : nat) (dl : DeviceList.t) (p : Z) : Z :=
  match fuel with
  | O => p
  | S fuel' =>
      if DeviceList.contains dl p then free_position fuel' dl (p - 1)%Z
      else p
  end.

Definition known_type (t : DevType) : bool :=
  match t with OtherType _ => false | _ => true end.

(** [self._length] after [if self._length < dev_new._offset:
    self._length = dev_new._offset], the place in the image at which the
    length of the device is added. *)
Definition length_checked (s : RevPiModIO) (dev_new : Device) : nat :=
  if Nat.ltb (_length s) (dev_offset dev_new) then dev_offset dev_new
  else _length s.

(** The position under which the device of a descriptor is built. *)
Definition position_of (s : RevPiModIO) (device_d : Descriptor) : Z :=
  match d_position device_d with
  | Adap => free_position (S (DeviceList.len (device s))) (device s) (-1)
  | Pos p => p
  end.

(** Body of [for device in sorted(lst_devices, ...)] of [_configure]; the
    accumulator is the manager and [err_names]. *)
Definition configure_device (acc : RevPiModIO * list string)
    (device_d : Descriptor) : RevPiModIO * list string :=
  let '(s, err_names) := acc in
  let position := position_of s device_d in
  if known_type (d_type device_d) then
    let dev_new := new_device device_d position in
    let id := List.length (objects s) in
    let s1 := with_objects s (objects s ++ [dev_new]) in
    let s2 := with_length s1 (length_checked s1 dev_new) in
    let s3 := with_length s2 (_length s2 + dev_length dev_new) in
    let err_names' :=
      if DeviceList.hasattr (device s3) (dev_name dev_new)
      then err_names ++ [dev_name dev_new] else err_names in
    (with_device s3
       (DeviceList.setattr (device s3) (dev_name dev_new) position id),
     err_names')
  else (warn s WarnUnknownType, err_names).

(** [for errdev in err_names: delattr(self.device, errdev); warnings.warn] *)
Fixpoint configure_names (err_names : list string) (s : RevPiModIO)
    : Outcome unit * RevPiModIO :=
  match err_names with
  | [] => (Return tt, s)
  | errdev :: rest =>
      match DeviceList.delattr (device s) errdev with
      | Raise e => (Raise e, s)
      | Return dl => configure_names rest (warn (with_device s dl) WarnEqualName)
      end
  end.

(** [_configure], from the initialisation of the devices to the reading of
    the outputs: [lst_devices] is the list of descriptors after the device
    filter and in the order of [sorted(lst_devices, key=position)],
    [refresh] the interval of the new refresh coordinator. The source goes
    on to place the devices under cyclic refresh, which is the devices' own
    business. *)
Definition _configure (s : RevPiModIO) (lst_devices : list Descriptor)
    (refresh : Z) : Outcome unit * RevPiModIO :=
  let s0 := with_objects (with_device s DeviceList.empty) [] in
  let '(s1, err_names) := fold_left configure_device lst_devices (s0, []) in
  match configure_names err_names s1 with
  | (Raise e, s2) => (Raise e, s2)
  | (Return _, s2) =>
      let s3 :=
        with_imgwriter s2
          (Some (mkWriter refresh false false 0 (_maxioerrors s2))) in
      if _syncoutputs s3 then
        match syncoutputs s3 None with
        | (Raise e, s4) => (Raise e, s4)
        | (Return _, s4) => (Return tt, s4)
        end
      else (Return tt, s3)
  end.

(** The values of [self._length] at which the devices of the list are
    placed, one for each device that is built. *)
Fixpoint effective_offsets (acc : RevPiModIO * list string)
    (lst_devices : list Descriptor) : list nat :=
  match lst_devices with
  | [] => []
  | d :: rest =>
      (if known_type (d_type d)
       then [length_checked (fst acc) (new_device d (position_of (fst acc) d))]
       else [])
      ++ effective_offsets (configure_device acc d) rest
  end.

(** The placement rule in the words of the specification: the effective
    offset of a device is its declared offset unless that is smaller than
    the length accumulated so far, in which case the accumulated length is
    used; the device then adds its length. A device is given as declared
    offset and length. *)
Fixpoint spec_offsets (accumulated : nat) (devs : list (nat * nat))
    : list nat :=
  match devs with
  | [] => []
  | (declared, len) :: rest =>
      let effective :=
        if Nat.ltb declared accumulated then accumulated else declared in
      effective :: spec_offsets (effective + len) rest
  end.

(** Declared ranges that follow each other without overlap, the first one
    not before [accumulated]. *)
Fixpoint in_order (accumulated : nat) (devs : list (nat * nat)) : Prop :=
  match devs with
  | [] => True
  | (declared, len) :: rest =>
      accumulated <= declared /\ in_order (declared + len) rest
  end.

(** Declared offset and length of the devices that are built from a list
    of descriptors. *)
Definition declared (lst_devices : list Descriptor) : list (nat * nat) :=
  map (fun d => (d_offset d, d_inp d + d_out d + d_mem d))
    (filter (fun d => known_type (d_type d)) lst_devices).

(** ** The rest of the manager *)

(** *** The refresh interval *)

(** [_set_cycletime] *)
Definition _set_cycletime (s : RevPiModIO) (milliseconds : Z)
    : Outcome unit * RevPiModIO :=
  if _looprunning s then
    (Raise (RuntimeError
       "can not change cycletime when cycleloop or mainloop are running"),
     s)
  else
    match _imgwriter s with
    | Some w =>
        (Return tt,
         with_imgwriter s
           (Some (mkWriter milliseconds (iw_alive w) (iw_stopped w)
                    (iw_ioerror w) (iw_maxioerrors w))))
    | None => (Raise AttributeError, s)
    end.

(** *** Construction *)

(** The attributes as [__init__] sets them, for the flags [monitoring] and
    [syncoutputs] and the file object that [_create_myfh] has opened. *)
Definition __init__ (monitoring syncoutputs : bool) (myfh : FileHandle)
    : RevPiModIO :=
  mkModIO monitoring syncoutputs false false false None 0 0 false [] 0 None
    myfh DeviceList.empty [] [].

(** The places at which [get_jconfigrsc] looks for the configuration when
    no path is given. *)
Definition lst_rsc : list string :=
  ["/etc/revpi/config.rsc"; "/opt/KUNBUS/config.rsc"]%string.

(** [get_jconfigrsc], up to the choice of the file: [access path] is
    [access(path, F_OK | R_OK)] and [configrsc] is [self._configrsc]; the
    result is the path that is opened, with [self._configrsc] as the call
    leaves it. *)
Definition get_jconfigrsc (access : string -> bool)
    (configrsc : option string) : Outcome string * option string :=
  match configrsc with
  | Some path =>
      if access path then (Return path, configrsc)
      else
        (Raise (RuntimeError
           (String.append "can not access pictory configuration at " path)),
         configrsc)
  | None =>
      match find access lst_rsc with
      | Some rscfile => (Return rscfile, Some rscfile)
      | None =>
          (Raise (RuntimeError
             (String.append "can not access known pictory configurations at "
                (String.append (String.concat ", " lst_rsc)
                   " - use 'configrsc' parameter so specify location"))),
           None)
      end
  end.

(** [type(self)] *)
Inductive Class :=
| ClsRevPiModIO
| ClsRevPiModIOSelected
| ClsRevPiModIODriver.

(** An element of [self._lst_devselect]: a position, a name, or an object
    of another type. *)
Inductive Selection :=
| SelInt (position : Z)
| SelStr (name : string)
| SelOther.

(** [dev["type"] == "VIRTUAL"] *)
Definition is_virtual (t : DevType) : bool :=
  match t with VIRTUAL => true | _ => false end.

(** [_searchtype is None or dev["type"] == _searchtype] *)
Definition searchtype_ok (cls : Class) (dev : Descriptor) : bool :=
  match cls with
  | ClsRevPiModIODriver => is_virtual (d_type dev)
  | _ => true
  end.

(** [dev["name"] in self._lst_devselect] *)
Definition name_selected (lst_devselect : list Selection) (name : string)
    : bool :=
  existsb
    (fun v => match v with SelStr n => String.eqb name n | _ => false end)
    lst_devselect.

(** [dev["position"].isdigit() and
     int(dev["position"]) in self._lst_devselect]: a numbered position
    stands for its decimal numeral, which consists of digits when the
    number is not negative. The selection holds integers and strings only
    when [_configure] runs. *)
Definition position_selected (lst_devselect : list Selection)
    (position : Position) : bool :=
  match position with
  | Adap => false
  | Pos p =>
      (0 <=? p)%Z
      && existsb
           (fun v => match v with SelInt i => (p =? i)%Z | _ => false end)
           lst_devselect
  end.

(** [for dev in jconfigrsc["Devices"]: ...], the device filter of
    [_configure]. *)
Definition device_filter (cls : Class) (lst_devselect : list Selection)
    (devices : list Descriptor) : list Descriptor :=
  fold_left
    (fun lst_found dev =>
       if searchtype_ok cls dev then
         if name_selected lst_devselect (d_name dev)
         then lst_found ++ [dev]
         else if position_selected lst_devselect (d_position dev)
         then lst_found ++ [dev]
         else lst_found
       else lst_found)
    devices [].

(** The key of [sorted(lst_devices, key=lambda x: x["position"])]: the
    position as the string of the configuration. *)
Definition position_key (dev : Descriptor) : string :=
  match d_position dev with
  | Adap => "adap."%string
  | Pos p => NilZero.string_of_int (Z.to_int p)
  end.

Fixpoint insert_by_key (dev : Descriptor) (l : list Descriptor)
    : list Descriptor :=
  match l with
  | [] => [dev]
  | x :: rest =>
      if String.leb (position_key dev) (position_key x) then dev :: l
      else x :: insert_by_key dev rest
  end.

(** [sorted(lst_devices, key=...)]: ascending by the key, devices with
    equal keys in their original order. *)
Definition sorted (lst_devices : list Descriptor) : list Descriptor :=
  fold_right insert_by_key [] lst_devices.

(** [_configure] from the device filter on, for [autorefresh=False]:
    [devices] is [jconfigrsc["Devices"]]. *)
Definition _configure_selected (cls : Class) (lst_devselect : list Selection)
    (s : RevPiModIO) (devices : list Descriptor) (refresh : Z)
    : Outcome unit * RevPiModIO :=
  let lst_devices :=
    if Nat.ltb 0 (List.length lst_devselect)
    then device_filter cls lst_devselect devices
    else devices in
  _configure s (sorted lst_devices) refresh.

(** The [deviceselection] argument of [RevPiModIOSelected]: a list, or a
    single object. *)
Inductive DeviceSelection :=
| SelectList (l : list Selection)
| SelectOne (v : Selection).

(** [type(vdev) != int and type(vdev) != str] *)
Definition not_int_or_str (vdev : Selection) : bool :=
  match vdev with SelOther => true | _ => false end.

(** [RevPiModIOSelected.__init__] of an object of exactly this class, for
    [autorefresh=False] and [simulator=False]; the last component is
    [self._lst_devselect]. *)
Definition RevPiModIOSelected__init__ (deviceselection : DeviceSelection)
    (monitoring syncoutputs : bool) (myfh : FileHandle)
    (devices : list Descriptor) (refresh : Z)
    : Outcome unit * RevPiModIO * list Selection :=
  let s0 := __init__ monitoring syncoutputs myfh in
  let lst_devselect :=
    match deviceselection with
    | SelectList l => l
    | SelectOne v => [v]
    end in
  if existsb not_int_or_str lst_devselect then
    (Raise ValueError, s0, lst_devselect)
  else
    match
      _configure_selected ClsRevPiModIOSelected lst_devselect s0 devices
        refresh
    with
    | (Raise e, s1) => (Raise e, s1, lst_devselect)
    | (Return _, s1) =>
        if Nat.eqb (DeviceList.len (device s1)) 0 then
          (Raise (RuntimeError "could not find any given devices in config"),
           s1, lst_devselect)
        else if negb (Nat.eqb (DeviceList.len (device s1))
                        (List.length lst_devselect)) then
          (Raise (RuntimeError "could not find all given devices in config"),
           s1, lst_devselect)
        else (Return tt, s1, lst_devselect)
    end.

(** *** Signals and the end of the program *)

(** The disposition of a termination signal: the default action, or the
    handler [__evt_exit] of the manager. *)
Inductive Handler := SIG_DFL | EvtExit.

(** The [cleanupfunc] argument of [handlesignalend]: [None], an object
    that is not callable, or a function, which may act on the manager and
    may raise. *)
Inductive CleanupArg :=
| CleanupNone
| CleanupNotCallable
| CleanupCallable (f : RevPiModIO -> Outcome unit * RevPiModIO).

(** The manager with what surrounds it at the end of a program: the
    registered cleanup function ([self.__cleanupfunc]), the handlers of
    [SIGINT] and [SIGTERM], whether the file object was closed, and whether
    the references [app], [core], [device], [io] and [summary] were
    released. Operations on a closed file object are not followed. *)
Record Program := mkProgram {
  pg_modio : RevPiModIO;
  pg_cleanupfunc : option (RevPiModIO -> Outcome unit * RevPiModIO);
  pg_sigint : Handler;
  pg_sigterm : Handler;
  pg_closed : bool;
  pg_released : bool
}.

Definition with_modio (p : Program) (s : RevPiModIO) : Program :=
  mkProgram s (pg_cleanupfunc p) (pg_sigint p) (pg_sigterm p) (pg_closed p)
    (pg_released p).

(** [handlesignalend] *)
Definition handlesignalend (p : Program) (cleanupfunc : CleanupArg)
    : Outcome unit * Program :=
  match cleanupfunc with
  | CleanupNotCallable =>
      (Raise (RuntimeError "registered function ist not callable"), p)
  | CleanupNone =>
      (Return tt,
       mkProgram (pg_modio p) None EvtExit EvtExit (pg_closed p)
         (pg_released p))
  | CleanupCallable f =>
      (Return tt,
       mkProgram (pg_modio p) (Some f) EvtExit EvtExit (pg_closed p)
         (pg_released p))
  end.

(** [__evt_exit], the handler of the two signals. *)
Definition __evt_exit (p : Program) : Outcome unit * Program :=
  let p1 :=
    mkProgram (pg_modio p) (pg_cleanupfunc p) SIG_DFL SIG_DFL (pg_closed p)
      (pg_released p) in
  match exit (pg_modio p1) true with
  | (Raise e, s1) => (Raise e, with_modio p1 s1)
  | (Return _, s1) =>
      match pg_cleanupfunc p1 with
      | None => (Return tt, with_modio p1 s1)
      | Some f =>
          match readprocimg s1 None with
          | (Raise e, s2) => (Raise e, with_modio p1 s2)
          | (Return _, s2) =>
              match f s2 with
              | (Raise e, s3) => (Raise e, with_modio p1 s3)
              | (Return _, s3) =>
                  match writeprocimg s3 None with
                  | (Raise e, s4) => (Raise e, with_modio p1 s4)
                  | (Return _, s4) => (Return tt, with_modio p1 s4)
                  end
              end
          end
      end
  end.

(** [cleanup] *)
Definition cleanup (p : Program) : Outcome unit * Program :=
  match exit (pg_modio p) true with
  | (Raise e, s1) => (Raise e, with_modio p s1)
  | (Return _, s1) =>
      (Return tt,
       mkProgram s1 (pg_cleanupfunc p) (pg_sigint p) (pg_sigterm p) true true)
  end.

(** [__del__]: the object has its file object once [__init__] has opened
    it. *)
Definition __del__ (p : Program) : Outcome unit * Program :=
  match exit (pg_modio p) true with
  | (Raise e, s1) => (Raise e, with_modio p s1)
  | (Return _, s1) =>
      (Return tt,
       mkProgram s1 (pg_cleanupfunc p) (pg_sigint p) (pg_sigterm p) true
         (pg_released p))
  end.

(** ** Notions used in the statements *)

(** A dictionary holds a key once. *)
Definition dict_wf (d : Dict.t) : Prop := NoDup (Dict.keys d).

(** How often a tuple occurs in a list of firings. *)
Definition firings (l : list EventTuple) (k : EventTuple) : nat :=
  count_occ EventTuple_eq_dec l k.

(** The bit of a point in the baseline copy and in the live buffer, as
    [mainloop] extracts them ([boolcp] and [boolor]). *)
Definition bit_baseline (dev : Device) (io : IOPoint) : bool :=
  bool_and_shift
    (int_from_bytes (getslice (dev_ba_datacp dev) (io_slc_address io))
       (io_byteorder io))
    (io_bitaddress io).

Definition bit_live (dev : Device) (io : IOPoint) : bool :=
  bool_and_shift
    (int_from_bytes (getslice (dev_ba_devdata dev) (io_slc_address io))
       (io_byteorder io))
    (io_bitaddress io).

(** What one matching registration with a delay does to its own key: the
    countdown is set unless the key is pending and the registration does not
    ask for a restart. *)
Definition armed (refresh : Z) (r : RegFunc) (k : EventTuple) (d : Dict.t)
    : option Z :=
  if reg_overwrite r || negb (Dict.mem k d)
  then Some (ceil_div (reg_delay r) refresh)
  else Dict.get k d.

(** The diff pass selects the tuple [k]: without a delay it is put on
    [lst_fire] once more, which the drain loop dispatches once; with a
    delay it is not put on [lst_fire] but is pending in [dict_delay]
    afterwards. *)
Definition triggered (refresh : Z) (before after : Mainloop.Locals)
    (k : EventTuple) : Prop :=
  let regfunc := fst (fst k) in
  if (reg_delay regfunc =? 0)%Z then
    firings (fst after) k = S (firings (fst before) k)
  else
    firings (fst after) k = firings (fst before) k
    /\ Dict.get k (snd after) = armed refresh regfunc k (snd before)
    /\ Dict.mem k (snd after) = true.

(** The diff pass does nothing on behalf of a registration: no tuple of it
    is put on [lst_fire], no entry of it is set in [dict_delay]. *)
Definition not_triggered (before after : Mainloop.Locals)
    (regfunc : RegFunc) : Prop :=
  forall name value,
    firings (fst after) (regfunc, name, value)
    = firings (fst before) (regfunc, name, value)
    /\ Dict.get (regfunc, name, value) (snd after)
       = Dict.get (regfunc, name, value) (snd before).

(** What a diff pass may do to a tuple [k], from [a] to [a']: the
    dictionary stays a dictionary; a tuple of a registration with a delay is
    never put on [lst_fire]; the countdown of [k] is kept or set to
    [ceil(delay / refresh)]; and the countdown of a pending tuple with a
    boolean value is kept when its registration does not ask for a
    restart. *)
Definition scan_frame (refresh : Z) (k : EventTuple)
    (a a' : Mainloop.Locals) : Prop :=
  let regfunc := fst (fst k) in
  (dict_wf (snd a) -> dict_wf (snd a'))
  /\ (reg_delay regfunc <> 0%Z -> firings (fst a') k = firings (fst a) k)
  /\ (Dict.get k (snd a') = Dict.get k (snd a)
      \/ Dict.get k (snd a')
         = Some (ceil_div (reg_delay regfunc) refresh))
  /\ (reg_overwrite regfunc = false -> (exists b, snd k = VBool b) ->
      Dict.get k (snd a) <> None ->
      Dict.get k (snd a') = Dict.get k (snd a)).

(** What the check of the delayed events does to a tuple [k], in terms of
    the number of its occurrences on [lst_fire] and of its countdown: an
    absent tuple stays absent; a pending one is cancelled when its
    registration asks for it and the value has changed; otherwise it is
    counted down, and fired and removed when the countdown is used up. *)
Definition after_delay (cur : string -> Value) (k : EventTuple)
    (st : nat * option Z) : nat * option Z :=
  let '(regfunc, name, value) := k in
  match snd st with
  | None => st
  | Some count =>
      if reg_overwrite regfunc
         && (if Value_eq_dec (cur name) value then false else true)
      then (fst st, None)
      else if (count - 1 <=? 0)%Z then (S (fst st), None)
      else (fst st, Some (count - 1)%Z)
  end.

(** The parts of the result of [mainloop_tick]. *)
Definition tick_locals (t : RevPiModIO * Mainloop.Locals * list EventTuple)
    : Mainloop.Locals := snd (fst t).

Definition tick_dict (t : RevPiModIO * Mainloop.Locals * list EventTuple)
    : Dict.t := snd (snd (fst t)).

Definition tick_fired (t : RevPiModIO * Mainloop.Locals * list EventTuple)
    : list EventTuple := snd t.

(** The error threshold is reached by one more error. *)
Definition threshold_reached (s : RevPiModIO) : bool :=
  negb (_maxioerrors s =? 0)%Z && (_maxioerrors s <=? _ioerror s + 1)%Z.

(** The account of one failed transaction, from the manager [s] to the
    result [res]: the error counter is one higher; when that reaches the
    non-zero maximum the transaction raises the fatal error and nothing is
    warned; otherwise it returns [False] and one warning is emitted. *)
Definition accounted (s : RevPiModIO) (res : Outcome bool * RevPiModIO)
    : Prop :=
  _ioerror (snd res) = (_ioerror s + 1)%Z
  /\ if threshold_reached s
     then fst res
          = Raise (RuntimeError "reach max io error count on process image")
          /\ warned (snd res) = warned s
     else fst res = Return false
          /\ warned (snd res) = warned s ++ [WarnIOError (_ioerror s + 1)].

(** The transaction on a single device gets as far as the file object: the
    argument is a device object that is not self-updating. *)
Definition plain_device (s : RevPiModIO) (id : nat) : Prop :=
  exists dev, get_dev s id = Some dev /\ dev_selfupdate dev = false.

(** The write of the output region of a device, as [writeprocimg] hands it
    to the file object. *)
Definition out_write (dev : Device) : FhOp :=
  FhWrite (start (dev_slc_outoff dev))
    (getslice (dev_ba_devdata dev) (dev_slc_out dev)).

(** The writes that [writeprocimg] issues for the devices of [mylist]: one
    for each device that is not self-updating, in order. *)
Definition device_writes (s : RevPiModIO) (mylist : list nat) : list FhOp :=
  flat_map
    (fun id =>
       match get_dev s id with
       | Some dev => if dev_selfupdate dev then [] else [out_write dev]
       | None => []
       end)
    mylist.

(** Everything of the manager that a transaction on the process image
    leaves alone: all but the error counter, the warnings, and the image
    and log of the file object. *)
Definition io_frame (s : RevPiModIO) :=
  (_monitoring s, _syncoutputs s, _buffedwrite s, _exit s, _waitexit s,
   _imgwriter s, _length s, _looprunning s, _lst_refresh s, _maxioerrors s,
   _th_mainloop s, device s, objects s, fh_fails (_myfh s)).

(** The file operations of a write of the devices of [mylist], in order:
    the writes of the devices that are not self-updating, then the flush
    in buffered mode. *)
Definition write_ops (s : RevPiModIO) (mylist : list nat) : list FhOp :=
  device_writes s mylist ++ (if _buffedwrite s then [FhFlush] else []).

(** One at least of the [n] operations that come next on the file object
    fails. *)
Definition some_fails (fh : FileHandle) (n : nat) : bool :=
  existsb (fun i => fh_fails fh (List.length (fh_log fh) + i)) (seq 0 n).

(** A transaction succeeds: it returns [True], counts no error and emits
    no warning. *)
Definition succeeded (s : RevPiModIO) (res : Outcome bool * RevPiModIO)
    : Prop :=
  fst res = Return true
  /\ _ioerror (snd res) = _ioerror s
  /\ warned (snd res) = warned s.

(** A transaction gets as far as the file object: it is called for the
    whole image, or with an argument that [resolve] turns into a device
    that is not self-updating. *)
Definition reaches_file (resolve : DeviceArg -> Outcome nat)
    (s : RevPiModIO) (device_arg : option DeviceArg) : Prop :=
  match device_arg with
  | None => True
  | Some arg =>
      exists id, resolve arg = Return id /\ selfupdate_of s id = false
  end.

(** The devices that such a transaction works on ([mylist]). *)
Definition worked_on (resolve : DeviceArg -> Outcome nat)
    (s : RevPiModIO) (device_arg : option DeviceArg) : list nat :=
  match device_arg with
  | None => DeviceList.iter (device s)
  | Some arg =>
      match resolve arg with
      | Return id => [id]
      | Raise _ => []
      end
  end.

(** The file operations of the final write of [exit] for one device of the
    refresh list. *)
Definition final_write (s : RevPiModIO) (id : nat) : list FhOp :=
  match get_dev s id with
  | Some dev =>
      out_write dev :: (if _buffedwrite s then [FhFlush] else [])
  | None => []
  end.

(** No write of [exit] can reach the error threshold: nothing is written,
    or the number of errors is not limited, or no file operation fails. *)
Definition no_escalation (s : RevPiModIO) : Prop :=
  _monitoring s = true \/ _maxioerrors s = 0%Z
  \/ (forall n, fh_fails (_myfh s) n = false).

(** The number of file operations of one final write of [exit]: the write
    of the device and, in buffered mode, the flush. *)
Definition final_ops (s : RevPiModIO) : nat :=
  if _buffedwrite s then 2 else 1.

(** The final write of the [j]-th device that [exit] takes off the refresh
    list, counted from 0, fails: one of its file operations does. The
    operations of [exit] follow those that the file object has seen
    before. *)
Definition final_write_fails (s : RevPiModIO) (j : nat) : bool :=
  existsb
    (fun i =>
       fh_fails (_myfh s)
         (List.length (fh_log (_myfh s)) + j * final_ops s + i))
    (seq 0 (final_ops s)).

(** How many of the first [j] final writes fail. *)
Definition failed_before (s : RevPiModIO) (j : nat) : nat :=
  List.length (filter (final_write_fails s) (seq 0 j)).

(** The final write of the [j]-th device fails and the error counter
    thereby reaches the non-zero maximum, every failed write before it
    having counted one error. *)
Definition escalates (s : RevPiModIO) (j : nat) : bool :=
  final_write_fails s j
  && negb (_maxioerrors s =? 0)%Z
  && (_maxioerrors s <=? _ioerror s + Z.of_nat (failed_before s j) + 1)%Z.

(** The first of [n] final writes that reaches the error threshold. *)
Definition first_fatal (s : RevPiModIO) (n : nat) : option nat :=
  find (escalates s) (seq 0 n).

(** What the loop of [exit] over the refresh list leaves alone. *)
Definition exit_frame (s : RevPiModIO) :=
  (_monitoring s, _buffedwrite s, _exit s, _waitexit s, _imgwriter s,
   _looprunning s, _maxioerrors s, fh_fails (_myfh s)).

(** Two managers hold the same devices, the self-updating flags apart. *)
Definition same_data (s s' : RevPiModIO) : Prop :=
  forall id,
    option_map (fun d => set_selfupdate d false) (get_dev s' id)
    = option_map (fun d => set_selfupdate d false) (get_dev s id).

(** The manager after the final write of one device, as far as the
    following writes are concerned: the file object has seen the
    operations of that write and the counter has counted its failure. *)
Definition one_written (s s' : RevPiModIO) : Prop :=
  fh_fails (_myfh s') = fh_fails (_myfh s)
  /\ _buffedwrite s' = _buffedwrite s
  /\ _maxioerrors s' = _maxioerrors s
  /\ List.length (fh_log (_myfh s'))
     = List.length (fh_log (_myfh s)) + final_ops s
  /\ _ioerror s'
     = (_ioerror s + (if final_write_fails s 0 then 1 else 0))%Z.

(** What the loop of [exit] leaves behind, up to the device at which it
    stopped or to the end of the list: [taken] are the devices taken off
    the list, [left] those still on it, [errors] the failed writes that
    were counted. *)
Definition exit_state (s : RevPiModIO) (taken left : list nat)
    (errors : nat) (s' : RevPiModIO) : Prop :=
  _lst_refresh s'
  = (match taken with [] => _lst_refresh s | _ :: _ => rev left end)
  /\ (forall id, In id taken -> selfupdate_of s' id = false)
  /\ (forall id, ~ In id taken -> get_dev s' id = get_dev s id)
  /\ fh_log (_myfh s') = fh_log (_myfh s) ++ flat_map (final_write s) taken
  /\ _ioerror s' = (_ioerror s + Z.of_nat errors)%Z
  /\ exit_frame s' = exit_frame s
  /\ same_data s s'.

(** Effective offset plus length of the last device that is built, or
    [start] when none is. *)
Definition end_of_last (start : nat) (offsets : list nat)
    (devs : list (nat * nat)) : nat :=
  last (map (fun p => fst p + snd (snd p)) (combine offsets devs)) start.

(** The tuples that the diff pass puts on [lst_fire] for one registered
    point of a device: none when the bytes of the point, or its bit, are
    unchanged; otherwise one for each registration without delay that
    matches the edge (a point without a bit index matches always). *)
Definition immediate (dev : Device) (entry : IOPoint * list RegFunc)
    : list EventTuple :=
  let '(io_event, regs) := entry in
  let cp := getslice (dev_ba_datacp dev) (io_slc_address io_event) in
  let live := getslice (dev_ba_devdata dev) (io_slc_address io_event) in
  let tuple := fun r => (r, io_name io_event, io_value dev io_event) in
  if Py.bytes_eq_dec cp live then []
  else if (0 <=? io_bitaddress io_event)%Z then
    if Bool.eqb (bit_live dev io_event) (bit_baseline dev io_event) then []
    else
      map tuple
        (filter
           (fun r => Mainloop.edge_selected r (bit_live dev io_event)
                     && (reg_delay r =? 0)%Z)
           regs)
  else map tuple (filter (fun r => (reg_delay r =? 0)%Z) regs).

(** Some cycles of the dispatcher in a row, each with the manager as the
    other threads have left it and with the values read as the delayed
    events are checked; the result lists what each cycle fires. *)
Fixpoint run_cycles (steps : list (RevPiModIO * (string -> Value)))
    (locals : Mainloop.Locals) : list (list EventTuple) :=
  match steps with
  | [] => []
  | (s, cur) :: rest =>
      let t := mainloop_tick s cur locals in
      tick_fired t :: run_cycles rest (tick_locals t)
  end.

(** The names that the loop over the devices records in [err_names]: a
    name is recorded each time it comes up again, [seen] being the names
    already set in the registry. *)
Fixpoint shared (seen names : list string) : list string :=
  match names with
  | [] => []
  | n :: rest =>
      (if in_dec string_dec n seen then [n] else [])
      ++ shared (n :: seen) rest
  end.

(** The position of a descriptor that carries a number. *)
Definition numbered (d : Descriptor) : Z :=
  match d_position d with Pos p => p | Adap => (-1)%Z end.

(** A descriptor of a known type with a numbered position. *)
Definition regular (d : Descriptor) : Prop :=
  known_type (d_type d) = true /\ d_position d <> Adap.

(** ** A small installation, for the examples

    One digital module with a boolean input [I_1] (bit 0 of byte 0) and a
    one-byte counter [Counter_1] (byte 1, no bit index), refreshed every
    50 ms. *)
Module Example.

Definition I_1 : IOPoint := mkIO "I_1" (Slice 0 1) 0 Little.

Definition Counter_1 : IOPoint := mkIO "Counter_1" (Slice 1 2) (-1) Little.

Definition rising_now : RegFunc := mkRegFunc 1 RISING false 0 false.

Definition falling_now : RegFunc := mkRegFunc 2 FALLING false 0 false.

(** delay 150 ms = 3 x 50 ms, no restart *)
Definition rising_late : RegFunc := mkRegFunc 3 RISING false 150 false.

(** delay 150 ms, restart and cancellation asked for *)
Definition rising_fresh : RegFunc := mkRegFunc 4 RISING false 150 true.

Definition counter_late : RegFunc := mkRegFunc 5 BOTH false 150 false.

Definition regs_I_1 : list RegFunc :=
  [rising_now; falling_now; rising_late; rising_fresh].

(** The module with baseline copy [cp] and live buffer [live]. *)
Definition dio (selfupdate : bool) (cp live : list byte) : Device :=
  mkDevice 0 "dio01" 0 2 selfupdate
    (Slice 0 1) (Slice 1 2) (Slice 2 2)
    (Slice 0 1) (Slice 1 2) (Slice 2 2) (Slice 0 2)
    live cp [(I_1, regs_I_1); (Counter_1, [counter_late])].

(** A second module, behind the first one in the image. *)
Definition aio (selfupdate : bool) : Device :=
  mkDevice 1 "aio01" 2 2 selfupdate
    (Slice 0 1) (Slice 1 2) (Slice 2 2)
    (Slice 2 3) (Slice 3 4) (Slice 4 4) (Slice 2 4)
    [Byte.x00; Byte.x00] [Byte.x00; Byte.x00] [].

Definition registry : DeviceList.t :=
  DeviceList.setattr (DeviceList.setattr DeviceList.empty "dio01" 0 0)
    "aio01" 1 1.

Definition fh (fails : nat -> bool) : FileHandle :=
  mkFh [Byte.x00; Byte.x00; Byte.x00; Byte.x00] [] fails.

Definition never : nat -> bool := fun _ => false.

Definition always : nat -> bool := fun _ => true.

(** A manager over the two modules. *)
Definition modio (monitoring running : bool) (maxioerrors : Z)
    (fails : nat -> bool) (refresh_list : list nat)
    (devices : list Device) : RevPiModIO :=
  mkModIO monitoring true false false false
    (Some (mkWriter 50 true false 0 maxioerrors)) 0 4 running refresh_list
    maxioerrors None (fh fails) registry devices [].

(** The dispatcher at work on the first module, with baseline [cp] and
    live buffer [live]. *)
Definition watching (cp live : list byte) : RevPiModIO :=
  modio false true 0 never [0] [dio true cp live; aio false].

Definition b00 : list byte := [Byte.x00; Byte.x00].

Definition b01 : list byte := [Byte.x01; Byte.x00].

Definition is_true : string -> Value := fun _ => VBool true.

Definition is_false : string -> Value := fun _ => VBool false.

(** Four cycles in which [I_1] goes from 0 to 1 and stays: the edge is
    detected in the first one; the other threads do nothing in between. *)
Definition cycle0 := mainloop_tick (watching b00 b01) is_true ([], []).

Definition cycle1 :=
  mainloop_tick (fst (fst cycle0)) is_true (tick_locals cycle0).

Definition cycle2 :=
  mainloop_tick (fst (fst cycle1)) is_true (tick_locals cycle1).

Definition cycle3 :=
  mainloop_tick (fst (fst cycle2)) is_true (tick_locals cycle2).

(** The counter reads 5 while the tuple of [counter_late] for the value 5
    is pending with one cycle to go, and the baseline still holds 7. *)
Definition counter_key : EventTuple :=
  (counter_late, "Counter_1"%string, VBytes [Byte.x05]).

Definition counter_back : Device :=
  dio true [Byte.x00; Byte.x07] [Byte.x00; Byte.x05].

End Example.

Module ExampleExit.

(** Both modules under cyclic refresh, the hardware channel in order. *)
Definition calm : RevPiModIO :=
  Example.modio false true 0 Example.never [0; 1]
    [Example.dio true Example.b00 Example.b00; Example.aio true].

(** The same with a channel on which every operation fails and a
    maximum of one error. *)
Definition broken : RevPiModIO :=
  Example.modio false true 1 Example.always [0; 1]
    [Example.dio true Example.b00 Example.b00; Example.aio true].

(** A channel on which the second operation fails, with a maximum of one
    error. *)
Definition second_fails : RevPiModIO :=
  Example.modio false true 1 (fun n => Nat.eqb n 1) [0; 1]
    [Example.dio true Example.b00 Example.b00; Example.aio true].

(** A channel on which every operation fails, with a maximum of two
    errors. *)
Definition two_allowed : RevPiModIO :=
  Example.modio false true 2 Example.always [0; 1]
    [Example.dio true Example.b00 Example.b00; Example.aio true].

End ExampleExit.

Module ExampleConfig.

(** A manager as [__init__] leaves it before [_configure]. *)
Definition fresh : RevPiModIO :=
  mkModIO false true false false false None 0 0 false [] 0 None
    (mkFh (repeat Byte.x00 6) [] Example.never) DeviceList.empty [] [].

Definition module_at (name : string) (position : Z) (offset : nat)
    : Descriptor :=
  mkDescriptor LEFT_RIGHT name (Pos position) offset 1 1 0.

(** Two modules under one name. *)
Definition two_alike : list Descriptor :=
  [module_at "dio" 0 0; module_at "dio" 1 2].

(** Three modules under one name. *)
Definition three_alike : list Descriptor :=
  [module_at "dio" 0 0; module_at "dio" 1 2; module_at "dio" 2 4].

(** A gateway whose declared offset lies behind the end of its
    predecessor, an unknown device, and a virtual device with a stale
    offset. *)
Definition mixed : list Descriptor :=
  [mkDescriptor BASE "core" (Pos 0) 0 1 1 0;
   mkDescriptor EDGE "gateway" (Pos 1) 10 2 2 0;
   mkDescriptor (OtherType "RIGHT") "odd" (Pos 2) 14 1 0 0;
   mkDescriptor VIRTUAL "virt" Adap 0 1 1 1].

End ExampleConfig.

(** ** Notions and examples for the further properties *)

(** *** Transactions on the process image *)

(** Two ranges do not overlap. *)
Definition apart (a b : slice) : Prop :=
  stop a <= start b \/ stop b <= start a.

(** The regions of a device lie inside its buffer and do not overlap, in
    whatever order, and the image holds the same regions from the offset
    of the device on. *)
Definition regions_ok (dev : Device) : Prop :=
  let off := start (dev_slc_devoff dev) in
  let size := List.length (dev_ba_devdata dev) in
  (start (dev_slc_inp dev) <= stop (dev_slc_inp dev)
   /\ stop (dev_slc_inp dev) <= size
   /\ start (dev_slc_out dev) <= stop (dev_slc_out dev)
   /\ stop (dev_slc_out dev) <= size
   /\ start (dev_slc_mem dev) <= stop (dev_slc_mem dev)
   /\ stop (dev_slc_mem dev) <= size)
  /\ (apart (dev_slc_inp dev) (dev_slc_out dev)
      /\ apart (dev_slc_inp dev) (dev_slc_mem dev)
      /\ apart (dev_slc_out dev) (dev_slc_mem dev))
  /\ (dev_slc_inpoff dev
      = Slice (off + start (dev_slc_inp dev)) (off + stop (dev_slc_inp dev))
      /\ dev_slc_outoff dev
         = Slice (off + start (dev_slc_out dev))
             (off + stop (dev_slc_out dev))
      /\ dev_slc_memoff dev
         = Slice (off + start (dev_slc_mem dev))
             (off + stop (dev_slc_mem dev))
      /\ stop (dev_slc_devoff dev) = off + size).

(** The configured length of the image covers the device. *)
Definition within_length (s : RevPiModIO) (dev : Device) : Prop :=
  start (dev_slc_devoff dev) + List.length (dev_ba_devdata dev) <= _length s.

(** The file behind the file object is at least as long as the configured
    length of the image, so that a read returns that many bytes. *)
Definition image_complete (s : RevPiModIO) : Prop :=
  _length s <= List.length (fh_image (_myfh s)).

(** What a read leaves in the buffer of a device, [dev] before and [dev']
    after: the input and the memory region hold the bytes of the image; the
    output region holds them in monitoring mode and is left as it was
    otherwise; nothing else of the device changes, the buffer keeps its
    length. *)
Definition read_into (monitoring : bool) (image : list byte)
    (dev dev' : Device) : Prop :=
  dev' = set_ba_devdata dev (dev_ba_devdata dev')
  /\ List.length (dev_ba_devdata dev') = List.length (dev_ba_devdata dev)
  /\ getslice (dev_ba_devdata dev') (dev_slc_inp dev)
     = getslice image (dev_slc_inpoff dev)
  /\ getslice (dev_ba_devdata dev') (dev_slc_mem dev)
     = getslice image (dev_slc_memoff dev)
  /\ getslice (dev_ba_devdata dev') (dev_slc_out dev)
     = (if monitoring then getslice image (dev_slc_outoff dev)
        else getslice (dev_ba_devdata dev) (dev_slc_out dev)).

(** What [syncoutputs] leaves in the buffer of a device: the output region
    holds the bytes of the image, the input and the memory region are left
    as they were. *)
Definition synced_into (image : list byte) (dev dev' : Device) : Prop :=
  dev' = set_ba_devdata dev (dev_ba_devdata dev')
  /\ List.length (dev_ba_devdata dev') = List.length (dev_ba_devdata dev)
  /\ getslice (dev_ba_devdata dev') (dev_slc_out dev)
     = getslice image (dev_slc_outoff dev)
  /\ getslice (dev_ba_devdata dev') (dev_slc_inp dev)
     = getslice (dev_ba_devdata dev) (dev_slc_inp dev)
  /\ getslice (dev_ba_devdata dev') (dev_slc_mem dev)
     = getslice (dev_ba_devdata dev) (dev_slc_mem dev).

Module ExampleIdle.

(** The two modules of the small installation, neither under cyclic
    refresh; the first one holds 1 in its input byte and 5 in its output
    byte, the image holds 9 in the input byte and 7 in the output byte of
    the first module. *)
Definition image : list byte := [Byte.x09; Byte.x07; Byte.x00; Byte.x00].

Definition idle (monitoring : bool) : RevPiModIO :=
  mkModIO monitoring true false false false
    (Some (mkWriter 50 false false 0 0)) 0 4 false [] 0 None
    (mkFh image [] Example.never) Example.registry
    [Example.dio false Example.b00 [Byte.x01; Byte.x05]; Example.aio false]
    [].

Definition first : Device :=
  Example.dio false Example.b00 [Byte.x01; Byte.x05].

(** The first module as a simulator holds it: the two byte-long regions
    have changed places, the output region comes first in the buffer. *)
Definition swapped : Device :=
  mkDevice 0 "dio01" 0 2 false
    (Slice 1 2) (Slice 0 1) (Slice 2 2)
    (Slice 1 2) (Slice 0 1) (Slice 2 2) (Slice 0 2)
    [Byte.x01; Byte.x05] Example.b00 [].

Definition simulated : RevPiModIO :=
  mkModIO false true false false false
    (Some (mkWriter 50 false false 0 0)) 0 4 false [] 0 None
    (mkFh image [] Example.never) Example.registry
    [swapped; Example.aio false] [].

(** The two modules before a file that holds one byte only. *)
Definition short : RevPiModIO :=
  mkModIO false true false false false
    (Some (mkWriter 50 false false 0 0)) 0 4 false [] 0 None
    (mkFh [Byte.x09] [] Example.never) Example.registry
    [first; Example.aio false] [].

End ExampleIdle.

(** A call of one of the foreground operations of the manager. *)
Inductive Call :=
| CallReadprocimg (device_arg : option DeviceArg)
| CallSyncoutputs (device_arg : option DeviceArg)
| CallWriteprocimg (device_arg : option DeviceArg)
| CallExit (full : bool)
| CallResetioerrors
| CallSetMaxioerrors (value : Z)
| CallSetCycletime (milliseconds : Z).

(** The manager after a call, whether it has returned or raised. *)
Definition after_call (s : RevPiModIO) (c : Call) : RevPiModIO :=
  match c with
  | CallReadprocimg device_arg => snd (readprocimg s device_arg)
  | CallSyncoutputs device_arg => snd (syncoutputs s device_arg)
  | CallWriteprocimg device_arg => snd (writeprocimg s device_arg)
  | CallExit full => snd (exit s full)
  | CallResetioerrors => snd (resetioerrors s)
  | CallSetMaxioerrors value => snd (_set_maxioerrors s value)
  | CallSetCycletime milliseconds => snd (_set_cycletime s milliseconds)
  end.

(** The manager after the calls of a program that goes on after an
    exception. *)
Definition after_calls (calls : list Call) (s : RevPiModIO) : RevPiModIO :=
  fold_left after_call calls s.

(** The outcomes of [n] calls of a transaction in a row, and the manager
    after the last one. *)
Fixpoint attempts (op : RevPiModIO -> Outcome bool * RevPiModIO) (n : nat)
    (s : RevPiModIO) : list (Outcome bool) * RevPiModIO :=
  match n with
  | O => ([], s)
  | S n' =>
      let '(o, s1) := op s in
      let '(os, s2) := attempts op n' s1 in
      (o :: os, s2)
  end.

(** The outcome of the [i]-th failed transaction, counted from 1, under a
    maximum of [m] errors. *)
Definition failure (m i : nat) : Outcome bool :=
  if Nat.ltb 0 m && Nat.leb m i
  then Raise (RuntimeError "reach max io error count on process image")
  else Return false.

(** How a transaction moves the error counter: by nothing or by one; by
    nothing when it returns [True], by one when it returns [False]. *)
Definition counted (s : RevPiModIO) (res : Outcome bool * RevPiModIO) : Prop :=
  (_ioerror (snd res) = _ioerror s
   \/ _ioerror (snd res) = (_ioerror s + 1)%Z)
  /\ (fst res = Return true -> _ioerror (snd res) = _ioerror s)
  /\ (fst res = Return false -> _ioerror (snd res) = (_ioerror s + 1)%Z).

Module ExampleFlaky.

(** The first and the third operation on the file object fail. *)
Definition flaky : nat -> bool := fun n => Nat.eqb n 0 || Nat.eqb n 2.

(** The two modules, not under cyclic refresh, behind a file object that
    fails now and then, with a maximum of [maxioerrors] errors. *)
Definition unsteady (maxioerrors : Z) (fails : nat -> bool) : RevPiModIO :=
  Example.modio false false maxioerrors fails []
    [Example.dio false Example.b00 Example.b00; Example.aio false].

End ExampleFlaky.

(** *** The loops *)

(** The other threads leave the loop flag alone. *)
Definition keep_looprunning (sched : list Step) : Prop :=
  forall st s, In st sched -> _looprunning (st_others st s) = _looprunning s.

(** The other threads leave the device objects and the refresh list
    alone. *)
Definition keep_devices (sched : list Step) : Prop :=
  forall st s, In st sched ->
    objects (st_others st s) = objects s
    /\ _lst_refresh (st_others st s) = _lst_refresh s.

(** How often the wait of a loop comes back with new data along a
    schedule. *)
Definition data_ready (sched : list Step) : nat :=
  List.length (filter st_newdata sched).

(** Everything of the manager but the device objects. *)
Definition but_objects (s : RevPiModIO) :=
  (_monitoring s, _syncoutputs s, _buffedwrite s, _exit s, _waitexit s,
   _imgwriter s, _ioerror s, _length s, _looprunning s, _lst_refresh s,
   _maxioerrors s, _th_mainloop s, _myfh s, device s, warned s).

(** A device after the diff pass: when it is on the refresh list [refresh]
    and has registrations, its baseline copy is its live buffer. *)
Definition rebaselined (refresh : list nat) (id : nat) (dev : Device)
    : Device :=
  if existsb (Nat.eqb id) refresh
     && negb (Nat.eqb (List.length (dev_dict_events dev)) 0)
  then set_ba_datacp dev (dev_ba_devdata dev)
  else dev.

(** A pending tuple is due in the check of the delayed events: it is not
    cancelled and its countdown is used up by this cycle. *)
Definition due (cur : string -> Value) (d : Dict.t) (k : EventTuple) : bool :=
  negb (reg_overwrite (fst (fst k))
        && (if Value_eq_dec (cur (snd (fst k))) (snd k) then false else true))
  && match Dict.get k d with
     | Some count => (count - 1 <=? 0)%Z
     | None => false
     end.

Module ExampleLoop.

(** The first module under cyclic refresh, no loop running. *)
Definition ready : RevPiModIO :=
  Example.modio false false 0 Example.never [0]
    [Example.dio true Example.b00 Example.b00; Example.aio false].

(** The refresh thread dies while the loop waits. *)
Definition dies : Step :=
  mkStep
    (fun s => with_imgwriter s (Some (mkWriter 50 false false 0 0)))
    false Example.is_true.

(** New data arrive, nothing else happens. *)
Definition fresh_data : Step := mkStep (fun s => s) true Example.is_true.

(** The wait runs into its timeout, nothing else happens. *)
Definition no_data : Step := mkStep (fun s => s) false Example.is_true.

(** A cycle function that returns 7 in its third cycle. *)
Definition third : nat -> RevPiModIO -> option Z * RevPiModIO :=
  fun n s => (if Nat.eqb n 2 then Some 7%Z else None, s).

End ExampleLoop.

(** The baseline copy of every device on the refresh list is its live
    buffer. *)
Definition baselines_current (s : RevPiModIO) : Prop :=
  forall id dev,
    In id (_lst_refresh s) -> get_dev s id = Some dev ->
    dev_ba_datacp dev = dev_ba_devdata dev.

Module ExampleStale.

(** The first module under cyclic refresh, with a live buffer that differs
    from the baseline copy before the loop is entered. *)
Definition stale : RevPiModIO :=
  Example.modio false false 0 Example.never [0]
    [Example.dio true Example.b00 Example.b01; Example.aio false].

End ExampleStale.

(** *** The end of the program *)

Module ExampleProgram.

(** A cleanup function that switches the output byte of the first module
    off. *)
Definition outputs_off (s : RevPiModIO) : Outcome unit * RevPiModIO :=
  (Return tt,
   match get_dev s 0 with
   | Some dev =>
       put_dev s 0
         (set_ba_devdata dev
            (setslice (dev_ba_devdata dev) (dev_slc_out dev) [Byte.x00]))
   | None => s
   end).

(** A program around the two modules under cyclic refresh. *)
Definition running (monitoring : bool) : Program :=
  mkProgram
    (Example.modio monitoring true 0 Example.never [0; 1]
       [Example.dio true Example.b00 Example.b00; Example.aio true])
    None SIG_DFL SIG_DFL false false.

End ExampleProgram.

(** What [__evt_exit] does after [exit] with a cleanup function [f]
    registered, in monitoring mode: [s1] is the manager after [exit]. *)
Definition monitoring_teardown
    (f : RevPiModIO -> Outcome unit * RevPiModIO) (s1 : RevPiModIO)
    (res : Outcome unit * Program) : Prop :=
  let s2 := snd (readprocimg s1 None) in
  raises (fst res) = true
  /\ (raises (fst (readprocimg s1 None)) = false ->
      raises (fst (f s2)) = false ->
      fst res
      = Raise (RuntimeError
          "can not write process image, while system is in monitoring mode")
      /\ pg_modio (snd res) = snd (f s2)).

(** *** The configuration *)

(** The positions under which the registry holds a device. *)
Definition positions_of (dl : DeviceList.t) : list Z :=
  map fst (DeviceList.positions dl).

(** A numbered position is written with digits: it is not negative. *)
Definition position_ok (d : Descriptor) : Prop :=
  match d_position d with Pos p => (0 <= p)%Z | Adap => True end.

(** The numbered positions of the descriptors from which a device is
    built. *)
Definition numbers (ds : list Descriptor) : list Z :=
  flat_map
    (fun d =>
       match d_position d with
       | Pos p => if known_type (d_type d) then [p] else []
       | Adap => []
       end)
    ds.

(** The registry resolves the position of every device object to that
    object, and holds as many positions as there are device objects. *)
Definition by_position_ok (s : RevPiModIO) : Prop :=
  (forall i dev,
     get_dev s i = Some dev ->
     DeviceList.by_position (device s) (dev_position dev) = Some i)
  /\ DeviceList.len (device s) = List.length (objects s).

(** A descriptor is selected: its type fits the class of the manager, and
    its name or its position is in the selection. *)
Definition selected (cls : Class) (lst_devselect : list Selection)
    (dev : Descriptor) : bool :=
  searchtype_ok cls dev
  && (name_selected lst_devselect (d_name dev)
      || position_selected lst_devselect (d_position dev)).

(** The elements of [self._lst_devselect] for an argument
    [deviceselection]. *)
Definition selection_of (deviceselection : DeviceSelection)
    : list Selection :=
  match deviceselection with
  | SelectList l => l
  | SelectOne v => [v]
  end.

Module ExampleSelect.

(** Three modules and a virtual device. *)
Definition config : list Descriptor :=
  [ExampleConfig.module_at "dio01" 0 0;
   ExampleConfig.module_at "dio02" 1 2;
   ExampleConfig.module_at "aio01" 2 4;
   mkDescriptor VIRTUAL "virt01" (Pos 64) 6 1 1 0].

Definition file : FileHandle := mkFh (repeat Byte.x00 8) [] Example.never.

End ExampleSelect.

(** *** Bits and bytes *)

(** Bit [k] of a sequence of bytes that starts with the least significant
    one: bit [k mod 8] of byte [k / 8], and [false] behind the last
    byte. *)
Definition bit_of_bytes (bs : list byte) (k : Z) : bool :=
  match nth_error bs (Z.to_nat (k / 8)) with
  | Some b => Z.testbit (Z.of_N (Byte.to_N b)) (k mod 8)
  | None => false
  end.

Module ExampleBytes.

(** A registration on the counter for the falling edge, without delay. *)
Definition counter_now : RegFunc := mkRegFunc 6 FALLING false 0 false.

(** The first module with the counter at 5, after 7 in the baseline
    copy. *)
Definition counting : Device :=
  mkDevice 0 "dio01" 0 2 true
    (Slice 0 1) (Slice 1 2) (Slice 2 2)
    (Slice 0 1) (Slice 1 2) (Slice 2 2) (Slice 0 2)
    [Byte.x00; Byte.x05] [Byte.x00; Byte.x07]
    [(Example.Counter_1, [counter_now])].

End ExampleBytes.

(** *** Names, and the last write *)

(** The names of the device objects, in the order in which they were
    built. *)
Definition device_names (s : RevPiModIO) : list string :=
  map dev_name (objects s).

(** How the registry and [err_names] stand to the device objects while the
    devices are built: a name resolves to a device of that name; the name
    of every device resolves; the names in [err_names] belong to more than
    one device, and every name of more than one device is in
    [err_names]. *)
Definition names_ok (s : RevPiModIO) (err_names : list string) : Prop :=
  (forall n i,
     DeviceList.by_name (device s) n = Some i ->
     nth_error (device_names s) i = Some n)
  /\ (forall n, In n (device_names s) ->
        DeviceList.by_name (device s) n <> None)
  /\ (forall n, In n err_names ->
        2 <= count_occ string_dec (device_names s) n)
  /\ (forall n, 2 <= count_occ string_dec (device_names s) n ->
        In n err_names).

(** The manager as the handler of the signals hands it to the last write,
    with cleanup function [f]: after the full exit, the last read and the
    cleanup function. *)
Definition cleaned (f : RevPiModIO -> Outcome unit * RevPiModIO)
    (s : RevPiModIO) : RevPiModIO :=
  snd (f (snd (readprocimg (snd (exit s true)) None))).

(** A cleanup function returns and touches nothing but device objects. *)
Definition tidy (f : RevPiModIO -> Outcome unit * RevPiModIO) : Prop :=
  forall s, fst (f s) = Return tt /\ but_objects (snd (f s)) = but_objects s.

(* ================================================================== *)
(** * Properties *)

(** ** The delayed-event dictionary *)

Lemma dict_get_set_same k v d : Dict.get k (Dict.set k v d) = Some v.
Proof.
  induction d as [|[k' v'] d IH]; simpl.
  - destruct (EventTuple_eq_dec k k); congruence.
  - destruct (EventTuple_eq_dec k k') as [->|Hne]; simpl.
    + destruct (EventTuple_eq_dec k' k'); congruence.
    + destruct (EventTuple_eq_dec k k'); congruence.
Qed.

Lemma dict_get_set_other k k' v d :
  k <> k' -> Dict.get k (Dict.set k' v d) = Dict.get k d.
Proof.
  intros Hne. induction d as [|[k2 v2] d IH]; simpl.
  - destruct (EventTuple_eq_dec k k'); congruence.
  - destruct (EventTuple_eq_dec k' k2) as [->|Hne2]; simpl.
    + destruct (EventTuple_eq_dec k k2); congruence.
    + destruct (EventTuple_eq_dec k k2); congruence.
Qed.

Lemma dict_get_del_same k d : Dict.get k (Dict.del k d) = None.
Proof.
  induction d as [|[k' v'] d IH]; simpl; auto.
  destruct (EventTuple_eq_dec k k') as [->|Hne]; simpl; auto.
  destruct (EventTuple_eq_dec k k'); congruence.
Qed.

Lemma dict_get_del_other k k' d :
  k <> k' -> Dict.get k (Dict.del k' d) = Dict.get k d.
Proof.
  intros Hne. induction d as [|[k2 v2] d IH]; simpl; auto.
  destruct (EventTuple_eq_dec k' k2) as [->|Hne2]; simpl.
  - destruct (EventTuple_eq_dec k k2); congruence.
  - destruct (EventTuple_eq_dec k k2); congruence.
Qed.

Lemma dict_get_keys k d : Dict.get k d <> None <-> In k (Dict.keys d).
Proof.
  induction d as [|[k' v'] d IH]; simpl.
  - tauto.
  - destruct (EventTuple_eq_dec k k') as [->|Hne].
    + split; [auto | congruence].
    + rewrite IH. split; [auto | intros [H|H]; [congruence | auto]].
Qed.

Lemma dict_get_none k d : Dict.get k d = None <-> ~ In k (Dict.keys d).
Proof.
  rewrite <- dict_get_keys. destruct (Dict.get k d); intuition congruence.
Qed.

Lemma dict_keys_set_in k k' v d :
  In k (Dict.keys (Dict.set k' v d)) <-> k = k' \/ In k (Dict.keys d).
Proof.
  rewrite <- !dict_get_keys.
  destruct (EventTuple_eq_dec k k') as [->|Hne].
  - rewrite dict_get_set_same. split; [auto | congruence].
  - rewrite dict_get_set_other by auto. tauto.
Qed.

Lemma dict_keys_del_in k k' d :
  In k (Dict.keys (Dict.del k' d)) <-> k <> k' /\ In k (Dict.keys d).
Proof.
  rewrite <- !dict_get_keys.
  destruct (EventTuple_eq_dec k k') as [->|Hne].
  - rewrite dict_get_del_same. tauto.
  - rewrite dict_get_del_other by auto. tauto.
Qed.

Lemma dict_wf_set k v d : dict_wf d -> dict_wf (Dict.set k v d).
Proof.
  unfold dict_wf. induction d as [|[k' v'] d IH]; simpl; intros H.
  - constructor; [simpl; tauto | constructor].
  - inversion H as [|? ? Hnin Hnd]; subst.
    destruct (EventTuple_eq_dec k k') as [->|Hne]; simpl.
    + constructor; auto.
    + constructor; auto.
      change (~ In k' (Dict.keys (Dict.set k v d))).
      rewrite dict_keys_set_in. intros [->|Hin]; auto.
Qed.

Lemma dict_wf_del k d : dict_wf d -> dict_wf (Dict.del k d).
Proof.
  unfold dict_wf. induction d as [|[k' v'] d IH]; simpl; intros H; auto.
  inversion H as [|? ? Hnin Hnd]; subst.
  destruct (EventTuple_eq_dec k k') as [->|Hne]; simpl; auto.
  constructor; auto.
  change (~ In k' (Dict.keys (Dict.del k d))).
  rewrite dict_keys_del_in. tauto.
Qed.

Lemma dict_mem_get k d : Dict.mem k d = true <-> Dict.get k d <> None.
Proof.
  unfold Dict.mem. destruct (Dict.get k d); split; congruence.
Qed.

(** ** The diff pass *)

Import Mainloop.

Lemma regfunc_mem_false regfunc d : regfunc_mem regfunc d = false.
Proof.
  unfold regfunc_mem. induction (Dict.keys d); simpl; auto.
Qed.

Lemma firings_app l1 l2 k : firings (l1 ++ l2) k = firings l1 k + firings l2 k.
Proof. apply count_occ_app. Qed.

Lemma firings_tuples name value regs rf :
  firings (map (fun r => (r, name, value)) regs) (rf, name, value)
  = count_occ RegFunc_eq_dec regs rf.
Proof.
  unfold firings. induction regs as [|r regs IH]; cbn [count_occ map]; auto.
  destruct (EventTuple_eq_dec (r, name, value) (rf, name, value)) as [E|N];
    destruct (RegFunc_eq_dec r rf) as [E'|N']; congruence.
Qed.

Lemma firings_tuples_other name value regs k :
  (forall rf, k <> (rf, name, value)) ->
  firings (map (fun r => (r, name, value)) regs) k = 0.
Proof.
  intros H. unfold firings.
  induction regs as [|r regs IH]; cbn [count_occ map]; auto.
  destruct (EventTuple_eq_dec (r, name, value) k) as [E|N]; auto.
  exfalso. apply (H r). auto.
Qed.

Lemma count_occ_filter (p : RegFunc -> bool) regs rf :
  count_occ RegFunc_eq_dec (filter p regs) rf
  = if p rf then count_occ RegFunc_eq_dec regs rf else 0.
Proof.
  induction regs as [|r regs IH]; cbn [count_occ filter].
  - destruct (p rf); auto.
  - destruct (p r) eqn:Hp; cbn [count_occ];
      destruct (RegFunc_eq_dec r rf) as [->|N]; rewrite IH;
      try rewrite Hp; auto.
Qed.

(** The immediate firings of a point with a bit index: one tuple for each
    registration that matches the edge and has no delay, in order. *)
Lemma fire_bit_lst refresh name value boolor regs l d :
  fst (fold_left (fire_bit refresh name value boolor) regs (l, d))
  = l ++ map (fun r => (r, name, value))
         (filter (fun r => edge_selected r boolor && (reg_delay r =? 0)%Z)
            regs).
Proof.
  revert l d. induction regs as [|r regs IH]; intros l d;
    cbn [fold_left filter map].
  - now rewrite app_nil_r.
  - unfold fire_bit at 2.
    destruct (edge_selected r boolor); cbn [andb].
    + destruct (reg_delay r =? 0)%Z; cbn [map].
      * rewrite IH, <- app_assoc. reflexivity.
      * destruct (reg_overwrite r || negb (Dict.mem (r, name, value) d));
          apply IH.
    + apply IH.
Qed.

Lemma fire_nobit_lst refresh name value regs l d :
  fst (fold_left (fire_nobit refresh name value) regs (l, d))
  = l ++ map (fun r => (r, name, value))
         (filter (fun r => (reg_delay r =? 0)%Z) regs).
Proof.
  revert l d. induction regs as [|r regs IH]; intros l d;
    cbn [fold_left filter map].
  - now rewrite app_nil_r.
  - unfold fire_nobit at 2.
    destruct (reg_delay r =? 0)%Z; cbn [map].
    + rewrite IH, <- app_assoc. reflexivity.
    + destruct (reg_overwrite r || negb (regfunc_mem r d)); apply IH.
Qed.

(** One registration of a point with a bit index leaves every other key of
    the dictionary alone. *)
Lemma fire_bit_get_other refresh name value boolor l d r k :
  k <> (r, name, value) ->
  Dict.get k (snd (fire_bit refresh name value boolor (l, d) r))
  = Dict.get k d.
Proof.
  intros Hne. unfold fire_bit.
  destruct (edge_selected r boolor); auto.
  destruct (reg_delay r =? 0)%Z; auto.
  destruct (reg_overwrite r || negb (Dict.mem (r, name, value) d)); auto.
  simpl. now apply dict_get_set_other.
Qed.

Lemma fire_bit_get_same refresh name value boolor l d r :
  edge_selected r boolor = true -> reg_delay r <> 0%Z ->
  Dict.get (r, name, value)
    (snd (fire_bit refresh name value boolor (l, d) r))
  = armed refresh r (r, name, value) d.
Proof.
  intros Hsel Hdel. unfold fire_bit, armed. rewrite Hsel.
  destruct (Z.eqb_spec (reg_delay r) 0); [contradiction|].
  destruct (reg_overwrite r || negb (Dict.mem (r, name, value) d)); simpl;
    auto using dict_get_set_same.
Qed.

Lemma fire_bit_get_idle refresh name value boolor l d r k :
  edge_selected r boolor = false \/ reg_delay r = 0%Z ->
  Dict.get k (snd (fire_bit refresh name value boolor (l, d) r))
  = Dict.get k d.
Proof.
  intros H. unfold fire_bit.
  destruct (edge_selected r boolor); auto.
  destruct (Z.eqb_spec (reg_delay r) 0); auto.
  destruct H; congruence.
Qed.

Lemma fire_bit_fold_untouched refresh name value boolor regs l d k :
  (forall r, In r regs -> k = (r, name, value) ->
             edge_selected r boolor = false \/ reg_delay r = 0%Z) ->
  Dict.get k (snd (fold_left (fire_bit refresh name value boolor) regs (l, d)))
  = Dict.get k d.
Proof.
  revert l d. induction regs as [|r regs IH]; intros l d H;
    cbn [fold_left]; auto.
  destruct (fire_bit refresh name value boolor (l, d) r) as [l1 d1] eqn:E.
  rewrite IH by (intros; apply H; simpl; auto).
  change d1 with (snd (l1, d1)). rewrite <- E.
  destruct (EventTuple_eq_dec k (r, name, value)) as [->|Hne].
  - apply fire_bit_get_idle. apply H; simpl; auto.
  - now apply fire_bit_get_other.
Qed.

Lemma fire_bit_fold_armed refresh name value boolor regs l d r :
  In r regs -> edge_selected r boolor = true -> reg_delay r <> 0%Z ->
  Dict.get (r, name, value)
    (snd (fold_left (fire_bit refresh name value boolor) regs (l, d)))
  = armed refresh r (r, name, value) d.
Proof.
  intros Hin Hsel Hdel. revert l d Hin.
  induction regs as [|r' regs IH]; intros l d Hin; cbn [fold_left];
    [contradiction|].
  destruct (fire_bit refresh name value boolor (l, d) r') as [l1 d1] eqn:E.
  assert (Hd1 : d1 = snd (fire_bit refresh name value boolor (l, d) r'))
    by now rewrite E.
  destruct (RegFunc_eq_dec r' r) as [->|Hne].
  - assert (H1 : Dict.get (r, name, value) d1
                 = armed refresh r (r, name, value) d)
      by (rewrite Hd1; now apply fire_bit_get_same).
    assert (Hstable : armed refresh r (r, name, value) d1
                      = armed refresh r (r, name, value) d).
    { unfold armed at 1. destruct (reg_overwrite r) eqn:Ho; simpl.
      - unfold armed. now rewrite Ho.
      - assert (Hm : Dict.mem (r, name, value) d1 = true).
        { apply dict_mem_get. rewrite H1. unfold armed. rewrite Ho. simpl.
          destruct (Dict.mem (r, name, value) d) eqn:Hm; simpl.
          - now apply dict_mem_get.
          - discriminate. }
        rewrite Hm. simpl. exact H1. }
    destruct (in_dec RegFunc_eq_dec r regs) as [Hin'|Hnin].
    + rewrite IH by assumption. exact Hstable.
    + rewrite fire_bit_fold_untouched; [exact H1|].
      intros r0 Hr0 Heq. inversion Heq; subst. contradiction.
  - destruct Hin as [->|Hin]; [contradiction|].
    rewrite IH by assumption.
    assert (Hg : Dict.get (r, name, value) d1 = Dict.get (r, name, value) d).
    { rewrite Hd1. apply fire_bit_get_other. congruence. }
    unfold armed, Dict.mem. now rewrite Hg.
Qed.

Lemma armed_mem refresh r k d :
  Dict.mem k d = true \/ reg_overwrite r = true \/ Dict.mem k d = false ->
  armed refresh r k d <> None.
Proof.
  intros _. unfold armed.
  destruct (reg_overwrite r); simpl; [discriminate|].
  destruct (Dict.mem k d) eqn:Hm; simpl; [|discriminate].
  now apply dict_mem_get.
Qed.

Lemma io_value_bit dev io :
  (0 <= io_bitaddress io)%Z -> io_value dev io = VBool (bit_live dev io).
Proof.
  intros H. unfold io_value, bit_live.
  destruct (Z.leb_spec 0 (io_bitaddress io)); [reflexivity | lia].
Qed.

Lemma io_value_bytes dev io :
  (io_bitaddress io < 0)%Z ->
  io_value dev io
  = VBytes (getslice (dev_ba_devdata dev) (io_slc_address io)).
Proof.
  intros H. unfold io_value.
  destruct (Z.leb_spec 0 (io_bitaddress io)); [lia | reflexivity].
Qed.

(** The diff pass enters the registrations of a point with a bit index
    exactly when the bit differs between baseline and live buffer. *)
Lemma scan_io_bit refresh dev io regs acc :
  (0 <= io_bitaddress io)%Z ->
  scan_io refresh dev acc (io, regs)
  = if Bool.eqb (bit_live dev io) (bit_baseline dev io) then acc
    else fold_left
           (fire_bit refresh (io_name io) (VBool (bit_live dev io))
              (bit_live dev io))
           regs acc.
Proof.
  intros Hbit. unfold scan_io.
  rewrite (io_value_bit dev io Hbit).
  fold (bit_live dev io). fold (bit_baseline dev io).
  destruct (bytes_eq_dec (getslice (dev_ba_datacp dev) (io_slc_address io))
              (getslice (dev_ba_devdata dev) (io_slc_address io))) as [E|N].
  - assert (Hb : bit_live dev io = bit_baseline dev io)
      by (unfold bit_live, bit_baseline; now rewrite E).
    rewrite Hb, Bool.eqb_reflx. reflexivity.
  - destruct (Z.leb_spec 0 (io_bitaddress io)); [reflexivity | lia].
Qed.

Lemma edge_selected_spec regfunc boolor :
  edge_selected regfunc boolor
  = match reg_edge regfunc with
    | BOTH => true
    | RISING => boolor
    | FALLING => negb boolor
    end.
Proof.
  unfold edge_selected, edge_eqb.
  destruct (reg_edge regfunc), boolor; reflexivity.
Qed.

Lemma fire_bit_triggered refresh name boolor regs l d rf :
  NoDup regs -> In rf regs -> edge_selected rf boolor = true ->
  triggered refresh (l, d)
    (fold_left (fire_bit refresh name (VBool boolor) boolor) regs (l, d))
    (rf, name, VBool boolor).
Proof.
  intros Hnd Hin Hsel. unfold triggered. cbn [fst snd].
  rewrite fire_bit_lst, firings_app, firings_tuples, count_occ_filter, Hsel.
  cbn [andb].
  destruct (Z.eqb_spec (reg_delay rf) 0) as [E|N].
  - rewrite (proj1 (NoDup_count_occ' RegFunc_eq_dec regs) Hnd rf Hin). lia.
  - split; [lia|].
    split; [now apply fire_bit_fold_armed|].
    apply dict_mem_get. rewrite fire_bit_fold_armed by assumption.
    apply armed_mem.
    destruct (Dict.mem (rf, name, VBool boolor) d); auto.
Qed.

Lemma fire_bit_not_triggered refresh name value boolor regs l d rf :
  edge_selected rf boolor = false ->
  not_triggered (l, d)
    (fold_left (fire_bit refresh name value boolor) regs (l, d)) rf.
Proof.
  intros Hsel n v. cbn [fst snd]. split.
  - rewrite fire_bit_lst, firings_app.
    destruct (EventTuple_eq_dec (rf, n, v) (rf, name, value)) as [E|N].
    + rewrite E, firings_tuples, count_occ_filter, Hsel. cbn [andb]. lia.
    + rewrite firings_tuples_other; [lia|].
      intros r Heq. apply N. inversion Heq; subst. reflexivity.
  - apply fire_bit_fold_untouched.
    intros r _ Heq. inversion Heq; subst. auto.
Qed.

(** C1. Edge detection of the event dispatcher, for a registered I/O point
    with a bit index and the registrations on it (each registered once):
    when the baseline bit is 0 and the live bit is 1, every RISING or BOTH
    registration is selected exactly once and no FALLING registration is;
    when the baseline bit is 1 and the live bit is 0, every FALLING or BOTH
    registration is selected exactly once and no RISING registration is;
    when the two bits are equal the pass changes nothing for the point. A
    selected registration without delay gets exactly one tuple on the
    firing list, which the drain loop dispatches once; a selected
    registration with a delay is pending in the delayed-event table. *)
Theorem edge_detection refresh dev io regs l d rf :
  (0 <= io_bitaddress io)%Z -> NoDup regs -> In rf regs ->
  let after := scan_io refresh dev (l, d) (io, regs) in
  (bit_baseline dev io = false -> bit_live dev io = true ->
   match reg_edge rf with
   | RISING | BOTH =>
       triggered refresh (l, d) after (rf, io_name io, VBool true)
   | FALLING => not_triggered (l, d) after rf
   end)
  /\ (bit_baseline dev io = true -> bit_live dev io = false ->
      match reg_edge rf with
      | FALLING | BOTH =>
          triggered refresh (l, d) after (rf, io_name io, VBool false)
      | RISING => not_triggered (l, d) after rf
      end)
  /\ (bit_baseline dev io = bit_live dev io -> after = (l, d)).
Proof.
  intros Hbit Hnd Hin after. subst after.
  rewrite (scan_io_bit refresh dev io regs (l, d) Hbit).
  split; [|split].
  - intros Hcp Hlive. rewrite Hcp, Hlive. cbn [Bool.eqb].
    destruct (reg_edge rf) eqn:He.
    + apply fire_bit_triggered; auto.
      rewrite edge_selected_spec, He. reflexivity.
    + apply fire_bit_not_triggered.
      rewrite edge_selected_spec, He. reflexivity.
    + apply fire_bit_triggered; auto.
      rewrite edge_selected_spec, He. reflexivity.
  - intros Hcp Hlive. rewrite Hcp, Hlive. cbn [Bool.eqb].
    destruct (reg_edge rf) eqn:He.
    + apply fire_bit_not_triggered.
      rewrite edge_selected_spec, He. reflexivity.
    + apply fire_bit_triggered; auto.
      rewrite edge_selected_spec, He. reflexivity.
    + apply fire_bit_triggered; auto.
      rewrite edge_selected_spec, He. reflexivity.
  - intros Heq. rewrite Heq, Bool.eqb_reflx. reflexivity.
Qed.

(** ** Edge detection in the small installation *)

Lemma regs_I_1_nodup : NoDup Example.regs_I_1.
Proof.
  unfold Example.regs_I_1.
  repeat (constructor; [simpl; intuition discriminate|]). constructor.
Defined.

Lemma edge_detection_witness :
  (0 <= io_bitaddress Example.I_1)%Z
  /\ NoDup Example.regs_I_1
  /\ In Example.rising_now Example.regs_I_1
  /\ bit_baseline (Example.dio true Example.b00 Example.b01) Example.I_1
     = false
  /\ bit_live (Example.dio true Example.b00 Example.b01) Example.I_1 = true
  /\ triggered 50 ([], [])
       (scan_io 50 (Example.dio true Example.b00 Example.b01) ([], [])
          (Example.I_1, Example.regs_I_1))
       (Example.rising_now, "I_1"%string, VBool true).
Proof.
  assert (B : (0 <= io_bitaddress Example.I_1)%Z) by discriminate.
  assert (I : In Example.rising_now Example.regs_I_1) by (left; reflexivity).
  split; [exact B|]. split; [exact regs_I_1_nodup|]. split; [exact I|].
  split; [reflexivity|]. split; [reflexivity|].
  exact (proj1
           (edge_detection 50 (Example.dio true Example.b00 Example.b01)
              Example.I_1 Example.regs_I_1 [] [] Example.rising_now
              B regs_I_1_nodup I)
           eq_refl eq_refl).
Defined.

(** The scenario of the specification, with the other registrations of the
    example around it: as [I_1] rises, one cycle fires the immediate RISING
    registration once, with the value [True], and not the FALLING one. *)
Lemma rising_edge_cycle :
  tick_fired Example.cycle0
  = [(Example.rising_now, "I_1"%string, VBool true)]
  /\ Mainloop.drain [(Example.rising_now, "I_1"%string, VBool true)]
     = [Mainloop.CallInline 1 "I_1" (VBool true)].
Proof. vm_compute. auto. Qed.

(** The drain loop dispatches every tuple of [lst_fire] once, last one
    first. *)
Lemma drain_all lst_fire :
  Mainloop.drain lst_fire = rev (map Mainloop.dispatch_one lst_fire).
Proof. unfold Mainloop.drain. apply map_rev. Qed.

(** A device with a registered point whose bit differs between baseline and
    live buffer is not skipped by the diff pass. *)
Lemma scan_device_enters refresh dev io regs acc :
  In (io, regs) (dev_dict_events dev) ->
  bit_baseline dev io <> bit_live dev io ->
  scan_device refresh dev acc
  = (set_ba_datacp dev (dev_ba_devdata dev),
     fold_left (scan_io refresh dev) (dev_dict_events dev) acc).
Proof.
  intros Hin Hne. unfold scan_device.
  destruct (dev_dict_events dev) as [|e es] eqn:Ev; [contradiction|].
  cbn [List.length Nat.eqb orb].
  destruct (bytes_eq_dec (dev_ba_datacp dev) (dev_ba_devdata dev)) as [E|N];
    [|reflexivity].
  exfalso. apply Hne. unfold bit_baseline, bit_live. now rewrite E.
Qed.

(** ** Frame of the diff pass *)

Lemma scan_frame_refl refresh k a : scan_frame refresh k a a.
Proof. unfold scan_frame. tauto. Qed.

Lemma scan_frame_trans refresh k a b c :
  scan_frame refresh k a b -> scan_frame refresh k b c ->
  scan_frame refresh k a c.
Proof.
  unfold scan_frame. intros (W1 & F1 & G1 & K1) (W2 & F2 & G2 & K2).
  repeat split.
  - auto.
  - intros H. rewrite F2, F1; auto.
  - destruct G2 as [G2|G2]; [rewrite G2|]; auto.
  - intros Ho Hb Hp. rewrite K2; auto. rewrite K1; auto.
Qed.

Lemma scan_frame_fold {A} refresh k (f : Locals -> A -> Locals) xs :
  (forall a x, In x xs -> scan_frame refresh k a (f a x)) ->
  forall a, scan_frame refresh k a (fold_left f xs a).
Proof.
  induction xs as [|x xs IH]; intros H a; cbn [fold_left].
  - apply scan_frame_refl.
  - eapply scan_frame_trans.
    + apply H. simpl; auto.
    + apply IH. intros; apply H; simpl; auto.
Qed.

Lemma firings_snoc l x k :
  firings (l ++ [x]) k = firings l k + (if EventTuple_eq_dec x k then 1 else 0).
Proof.
  rewrite firings_app. unfold firings. cbn [count_occ].
  destruct (EventTuple_eq_dec x k); reflexivity.
Qed.

Lemma frame_fire_now l d x k refresh :
  reg_delay (fst (fst x)) = 0%Z ->
  scan_frame refresh k (l, d) (l ++ [x], d).
Proof.
  intros E. unfold scan_frame; cbn [fst snd].
  split; [auto|]. split; [|split; [auto|auto]].
  intros Hd. rewrite firings_snoc.
  destruct (EventTuple_eq_dec x k) as [<-|]; [contradiction|lia].
Qed.

Lemma frame_arm l d x k refresh :
  (reg_overwrite (fst (fst x)) = false ->
   (exists b, snd k = VBool b) -> Dict.get x d <> None -> x <> k) ->
  scan_frame refresh k (l, d)
    (l, Dict.set x (ceil_div (reg_delay (fst (fst x))) refresh) d).
Proof.
  intros Hguard. unfold scan_frame; cbn [fst snd].
  split; [apply dict_wf_set|]. split; [reflexivity|]. split.
  - destruct (EventTuple_eq_dec k x) as [->|Hne].
    + right. apply dict_get_set_same.
    + left. now apply dict_get_set_other.
  - intros Ho Hb Hp. apply dict_get_set_other.
    intros ->. now apply Hguard.
Qed.

Lemma fire_bit_frame refresh k name value boolor a r :
  scan_frame refresh k a (fire_bit refresh name value boolor a r).
Proof.
  destruct a as [l d]. unfold fire_bit.
  destruct (edge_selected r boolor); [|apply scan_frame_refl].
  destruct (Z.eqb_spec (reg_delay r) 0) as [E|N].
  - now apply frame_fire_now.
  - destruct (reg_overwrite r || negb (Dict.mem (r, name, value) d)) eqn:G;
      [|apply scan_frame_refl].
    apply (frame_arm l d (r, name, value)). cbn [fst].
    intros Ho _ Hp _. rewrite Ho in G.
    apply dict_mem_get in Hp. rewrite Hp in G. discriminate.
Qed.

Lemma fire_nobit_frame refresh k name bs a r :
  scan_frame refresh k a (fire_nobit refresh name (VBytes bs) a r).
Proof.
  destruct a as [l d]. unfold fire_nobit.
  destruct (Z.eqb_spec (reg_delay r) 0) as [E|N].
  - now apply frame_fire_now.
  - rewrite regfunc_mem_false, Bool.orb_true_r.
    apply (frame_arm l d (r, name, VBytes bs)).
    intros _ [b Hb] _ <-. discriminate.
Qed.

Lemma scan_io_frame refresh k dev a entry :
  scan_frame refresh k a (scan_io refresh dev a entry).
Proof.
  destruct entry as [io regs]. unfold scan_io.
  destruct (bytes_eq_dec _ _); [apply scan_frame_refl|].
  destruct (Z.leb_spec 0 (io_bitaddress io)) as [Hb|Hb].
  - destruct (Bool.eqb _ _); [apply scan_frame_refl|].
    apply scan_frame_fold. intros; apply fire_bit_frame.
  - rewrite (io_value_bytes dev io Hb).
    apply scan_frame_fold. intros; apply fire_nobit_frame.
Qed.

Lemma scan_device_frame refresh k dev a :
  scan_frame refresh k a (snd (scan_device refresh dev a)).
Proof.
  unfold scan_device.
  destruct (_ || _); cbn [snd]; [apply scan_frame_refl|].
  apply scan_frame_fold. intros; apply scan_io_frame.
Qed.

Lemma mainloop_scan_frame k s a :
  scan_frame (refresh_of s) k a (snd (mainloop_scan s a)).
Proof.
  unfold mainloop_scan.
  generalize (_lst_refresh s) as ids.
  assert (G : forall ids st,
             scan_frame (refresh_of (fst st)) k (snd st)
               (snd (fold_left
                  (fun (st : RevPiModIO * Locals) id =>
                     match get_dev (fst st) id with
                     | Some dev =>
                         let '(dev', acc) :=
                           scan_device (refresh_of (fst st)) dev (snd st) in
                         (put_dev (fst st) id dev', acc)
                     | None => st
                     end) ids st))).
  { induction ids as [|id ids IH]; intros st; cbn [fold_left].
    - apply scan_frame_refl.
    - destruct (get_dev (fst st) id) as [dev|]; [|apply IH].
      destruct (scan_device (refresh_of (fst st)) dev (snd st))
        as [dev' acc] eqn:E.
      eapply scan_frame_trans; [|apply (IH (put_dev (fst st) id dev', acc))].
      change acc with (snd (dev', acc)). rewrite <- E.
      apply scan_device_frame. }
  intros ids. apply (G ids (s, a)).
Qed.

(** ** The check of the delayed events *)

Lemma delay_step_wf cur l d k :
  dict_wf d -> dict_wf (snd (delay_step cur (l, d) k)).
Proof.
  intros W. destruct k as [[r n] v]. unfold delay_step.
  destruct (reg_overwrite r && _); cbn [snd]; [now apply dict_wf_del|].
  destruct (Dict.get (r, n, v) d) as [c|]; cbn [snd]; auto.
  destruct (c - 1 <=? 0)%Z; cbn [snd];
    auto using dict_wf_del, dict_wf_set.
Qed.

Lemma delay_step_other cur l d k k' :
  k <> k' ->
  firings (fst (delay_step cur (l, d) k')) k = firings l k
  /\ Dict.get k (snd (delay_step cur (l, d) k')) = Dict.get k d.
Proof.
  intros Hne. destruct k' as [[r n] v]. unfold delay_step.
  destruct (reg_overwrite r && _); cbn [fst snd].
  - split; [reflexivity | now apply dict_get_del_other].
  - destruct (Dict.get (r, n, v) d) as [c|]; cbn [fst snd]; auto.
    destruct (c - 1 <=? 0)%Z; cbn [fst snd].
    + rewrite firings_snoc.
      destruct (EventTuple_eq_dec (r, n, v) k); [congruence|].
      split; [lia | now apply dict_get_del_other].
    + split; [reflexivity | now apply dict_get_set_other].
Qed.

Lemma delay_step_same cur l d k :
  (firings (fst (delay_step cur (l, d) k)) k,
   Dict.get k (snd (delay_step cur (l, d) k)))
  = after_delay cur k (firings l k, Dict.get k d).
Proof.
  destruct k as [[r n] v]. unfold delay_step, after_delay. cbn [fst snd].
  destruct (reg_overwrite r && _) eqn:Hc; cbn [fst snd].
  - rewrite dict_get_del_same. destruct (Dict.get (r, n, v) d); reflexivity.
  - destruct (Dict.get (r, n, v) d) as [c|] eqn:Hg; cbn [fst snd].
    + destruct (c - 1 <=? 0)%Z; cbn [fst snd].
      * rewrite firings_snoc, dict_get_del_same.
        destruct (EventTuple_eq_dec (r, n, v) (r, n, v)); [|congruence].
        f_equal. lia.
      * now rewrite dict_get_set_same.
    + now rewrite Hg.
Qed.

Lemma delay_fold_wf cur ks : forall l d,
  dict_wf d -> dict_wf (snd (fold_left (delay_step cur) ks (l, d))).
Proof.
  induction ks as [|k ks IH]; intros l d W; cbn [fold_left]; auto.
  destruct (delay_step cur (l, d) k) as [l1 d1] eqn:E.
  apply IH. change d1 with (snd (l1, d1)). rewrite <- E.
  now apply delay_step_wf.
Qed.

Lemma delay_fold_absent cur k ks : forall l d,
  ~ In k ks ->
  firings (fst (fold_left (delay_step cur) ks (l, d))) k = firings l k
  /\ Dict.get k (snd (fold_left (delay_step cur) ks (l, d))) = Dict.get k d.
Proof.
  induction ks as [|k' ks IH]; intros l d Hnin; cbn [fold_left]; auto.
  destruct (delay_step cur (l, d) k') as [l1 d1] eqn:E.
  destruct (IH l1 d1) as [F G]; [simpl in Hnin; tauto|].
  destruct (delay_step_other cur l d k k') as [F1 G1];
    [simpl in Hnin; intros ->; tauto|].
  rewrite E in F1, G1. cbn [fst snd] in F1, G1.
  rewrite F, G, F1, G1. auto.
Qed.

Lemma delay_fold_present cur k ks : forall l d,
  NoDup ks -> In k ks ->
  (firings (fst (fold_left (delay_step cur) ks (l, d))) k,
   Dict.get k (snd (fold_left (delay_step cur) ks (l, d))))
  = after_delay cur k (firings l k, Dict.get k d).
Proof.
  induction ks as [|k' ks IH]; intros l d Hnd Hin; [contradiction|].
  cbn [fold_left]. inversion Hnd as [|? ? Hnin Hnd']; subst.
  destruct (delay_step cur (l, d) k') as [l1 d1] eqn:E.
  destruct (EventTuple_eq_dec k k') as [->|Hne].
  - destruct (delay_fold_absent cur k' ks l1 d1 Hnin) as [F G].
    rewrite F, G. pose proof (delay_step_same cur l d k') as S.
    rewrite E in S. exact S.
  - destruct Hin as [->|Hin]; [congruence|].
    rewrite (IH l1 d1 Hnd' Hin).
    destruct (delay_step_other cur l d k k' Hne) as [F1 G1].
    rewrite E in F1, G1. cbn [fst snd] in F1, G1. now rewrite F1, G1.
Qed.

(** The effect of the whole check on one tuple. *)
Lemma delayed_pass_effect cur l d k :
  dict_wf d ->
  (firings (fst (delayed_pass cur (l, d))) k,
   Dict.get k (snd (delayed_pass cur (l, d))))
  = after_delay cur k (firings l k, Dict.get k d).
Proof.
  intros W. unfold delayed_pass. cbn [snd].
  destruct (in_dec EventTuple_eq_dec k (Dict.keys d)) as [Hin|Hnin].
  - now apply delay_fold_present.
  - destruct (delay_fold_absent cur k (Dict.keys d) l d Hnin) as [F G].
    rewrite F, G. apply dict_get_none in Hnin. rewrite Hnin.
    destruct k as [[r n] v]. reflexivity.
Qed.

Lemma delayed_pass_wf cur l d :
  dict_wf d -> dict_wf (snd (delayed_pass cur (l, d))).
Proof. intros W. unfold delayed_pass. now apply delay_fold_wf. Qed.

(** ** One cycle of the dispatcher *)

Lemma firings_rev l k : firings (rev l) k = firings l k.
Proof.
  induction l as [|x l IH]; cbn [rev]; auto.
  rewrite firings_snoc, IH. unfold firings. cbn [count_occ].
  destruct (EventTuple_eq_dec x k); lia.
Qed.

Lemma mainloop_tick_parts s cur locals :
  tick_locals (mainloop_tick s cur locals)
  = ([], snd (delayed_pass cur (snd (mainloop_scan s locals))))
  /\ tick_fired (mainloop_tick s cur locals)
     = rev (fst (delayed_pass cur (snd (mainloop_scan s locals)))).
Proof.
  unfold mainloop_tick, tick_locals, tick_fired.
  destruct (mainloop_scan s locals) as [s1 acc]. cbn [snd].
  destruct (delayed_pass cur acc) as [lst dd]. auto.
Qed.

(** The effect of one cycle on a tuple whose registration has a delay: the
    diff pass leaves it or arms it, then the check of the delayed events
    acts on the outcome. *)
Lemma mainloop_tick_effect s cur d k :
  dict_wf d -> reg_delay (fst (fst k)) <> 0%Z ->
  let scanned := snd (mainloop_scan s ([], d)) in
  let t := mainloop_tick s cur ([], d) in
  dict_wf (tick_dict t)
  /\ tick_locals t = ([], tick_dict t)
  /\ (firings (tick_fired t) k, Dict.get k (tick_dict t))
     = after_delay cur k (0, Dict.get k (snd scanned)).
Proof.
  intros W Hd scanned t.
  destruct (mainloop_tick_parts s cur ([], d)) as [HL HF].
  destruct (mainloop_scan_frame k s ([], d)) as (W1 & F1 & _ & _).
  fold scanned in HL, HF, W1, F1. subst t. unfold tick_dict.
  change (snd (fst (mainloop_tick s cur ([], d))))
    with (tick_locals (mainloop_tick s cur ([], d))).
  rewrite HL, HF. cbn [snd]. destruct scanned as [l1 d1] eqn:Es.
  cbn [fst snd] in *.
  split; [apply delayed_pass_wf; auto|]. split; [reflexivity|].
  rewrite firings_rev, delayed_pass_effect by auto.
  rewrite F1 by assumption. reflexivity.
Qed.

Lemma log2_mul_bounds n r :
  (0 < n)%Z -> (0 < r)%Z ->
  (Z.log2 (n * r) = Z.log2 n + Z.log2 r
   \/ Z.log2 (n * r) = Z.log2 n + Z.log2 r + 1)%Z.
Proof.
  intros Hn Hr.
  pose proof (Z.log2_mul_below n r Hn Hr).
  pose proof (Z.log2_mul_above n r (Z.lt_le_incl _ _ Hn) (Z.lt_le_incl _ _ Hr)).
  lia.
Qed.

(** An exact quotient below [2^53] is a binary64 number: the division
    gives it without rounding. *)
Lemma true_div_mul n r :
  (0 < r)%Z -> (0 < n < 2 ^ 53)%Z ->
  true_div (n * r) r
  = Some (n * 2 ^ (52 - Z.log2 n), Z.log2 n - 52)%Z.
Proof.
  intros Hr [Hn Hn53].
  assert (HN : (0 <= Z.log2 n <= 52)%Z).
  { split; [apply Z.log2_nonneg|].
    assert (Z.log2 n < 53)%Z by (apply Z.log2_lt_pow2; lia). lia. }
  pose proof (Z.log2_spec n Hn) as [Hlo Hhi].
  unfold true_div.
  destruct (Z.eqb_spec r 0) as [|_]; [lia|].
  destruct (Z.eqb_spec (n * r) 0) as [E|_]; [nia|].
  rewrite (Z.abs_eq (n * r)) by nia. rewrite (Z.abs_eq r) by lia.
  set (k := (Z.log2 (n * r) - Z.log2 r)%Z).
  assert (Hk : k = Z.log2 n \/ k = (Z.log2 n + 1)%Z)
    by (unfold k; destruct (log2_mul_bounds n r Hn Hr); lia).
  assert (Hlg : (if (r * 2 ^ Z.max 0 k <=? n * r * 2 ^ Z.max 0 (- k))%Z
                 then k else (k - 1)%Z) = Z.log2 n).
  { rewrite (Z.max_r 0 k) by lia. rewrite (Z.max_l 0 (- k)) by lia.
    rewrite Z.pow_0_r, Z.mul_1_r.
    destruct Hk as [-> | ->].
    - destruct (Z.leb_spec (r * 2 ^ Z.log2 n) (n * r)); [reflexivity|nia].
    - replace (Z.succ (Z.log2 n)) with (Z.log2 n + 1)%Z in Hhi by lia.
      destruct (Z.leb_spec (r * 2 ^ (Z.log2 n + 1)) (n * r)); [nia|lia]. }
  rewrite Hlg. clear Hlg Hk k.
  rewrite (Z.max_l (Z.log2 n - 52) (-1074)) by lia.
  rewrite (Z.max_l 0 (Z.log2 n - 52)) by lia.
  replace (Z.max 0 (- (Z.log2 n - 52))) with (52 - Z.log2 n)%Z by lia.
  rewrite Z.pow_0_r, Z.mul_1_r.
  replace (n * r * 2 ^ (52 - Z.log2 n))%Z
    with (n * 2 ^ (52 - Z.log2 n) * r)%Z by ring.
  rewrite Z.div_mul, Z.mod_mul by lia.
  destruct (Z.ltb_spec r (2 * 0)) as [|_]; [lia|].
  destruct (Z.eqb_spec r (2 * 0)) as [|_]; [lia|].
  cbn [orb andb].
  destruct (Z.ltb_spec 971 (Z.log2 n - 52)) as [|_]; [lia|].
  destruct (Z.eqb_spec (Z.log2 n - 52) 971) as [|_]; [lia|].
  cbn [orb andb].
  rewrite (Z.sgn_pos (n * r)) by nia. rewrite (Z.sgn_pos r) by lia.
  f_equal. f_equal. ring.
Qed.

Lemma ceil_div_mul n r :
  (0 < r)%Z -> (0 < n < 2 ^ 53)%Z -> ceil_div (n * r) r = n.
Proof.
  intros Hr Hn. unfold ceil_div. rewrite (true_div_mul n r Hr Hn).
  unfold ceil_float.
  assert (HN : (0 <= Z.log2 n <= 52)%Z).
  { split; [apply Z.log2_nonneg|].
    assert (Z.log2 n < 53)%Z by (apply Z.log2_lt_pow2; lia). lia. }
  destruct (Z.leb_spec 0 (Z.log2 n - 52)).
  - replace (Z.log2 n - 52)%Z with 0%Z by lia.
    replace (52 - Z.log2 n)%Z with 0%Z by lia. cbn. lia.
  - replace (- (Z.log2 n - 52))%Z with (52 - Z.log2 n)%Z by lia.
    rewrite <- Z.mul_opp_l, Z.div_mul; [lia|].
    apply Z.pow_nonzero; lia.
Qed.

(** A tuple that the diff pass finds absent and leaves pending was armed by
    it, with the countdown [ceil(delay / refresh)]. *)
Lemma mainloop_scan_arms s d k :
  Dict.get k d = None ->
  Dict.mem k (snd (snd (mainloop_scan s ([], d)))) = true ->
  Dict.get k (snd (snd (mainloop_scan s ([], d))))
  = Some (ceil_div (reg_delay (fst (fst k))) (refresh_of s)).
Proof.
  intros Hn Hm.
  destruct (mainloop_scan_frame k s ([], d)) as (_ & _ & [G|G] & _); auto.
  cbn [snd] in G. apply dict_mem_get in Hm. congruence.
Qed.

(** The countdown of a pending tuple is decremented once in every cycle,
    the cycle of the detection included, and the tuple is fired in the cycle
    in which the countdown is used up; this is for a registration that does
    not ask for a restart and a tuple with a boolean value. *)
Lemma countdown_step s cur d rf name b c :
  let k := (rf, name, VBool b) in
  let t := mainloop_tick s cur ([], d) in
  dict_wf d -> reg_delay rf <> 0%Z -> reg_overwrite rf = false ->
  Dict.get k (snd (snd (mainloop_scan s ([], d)))) = Some c ->
  dict_wf (tick_dict t)
  /\ tick_locals t = ([], tick_dict t)
  /\ firings (tick_fired t) k = (if (c - 1 <=? 0)%Z then 1 else 0)
  /\ Dict.get k (tick_dict t)
     = (if (c - 1 <=? 0)%Z then None else Some (c - 1)%Z).
Proof.
  intros k t W Hd Ho Hg.
  destruct (mainloop_tick_effect s cur d k W Hd) as (W' & HL & E).
  fold t in W', HL, E. rewrite Hg in E.
  unfold after_delay, k in E. cbn [fst snd] in E. rewrite Ho in E.
  cbn [andb] in E. split; [exact W'|]. split; [exact HL|].
  destruct (c - 1 <=? 0)%Z; inversion E; auto.
Qed.

Lemma mainloop_scan_keeps s d rf name b c :
  reg_overwrite rf = false ->
  Dict.get (rf, name, VBool b) d = Some c ->
  Dict.get (rf, name, VBool b) (snd (snd (mainloop_scan s ([], d)))) = Some c.
Proof.
  intros Ho Hg.
  destruct (mainloop_scan_frame (rf, name, VBool b) s ([], d))
    as (_ & _ & _ & K).
  cbn [fst snd] in K. rewrite K; eauto. congruence.
Qed.

(** A countdown of [c] after the diff pass of the detection cycle lets the
    tuple fire in the [c]-th cycle counting the detection cycle, that is
    [c - 1] cycles after it, and in none before, whatever the managers and
    values of the cycles in between. *)
Lemma countdown_run rest : forall s cur d rf name b c,
  let k := (rf, name, VBool b) in
  dict_wf d -> reg_delay rf <> 0%Z -> reg_overwrite rf = false ->
  Dict.get k (snd (snd (mainloop_scan s ([], d)))) = Some c ->
  Z.of_nat (List.length rest) = (c - 1)%Z ->
  map (fun fired => firings fired k) (run_cycles ((s, cur) :: rest) ([], d))
  = repeat 0 (List.length rest) ++ [1].
Proof.
  induction rest as [|[s' cur'] rest IH]; intros s cur d rf name b c k W Hd Ho
    Hg Hlen; cbn [run_cycles map List.length repeat app].
  - destruct (countdown_step s cur d rf name b c W Hd Ho Hg)
      as (_ & _ & F & _).
    fold k in F. rewrite F. cbn [List.length] in Hlen.
    destruct (Z.leb_spec (c - 1) 0); [reflexivity | lia].
  - destruct (countdown_step s cur d rf name b c W Hd Ho Hg)
      as (W' & L & F & G).
    fold k in F, G. cbn [List.length] in Hlen.
    destruct (Z.leb_spec (c - 1) 0); [lia|].
    rewrite F, L. f_equal.
    apply (IH s' cur' _ rf name b (c - 1)%Z); auto.
    + apply mainloop_scan_keeps; assumption.
    + lia.
Qed.

(** C3, as the dispatcher does it. For a registration with delay =
    3 x cycle time, detected on an edge in some cycle (its tuple was not
    pending before the diff pass of that cycle and is pending after it):
    the countdown is initialised to [ceil(delay / cycle time)] = 3 and is
    decremented once in every cycle, the detection cycle included. When the
    registration does not ask for a restart, the tuple is not fired in the
    detection cycle nor in the next one and is fired exactly once in the
    second cycle after the detection cycle, whatever the devices hold in
    between. When the registration asks for a restart and the current
    value differs from the captured one as the delayed events are checked,
    the tuple is not fired in that cycle and is no longer pending; and a
    tuple that is not pending and that the diff pass does not arm is not
    fired. *)
Theorem delayed_firing s0 s1 s2 cur0 cur1 cur2 d0 rf name b :
  let k := (rf, name, VBool b) in
  let scanned := snd (snd (mainloop_scan s0 ([], d0))) in
  let t0 := mainloop_tick s0 cur0 ([], d0) in
  let t1 := mainloop_tick s1 cur1 (tick_locals t0) in
  let t2 := mainloop_tick s2 cur2 (tick_locals t1) in
  dict_wf d0 -> (0 < refresh_of s0)%Z ->
  reg_delay rf = (3 * refresh_of s0)%Z ->
  Dict.get k d0 = None -> Dict.mem k scanned = true ->
  Dict.get k scanned = Some (ceil_div (reg_delay rf) (refresh_of s0))
  /\ ceil_div (reg_delay rf) (refresh_of s0) = 3%Z
  /\ (reg_overwrite rf = false ->
      firings (tick_fired t0) k = 0
      /\ Dict.get k (tick_dict t0) = Some 2%Z
      /\ firings (tick_fired t1) k = 0
      /\ Dict.get k (tick_dict t1) = Some 1%Z
      /\ firings (tick_fired t2) k = 1
      /\ Dict.get k (tick_dict t2) = None)
  /\ (reg_overwrite rf = true ->
      forall s cur d,
        dict_wf d ->
        let t := mainloop_tick s cur ([], d) in
        (cur name <> VBool b ->
         firings (tick_fired t) k = 0 /\ Dict.get k (tick_dict t) = None)
        /\ (Dict.get k (snd (snd (mainloop_scan s ([], d)))) = None ->
            firings (tick_fired t) k = 0 /\ Dict.get k (tick_dict t) = None)).
Proof.
  intros k scanned t0 t1 t2 W Hr Hdelay Hn Hm.
  assert (Hd : reg_delay rf <> 0%Z) by lia.
  assert (Hc : ceil_div (reg_delay rf) (refresh_of s0) = 3%Z)
    by (rewrite Hdelay; apply ceil_div_mul; [lia | split; reflexivity]).
  assert (Hs : Dict.get k scanned
               = Some (ceil_div (reg_delay rf) (refresh_of s0)))
    by (apply (mainloop_scan_arms s0 d0 k Hn Hm)).
  split; [exact Hs|]. split; [exact Hc|]. split.
  - intros Ho. rewrite Hc in Hs.
    destruct (countdown_step s0 cur0 d0 rf name b 3 W Hd Ho Hs)
      as (W0 & L0 & F0 & G0).
    fold t0 in W0, L0, F0, G0. fold k in F0, G0. cbn in F0, G0.
    assert (Hs1 : Dict.get k (snd (snd (mainloop_scan s1 ([], tick_dict t0))))
                  = Some 2%Z)
      by (apply mainloop_scan_keeps; assumption).
    destruct (countdown_step s1 cur1 (tick_dict t0) rf name b 2 W0 Hd Ho Hs1)
      as (W1 & L1 & F1 & G1).
    rewrite <- L0 in W1, L1, F1, G1.
    fold t1 in W1, L1, F1, G1. fold k in F1, G1. cbn in F1, G1.
    assert (Hs2 : Dict.get k (snd (snd (mainloop_scan s2 ([], tick_dict t1))))
                  = Some 1%Z)
      by (apply mainloop_scan_keeps; assumption).
    destruct (countdown_step s2 cur2 (tick_dict t1) rf name b 1 W1 Hd Ho Hs2)
      as (W2 & L2 & F2 & G2).
    rewrite <- L1 in W2, L2, F2, G2.
    fold t2 in W2, L2, F2, G2. fold k in F2, G2. cbn in F2, G2.
    auto 10.
  - intros Ho s cur d Wd t.
    destruct (mainloop_tick_effect s cur d k Wd Hd) as (_ & _ & E).
    fold t in E. unfold after_delay, k in E. cbn [fst snd] in E.
    rewrite Ho in E. cbn [andb] in E. split.
    + intros Hne.
      destruct (Value_eq_dec (cur name) (VBool b)); [contradiction|].
      destruct (Dict.get _ (snd (snd (mainloop_scan s ([], d)))));
        inversion E; auto.
    + intros Hnone. unfold k in Hnone. rewrite Hnone in E.
      inversion E; auto.
Qed.

(** ** A whole cycle on one device *)

Lemma scan_io_lst refresh dev l d entry :
  fst (scan_io refresh dev (l, d) entry) = l ++ immediate dev entry.
Proof.
  destruct entry as [io regs]. unfold scan_io, immediate.
  fold (bit_live dev io). fold (bit_baseline dev io).
  destruct (bytes_eq_dec _ _); [now rewrite app_nil_r|].
  destruct (0 <=? io_bitaddress io)%Z.
  - destruct (Bool.eqb _ _); [now rewrite app_nil_r|].
    apply fire_bit_lst.
  - apply fire_nobit_lst.
Qed.

Lemma scan_events_lst refresh dev events : forall l d,
  fst (fold_left (scan_io refresh dev) events (l, d))
  = l ++ flat_map (immediate dev) events.
Proof.
  induction events as [|e es IH]; intros l d; cbn [fold_left flat_map].
  - now rewrite app_nil_r.
  - destruct (scan_io refresh dev (l, d) e) as [l1 d1] eqn:E.
    rewrite IH, app_assoc. f_equal.
    change l1 with (fst (l1, d1)). rewrite <- E. apply scan_io_lst.
Qed.

Lemma immediate_names dev entry k :
  In k (immediate dev entry) -> snd (fst k) = io_name (fst entry).
Proof.
  destruct entry as [io regs]. unfold immediate.
  destruct (bytes_eq_dec _ _); [contradiction|].
  destruct (0 <=? io_bitaddress io)%Z.
  - destruct (Bool.eqb _ _); [contradiction|].
    rewrite in_map_iff. intros (r & <- & _). reflexivity.
  - rewrite in_map_iff. intros (r & <- & _). reflexivity.
Qed.

Lemma firings_absent l k : ~ In k l -> firings l k = 0.
Proof. intros H. now apply count_occ_not_In. Qed.

Lemma firings_other_points dev events k :
  (forall e, In e events -> io_name (fst e) <> snd (fst k)) ->
  firings (flat_map (immediate dev) events) k = 0.
Proof.
  intros H. apply firings_absent. rewrite in_flat_map.
  intros (e & He & Hk). apply (H e He). symmetry.
  exact (immediate_names dev e k Hk).
Qed.

Lemma firings_one_point dev events io regs k :
  NoDup (map (fun e => io_name (fst e)) events) ->
  In (io, regs) events -> snd (fst k) = io_name io ->
  firings (flat_map (immediate dev) events) k
  = firings (immediate dev (io, regs)) k.
Proof.
  intros Hnd Hin Hname.
  apply in_split in Hin. destruct Hin as (es1 & es2 & ->).
  rewrite map_app in Hnd. cbn [map fst] in Hnd.
  apply NoDup_remove_2 in Hnd.
  rewrite flat_map_app. cbn [flat_map]. rewrite !firings_app.
  rewrite !firings_other_points; [lia| |].
  - intros e He Heq. apply Hnd. apply in_or_app. right.
    rewrite <- Hname, <- Heq. now apply (in_map (fun e => io_name (fst e))).
  - intros e He Heq. apply Hnd. apply in_or_app. left.
    rewrite <- Hname, <- Heq. now apply (in_map (fun e => io_name (fst e))).
Qed.

Lemma fire_bit_zero_delay refresh name value boolor a r k :
  reg_delay (fst (fst k)) = 0%Z ->
  Dict.get k (snd (fire_bit refresh name value boolor a r))
  = Dict.get k (snd a).
Proof.
  intros Hk. destruct a as [l d]. unfold fire_bit.
  destruct (edge_selected r boolor); auto.
  destruct (Z.eqb_spec (reg_delay r) 0); auto.
  destruct (reg_overwrite r || _); auto.
  cbn [snd]. apply dict_get_set_other. intros ->. auto.
Qed.

Lemma fire_nobit_zero_delay refresh name value a r k :
  reg_delay (fst (fst k)) = 0%Z ->
  Dict.get k (snd (fire_nobit refresh name value a r)) = Dict.get k (snd a).
Proof.
  intros Hk. destruct a as [l d]. unfold fire_nobit.
  destruct (Z.eqb_spec (reg_delay r) 0); auto.
  destruct (reg_overwrite r || _); auto.
  cbn [snd]. apply dict_get_set_other. intros ->. auto.
Qed.

Lemma fold_zero_delay {A} (f : Locals -> A -> Locals) k xs :
  (forall a x, Dict.get k (snd (f a x)) = Dict.get k (snd a)) ->
  forall a, Dict.get k (snd (fold_left f xs a)) = Dict.get k (snd a).
Proof.
  intros H. induction xs as [|x xs IH]; intros a; cbn [fold_left]; auto.
  rewrite IH. apply H.
Qed.

(** The diff pass sets no countdown for a registration without delay. *)
Lemma scan_device_zero_delay refresh dev a k :
  reg_delay (fst (fst k)) = 0%Z ->
  Dict.get k (snd (snd (scan_device refresh dev a))) = Dict.get k (snd a).
Proof.
  intros Hk. unfold scan_device. destruct (_ || _); cbn [snd]; auto.
  apply fold_zero_delay. intros a' [io regs]. unfold scan_io.
  destruct (bytes_eq_dec _ _); auto.
  destruct (0 <=? io_bitaddress io)%Z.
  - destruct (Bool.eqb _ _); auto.
    apply fold_zero_delay. intros. now apply fire_bit_zero_delay.
  - apply fold_zero_delay. intros. now apply fire_nobit_zero_delay.
Qed.

Lemma mainloop_scan_single s id dev acc :
  _lst_refresh s = [id] -> get_dev s id = Some dev ->
  snd (mainloop_scan s acc) = snd (scan_device (refresh_of s) dev acc).
Proof.
  intros Hl Hg. unfold mainloop_scan. rewrite Hl. cbn [fold_left fst snd].
  rewrite Hg. destruct (scan_device (refresh_of s) dev acc). reflexivity.
Qed.

(** Edge detection over a whole cycle, with one device under cyclic refresh
    whose registered points have different names: a registration without
    delay on a point with a bit index is fired exactly once in the cycle
    when the bit has changed and the edge matches, and not at all
    otherwise. *)
Lemma edge_cycle s cur d id dev io regs rf :
  _lst_refresh s = [id] -> get_dev s id = Some dev ->
  NoDup (map (fun e => io_name (fst e)) (dev_dict_events dev)) ->
  In (io, regs) (dev_dict_events dev) ->
  (0 <= io_bitaddress io)%Z -> NoDup regs -> In rf regs ->
  reg_delay rf = 0%Z ->
  dict_wf d -> Dict.get (rf, io_name io, VBool (bit_live dev io)) d = None ->
  firings (tick_fired (mainloop_tick s cur ([], d)))
    (rf, io_name io, VBool (bit_live dev io))
  = if negb (Bool.eqb (bit_live dev io) (bit_baseline dev io))
       && edge_selected rf (bit_live dev io)
    then 1 else 0.
Proof.
  intros Hl Hg Hnames Hin Hbit Hnd Hrf Hdel W Hnone.
  set (k := (rf, io_name io, VBool (bit_live dev io))) in *.
  destruct (mainloop_tick_parts s cur ([], d)) as [_ HF]. rewrite HF.
  rewrite (mainloop_scan_single s id dev ([], d) Hl Hg).
  rewrite firings_rev.
  destruct (snd (scan_device (refresh_of s) dev ([], d))) as [l1 d1] eqn:E.
  assert (W1 : dict_wf d1).
  { destruct (scan_device_frame (refresh_of s) k dev ([], d)) as (W1 & _).
    rewrite E in W1. now apply W1. }
  assert (G1 : Dict.get k d1 = None).
  { pose proof (scan_device_zero_delay (refresh_of s) dev ([], d) k Hdel)
      as G. rewrite E in G. cbn [snd] in G. congruence. }
  pose proof (delayed_pass_effect cur l1 d1 k W1) as P.
  rewrite G1 in P. unfold after_delay, k in P. cbn [snd] in P.
  fold k in P. injection P as P _. rewrite P.
  assert (L1 : l1 = fst (snd (scan_device (refresh_of s) dev ([], d))))
    by now rewrite E.
  rewrite L1. clear L1 E P G1 W1.
  unfold scan_device.
  destruct (dev_dict_events dev) as [|e0 es] eqn:Ev; [contradiction|].
  cbn [List.length Nat.eqb orb].
  destruct (bytes_eq_dec (dev_ba_datacp dev) (dev_ba_devdata dev)) as [Eq|Ne].
  - cbn [snd fst]. unfold bit_live, bit_baseline. rewrite Eq.
    now rewrite Bool.eqb_reflx.
  - cbn [snd]. rewrite scan_events_lst. cbn [app].
    rewrite <- Ev in *.
    rewrite (firings_one_point dev (dev_dict_events dev) io regs k Hnames Hin
               eq_refl).
    pose proof (scan_io_lst 0 dev [] [] (io, regs)) as HI. cbn [app] in HI.
    rewrite <- HI, (scan_io_bit 0 dev io regs _ Hbit).
    destruct (Bool.eqb (bit_live dev io) (bit_baseline dev io));
      [reflexivity|]. cbn [negb andb].
    rewrite fire_bit_lst. cbn [app]. unfold k.
    rewrite firings_tuples, count_occ_filter.
    destruct (edge_selected rf (bit_live dev io)); [|reflexivity].
    destruct (Z.eqb_spec (reg_delay rf) 0); [|contradiction]. cbn [andb].
    apply NoDup_count_occ'; assumption.
Qed.

(** ** The delay in the small installation *)

(** C3 does not hold as stated: with a delay of 3 cycle times the callback
    is fired in the second cycle after the detection cycle, and nothing is
    fired in the third. *)
Lemma delayed_firing_not_three_after :
  let k := (Example.rising_late, "I_1"%string, VBool true) in
  reg_delay Example.rising_late
  = (3 * refresh_of (Example.watching Example.b00 Example.b01))%Z
  /\ Dict.get k [] = None
  /\ Dict.get k
       (snd (snd (mainloop_scan (Example.watching Example.b00 Example.b01)
                    ([], []))))
     = Some 3%Z
  /\ firings (tick_fired Example.cycle0) k = 0
  /\ firings (tick_fired Example.cycle1) k = 0
  /\ firings (tick_fired Example.cycle2) k = 1
  /\ firings (tick_fired Example.cycle3) k = 0.
Proof. vm_compute. intuition discriminate. Qed.

Lemma delayed_firing_witness :
  dict_wf []
  /\ (0 < refresh_of (Example.watching Example.b00 Example.b01))%Z
  /\ reg_delay Example.rising_late
     = (3 * refresh_of (Example.watching Example.b00 Example.b01))%Z
  /\ (let k := (Example.rising_late, "I_1"%string, VBool true) in
      let t0 :=
        mainloop_tick (Example.watching Example.b00 Example.b01)
          Example.is_true ([], []) in
      let t1 :=
        mainloop_tick (Example.watching Example.b01 Example.b00)
          Example.is_false (tick_locals t0) in
      let t2 :=
        mainloop_tick (Example.watching Example.b00 Example.b00)
          Example.is_false (tick_locals t1) in
      firings (tick_fired t0) k = 0
      /\ firings (tick_fired t1) k = 0
      /\ firings (tick_fired t2) k = 1).
Proof.
  assert (W : dict_wf []) by constructor.
  assert (R : (0 < refresh_of (Example.watching Example.b00 Example.b01))%Z)
    by reflexivity.
  assert (D : reg_delay Example.rising_late
              = (3 * refresh_of (Example.watching Example.b00 Example.b01))%Z)
    by reflexivity.
  split; [exact W|]. split; [exact R|]. split; [exact D|].
  pose proof
    (delayed_firing (Example.watching Example.b00 Example.b01)
       (Example.watching Example.b01 Example.b00)
       (Example.watching Example.b00 Example.b00)
       Example.is_true Example.is_false Example.is_false []
       Example.rising_late "I_1"%string true W R D eq_refl eq_refl) as H.
  destruct H as (_ & _ & H & _).
  destruct (H eq_refl) as (F0 & _ & F1 & _ & F2 & _).
  cbv zeta. auto.
Defined.

(** With a registration that asks for it, the pending tuple is cancelled as
    soon as the input has gone back: nothing of it is fired in the four
    cycles, and nothing is pending after them. *)
Lemma delayed_firing_cancelled :
  let k := (Example.rising_fresh, "I_1"%string, VBool true) in
  let t0 :=
    mainloop_tick (Example.watching Example.b00 Example.b01)
      Example.is_true ([], []) in
  let t1 :=
    mainloop_tick (Example.watching Example.b01 Example.b00)
      Example.is_false (tick_locals t0) in
  let t2 :=
    mainloop_tick (Example.watching Example.b00 Example.b00)
      Example.is_false (tick_locals t1) in
  Dict.get k (tick_dict t0) = Some 2%Z
  /\ Dict.get k (tick_dict t1) = None
  /\ firings (tick_fired t0 ++ tick_fired t1 ++ tick_fired t2) k = 0.
Proof. vm_compute. auto. Qed.

(** ** Pending entries and new detections *)

(** On a point with a bit index a pending tuple keeps its countdown through
    a diff pass, unless its registration asks for a restart. *)
Lemma bit_pending_kept refresh dev io regs l d rf value c :
  (0 <= io_bitaddress io)%Z ->
  reg_overwrite rf = false ->
  Dict.get (rf, io_name io, value) d = Some c ->
  Dict.get (rf, io_name io, value)
    (snd (scan_io refresh dev (l, d) (io, regs))) = Some c.
Proof.
  intros Hbit Ho Hg. rewrite (scan_io_bit refresh dev io regs (l, d) Hbit).
  destruct (Bool.eqb _ _); cbn [snd]; auto.
  revert l d Hg. induction regs as [|r regs IH]; intros l d Hg;
    cbn [fold_left]; auto.
  destruct (fire_bit refresh (io_name io) (VBool (bit_live dev io))
              (bit_live dev io) (l, d) r) as [l1 d1] eqn:E.
  apply IH. change d1 with (snd (l1, d1)). rewrite <- E.
  unfold fire_bit.
  destruct (edge_selected r (bit_live dev io)); auto.
  destruct (reg_delay r =? 0)%Z; auto.
  destruct (reg_overwrite r
            || negb (Dict.mem (r, io_name io, VBool (bit_live dev io)) d))
    eqn:G; auto.
  cbn [snd]. rewrite dict_get_set_other; auto.
  intros Heq. inversion Heq; subst. rewrite Ho in G.
  assert (Hm : Dict.mem (r, io_name io, VBool (bit_live dev io)) d = true)
    by (apply dict_mem_get; congruence).
  rewrite Hm in G. discriminate.
Qed.

(** With a restart asked for, a new detection replaces the countdown, with
    or without a bit index. *)
Lemma restart_replaces refresh name value boolor l d rf :
  reg_overwrite rf = true -> reg_delay rf <> 0%Z ->
  (edge_selected rf boolor = true ->
   Dict.get (rf, name, value)
     (snd (fire_bit refresh name value boolor (l, d) rf))
   = Some (ceil_div (reg_delay rf) refresh))
  /\ Dict.get (rf, name, value)
       (snd (fire_nobit refresh name value (l, d) rf))
     = Some (ceil_div (reg_delay rf) refresh).
Proof.
  intros Ho Hd. split.
  - intros Hsel. rewrite fire_bit_get_same by assumption.
    unfold armed. now rewrite Ho.
  - unfold fire_nobit.
    destruct (Z.eqb_spec (reg_delay rf) 0); [contradiction|].
    rewrite Ho. cbn [orb snd]. apply dict_get_set_same.
Qed.

(** On a point without a bit index every new detection sets the countdown
    anew, pending or not, restart asked for or not: the membership test of
    that branch looks for the registration, which is never a key. *)
Lemma nobit_always_restarts refresh name value l d rf :
  reg_delay rf <> 0%Z ->
  Dict.get (rf, name, value)
    (snd (fire_nobit refresh name value (l, d) rf))
  = Some (ceil_div (reg_delay rf) refresh).
Proof.
  intros Hd. unfold fire_nobit.
  destruct (Z.eqb_spec (reg_delay rf) 0); [contradiction|].
  rewrite regfunc_mem_false, Bool.orb_true_r. cbn [snd].
  apply dict_get_set_same.
Qed.

(** C4 at a point without a bit index: the tuple of a registration that
    does not ask for a restart is pending with one cycle to go; the same
    value is detected again; the diff pass sets the countdown back to 3. *)
Theorem nobit_pending_restarted :
  reg_overwrite Example.counter_late = false
  /\ Dict.get Example.counter_key [(Example.counter_key, 1%Z)] = Some 1%Z
  /\ scan_io 50 Example.counter_back ([], [(Example.counter_key, 1%Z)])
       (Example.Counter_1, [Example.counter_late])
     = ([], [(Example.counter_key, 3%Z)]).
Proof. vm_compute. auto. Qed.

(** ** I/O error accounting *)

Lemma gotioerror_spec s action :
  _gotioerror s action
  = if threshold_reached s
    then (Raise (RuntimeError "reach max io error count on process image"),
          with_ioerror s (_ioerror s + 1))
    else (Return tt,
          warn (with_ioerror s (_ioerror s + 1))
            (WarnIOError (_ioerror s + 1))).
Proof. reflexivity. Qed.

Lemma read_image_then_failed f mylist s :
  fh_ok (_myfh s) = false ->
  accounted s (read_image_then f mylist s)
  /\ objects (snd (read_image_then f mylist s)) = objects s.
Proof.
  intros Hf. unfold read_image_then, fh_read. rewrite Hf.
  rewrite gotioerror_spec. unfold accounted.
  change (threshold_reached (with_myfh s _)) with (threshold_reached s).
  destruct (threshold_reached s); cbn; auto.
Qed.

Lemma read_image_then_ok f mylist s :
  fh_ok (_myfh s) = true ->
  read_image_then f mylist s
  = (Return true,
     update_devices (f (firstn (_length s) (fh_image (_myfh s)))) mylist
       (with_myfh s
          (fh_logged (_myfh s) (FhRead (_length s)) (fh_image (_myfh s))))).
Proof.
  intros Hf. unfold read_image_then, fh_read. now rewrite Hf.
Qed.

Lemma selfupdate_of_plain s id : plain_device s id -> selfupdate_of s id = false.
Proof.
  intros (dev & Hg & Hs). unfold selfupdate_of. now rewrite Hg.
Qed.

Lemma write_devices_single_failed s id :
  plain_device s id -> fh_ok (_myfh s) = false ->
  accounted s (write_devices [id] s).
Proof.
  intros (dev & Hg & Hs) Hf. unfold write_devices, write_device.
  cbn [fold_left]. rewrite Hg, Hs. unfold fh_write. cbn [fst snd].
  rewrite Hf. cbn [andb].
  destruct (_buffedwrite s).
  - unfold fh_flush. cbn [andb negb]. rewrite gotioerror_spec.
    unfold accounted.
    change (threshold_reached (with_myfh s _)) with (threshold_reached s).
    destruct (threshold_reached s); cbn; auto.
  - cbn [negb]. rewrite gotioerror_spec. unfold accounted.
    change (threshold_reached (with_myfh s _)) with (threshold_reached s).
    destruct (threshold_reached s); cbn; auto.
Qed.

Lemma write_device_fails s id acc :
  (forall n, fh_fails (fst acc) n = true) ->
  (forall n, fh_fails (fst (write_device s acc id)) n = true)
  /\ (snd acc = false \/ plain_device s id ->
      snd (write_device s acc id) = false).
Proof.
  intros Hall. unfold write_device.
  destruct (get_dev s id) as [dev|] eqn:Hg.
  - destruct (dev_selfupdate dev) eqn:Hs.
    + split; [exact Hall|]. intros [H|(d & Hd & Hp)]; [exact H|].
      congruence.
    + unfold fh_write, fh_ok. rewrite Hall. cbn.
      split; [exact Hall|]. intros _. apply Bool.andb_false_r.
  - split; [exact Hall|]. intros [H|(d & Hd & _)]; [exact H|congruence].
Qed.

Lemma write_fold_fails s mylist : forall acc,
  (forall n, fh_fails (fst acc) n = true) ->
  (snd acc = false \/ exists id, In id mylist /\ plain_device s id) ->
  snd (fold_left (write_device s) mylist acc) = false.
Proof.
  induction mylist as [|id ids IH]; intros acc Hall H; cbn [fold_left].
  - destruct H as [H|(id & [] & _)]. exact H.
  - destruct (write_device_fails s id acc Hall) as [Hall' Hstep].
    apply IH; [exact Hall'|].
    destruct H as [H|(id' & [<-|Hin] & Hp)]; eauto.
Qed.

Lemma write_devices_failed s mylist :
  (forall n, fh_fails (_myfh s) n = true) ->
  (exists id, In id mylist /\ plain_device s id) ->
  accounted s (write_devices mylist s).
Proof.
  intros Hall Hex. unfold write_devices.
  pose proof (write_fold_fails s mylist (_myfh s, true) Hall (or_intror Hex))
    as Hok.
  destruct (fold_left (write_device s) mylist (_myfh s, true)) as [fh1 ok1].
  cbn [snd] in Hok. subst ok1.
  destruct (_buffedwrite s); cbn [andb negb fh_flush];
    rewrite gotioerror_spec; unfold accounted;
    change (threshold_reached (with_myfh s _)) with (threshold_reached s);
    destruct (threshold_reached s); cbn; auto.
Qed.

Lemma readprocimg_failed s :
  fh_ok (_myfh s) = false ->
  accounted s (readprocimg s None)
  /\ _myfh (snd (readprocimg s None))
     = fh_logged (_myfh s) (FhRead (_length s)) (fh_image (_myfh s))
  /\ _maxioerrors (snd (readprocimg s None)) = _maxioerrors s.
Proof.
  intros Hf. split; [apply read_image_then_failed, Hf|].
  unfold readprocimg, read_image_then, fh_read. rewrite Hf.
  rewrite gotioerror_spec.
  change (threshold_reached (with_myfh s _)) with (threshold_reached s).
  destruct (threshold_reached s); cbn; auto.
Qed.

Lemma existsb_map {A B} (f : B -> bool) (g : A -> B) l :
  existsb f (map g l) = existsb (fun x => f (g x)) l.
Proof. induction l as [|x l IH]; cbn; [reflexivity | now rewrite IH]. Qed.

Lemma some_fails_next fh op image n :
  some_fails fh (S n)
  = negb (fh_ok fh) || some_fails (fh_logged fh op image) n.
Proof.
  unfold some_fails, fh_ok, fh_logged. cbn [fh_log fh_fails].
  rewrite Bool.negb_involutive.
  change (seq 0 (S n)) with (0 :: seq 1 n). cbn [existsb].
  rewrite Nat.add_0_r. f_equal.
  rewrite <- seq_shift, existsb_map, length_app. cbn [List.length].
  induction (seq 0 n) as [|i l IH]; cbn [existsb]; [reflexivity|].
  rewrite IH. do 2 f_equal. lia.
Qed.

Lemma some_fails_last fh n :
  some_fails fh (n + 1)
  = some_fails fh n || fh_fails fh (List.length (fh_log fh) + n).
Proof.
  unfold some_fails. rewrite seq_app, existsb_app. cbn [seq existsb].
  now rewrite Bool.orb_false_r.
Qed.

Lemma write_fold_log s mylist : forall acc,
  fh_log (fst (fold_left (write_device s) mylist acc))
  = fh_log (fst acc) ++ device_writes s mylist.
Proof.
  unfold device_writes.
  induction mylist as [|id ids IH]; intros acc; cbn [fold_left flat_map].
  - now rewrite app_nil_r.
  - rewrite IH. unfold write_device, out_write.
    destruct (get_dev s id) as [dev|]; [|reflexivity].
    destruct (dev_selfupdate dev); [reflexivity|].
    cbn [fh_write fst fh_logged fh_log]. now rewrite <- app_assoc.
Qed.

Lemma write_fold_fails_same s mylist : forall acc,
  fh_fails (fst (fold_left (write_device s) mylist acc)) = fh_fails (fst acc).
Proof.
  induction mylist as [|id ids IH]; intros acc; cbn [fold_left]; auto.
  rewrite IH. unfold write_device.
  destruct (get_dev s id) as [dev|]; auto.
  destruct (dev_selfupdate dev); auto.
Qed.

(** [workokay] after the loop over the devices: none of the writes has
    failed. *)
Lemma write_fold_workokay s mylist : forall fh ok,
  snd (fold_left (write_device s) mylist (fh, ok))
  = ok && negb (some_fails fh (List.length (device_writes s mylist))).
Proof.
  induction mylist as [|id ids IH]; intros fh ok; cbn [fold_left].
  - cbn. now rewrite Bool.andb_true_r.
  - unfold device_writes. cbn [flat_map]. fold (device_writes s ids).
    unfold write_device at 2.
    destruct (get_dev s id) as [dev|]; [|apply IH].
    destruct (dev_selfupdate dev); [apply IH|].
    cbn [fh_write fst snd app List.length].
    rewrite IH.
    rewrite (some_fails_next fh (out_write dev)
               (if fh_ok fh
                then written (fh_image fh) (start (dev_slc_outoff dev))
                       (getslice (dev_ba_devdata dev) (dev_slc_out dev))
                else fh_image fh)).
    unfold out_write. destruct ok, (fh_ok fh); reflexivity.
Qed.

Lemma write_devices_log s mylist :
  fh_log (_myfh (snd (write_devices mylist s)))
  = fh_log (_myfh s) ++ device_writes s mylist
    ++ (if _buffedwrite s then [FhFlush] else []).
Proof.
  unfold write_devices.
  pose proof (write_fold_log s mylist (_myfh s, true)) as HL.
  destruct (fold_left (write_device s) mylist (_myfh s, true)) as [fh1 ok1].
  cbn [fst] in HL.
  destruct (_buffedwrite s); cbn [fh_flush].
  - destruct (negb (ok1 && fh_ok fh1)).
    + rewrite gotioerror_spec.
      change (threshold_reached (with_myfh s _)) with (threshold_reached s).
      destruct (threshold_reached s); cbn; rewrite HL, <- app_assoc; auto.
    + cbn. rewrite HL, <- app_assoc. auto.
  - rewrite app_nil_r. destruct (negb ok1).
    + rewrite gotioerror_spec.
      change (threshold_reached (with_myfh s _)) with (threshold_reached s).
      destruct (threshold_reached s); cbn; auto.
    + cbn. auto.
Qed.

(** A write fails when one at least of its file operations fails; it is
    then accounted for once, however many of them have failed. *)
Lemma write_devices_accounting s mylist :
  if some_fails (_myfh s) (List.length (write_ops s mylist))
  then accounted s (write_devices mylist s)
  else succeeded s (write_devices mylist s).
Proof.
  unfold write_devices, write_ops.
  pose proof (write_fold_workokay s mylist (_myfh s) true) as Hok.
  pose proof (write_fold_log s mylist (_myfh s, true)) as Hlog.
  pose proof (write_fold_fails_same s mylist (_myfh s, true)) as Hfails.
  destruct (fold_left (write_device s) mylist (_myfh s, true)) as [fh1 ok1].
  cbn [fst snd andb] in Hok, Hlog, Hfails. subst ok1.
  set (n := List.length (device_writes s mylist)) in *.
  destruct (_buffedwrite s).
  - rewrite length_app. fold n. cbn [List.length].
    rewrite some_fails_last. cbn [fh_flush].
    assert (F : fh_ok fh1
                = negb (fh_fails (_myfh s)
                          (List.length (fh_log (_myfh s)) + n)))
      by (unfold fh_ok; rewrite Hfails, Hlog, length_app; reflexivity).
    rewrite F.
    destruct (some_fails (_myfh s) n); cbn [negb andb orb].
    + rewrite gotioerror_spec. unfold accounted.
      change (threshold_reached (with_myfh s _)) with (threshold_reached s).
      destruct (threshold_reached s); cbn; auto.
    + destruct (fh_fails (_myfh s) _); cbn [negb].
      * rewrite gotioerror_spec. unfold accounted.
        change (threshold_reached (with_myfh s _))
          with (threshold_reached s).
        destruct (threshold_reached s); cbn; auto.
      * unfold succeeded. cbn. auto.
  - rewrite app_nil_r. fold n.
    destruct (some_fails (_myfh s) n); cbn [negb].
    + rewrite gotioerror_spec. unfold accounted.
      change (threshold_reached (with_myfh s _)) with (threshold_reached s).
      destruct (threshold_reached s); cbn; auto.
    + unfold succeeded. cbn. auto.
Qed.

Lemma update_devices_account f mylist : forall s,
  _ioerror (update_devices f mylist s) = _ioerror s
  /\ warned (update_devices f mylist s) = warned s.
Proof.
  unfold update_devices.
  induction mylist as [|x rest IH]; intros s; cbn [fold_left]; auto.
  destruct (IH (match get_dev s x with
                | Some dev => put_dev s x (f dev)
                | None => s
                end)) as [A B].
  rewrite A, B. destruct (get_dev s x); auto.
Qed.

Lemma read_image_then_accounting f mylist s :
  if fh_ok (_myfh s)
  then succeeded s (read_image_then f mylist s)
  else accounted s (read_image_then f mylist s).
Proof.
  destruct (fh_ok (_myfh s)) eqn:Hf.
  - rewrite read_image_then_ok by exact Hf. unfold succeeded. cbn [fst snd].
    split; [reflexivity|].
    destruct (update_devices_account
                (f (firstn (_length s) (fh_image (_myfh s)))) mylist
                (with_myfh s
                   (fh_logged (_myfh s) (FhRead (_length s))
                      (fh_image (_myfh s))))) as [A B].
    rewrite A, B. auto.
  - apply read_image_then_failed, Hf.
Qed.

(** C2, as the code does it. Every transaction on the process image
    ([readprocimg], [syncoutputs], [writeprocimg], for the whole image or
    for a device that is not self-updating) is accounted for as a whole.
    A read or sync fails when its read of the image fails; a write fails
    when one at least of its file operations (the writes of the devices,
    the flush in buffered mode) fails. A failed transaction counts exactly
    one error on the shared counter, however many of its file operations
    have failed; when the counter thereby reaches the configured non-zero
    maximum the transaction raises the fatal error, and otherwise (below
    the maximum, or maximum 0) it emits a warning and returns [False]. A
    transaction without a failed file operation returns [True] and
    neither counts nor warns. With a maximum of 2 and a counter at 0, the
    first of two consecutive failed reads returns [False] and the second
    raises. *)
Theorem io_error_accounting s :
  (forall device_arg,
     reaches_file (device_of_registry s) s device_arg ->
     if fh_ok (_myfh s) then succeeded s (readprocimg s device_arg)
     else accounted s (readprocimg s device_arg))
  /\ (forall device_arg,
        reaches_file (device_of_self s) s device_arg ->
        if fh_ok (_myfh s) then succeeded s (syncoutputs s device_arg)
        else accounted s (syncoutputs s device_arg))
  /\ (_monitoring s = false ->
      forall device_arg,
        reaches_file (device_of_self s) s device_arg ->
        let ops := write_ops s (worked_on (device_of_self s) s device_arg) in
        fh_log (_myfh (snd (writeprocimg s device_arg)))
        = fh_log (_myfh s) ++ ops
        /\ if some_fails (_myfh s) (List.length ops)
           then accounted s (writeprocimg s device_arg)
           else succeeded s (writeprocimg s device_arg))
  /\ (_maxioerrors s = 2%Z -> _ioerror s = 0%Z ->
      fh_fails (_myfh s) (List.length (fh_log (_myfh s))) = true ->
      fh_fails (_myfh s) (S (List.length (fh_log (_myfh s)))) = true ->
      let first := readprocimg s None in
      let second := readprocimg (snd first) None in
      fst first = Return false
      /\ _ioerror (snd first) = 1%Z
      /\ fst second
         = Raise (RuntimeError "reach max io error count on process image")
      /\ _ioerror (snd second) = 2%Z).
Proof.
  split; [|split; [|split]].
  - intros [arg|] Hr; unfold readprocimg.
    + destruct Hr as (id & -> & ->). apply read_image_then_accounting.
    + apply read_image_then_accounting.
  - intros [arg|] Hr; unfold syncoutputs.
    + destruct Hr as (id & -> & ->). apply read_image_then_accounting.
    + apply read_image_then_accounting.
  - intros Hm device_arg Hr ops. subst ops. unfold writeprocimg, worked_on.
    rewrite Hm. destruct device_arg as [arg|].
    + destruct Hr as (id & -> & ->).
      split; [apply write_devices_log | apply write_devices_accounting].
    + split; [apply write_devices_log | apply write_devices_accounting].
  - intros Hmax Herr H1 H2. cbv zeta.
    assert (F1 : fh_ok (_myfh s) = false) by (unfold fh_ok; now rewrite H1).
    destruct (readprocimg_failed s F1) as ((E1 & A1) & Hfh & Hmx).
    set (first := readprocimg s None) in *.
    unfold threshold_reached in A1. rewrite Hmax, Herr in A1.
    change (negb (2 =? 0)%Z && (2 <=? 0 + 1)%Z) with false in A1.
    destruct A1 as [R1 _]. rewrite Herr in E1.
    change (0 + 1)%Z with 1%Z in E1.
    assert (F2 : fh_ok (_myfh (snd first)) = false).
    { rewrite Hfh. unfold fh_ok, fh_logged. cbn [fh_fails fh_log].
      rewrite length_app. cbn [List.length].
      replace (List.length (fh_log (_myfh s)) + 1)
        with (S (List.length (fh_log (_myfh s)))) by lia.
      now rewrite H2. }
    destruct (readprocimg_failed (snd first) F2) as ((E2 & A2) & _ & _).
    set (second := readprocimg (snd first) None) in *.
    unfold threshold_reached in A2. rewrite Hmx, Hmax, E1 in A2.
    change (negb (2 =? 0)%Z && (2 <=? 1 + 1)%Z) with true in A2.
    destruct A2 as [R2 _]. rewrite E1 in E2.
    change (1 + 1)%Z with 2%Z in E2. auto.
Qed.

(** ** The error threshold in the small installation *)

(** The scenario of the specification: the maximum is set to 2 and two
    reads in a row fail; the first returns [False] with a warning, the
    second raises. *)
Lemma io_error_accounting_witness :
  let s0 :=
    Example.modio false false 0 Example.always []
      [Example.dio false Example.b00 Example.b00; Example.aio false] in
  let s := snd (_set_maxioerrors s0 2) in
  fh_ok (_myfh s) = false
  /\ _maxioerrors s = 2%Z
  /\ _ioerror s = 0%Z
  /\ accounted s (readprocimg s None)
  /\ fst (readprocimg s None) = Return false
  /\ fst (readprocimg (snd (readprocimg s None)) None)
     = Raise (RuntimeError "reach max io error count on process image").
Proof.
  cbv zeta.
  set (s := snd (_set_maxioerrors
                   (Example.modio false false 0 Example.always []
                      [Example.dio false Example.b00 Example.b00;
                       Example.aio false]) 2)).
  split; [reflexivity|]. split; [reflexivity|]. split; [reflexivity|].
  pose proof (io_error_accounting s) as (A & _ & _ & B).
  pose proof (A None I) as A1. cbv beta in A1.
  change (fh_ok (_myfh s)) with false in A1. cbv iota in A1.
  destruct (B eq_refl eq_refl eq_refl eq_refl) as (B1 & _ & B2 & _).
  auto.
Defined.

(** C2 does not hold as stated: the failures of the file operations are
    not counted one by one. With a maximum of 2 and a counter at 0, one
    [writeprocimg()] over two devices issues two writes; both fail, yet
    the counter stands at 1 afterwards and the call returns [False]
    instead of raising the fatal error. *)
Lemma two_failed_writes_count_once :
  let s := ExampleFlaky.unsteady 2 Example.always in
  _maxioerrors s = 2%Z
  /\ _ioerror s = 0%Z
  /\ (forall n, fh_fails (_myfh s) n = true)
  /\ fh_log (_myfh (snd (writeprocimg s None)))
     = [FhWrite 1 [Byte.x00]; FhWrite 3 [Byte.x00]]
  /\ fh_image (_myfh (snd (writeprocimg s None))) = fh_image (_myfh s)
  /\ _ioerror (snd (writeprocimg s None)) = 1%Z
  /\ fst (writeprocimg s None) = Return false
  /\ warned (snd (writeprocimg s None)) = [WarnIOError 1].
Proof. vm_compute. intuition. Qed.

(** ** Devices in the store *)

Lemma nth_error_replace_same {A} (l : list A) n x :
  n < List.length l -> nth_error (replace_nth l n x) n = Some x.
Proof.
  revert n. induction l as [|y l IH]; intros [|n] H; simpl in *;
    try lia; auto. apply IH. lia.
Qed.

Lemma nth_error_replace_other {A} (l : list A) n m x :
  n <> m -> nth_error (replace_nth l n x) m = nth_error l m.
Proof.
  revert n m. induction l as [|y l IH]; intros [|n] [|m] H; simpl;
    try congruence; auto.
Qed.

Lemma get_put_same s id d d' :
  get_dev s id = Some d -> get_dev (put_dev s id d') id = Some d'.
Proof.
  unfold get_dev, put_dev. cbn [objects with_objects]. intros H.
  apply nth_error_replace_same. apply nth_error_Some. congruence.
Qed.

Lemma get_put_other s id id' d :
  id <> id' -> get_dev (put_dev s id d) id' = get_dev s id'.
Proof.
  unfold get_dev, put_dev. cbn [objects with_objects].
  apply nth_error_replace_other.
Qed.

(** An update of the buffers that leaves a device as it is leaves it so in
    the store. *)
Lemma update_devices_keep f mylist id dev : forall s,
  get_dev s id = Some dev -> f dev = dev ->
  get_dev (update_devices f mylist s) id = Some dev.
Proof.
  unfold update_devices.
  induction mylist as [|id' ids IH]; intros s Hg Hf; cbn [fold_left]; auto.
  apply IH; auto.
  destruct (get_dev s id') as [d'|] eqn:Hg'; auto.
  destruct (Nat.eq_dec id' id) as [->|Hne].
  - assert (d' = dev) by congruence. subst d'. rewrite Hf.
    eapply get_put_same; eauto.
  - rewrite get_put_other; auto.
Qed.

(** ** Failed reads *)

(** C10, as the code does it. When the read of the whole image at the start
    of [readprocimg] or [syncoutputs] fails, no device buffer is changed;
    the operation returns [False], unless the error counter thereby reaches
    the configured non-zero maximum, in which case it raises the fatal
    error. *)
Theorem read_failure_atomic s :
  fh_ok (_myfh s) = false ->
  (forall arg,
     objects (snd (readprocimg s arg)) = objects s
     /\ objects (snd (syncoutputs s arg)) = objects s)
  /\ (threshold_reached s = false ->
      fst (readprocimg s None) = Return false
      /\ fst (syncoutputs s None) = Return false)
  /\ (threshold_reached s = true ->
      fst (readprocimg s None)
      = Raise (RuntimeError "reach max io error count on process image")
      /\ fst (syncoutputs s None)
         = Raise (RuntimeError "reach max io error count on process image")).
Proof.
  intros Hf.
  pose proof (fun f l => read_image_then_failed f l s Hf) as H.
  split; [|split].
  - intros arg. unfold readprocimg, syncoutputs.
    destruct arg as [arg|]; [|split; apply H].
    split.
    + destruct (device_of_registry s arg); auto.
      destruct (selfupdate_of s a); auto. apply H.
    + destruct (device_of_self s arg); auto.
      destruct (selfupdate_of s a); auto. apply H.
  - intros Ht.
    destruct (H (read_device (_monitoring s)) (DeviceList.iter (device s)))
      as [[_ A] _].
    destruct (H sync_device (DeviceList.iter (device s))) as [[_ B] _].
    rewrite Ht in A, B. split; [apply A | apply B].
  - intros Ht.
    destruct (H (read_device (_monitoring s)) (DeviceList.iter (device s)))
      as [[_ A] _].
    destruct (H sync_device (DeviceList.iter (device s))) as [[_ B] _].
    rewrite Ht in A, B. split; [apply A | apply B].
Qed.

(** C10 does not hold as stated: with a maximum of one error, a failed read
    of the whole image does not return [False], it raises. *)
Lemma read_failure_raises :
  let s :=
    Example.modio false false 1 Example.always []
      [Example.dio false Example.b00 Example.b00; Example.aio false] in
  fh_ok (_myfh s) = false
  /\ fst (readprocimg s None) <> Return false
  /\ fst (readprocimg s None)
     = Raise (RuntimeError "reach max io error count on process image")
  /\ fst (syncoutputs s None) <> Return false.
Proof. vm_compute. intuition discriminate. Qed.

Lemma read_failure_atomic_witness :
  let s :=
    Example.modio false false 0 Example.always []
      [Example.dio false Example.b00 Example.b00; Example.aio false] in
  fh_ok (_myfh s) = false
  /\ objects (snd (readprocimg s None)) = objects s
  /\ fst (readprocimg s None) = Return false.
Proof.
  cbv zeta. split; [reflexivity|].
  pose proof
    (read_failure_atomic
       (Example.modio false false 0 Example.always []
          [Example.dio false Example.b00 Example.b00; Example.aio false])
       eq_refl) as (A & B & _).
  split; [apply (A None)|]. apply (B eq_refl).
Defined.

(** ** Self-updating devices and foreground transactions *)

Lemma write_fold_ok s mylist : forall acc,
  (forall n, fh_fails (fst acc) n = false) ->
  snd (fold_left (write_device s) mylist acc) = snd acc
  /\ (forall n, fh_fails (fst (fold_left (write_device s) mylist acc)) n
                = false).
Proof.
  induction mylist as [|id ids IH]; intros acc Hok; cbn [fold_left]; auto.
  assert (H : snd (write_device s acc id) = snd acc
              /\ forall n, fh_fails (fst (write_device s acc id)) n = false).
  { unfold write_device. destruct (get_dev s id) as [dev|]; auto.
    destruct (dev_selfupdate dev); auto.
    unfold fh_write, fh_ok. rewrite Hok. cbn.
    split; [apply Bool.andb_true_r | exact Hok]. }
  destruct H as [H1 H2]. destruct (IH _ H2) as [H3 H4].
  split; [congruence | exact H4].
Qed.

Lemma write_devices_objects s mylist :
  objects (snd (write_devices mylist s)) = objects s.
Proof.
  unfold write_devices.
  destruct (fold_left (write_device s) mylist (_myfh s, true)) as [fh1 ok1].
  destruct (_buffedwrite s); cbn [fh_flush].
  - destruct (negb (ok1 && fh_ok fh1)); [|reflexivity].
    rewrite gotioerror_spec.
    change (threshold_reached (with_myfh s _)) with (threshold_reached s).
    destruct (threshold_reached s); reflexivity.
  - destruct (negb ok1); [|reflexivity].
    rewrite gotioerror_spec.
    change (threshold_reached (with_myfh s _)) with (threshold_reached s).
    destruct (threshold_reached s); reflexivity.
Qed.

Lemma write_devices_ok s mylist :
  (forall n, fh_fails (_myfh s) n = false) ->
  fst (write_devices mylist s) = Return true.
Proof.
  intros Hok. unfold write_devices.
  destruct (write_fold_ok s mylist (_myfh s, true) Hok) as [H1 H2].
  destruct (fold_left (write_device s) mylist (_myfh s, true)) as [fh1 ok1].
  cbn [fst snd] in H1, H2. subst ok1.
  destruct (_buffedwrite s); cbn [fh_flush]; [|reflexivity].
  unfold fh_ok. rewrite H2. reflexivity.
Qed.

(** Every write that [writeprocimg] issues for a list of devices comes
    from a device of the list that is not self-updating. *)
Lemma device_writes_origin s mylist op :
  In op (device_writes s mylist) ->
  exists id d, In id mylist /\ get_dev s id = Some d
               /\ dev_selfupdate d = false /\ op = out_write d.
Proof.
  unfold device_writes. rewrite in_flat_map.
  intros (id & Hin & Hop).
  destruct (get_dev s id) as [d|] eqn:Hg; [|contradiction].
  destruct (dev_selfupdate d) eqn:Hs; [contradiction|].
  destruct Hop as [<-|[]]. exists id, d. auto.
Qed.

(** C7, as the code does it. For a device whose self-updating flag is
    true: every read, sync or write that is given this device (as an
    object, by position or by name) raises and leaves the manager, the
    buffers and the file object untouched. The whole-image variants do not
    raise on its account: they skip it, leave its buffer as it is, issue no
    write for it, and return [True] when the hardware channel works. *)
Theorem selfupdating_device_guarded s id dev :
  get_dev s id = Some dev -> dev_selfupdate dev = true ->
  (forall arg, device_of_registry s arg = Return id ->
     (raises (fst (readprocimg s (Some arg))) = true
      /\ snd (readprocimg s (Some arg)) = s)
     /\ (raises (fst (syncoutputs s (Some arg))) = true
         /\ snd (syncoutputs s (Some arg)) = s)
     /\ (raises (fst (writeprocimg s (Some arg))) = true
         /\ snd (writeprocimg s (Some arg)) = s))
  /\ (get_dev (snd (readprocimg s None)) id = Some dev
      /\ get_dev (snd (syncoutputs s None)) id = Some dev
      /\ get_dev (snd (writeprocimg s None)) id = Some dev)
  /\ (forall op,
        In op (skipn (List.length (fh_log (_myfh s)))
                 (fh_log (_myfh (snd (writeprocimg s None))))) ->
        op = FhFlush
        \/ exists id' d, get_dev s id' = Some d
                         /\ dev_selfupdate d = false /\ op = out_write d)
  /\ ((forall n, fh_fails (_myfh s) n = false) ->
      fst (readprocimg s None) = Return true
      /\ fst (syncoutputs s None) = Return true
      /\ (_monitoring s = false -> fst (writeprocimg s None) = Return true)).
Proof.
  intros Hg Hs.
  assert (Hself : selfupdate_of s id = true)
    by (unfold selfupdate_of; now rewrite Hg).
  split; [|split; [|split]].
  - intros arg Harg. unfold readprocimg, syncoutputs, writeprocimg.
    rewrite Harg, Hself. split; [auto|].
    destruct arg as [id'| |]; cbn [device_of_self].
    + cbn in Harg. inversion Harg; subst id'. rewrite Hself.
      split; [auto|]. destruct (_monitoring s); auto.
    + split; [auto|]. destruct (_monitoring s); auto.
    + split; [auto|]. destruct (_monitoring s); auto.
  - split; [|split].
    + unfold readprocimg, read_image_then, fh_read.
      destruct (fh_ok (_myfh s)).
      * cbn [snd]. apply update_devices_keep; auto.
        unfold read_device. now rewrite Hs.
      * rewrite gotioerror_spec.
        change (threshold_reached (with_myfh s _)) with (threshold_reached s).
        destruct (threshold_reached s); exact Hg.
    + unfold syncoutputs, read_image_then, fh_read.
      destruct (fh_ok (_myfh s)).
      * cbn [snd]. apply update_devices_keep; auto.
        unfold sync_device. now rewrite Hs.
      * rewrite gotioerror_spec.
        change (threshold_reached (with_myfh s _)) with (threshold_reached s).
        destruct (threshold_reached s); exact Hg.
    + unfold writeprocimg. destruct (_monitoring s); [exact Hg|].
      unfold get_dev. rewrite write_devices_objects. exact Hg.
  - intros op. unfold writeprocimg. destruct (_monitoring s).
    + cbn [snd]. rewrite skipn_all. intros [].
    + rewrite write_devices_log, skipn_app, skipn_all, Nat.sub_diag.
      cbn [app skipn]. rewrite in_app_iff. intros [H|H].
      * right. destruct (device_writes_origin _ _ _ H)
          as (id' & d & _ & Hd & Hsd & Hop). eauto.
      * left. destruct (_buffedwrite s); [|contradiction].
        destruct H as [<-|[]]. reflexivity.
  - intros Hok.
    assert (F : fh_ok (_myfh s) = true) by (unfold fh_ok; now rewrite Hok).
    unfold readprocimg, syncoutputs, writeprocimg.
    rewrite !read_image_then_ok by exact F.
    split; [reflexivity|]. split; [reflexivity|].
    intros Hm. rewrite Hm. now apply write_devices_ok.
Qed.

(** ** Self-updating devices in the small installation *)

(** C7 does not hold as stated for the whole-image variants: with a
    self-updating device in the registry they do not raise. *)
Lemma whole_image_does_not_raise :
  let s := Example.watching Example.b00 Example.b01 in
  selfupdate_of s 0 = true
  /\ In 0 (DeviceList.iter (device s))
  /\ fst (readprocimg s None) = Return true
  /\ fst (syncoutputs s None) = Return true
  /\ fst (writeprocimg s None) = Return true.
Proof. vm_compute. auto. Qed.

Lemma selfupdating_device_guarded_witness :
  let s := Example.watching Example.b00 Example.b01 in
  let dev := Example.dio true Example.b00 Example.b01 in
  get_dev s 0 = Some dev
  /\ dev_selfupdate dev = true
  /\ raises (fst (readprocimg s (Some (ByPosition 0)))) = true
  /\ raises (fst (writeprocimg s (Some (ByObject 0)))) = true
  /\ get_dev (snd (readprocimg s None)) 0 = Some dev.
Proof.
  cbv zeta. split; [reflexivity|]. split; [reflexivity|].
  pose proof
    (selfupdating_device_guarded
       (Example.watching Example.b00 Example.b01) 0
       (Example.dio true Example.b00 Example.b01) eq_refl eq_refl)
    as (T & (K & _) & _).
  destruct (T (ByPosition 0) eq_refl) as ((R & _) & _).
  destruct (T (ByObject 0) eq_refl) as (_ & _ & (W & _)).
  auto.
Defined.

(** ** Shutdown *)

Lemma write_devices_frame s mylist :
  io_frame (snd (write_devices mylist s)) = io_frame s.
Proof.
  unfold write_devices.
  pose proof (write_fold_fails_same s mylist (_myfh s, true)) as HF.
  destruct (fold_left (write_device s) mylist (_myfh s, true)) as [fh1 ok1].
  cbn [fst] in HF.
  destruct (_buffedwrite s) eqn:Hb; cbn [fh_flush].
  - destruct (negb (ok1 && fh_ok fh1)).
    + rewrite gotioerror_spec.
      change (threshold_reached (with_myfh s _)) with (threshold_reached s).
      destruct (threshold_reached s); unfold io_frame; cbn;
        rewrite HF, Hb; reflexivity.
    + unfold io_frame; cbn. rewrite HF, Hb. reflexivity.
  - destruct (negb ok1).
    + rewrite gotioerror_spec.
      change (threshold_reached (with_myfh s _)) with (threshold_reached s).
      destruct (threshold_reached s); unfold io_frame; cbn;
        rewrite HF, Hb; reflexivity.
    + unfold io_frame; cbn. rewrite HF, Hb. reflexivity.
Qed.

Lemma write_devices_unlimited s mylist :
  _maxioerrors s = 0%Z -> raises (fst (write_devices mylist s)) = false.
Proof.
  intros Hm. unfold write_devices.
  destruct (fold_left (write_device s) mylist (_myfh s, true)) as [fh1 ok1].
  assert (T : forall fh, threshold_reached (with_myfh s fh) = false)
    by (intros fh; unfold threshold_reached; cbn; now rewrite Hm).
  destruct (_buffedwrite s); cbn [fh_flush].
  - destruct (negb (ok1 && fh_ok fh1)); [|reflexivity].
    rewrite gotioerror_spec, T. reflexivity.
  - destruct (negb ok1); [|reflexivity].
    rewrite gotioerror_spec, T. reflexivity.
Qed.

(** The final write of one device of the refresh list. *)
Lemma write_single s id d :
  get_dev s id = Some d -> dev_selfupdate d = false ->
  _monitoring s = false ->
  (_maxioerrors s = 0%Z \/ forall n, fh_fails (_myfh s) n = false) ->
  raises (fst (writeprocimg s (Some (ByObject id)))) = false
  /\ io_frame (snd (writeprocimg s (Some (ByObject id)))) = io_frame s
  /\ fh_log (_myfh (snd (writeprocimg s (Some (ByObject id)))))
     = fh_log (_myfh s) ++ final_write s id.
Proof.
  intros Hg Hs Hm Hsafe. unfold writeprocimg. rewrite Hm.
  cbn [device_of_self]. unfold selfupdate_of. rewrite Hg, Hs.
  split; [|split].
  - destruct Hsafe as [H0|Hok].
    + now apply write_devices_unlimited.
    + now rewrite write_devices_ok.
  - apply write_devices_frame.
  - rewrite write_devices_log. unfold device_writes, final_write.
    cbn [flat_map]. rewrite Hg, Hs. reflexivity.
Qed.

Lemma io_frame_exit_frame s s' :
  io_frame s' = io_frame s ->
  exit_frame s' = exit_frame s /\ objects s' = objects s
  /\ _lst_refresh s' = _lst_refresh s.
Proof.
  unfold io_frame, exit_frame. intros H. inversion H. auto.
Qed.

Lemma same_data_refl s : same_data s s.
Proof. intros id. reflexivity. Qed.

Lemma same_data_trans a b c :
  same_data a b -> same_data b c -> same_data a c.
Proof. intros H1 H2 id. rewrite H2, H1. reflexivity. Qed.

Lemma same_data_unflag s id d :
  get_dev s id = Some d ->
  same_data s (put_dev s id (set_selfupdate d false)).
Proof.
  intros Hg id'. destruct (Nat.eq_dec id id') as [<-|Hne].
  - rewrite (get_put_same s id d _ Hg), Hg. reflexivity.
  - now rewrite get_put_other.
Qed.

Lemma same_data_final_write s s' id :
  same_data s s' -> _buffedwrite s' = _buffedwrite s ->
  final_write s' id = final_write s id.
Proof.
  intros H Hb. specialize (H id). unfold final_write. rewrite Hb.
  destruct (get_dev s' id) as [d'|], (get_dev s id) as [d|];
    unfold option_map in H; try discriminate; auto.
  f_equal.
  assert (H' : set_selfupdate d' false = set_selfupdate d false)
    by congruence.
  unfold out_write.
  change (dev_slc_outoff d')
    with (dev_slc_outoff (set_selfupdate d' false)).
  change (dev_ba_devdata d')
    with (dev_ba_devdata (set_selfupdate d' false)).
  change (dev_slc_out d') with (dev_slc_out (set_selfupdate d' false)).
  rewrite H'. reflexivity.
Qed.

Lemma same_data_valid s s' id :
  same_data s s' -> get_dev s id <> None -> get_dev s' id <> None.
Proof.
  intros H Hv. specialize (H id).
  destruct (get_dev s' id), (get_dev s id); cbn in H; congruence.
Qed.

(** The loop of [exit] over the refresh list, when no write can reach the
    error threshold. *)
Lemma exit_refresh_spec todo : forall s,
  (forall id, In id todo -> get_dev s id <> None) ->
  no_escalation s ->
  fst (exit_refresh todo s) = Return tt
  /\ _lst_refresh (snd (exit_refresh todo s))
     = match todo with [] => _lst_refresh s | _ :: _ => [] end
  /\ (forall id, selfupdate_of s id = false \/ In id todo ->
                 selfupdate_of (snd (exit_refresh todo s)) id = false)
  /\ fh_log (_myfh (snd (exit_refresh todo s)))
     = fh_log (_myfh s)
       ++ (if _monitoring s then [] else flat_map (final_write s) todo)
  /\ exit_frame (snd (exit_refresh todo s)) = exit_frame s
  /\ same_data s (snd (exit_refresh todo s)).
Proof.
  induction todo as [|dev rest IH]; intros s Hv Hsafe.
  - cbn [exit_refresh fst snd flat_map].
    split; [reflexivity|]. split; [reflexivity|].
    split; [intros id [H|[]]; exact H|].
    split; [destruct (_monitoring s); now rewrite app_nil_r|].
    split; [reflexivity | apply same_data_refl].
  - cbn [exit_refresh].
    set (s1 := with_lst_refresh s (rev rest)).
    destruct (get_dev s dev) as [d|] eqn:Hg;
      [|exfalso; apply (Hv dev); simpl; auto].
    change (get_dev s1 dev) with (get_dev s dev). rewrite Hg.
    set (s2 := put_dev s1 dev (set_selfupdate d false)).
    assert (D2 : same_data s s2) by (apply (same_data_unflag s1 dev d Hg)).
    assert (G2 : get_dev s2 dev = Some (set_selfupdate d false))
      by (apply (get_put_same s1 dev d _ Hg)).
    assert (V2 : forall id, In id rest -> get_dev s2 id <> None).
    { intros id Hin. apply (same_data_valid s s2 id D2).
      apply Hv. simpl; auto. }
    assert (F2 : forall id, selfupdate_of s id = false \/ id = dev ->
                            selfupdate_of s2 id = false).
    { intros id [H | ->].
      - unfold selfupdate_of in *.
        destruct (Nat.eq_dec dev id) as [<-|Hne].
        + now rewrite G2.
        + unfold s2. rewrite get_put_other by assumption. exact H.
      - unfold selfupdate_of. now rewrite G2. }
    change (_monitoring s2) with (_monitoring s).
    destruct (_monitoring s) eqn:Hm; cbn [negb].
    + assert (S2 : no_escalation s2) by (left; exact Hm).
      destruct (IH s2 V2 S2) as (R & L & F & Lg & Fr & D).
      change (_monitoring s2) with (_monitoring s) in Lg. rewrite Hm in Lg.
      split; [exact R|]. split.
      { rewrite L. destruct rest; reflexivity. }
      split.
      { intros id [H|[<-|H]]; apply F; auto. }
      split; [exact Lg|]. split; [exact Fr|].
      eapply same_data_trans; eauto.
    + assert (Hsafe2 : _maxioerrors s2 = 0%Z
                       \/ forall n, fh_fails (_myfh s2) n = false).
      { destruct Hsafe as [H|[H|H]]; [congruence | left; exact H
                                       | right; exact H]. }
      destruct (write_single s2 dev (set_selfupdate d false) G2 eq_refl Hm
                  Hsafe2) as (Rw & Fw & Lw).
      destruct (writeprocimg s2 (Some (ByObject dev))) as [[b|e] s3];
        cbn [fst snd raises] in Rw, Fw, Lw; [|discriminate].
      destruct (io_frame_exit_frame s2 s3 Fw) as (Ef & Ob & Lr).
      assert (D3 : same_data s s3).
      { intros id. unfold get_dev. rewrite Ob. apply D2. }
      assert (V3 : forall id, In id rest -> get_dev s3 id <> None).
      { intros id Hin. unfold get_dev. rewrite Ob. now apply V2. }
      assert (M3 : _monitoring s3 = false /\ _buffedwrite s3 = _buffedwrite s
                   /\ _maxioerrors s3 = _maxioerrors s
                   /\ fh_fails (_myfh s3) = fh_fails (_myfh s)).
      { unfold exit_frame in Ef. subst s2 s1. cbn in Ef. inversion Ef.
        repeat split; congruence. }
      destruct M3 as (M3 & B3 & X3 & FF3).
      assert (S3 : no_escalation s3).
      { destruct Hsafe as [H|[H|H]]; [congruence | |].
        - right; left. congruence.
        - right; right. intros n. rewrite FF3. apply H. }
      destruct (IH s3 V3 S3) as (R & L & F & Lg & Fr & D).
      rewrite M3 in Lg.
      split; [exact R|]. split.
      { rewrite L. destruct rest; [exact Lr | reflexivity]. }
      split.
      { intros id H. apply F.
        destruct H as [H|[<-|H]]; auto; left; unfold selfupdate_of, get_dev;
          rewrite Ob; apply F2; auto. }
      split.
      { rewrite Lg, Lw. cbn [flat_map]. rewrite <- !app_assoc.
        f_equal. f_equal.
        - apply (same_data_final_write s s2 dev D2 eq_refl).
        - apply flat_map_ext. intros id.
          apply (same_data_final_write s s3 id D3 B3). }
      split; [rewrite Fr; exact Ef|].
      eapply same_data_trans; eauto.
Qed.

(** *** The final writes one after the other *)

Lemma existsb_eq {A} (f g : A -> bool) l :
  (forall x, f x = g x) -> existsb f l = existsb g l.
Proof.
  intros H. induction l as [|x l IH]; cbn; [reflexivity|].
  now rewrite H, IH.
Qed.

Lemma filter_eq {A} (f g : A -> bool) l :
  (forall x, f x = g x) -> filter f l = filter g l.
Proof.
  intros H. induction l as [|x l IH]; cbn; [reflexivity|].
  now rewrite H, IH.
Qed.

Lemma find_eq {A} (f g : A -> bool) l :
  (forall x, f x = g x) -> find f l = find g l.
Proof.
  intros H. induction l as [|x l IH]; cbn; [reflexivity|].
  now rewrite H, IH.
Qed.

Lemma filter_map_length {A B} (f : B -> bool) (g : A -> B) l :
  List.length (filter f (map g l))
  = List.length (filter (fun x => f (g x)) l).
Proof.
  induction l as [|x l IH]; cbn; [reflexivity|].
  destruct (f (g x)); cbn; now rewrite IH.
Qed.

Lemma find_map {A B} (f : B -> bool) (g : A -> B) l :
  find f (map g l) = option_map g (find (fun x => f (g x)) l).
Proof.
  induction l as [|x l IH]; cbn; [reflexivity|].
  destruct (f (g x)); [reflexivity | exact IH].
Qed.

Lemma final_write_fails_next s s' j :
  one_written s s' -> final_write_fails s (S j) = final_write_fails s' j.
Proof.
  intros (Hf & Hb & _ & Hl & _). unfold final_write_fails, final_ops.
  rewrite Hf, Hb, Hl. unfold final_ops. apply existsb_eq.
  intros i. f_equal. lia.
Qed.

Lemma failed_before_next s s' j :
  one_written s s' ->
  failed_before s (S j)
  = (if final_write_fails s 0 then 1 else 0) + failed_before s' j.
Proof.
  intros H. unfold failed_before.
  change (seq 0 (S j)) with (0 :: seq 1 j). cbn [filter].
  assert (E : List.length (filter (final_write_fails s) (seq 1 j))
              = List.length (filter (final_write_fails s') (seq 0 j))).
  { rewrite <- seq_shift, filter_map_length. f_equal.
    apply filter_eq. intros x. now apply final_write_fails_next. }
  destruct (final_write_fails s 0); cbn [List.length]; rewrite E;
    reflexivity.
Qed.

Lemma escalates_next s s' j :
  one_written s s' -> escalates s (S j) = escalates s' j.
Proof.
  intros H. unfold escalates.
  rewrite (final_write_fails_next s s' j H), (failed_before_next s s' j H).
  destruct H as (_ & _ & Hm & _ & He). rewrite Hm, He.
  f_equal. f_equal.
  destruct (final_write_fails s 0); f_equal; lia.
Qed.

Lemma first_fatal_next s s' n :
  one_written s s' ->
  first_fatal s (S n)
  = if escalates s 0 then Some 0 else option_map S (first_fatal s' n).
Proof.
  intros H. unfold first_fatal.
  change (seq 0 (S n)) with (0 :: seq 1 n). cbn [find].
  destruct (escalates s 0); [reflexivity|].
  rewrite <- seq_shift, find_map. f_equal.
  apply find_eq. intros x. now apply escalates_next.
Qed.

Lemma escalates_first s :
  escalates s 0 = final_write_fails s 0 && threshold_reached s.
Proof.
  unfold escalates, threshold_reached, failed_before. cbn [seq filter].
  cbn [List.length]. rewrite Z.add_0_r, Bool.andb_assoc. reflexivity.
Qed.

Lemma some_fails_final s s' :
  _myfh s' = _myfh s ->
  some_fails (_myfh s') (final_ops s) = final_write_fails s 0.
Proof.
  intros ->. unfold some_fails, final_write_fails. apply existsb_eq.
  intros i. f_equal. lia.
Qed.

(** The accounts of two managers agree: the final writes of [exit] fail
    and escalate in the one as in the other. *)
Lemma first_fatal_same s s' n :
  _myfh s' = _myfh s -> _buffedwrite s' = _buffedwrite s ->
  _maxioerrors s' = _maxioerrors s -> _ioerror s' = _ioerror s ->
  first_fatal s' n = first_fatal s n
  /\ (forall j, failed_before s' j = failed_before s j).
Proof.
  intros Hf Hb Hm He.
  assert (F : forall j, final_write_fails s' j = final_write_fails s j)
    by (intros j; unfold final_write_fails, final_ops; now rewrite Hf, Hb).
  assert (B : forall j, failed_before s' j = failed_before s j)
    by (intros j; unfold failed_before; apply f_equal, filter_eq, F).
  split; [|exact B].
  unfold first_fatal. apply find_eq. intros j. unfold escalates.
  now rewrite F, B, Hm, He.
Qed.

(** The final write of the device that [exit] has just taken off the list
    and marked. *)
Lemma exit_write s id d :
  get_dev s id = Some d -> dev_selfupdate d = false ->
  _monitoring s = false ->
  let res := writeprocimg s (Some (ByObject id)) in
  io_frame (snd res) = io_frame s
  /\ fh_log (_myfh (snd res)) = fh_log (_myfh s) ++ final_write s id
  /\ List.length (final_write s id) = final_ops s
  /\ if final_write_fails s 0 then accounted s res else succeeded s res.
Proof.
  intros Hg Hs Hm res. subst res. unfold writeprocimg. rewrite Hm.
  cbn [device_of_self]. unfold selfupdate_of. rewrite Hg, Hs.
  assert (Hops : write_ops s [id] = final_write s id).
  { unfold write_ops, device_writes, final_write. cbn [flat_map].
    rewrite Hg, Hs. reflexivity. }
  assert (Hlen : List.length (final_write s id) = final_ops s).
  { unfold final_write, final_ops. rewrite Hg.
    destruct (_buffedwrite s); reflexivity. }
  split; [apply write_devices_frame|].
  split.
  { rewrite write_devices_log. fold (write_ops s [id]). now rewrite Hops. }
  split; [exact Hlen|].
  pose proof (write_devices_accounting s [id]) as A.
  rewrite Hops, Hlen, (some_fails_final s s eq_refl) in A. exact A.
Qed.

Lemma exit_state_start s : exit_state s [] [] 0 s.
Proof.
  unfold exit_state. cbn [flat_map Z.of_nat].
  rewrite app_nil_r, Z.add_0_r.
  split; [reflexivity|]. split; [intros id []|].
  split; [reflexivity|]. split; [reflexivity|].
  split; [reflexivity|]. split; [reflexivity | apply same_data_refl].
Qed.

Lemma exit_state_step s s3 dev taken left delta errors res :
  same_data s s3 ->
  (forall id, id <> dev -> get_dev s3 id = get_dev s id) ->
  selfupdate_of s3 dev = false ->
  fh_log (_myfh s3) = fh_log (_myfh s) ++ final_write s dev ->
  _ioerror s3 = (_ioerror s + Z.of_nat delta)%Z ->
  exit_frame s3 = exit_frame s ->
  (taken = [] -> _lst_refresh s3 = rev left) ->
  exit_state s3 taken left errors res ->
  exit_state s (dev :: taken) left (delta + errors) res.
Proof.
  intros D3 G3 S3 L3 E3 F3 Hl (Lr & Su & Ge & Lg & Er & Fr & Da).
  assert (Hbw : _buffedwrite s3 = _buffedwrite s)
    by (unfold exit_frame in F3; inversion F3; reflexivity).
  unfold exit_state. split; [|split; [|split; [|split; [|split; [|split]]]]].
  - rewrite Lr. destruct taken; [now apply Hl | reflexivity].
  - intros id Hin.
    destruct (in_dec Nat.eq_dec id taken) as [Ht|Ht]; [now apply Su|].
    destruct Hin as [<-|Hin]; [|contradiction].
    unfold selfupdate_of in *. rewrite (Ge dev Ht). exact S3.
  - intros id Hnin. rewrite Ge by (intros H; apply Hnin; simpl; auto).
    apply G3. intros ->. apply Hnin. simpl; auto.
  - rewrite Lg, L3. cbn [flat_map]. rewrite <- app_assoc. do 2 f_equal.
    apply flat_map_ext. intros id.
    apply (same_data_final_write s s3 id D3 Hbw).
  - rewrite Er, E3. lia.
  - now rewrite Fr.
  - eapply same_data_trans; eauto.
Qed.

(** The loop of [exit] over the refresh list outside monitoring mode: it
    stops at the first device whose final write reaches the error
    threshold, or goes to the end of the list. *)
Lemma exit_refresh_run todo : forall s,
  (forall id, In id todo -> get_dev s id <> None) ->
  _monitoring s = false ->
  match first_fatal s (List.length todo) with
  | None =>
      fst (exit_refresh todo s) = Return tt
      /\ exit_state s todo [] (failed_before s (List.length todo))
           (snd (exit_refresh todo s))
  | Some j =>
      fst (exit_refresh todo s)
      = Raise (RuntimeError "reach max io error count on process image")
      /\ exit_state s (firstn (S j) todo) (skipn (S j) todo)
           (S (failed_before s j)) (snd (exit_refresh todo s))
  end.
Proof.
  induction todo as [|dev rest IH]; intros s Hv Hm.
  - cbn. split; [reflexivity | apply exit_state_start].
  - cbn [exit_refresh List.length].
    set (s1 := with_lst_refresh s (rev rest)).
    destruct (get_dev s dev) as [d|] eqn:Hg;
      [|exfalso; apply (Hv dev); simpl; auto].
    change (get_dev s1 dev) with (get_dev s dev). rewrite Hg.
    set (s2 := put_dev s1 dev (set_selfupdate d false)).
    assert (D2 : same_data s s2) by (apply (same_data_unflag s1 dev d Hg)).
    assert (G2 : get_dev s2 dev = Some (set_selfupdate d false))
      by (apply (get_put_same s1 dev d _ Hg)).
    change (_monitoring s2) with (_monitoring s). rewrite Hm. cbn [negb].
    destruct (exit_write s2 dev (set_selfupdate d false) G2 eq_refl Hm)
      as (Fw & Lw & Nw & Aw).
    change (final_write_fails s2 0) with (final_write_fails s 0) in Aw.
    change (final_ops s2) with (final_ops s) in Nw.
    assert (Efw : final_write s2 dev = final_write s dev)
      by (apply (same_data_final_write s s2 dev D2 eq_refl)).
    rewrite Efw in Lw, Nw.
    change (fh_log (_myfh s2)) with (fh_log (_myfh s)) in Lw.
    destruct (writeprocimg s2 (Some (ByObject dev))) as [o s3] eqn:Ew.
    unfold accounted, succeeded in Aw. cbn [fst snd] in Fw, Lw, Aw.
    change (_ioerror s2) with (_ioerror s) in Aw.
    destruct (io_frame_exit_frame s2 s3 Fw) as (Ef & Ob & Lr).
    assert (Ef' : exit_frame s3 = exit_frame s) by (rewrite Ef; reflexivity).
    assert (D3 : same_data s s3).
    { intros id. unfold get_dev. rewrite Ob. apply D2. }
    assert (G3 : forall id, id <> dev -> get_dev s3 id = get_dev s id).
    { intros id Hne. unfold get_dev at 1. rewrite Ob.
      change (nth_error (objects s2) id) with (get_dev s2 id).
      unfold s2. now rewrite get_put_other by auto. }
    assert (S3 : selfupdate_of s3 dev = false).
    { unfold selfupdate_of, get_dev. rewrite Ob.
      change (nth_error (objects s2) dev) with (get_dev s2 dev).
      now rewrite G2. }
    assert (Hmisc : fh_fails (_myfh s3) = fh_fails (_myfh s)
                    /\ _buffedwrite s3 = _buffedwrite s
                    /\ _maxioerrors s3 = _maxioerrors s
                    /\ _monitoring s3 = false).
    { unfold exit_frame in Ef'. inversion Ef'. repeat split; congruence. }
    destruct Hmisc as (Hff & Hbw & Hmx & Hm3).
    assert (Hlen3 : List.length (fh_log (_myfh s3))
                    = List.length (fh_log (_myfh s)) + final_ops s)
      by (rewrite Lw, length_app, Nw; reflexivity).
    set (delta := if final_write_fails s 0 then 1 else 0).
    assert (He3 : _ioerror s3 = (_ioerror s + Z.of_nat delta)%Z).
    { unfold delta. destruct (final_write_fails s 0).
      - destruct Aw as [Aw _]. exact Aw.
      - destruct Aw as (_ & Aw & _). rewrite Aw. cbn [Z.of_nat]. lia. }
    assert (OW : one_written s s3).
    { unfold one_written. repeat split; try assumption.
      rewrite He3. unfold delta.
      destruct (final_write_fails s 0); reflexivity. }
    assert (V3 : forall id, In id rest -> get_dev s3 id <> None).
    { intros id Hin. apply (same_data_valid s s3 id D3).
      apply Hv. simpl; auto. }
    assert (Lr3 : _lst_refresh s3 = rev rest) by (rewrite Lr; reflexivity).
    assert (Cont :
      match option_map S (first_fatal s3 (List.length rest)) with
      | None =>
          fst (exit_refresh rest s3) = Return tt
          /\ exit_state s (dev :: rest) []
               (failed_before s (S (List.length rest)))
               (snd (exit_refresh rest s3))
      | Some j =>
          fst (exit_refresh rest s3)
          = Raise (RuntimeError "reach max io error count on process image")
          /\ exit_state s (firstn (S j) (dev :: rest))
               (skipn (S j) (dev :: rest))
               (S (failed_before s j)) (snd (exit_refresh rest s3))
      end).
    { pose proof (IH s3 V3 Hm3) as IH3.
      destruct (first_fatal s3 (List.length rest)) as [j|] eqn:Ej;
        cbn [option_map]; destruct IH3 as [R E]; (split; [exact R|]).
      - cbn [firstn skipn].
        rewrite (failed_before_next s s3 j OW). fold delta.
        replace (S (delta + failed_before s3 j))
          with (delta + S (failed_before s3 j)) by lia.
        apply (exit_state_step s s3 dev _ _ delta _ _ D3 G3 S3 Lw He3 Ef');
          [|exact E].
        intros Hnil. exfalso.
        unfold first_fatal in Ej. apply find_some in Ej.
        destruct Ej as [Hin _]. apply in_seq in Hin.
        destruct rest; [cbn in Hin; lia | discriminate].
      - rewrite (failed_before_next s s3 _ OW). fold delta.
        apply (exit_state_step s s3 dev _ _ delta _ _ D3 G3 S3 Lw He3 Ef');
          [|exact E].
        intros ->. exact Lr3. }
    rewrite (first_fatal_next s s3 _ OW), escalates_first.
    destruct (final_write_fails s 0) eqn:F0; cbn [andb].
    + destruct Aw as [_ Aw].
      change (threshold_reached s2) with (threshold_reached s) in Aw.
      destruct (threshold_reached s) eqn:T.
      * destruct Aw as [-> _]. cbn [fst snd firstn skipn].
        split; [reflexivity|].
        unfold failed_before. cbn [seq filter List.length].
        replace 1 with (delta + 0)
          by (unfold delta; try rewrite F0; reflexivity).
        apply (exit_state_step s s3 dev [] rest delta 0 s3 D3 G3 S3 Lw He3
                 Ef'); [intros _; exact Lr3|].
        apply exit_state_start.
      * destruct Aw as [-> _]. exact Cont.
    + destruct Aw as (-> & _). exact Cont.
Qed.

Lemma stop_imgwriter_frame s :
  objects (stop_imgwriter s) = objects s
  /\ _lst_refresh (stop_imgwriter s) = _lst_refresh s
  /\ _myfh (stop_imgwriter s) = _myfh s
  /\ _monitoring (stop_imgwriter s) = _monitoring s
  /\ _buffedwrite (stop_imgwriter s) = _buffedwrite s
  /\ _maxioerrors (stop_imgwriter s) = _maxioerrors s
  /\ _ioerror (stop_imgwriter s) = _ioerror s
  /\ _exit (stop_imgwriter s) = _exit s
  /\ _waitexit (stop_imgwriter s) = _waitexit s
  /\ _looprunning (stop_imgwriter s) = _looprunning s.
Proof.
  unfold stop_imgwriter.
  destruct (_imgwriter s) as [w|]; [destruct (iw_alive w)|];
    repeat split; reflexivity.
Qed.

(** C5, as the code does it. [exit(full=True)] takes the devices off the
    refresh list from its end; for each one it first marks the device no
    longer self-updating and then, unless the system is in monitoring mode,
    writes its outputs once. When no write can reach the error threshold,
    [exit] returns with the refresh list empty, every device of the list
    not self-updating, exactly one write (and its flush, in buffered mode)
    issued for each device of the list, none in monitoring mode, and the
    loop flag cleared. Outside monitoring mode every failed final write
    counts one error, and [exit] raises the fatal error at the first
    device whose final write fails and thereby reaches the non-zero
    maximum: that device and those taken before it are marked, off the
    list and written once each; the devices not yet taken stay on the
    list and are left as they were, nothing is written for them, and the
    loop flag is as it was. When no final write does so, [exit]
    returns. *)
Theorem exit_full s :
  (forall id, In id (_lst_refresh s) -> get_dev s id <> None) ->
  (no_escalation s ->
   fst (exit s true) = Return tt
   /\ _lst_refresh (snd (exit s true)) = []
   /\ (forall id, In id (_lst_refresh s) ->
                  selfupdate_of (snd (exit s true)) id = false)
   /\ fh_log (_myfh (snd (exit s true)))
      = fh_log (_myfh s)
        ++ (if _monitoring s then []
            else flat_map (final_write s) (rev (_lst_refresh s)))
   /\ _looprunning (snd (exit s true)) = false
   /\ _exit (snd (exit s true)) = true
   /\ _waitexit (snd (exit s true)) = true)
  /\ (_monitoring s = false ->
      let todo := rev (_lst_refresh s) in
      let s' := snd (exit s true) in
      match first_fatal s (List.length todo) with
      | None =>
          fst (exit s true) = Return tt
          /\ _lst_refresh s' = []
          /\ (forall id, In id todo -> selfupdate_of s' id = false)
          /\ fh_log (_myfh s')
             = fh_log (_myfh s) ++ flat_map (final_write s) todo
          /\ _ioerror s'
             = (_ioerror s
                + Z.of_nat (failed_before s (List.length todo)))%Z
          /\ _looprunning s' = false
      | Some j =>
          fst (exit s true)
          = Raise (RuntimeError "reach max io error count on process image")
          /\ _lst_refresh s'
             = firstn (List.length todo - S j) (_lst_refresh s)
          /\ (forall id, In id (firstn (S j) todo) ->
                         selfupdate_of s' id = false)
          /\ (forall id, ~ In id (firstn (S j) todo) ->
                         get_dev s' id = get_dev s id)
          /\ fh_log (_myfh s')
             = fh_log (_myfh s)
               ++ flat_map (final_write s) (firstn (S j) todo)
          /\ _ioerror s'
             = (_ioerror s + Z.of_nat (failed_before s j) + 1)%Z
          /\ _looprunning s' = _looprunning s
      end).
Proof.
  intros Hv.
  set (s1 := with_exit s true true).
  destruct (stop_imgwriter_frame s1)
    as (Ob & Lr & Fh & Mo & Bu & Mx & Ie & Ex & We & Lo).
  set (s0 := stop_imgwriter s1) in *.
  assert (V0 : forall id, In id (rev (_lst_refresh s1)) ->
                          get_dev s0 id <> None).
  { intros id Hin. unfold get_dev. rewrite Ob. apply Hv.
    now apply in_rev. }
  split.
  - intros Hsafe.
    assert (S0 : no_escalation s0).
    { unfold no_escalation. rewrite Mo, Mx, Fh. exact Hsafe. }
    destruct (exit_refresh_spec (rev (_lst_refresh s1)) s0 V0 S0)
      as (R & L & F & Lg & Fr & D).
    unfold exit. fold s1. fold s0.
    destruct (exit_refresh (rev (_lst_refresh s1)) s0) as [[u|e] s2];
      cbn [fst snd] in *; [|discriminate].
    change (selfupdate_of (with_looprunning s2 false))
      with (selfupdate_of s2).
    cbn [with_looprunning _lst_refresh _myfh _looprunning _exit _waitexit].
    split; [reflexivity|]. split.
    { rewrite L. destruct (rev (_lst_refresh s1)) as [|x xs] eqn:El;
        [|reflexivity].
      rewrite Lr. apply (f_equal (@rev nat)) in El.
      rewrite rev_involutive in El. exact El. }
    split.
    { intros id Hin. apply F. right. now apply -> in_rev. }
    split.
    { rewrite Lg, Mo, Fh. f_equal.
      change (_monitoring s1) with (_monitoring s).
      change (_lst_refresh s1) with (_lst_refresh s).
      destruct (_monitoring s); [reflexivity|].
      apply flat_map_ext. intros id. unfold final_write, get_dev.
      rewrite Ob, Bu. reflexivity. }
    unfold exit_frame in Fr. inversion Fr.
    assert (X1 : _exit s1 = true) by reflexivity.
    assert (X2 : _waitexit s1 = true) by reflexivity.
    repeat split; congruence.
  - intros Hm todo s'. subst todo s'.
    assert (M0 : _monitoring s0 = false) by (rewrite Mo; exact Hm).
    pose proof (exit_refresh_run (rev (_lst_refresh s1)) s0 V0 M0) as Run.
    destruct (first_fatal_same s s0 (List.length (rev (_lst_refresh s1)))
                Fh Bu Mx Ie) as [Ff Fb].
    rewrite Ff in Run. change (_lst_refresh s1) with (_lst_refresh s) in *.
    assert (Efw : forall l, flat_map (final_write s0) l
                            = flat_map (final_write s) l).
    { intros l. apply flat_map_ext. intros id. unfold final_write, get_dev.
      rewrite Ob, Bu. reflexivity. }
    unfold exit. fold s1. fold s0.
    change (_lst_refresh s1) with (_lst_refresh s).
    destruct (first_fatal s (List.length (rev (_lst_refresh s)))) as [j|].
    + destruct Run as (R & L & Su & Ge & Lg & Er & Fr & _).
      destruct (exit_refresh (rev (_lst_refresh s)) s0) as [[u|e] s2];
        cbn [fst snd] in *; [discriminate|].
      split; [exact R|]. split.
      { rewrite L.
        destruct (firstn (S j) (rev (_lst_refresh s))) as [|x xs] eqn:Et.
        - destruct (rev (_lst_refresh s)) as [|y ys] eqn:El;
            [|discriminate].
          apply (f_equal (@rev nat)) in El.
          rewrite rev_involutive in El. rewrite Lr. cbn in El.
          change (_lst_refresh s1) with (_lst_refresh s).
          rewrite El. reflexivity.
        - rewrite skipn_rev, rev_involutive, length_rev. reflexivity. }
      split; [exact Su|]. split.
      { intros id Hnin. rewrite (Ge id Hnin). unfold get_dev.
        now rewrite Ob. }
      split; [rewrite Lg, Fh, Efw; reflexivity|]. split.
      { rewrite Er, Fb, Ie. cbn [s1 with_exit _ioerror]. lia. }
      unfold exit_frame in Fr.
      assert (E6 : _looprunning s2 = _looprunning s0) by congruence.
      rewrite E6, Lo. reflexivity.
    + destruct Run as (R & L & Su & Ge & Lg & Er & Fr & _).
      destruct (exit_refresh (rev (_lst_refresh s)) s0) as [[u|e] s2];
        cbn [fst snd] in *; [|discriminate].
      change (selfupdate_of (with_looprunning s2 false))
        with (selfupdate_of s2).
      cbn [with_looprunning _lst_refresh _myfh _looprunning _ioerror].
      split; [reflexivity|]. split.
      { rewrite L. destruct (rev (_lst_refresh s)) as [|x xs] eqn:El;
          [|reflexivity].
        rewrite Lr. apply (f_equal (@rev nat)) in El.
        rewrite rev_involutive in El. exact El. }
      split; [exact Su|].
      split; [rewrite Lg, Fh, Efw; reflexivity|]. split.
      { rewrite Er, Fb, Ie. reflexivity. }
      reflexivity.
Qed.

(** C5 does not hold as stated: with a failing channel and a maximum of one
    error, [exit(full=True)] raises on the first write; the other device is
    left on the refresh list, self-updating and without a final write, and
    the loop flag is not cleared. *)
Lemma exit_full_escalates :
  _lst_refresh ExampleExit.broken = [0; 1]
  /\ fst (exit ExampleExit.broken true)
     = Raise (RuntimeError "reach max io error count on process image")
  /\ _lst_refresh (snd (exit ExampleExit.broken true)) = [0]
  /\ selfupdate_of (snd (exit ExampleExit.broken true)) 0 = true
  /\ selfupdate_of (snd (exit ExampleExit.broken true)) 1 = false
  /\ fh_log (_myfh (snd (exit ExampleExit.broken true)))
     = [FhWrite 3 [Byte.x00]]
  /\ _looprunning (snd (exit ExampleExit.broken true)) = true.
Proof. vm_compute. intuition. Qed.

Lemma exit_full_witness :
  (forall id, In id (_lst_refresh ExampleExit.calm) ->
              get_dev ExampleExit.calm id <> None)
  /\ no_escalation ExampleExit.calm
  /\ fst (exit ExampleExit.calm true) = Return tt
  /\ _lst_refresh (snd (exit ExampleExit.calm true)) = []
  /\ fh_log (_myfh (snd (exit ExampleExit.calm true)))
     = [FhWrite 3 [Byte.x00]; FhWrite 1 [Byte.x00]]
  /\ (forall id, In id (_lst_refresh ExampleExit.second_fails) ->
                 get_dev ExampleExit.second_fails id <> None)
  /\ first_fatal ExampleExit.second_fails 2 = Some 1
  /\ fst (exit ExampleExit.second_fails true)
     = Raise (RuntimeError "reach max io error count on process image")
  /\ _lst_refresh (snd (exit ExampleExit.second_fails true)) = []
  /\ fh_log (_myfh (snd (exit ExampleExit.second_fails true)))
     = [FhWrite 3 [Byte.x00]; FhWrite 1 [Byte.x00]]
  /\ _ioerror (snd (exit ExampleExit.second_fails true)) = 1%Z.
Proof.
  assert (V : forall id, In id (_lst_refresh ExampleExit.calm) ->
                         get_dev ExampleExit.calm id <> None).
  { intros id [<-|[<-|[]]]; discriminate. }
  assert (S : no_escalation ExampleExit.calm) by (right; left; reflexivity).
  assert (V' : forall id, In id (_lst_refresh ExampleExit.second_fails) ->
                          get_dev ExampleExit.second_fails id <> None).
  { intros id [<-|[<-|[]]]; discriminate. }
  split; [exact V|]. split; [exact S|].
  destruct (proj1 (exit_full ExampleExit.calm V) S) as (R & L & _ & Lg & _).
  split; [exact R|]. split; [exact L|]. split; [exact Lg|].
  split; [exact V'|]. split; [reflexivity|].
  pose proof (proj2 (exit_full ExampleExit.second_fails V') eq_refl) as H.
  cbv zeta in H.
  change (first_fatal ExampleExit.second_fails
            (List.length (rev (_lst_refresh ExampleExit.second_fails))))
    with (Some 1) in H.
  destruct H as (R' & L' & _ & _ & Lg' & E' & _).
  split; [exact R'|]. split; [exact L'|]. split; [exact Lg'|]. exact E'.
Defined.

(** With a maximum of two errors and a channel on which every operation
    fails, the first final write counts an error and the loop goes on;
    the second one reaches the maximum. *)
Lemma exit_raises_at_second :
  first_fatal ExampleExit.two_allowed 2 = Some 1
  /\ fst (exit ExampleExit.two_allowed true)
     = Raise (RuntimeError "reach max io error count on process image")
  /\ _lst_refresh (snd (exit ExampleExit.two_allowed true)) = []
  /\ _ioerror (snd (exit ExampleExit.two_allowed true)) = 2%Z.
Proof. vm_compute. auto. Qed.

(** ** Start of the cyclic loops *)

(** C6. [cycleloop] and [mainloop] raise the fatal error at once, with the
    manager unchanged (the running state is not entered) and no user code
    called, when another loop is running or no device is under cyclic
    refresh, and [cycleloop] also when the function is not callable. *)
Theorem loop_preconditions s func cycletime freeze blocking sched :
  (_looprunning s = true \/ _lst_refresh s = [] \/ func = NotCallable ->
   exists msg,
     cycleloop s func cycletime sched
     = (Some (Raise (RuntimeError msg)), s, 0))
  /\ (_looprunning s = true \/ _lst_refresh s = [] ->
      exists msg,
        mainloop s freeze blocking sched
        = (Some (Raise (RuntimeError msg)), s, [])).
Proof.
  unfold cycleloop, mainloop. split.
  - intros H. destruct (_looprunning s); [eauto|].
    destruct (_lst_refresh s) as [|x xs]; cbn [List.length Nat.eqb]; [eauto|].
    destruct H as [H|[H|H]]; try discriminate. subst func. eauto.
  - intros H. destruct (_looprunning s); [eauto|].
    destruct (_lst_refresh s) as [|x xs]; cbn [List.length Nat.eqb]; [eauto|].
    destruct H as [H|H]; discriminate.
Qed.

Lemma loop_preconditions_witness :
  _looprunning (Example.watching Example.b00 Example.b01) = true
  /\ (exists msg,
        cycleloop (Example.watching Example.b00 Example.b01)
          (Callable (fun _ s => (Some 0%Z, s))) None
          [mkStep (fun s => s) true Example.is_true]
        = (Some (Raise (RuntimeError msg)),
           Example.watching Example.b00 Example.b01, 0))
  /\ (exists msg,
        mainloop (Example.watching Example.b00 Example.b01) false true
          [mkStep (fun s => s) true Example.is_true]
        = (Some (Raise (RuntimeError msg)),
           Example.watching Example.b00 Example.b01, [])).
Proof.
  split; [reflexivity|]. split.
  - apply (proj1
             (loop_preconditions (Example.watching Example.b00 Example.b01)
                (Callable (fun _ s => (Some 0%Z, s))) None false true
                [mkStep (fun s => s) true Example.is_true])).
    left. reflexivity.
  - apply (proj2
             (loop_preconditions (Example.watching Example.b00 Example.b01)
                (Callable (fun _ s => (Some 0%Z, s))) None false true
                [mkStep (fun s => s) true Example.is_true])).
    left. reflexivity.
Defined.

(** When the preconditions hold, the loops are entered: the cycle loop
    calls the function on the first fresh cycle, the main loop dispatches
    the events of the cycle. *)
Lemma loops_enter :
  let s :=
    Example.modio false false 0 Example.never [0]
      [Example.dio true Example.b00 Example.b00; Example.aio false] in
  cycleloop s (Callable (fun _ s => (Some 7%Z, s))) None
    [mkStep (fun s => s) true Example.is_true]
  = (Some (Return (Some 7%Z)), s, 1)
  /\ snd (mainloop s false true
            [mkStep
               (fun s => put_dev s 0 (Example.dio true Example.b00 Example.b01))
               true Example.is_true])
     = [Mainloop.CallInline 1 "I_1" (VBool true)].
Proof. vm_compute. auto. Qed.

(** ** The address map *)

Lemma last_cons_default {A} (a d : A) l : last (a :: l) d = last l a.
Proof.
  revert a d. induction l as [|b l IH]; intros a d; [reflexivity|].
  change (last (a :: b :: l) d) with (last (b :: l) d).
  rewrite (IH b d), (IH b a). reflexivity.
Qed.

Lemma spec_offsets_lower acc devs :
  Forall (fun x => acc <= x) (spec_offsets acc devs).
Proof.
  revert acc. induction devs as [|[o len] devs IH]; intros acc;
    cbn [spec_offsets]; constructor.
  - destruct (Nat.ltb_spec o acc); lia.
  - eapply Forall_impl; [|apply IH]. cbn beta. intros x Hx.
    destruct (Nat.ltb_spec o acc); lia.
Qed.

Lemma spec_offsets_sorted acc devs :
  StronglySorted le (spec_offsets acc devs).
Proof.
  revert acc. induction devs as [|[o len] devs IH]; intros acc;
    cbn [spec_offsets]; constructor.
  - apply IH.
  - eapply Forall_impl; [|apply spec_offsets_lower]. cbn beta. lia.
Qed.

Lemma configure_device_known s errs d :
  known_type (d_type d) = true ->
  _length (fst (configure_device (s, errs) d))
  = length_checked s (new_device d (position_of s d))
    + (d_inp d + d_out d + d_mem d)
  /\ length_checked s (new_device d (position_of s d))
     = (if Nat.ltb (d_offset d) (_length s) then _length s else d_offset d).
Proof.
  intros Hk. split.
  - unfold configure_device. rewrite Hk. reflexivity.
  - unfold length_checked.
    change (dev_offset (new_device d (position_of s d))) with (d_offset d).
    destruct (Nat.ltb_spec (_length s) (d_offset d)),
      (Nat.ltb_spec (d_offset d) (_length s)); lia.
Qed.

Lemma configure_device_unknown s errs d :
  known_type (d_type d) = false ->
  _length (fst (configure_device (s, errs) d)) = _length s.
Proof.
  intros Hk. unfold configure_device. rewrite Hk. reflexivity.
Qed.

(** The places at which the loop over the devices adds the lengths follow
    the placement rule. *)
Lemma effective_offsets_rule lst_devices : forall s err_names,
  effective_offsets (s, err_names) lst_devices
  = spec_offsets (_length s) (declared lst_devices).
Proof.
  induction lst_devices as [|d ds IH]; intros s errs;
    cbn [effective_offsets]; [reflexivity|].
  destruct (configure_device (s, errs) d) as [s' errs'] eqn:E.
  assert (Hs' : s' = fst (configure_device (s, errs) d)) by now rewrite E.
  rewrite IH. unfold declared. cbn [filter fst].
  destruct (known_type (d_type d)) eqn:Hk.
  - destruct (configure_device_known s errs d Hk) as [Hl Hc].
    rewrite <- Hs' in Hl. cbn [map app spec_offsets].
    rewrite <- Hc, <- Hl. reflexivity.
  - pose proof (configure_device_unknown s errs d Hk) as Hl.
    rewrite <- Hs' in Hl. cbn [app]. now rewrite Hl.
Qed.

(** C8. In [_configure], for the device descriptors taken in position
    order: the effective offset of each device that is built is its
    declared offset unless that is smaller than the length accumulated so
    far, in which case the accumulated length is used; the effective
    offsets never decrease along the list; and the total image length is
    the effective offset of the last device plus its length. *)
Theorem address_map lst_devices : forall s err_names,
  let final := fst (fold_left configure_device lst_devices (s, err_names)) in
  let offsets := effective_offsets (s, err_names) lst_devices in
  offsets = spec_offsets (_length s) (declared lst_devices)
  /\ StronglySorted le offsets
  /\ _length final = end_of_last (_length s) offsets (declared lst_devices).
Proof.
  induction lst_devices as [|d ds IH]; intros s errs; cbv zeta.
  - cbn. repeat split. constructor.
  - cbn [fold_left effective_offsets].
    destruct (configure_device (s, errs) d) as [s' errs'] eqn:E.
    specialize (IH s' errs'). cbv zeta in IH. destruct IH as (O & _ & L).
    assert (Hs' : s' = fst (configure_device (s, errs) d)) by now rewrite E.
    unfold declared in *. cbn [filter fst].
    destruct (known_type (d_type d)) eqn:Hk.
    + destruct (configure_device_known s errs d Hk) as [Hl Hc].
      rewrite <- Hs' in Hl. cbn [map app].
      assert (Oall : length_checked s (new_device d (position_of s d))
                       :: effective_offsets (s', errs') ds
                     = spec_offsets (_length s)
                         ((d_offset d, d_inp d + d_out d + d_mem d)
                            :: map (fun d0 => (d_offset d0,
                                               d_inp d0 + d_out d0 + d_mem d0))
                                 (filter (fun d0 => known_type (d_type d0))
                                    ds))).
      { cbn [spec_offsets]. rewrite <- Hc, <- Hl, <- O. reflexivity. }
      split; [exact Oall|]. split.
      * rewrite Oall. apply spec_offsets_sorted.
      * rewrite L. unfold end_of_last. cbn [combine map fst snd].
        rewrite last_cons_default, Hl. reflexivity.
    + pose proof (configure_device_unknown s errs d Hk) as Hl.
      rewrite <- Hs' in Hl. cbn [app]. rewrite <- Hl.
      split; [exact O|]. split; [|exact L].
      rewrite O. apply spec_offsets_sorted.
Qed.

(** With declared ranges that follow each other without overlap, every
    device is placed at its declared offset. *)
Lemma address_map_in_order lst_devices s err_names :
  in_order (_length s) (declared lst_devices) ->
  effective_offsets (s, err_names) lst_devices
  = map fst (declared lst_devices).
Proof.
  intros H. rewrite effective_offsets_rule.
  revert H. generalize (_length s) as acc.
  induction (declared lst_devices) as [|[o len] devs IH]; intros acc H;
    cbn [spec_offsets map fst]; [reflexivity|].
  destruct H as [H1 H2].
  destruct (Nat.ltb_spec o acc); [lia|]. f_equal. now apply IH.
Qed.

Lemma configure_names_length names : forall s,
  _length (snd (configure_names names s)) = _length s.
Proof.
  induction names as [|n names IH]; intros s; cbn [configure_names];
    [reflexivity|].
  destruct (DeviceList.delattr (device s) n); [|reflexivity].
  rewrite IH. reflexivity.
Qed.

Lemma update_devices_length f mylist : forall s,
  _length (update_devices f mylist s) = _length s.
Proof.
  unfold update_devices.
  induction mylist as [|id ids IH]; intros s; cbn [fold_left]; auto.
  destruct (get_dev s id) as [dev|]; rewrite IH; reflexivity.
Qed.

Lemma read_image_then_length f mylist s :
  _length (snd (read_image_then f mylist s)) = _length s.
Proof.
  unfold read_image_then, fh_read.
  destruct (fh_ok (_myfh s)).
  - cbn [snd]. now rewrite update_devices_length.
  - rewrite gotioerror_spec.
    change (threshold_reached (with_myfh s _)) with (threshold_reached s).
    destruct (threshold_reached s); reflexivity.
Qed.

(** The total image length that [_configure] leaves behind is the one that
    its loop over the devices has accumulated: neither the removal of
    names nor the first reading of the outputs touches it. *)
Lemma configure_length s lst_devices refresh :
  _length (snd (_configure s lst_devices refresh))
  = _length
      (fst (fold_left configure_device lst_devices
              (with_objects (with_device s DeviceList.empty) [], []))).
Proof.
  unfold _configure.
  destruct (fold_left configure_device lst_devices
              (with_objects (with_device s DeviceList.empty) [], []))
    as [s1 err_names].
  pose proof (configure_names_length err_names s1) as Hn.
  destruct (configure_names err_names s1) as [[u|e] s2]; cbn [fst snd] in *;
    [|exact Hn].
  destruct (_syncoutputs s2) eqn:Hs.
  - change (_syncoutputs (with_imgwriter s2 _)) with (_syncoutputs s2).
    rewrite Hs. unfold syncoutputs.
    pose proof
      (read_image_then_length sync_device
         (DeviceList.iter
            (device
               (with_imgwriter s2
                  (Some (mkWriter refresh false false 0 (_maxioerrors s2))))))
         (with_imgwriter s2
            (Some (mkWriter refresh false false 0 (_maxioerrors s2)))))
      as Hr.
    destruct (read_image_then _ _ _) as [[b|e] s4]; cbn [fst snd] in *;
      rewrite Hr; exact Hn.
  - change (_syncoutputs (with_imgwriter s2 _)) with (_syncoutputs s2).
    rewrite Hs. exact Hn.
Qed.

(** The address map of the mixed example: the gateway is placed at its
    declared offset 10, the unknown device is left out, the virtual device
    with the stale offset 0 is placed at the accumulated length 14, and the
    image is 17 bytes long. *)
Lemma address_map_mixed :
  effective_offsets (ExampleConfig.fresh, []) ExampleConfig.mixed
  = [0; 10; 14]
  /\ _length (snd (_configure ExampleConfig.fresh ExampleConfig.mixed 50))
     = 17
  /\ map dev_position
       (objects (snd (_configure ExampleConfig.fresh ExampleConfig.mixed 50)))
     = [0%Z; 1%Z; (-1)%Z].
Proof. vm_compute. auto. Qed.

(** ** Devices under one name *)

Lemma lookup_remove_same {K} (eq_dec : forall a b : K, {a = b} + {a <> b})
    k l :
  DeviceList.lookup eq_dec k (DeviceList.remove eq_dec k l) = None.
Proof.
  induction l as [|[k' v] l IH]; cbn [DeviceList.remove DeviceList.lookup];
    auto.
  destruct (eq_dec k k') as [E|N]; auto.
  cbn [DeviceList.lookup]. destruct (eq_dec k k'); [contradiction|auto].
Qed.

(** A name that is recorded twice in [err_names] stops the configuration:
    the second [delattr] finds the attribute gone. *)
Lemma configure_names_twice name rest s :
  fst (configure_names (name :: name :: rest) s) = Raise AttributeError.
Proof.
  cbn [configure_names]. unfold DeviceList.delattr at 1.
  destruct (DeviceList.hasattr (device s) name); [|reflexivity].
  cbn [device with_device warn]. unfold DeviceList.delattr, DeviceList.hasattr,
    DeviceList.by_name. cbn [DeviceList.names].
  rewrite lookup_remove_same. reflexivity.
Qed.

Lemma lookup_assign_same {K} (eq_dec : forall a b : K, {a = b} + {a <> b})
    k v l :
  DeviceList.lookup eq_dec k (DeviceList.assign eq_dec k v l) = Some v.
Proof.
  induction l as [|[k' v'] l IH]; cbn [DeviceList.assign DeviceList.lookup].
  - destruct (eq_dec k k); congruence.
  - destruct (eq_dec k k') as [E|N]; cbn [DeviceList.lookup].
    + destruct (eq_dec k k'); congruence.
    + destruct (eq_dec k k'); congruence.
Qed.

Lemma lookup_assign_other {K} (eq_dec : forall a b : K, {a = b} + {a <> b})
    k k' v l :
  k <> k' ->
  DeviceList.lookup eq_dec k (DeviceList.assign eq_dec k' v l)
  = DeviceList.lookup eq_dec k l.
Proof.
  intros Hne.
  induction l as [|[k2 v2] l IH]; cbn [DeviceList.assign DeviceList.lookup].
  - destruct (eq_dec k k'); congruence.
  - destruct (eq_dec k' k2) as [E|N]; cbn [DeviceList.lookup].
    + destruct (eq_dec k k2); congruence.
    + destruct (eq_dec k k2); congruence.
Qed.

Lemma lookup_remove_other {K} (eq_dec : forall a b : K, {a = b} + {a <> b})
    k k' l :
  k <> k' ->
  DeviceList.lookup eq_dec k (DeviceList.remove eq_dec k' l)
  = DeviceList.lookup eq_dec k l.
Proof.
  intros Hne.
  induction l as [|[k2 v2] l IH]; cbn [DeviceList.remove DeviceList.lookup];
    auto.
  destruct (eq_dec k' k2) as [E|N]; cbn [DeviceList.lookup].
  - destruct (eq_dec k k2); congruence.
  - destruct (eq_dec k k2); congruence.
Qed.

Lemma hasattr_setattr dl name position id n :
  DeviceList.hasattr (DeviceList.setattr dl name position id) n = true
  <-> n = name \/ DeviceList.hasattr dl n = true.
Proof.
  unfold DeviceList.hasattr, DeviceList.by_name, DeviceList.setattr.
  cbn [DeviceList.names].
  destruct (string_dec n name) as [->|Hne].
  - rewrite lookup_assign_same. tauto.
  - rewrite lookup_assign_other by assumption.
    destruct (DeviceList.lookup string_dec n (DeviceList.names dl));
      intuition congruence.
Qed.

(** One step of the loop over the devices, for a descriptor of a known
    type. *)
Lemma configure_device_step s errs d :
  known_type (d_type d) = true ->
  let res := configure_device (s, errs) d in
  objects (fst res)
  = objects s ++ [new_device d (position_of s d)]
  /\ device (fst res)
     = DeviceList.setattr (device s) (d_name d) (position_of s d)
         (List.length (objects s))
  /\ snd res
     = (if DeviceList.hasattr (device s) (d_name d)
        then errs ++ [d_name d] else errs)
  /\ warned (fst res) = warned s
  /\ _maxioerrors (fst res) = _maxioerrors s
  /\ _ioerror (fst res) = _ioerror s.
Proof.
  intros Hk. unfold configure_device. rewrite Hk. cbn. auto 10.
Qed.

Lemma fold_err_names ds : forall s errs seen,
  Forall regular ds ->
  (forall n, DeviceList.hasattr (device s) n = true <-> In n seen) ->
  snd (fold_left configure_device ds (s, errs))
  = errs ++ shared seen (map d_name ds)
  /\ (forall n,
        DeviceList.hasattr
          (device (fst (fold_left configure_device ds (s, errs)))) n = true
        <-> In n (map d_name ds) \/ In n seen).
Proof.
  induction ds as [|d ds IH]; intros s errs seen Hreg Hseen;
    cbn [fold_left map shared].
  - rewrite app_nil_r. split; [reflexivity|]. intros n. rewrite Hseen.
    simpl. tauto.
  - inversion Hreg as [|? ? [Hk _] Hreg']; subst.
    destruct (configure_device_step s errs d Hk) as (_ & Hd & He & _).
    destruct (configure_device (s, errs) d) as [s1 errs1].
    cbn [fst snd] in Hd, He.
    assert (Hseen1 : forall n, DeviceList.hasattr (device s1) n = true
                               <-> In n (d_name d :: seen)).
    { intros n. rewrite Hd, hasattr_setattr, Hseen. simpl.
      intuition congruence. }
    destruct (IH s1 errs1 (d_name d :: seen) Hreg' Hseen1) as [E H].
    split.
    + rewrite E, He.
      destruct (in_dec string_dec (d_name d) seen) as [Hin|Hnin].
      * rewrite (proj2 (Hseen (d_name d)) Hin), <- app_assoc. reflexivity.
      * destruct (DeviceList.hasattr (device s) (d_name d)) eqn:Hh;
          [|reflexivity].
        exfalso. apply Hnin. now apply Hseen.
    + intros n. rewrite H. simpl. intuition.
Qed.

Lemma position_of_numbered s d :
  d_position d <> Adap -> position_of s d = numbered d.
Proof.
  unfold position_of, numbered. destruct (d_position d); congruence.
Qed.

Lemma fold_positions ds : forall s errs,
  Forall regular ds -> NoDup (map numbered ds) ->
  let s' := fst (fold_left configure_device ds (s, errs)) in
  objects s' = objects s ++ map (fun d => new_device d (numbered d)) ds
  /\ (forall i d, nth_error ds i = Some d ->
        DeviceList.by_position (device s') (numbered d)
        = Some (List.length (objects s) + i))
  /\ (forall p, ~ In p (map numbered ds) ->
        DeviceList.by_position (device s') p
        = DeviceList.by_position (device s) p)
  /\ warned s' = warned s
  /\ _maxioerrors s' = _maxioerrors s
  /\ _ioerror s' = _ioerror s.
Proof.
  induction ds as [|d ds IH]; intros s errs Hreg Hnd; cbv zeta;
    cbn [fold_left map].
  - rewrite app_nil_r. repeat split; auto.
    intros [|i] d H; discriminate.
  - inversion Hreg as [|? ? [Hk Hp] Hreg']; subst.
    inversion Hnd as [|? ? Hnin Hnd']; subst.
    destruct (configure_device_step s errs d Hk)
      as (Ho & Hd & _ & Hw & Hm & Hi).
    rewrite (position_of_numbered s d Hp) in Ho, Hd.
    destruct (configure_device (s, errs) d) as [s1 errs1].
    cbn [fst snd] in Ho, Hd, Hw, Hm, Hi.
    specialize (IH s1 errs1 Hreg' Hnd'). cbv zeta in IH.
    destruct IH as (O & P & Q & W & M & I).
    assert (Hown : DeviceList.by_position (device s1) (numbered d)
                   = Some (List.length (objects s))).
    { rewrite Hd. unfold DeviceList.by_position, DeviceList.setattr.
      cbn [DeviceList.positions]. apply lookup_assign_same. }
    split; [rewrite O, Ho, <- app_assoc; reflexivity|].
    split.
    { intros [|i] d' H; cbn [nth_error] in H.
      - injection H as <-. rewrite Q by assumption.
        rewrite Hown. f_equal. lia.
      - rewrite (P i d' H), Ho, length_app. cbn [List.length].
        f_equal. lia. }
    split.
    { intros p Hnp. rewrite Q by (simpl in Hnp; tauto).
      rewrite Hd. unfold DeviceList.by_position, DeviceList.setattr.
      cbn [DeviceList.positions]. apply lookup_assign_other.
      simpl in Hnp. intros ->. tauto. }
    repeat split; congruence.
Qed.

Lemma shared_in seen names n :
  In n (shared seen names) -> In n names.
Proof.
  revert seen. induction names as [|m names IH]; intros seen; cbn [shared].
  - intros [].
  - rewrite in_app_iff. intros [H|H].
    + destruct (in_dec string_dec m seen); [|contradiction].
      destruct H as [<-|[]]. left. reflexivity.
    + right. eapply IH; eauto.
Qed.

(** A name that comes up at most twice is recorded at most once. *)
Lemma shared_nodup names : forall seen,
  (forall n, count_occ string_dec names n
             + (if in_dec string_dec n seen then 1 else 0) <= 2) ->
  NoDup (shared seen names).
Proof.
  induction names as [|m names IH]; intros seen H; cbn [shared];
    [constructor|].
  assert (Hrest : NoDup (shared (m :: seen) names)).
  { apply IH. intros n. specialize (H n). cbn [count_occ] in H.
    destruct (string_dec m n) as [->|Hne].
    - destruct (in_dec string_dec n (n :: seen)) as [_|Hn];
        [|exfalso; apply Hn; left; reflexivity].
      destruct (in_dec string_dec n seen); lia.
    - destruct (in_dec string_dec n (m :: seen)) as [[E|Hin]|Hn];
        destruct (in_dec string_dec n seen) as [Hin'|Hn']; try congruence;
        lia. }
  destruct (in_dec string_dec m seen) as [Hin|Hnin]; [|exact Hrest].
  cbn [app]. constructor; [|exact Hrest].
  intros Hm. apply shared_in in Hm.
  specialize (H m). cbn [count_occ] in H.
  destruct (string_dec m m); [|congruence].
  destruct (in_dec string_dec m seen); [|contradiction].
  apply (count_occ_In string_dec) in Hm. lia.
Qed.

(** A name that comes up twice is recorded. *)
Lemma shared_twice names : forall seen n,
  2 <= count_occ string_dec names n
       + (if in_dec string_dec n seen then 1 else 0) ->
  In n names ->
  In n (shared seen names).
Proof.
  induction names as [|m names IH]; intros seen n H Hin; [contradiction|].
  cbn [shared]. rewrite in_app_iff. cbn [count_occ] in H.
  destruct (string_dec m n) as [->|Hne].
  - destruct (in_dec string_dec n seen) as [Hs|Hs]; [left; left; reflexivity|].
    right. apply IH.
    + destruct (in_dec string_dec n (n :: seen)) as [_|Hn]; [lia|].
      exfalso. apply Hn. left. reflexivity.
    + apply (count_occ_In string_dec). lia.
  - right. destruct Hin as [E|Hin]; [congruence|]. apply IH; [|exact Hin].
    destruct (in_dec string_dec n (m :: seen)) as [[E|Hs]|Hn];
      destruct (in_dec string_dec n seen) as [Hs'|Hn']; try congruence;
      try lia.
    exfalso. apply Hn. right. assumption.
Qed.

(** The removal of the recorded names, when no name is recorded twice and
    every recorded name is set in the registry. *)
Lemma configure_names_spec errs : forall s,
  NoDup errs ->
  (forall n, In n errs -> DeviceList.hasattr (device s) n = true) ->
  let res := configure_names errs s in
  fst res = Return tt
  /\ (forall n, In n errs -> DeviceList.by_name (device (snd res)) n = None)
  /\ (forall n, ~ In n errs ->
        DeviceList.by_name (device (snd res)) n
        = DeviceList.by_name (device s) n)
  /\ DeviceList.positions (device (snd res)) = DeviceList.positions (device s)
  /\ objects (snd res) = objects s
  /\ warned (snd res)
     = warned s ++ repeat WarnEqualName (List.length errs)
  /\ _maxioerrors (snd res) = _maxioerrors s.
Proof.
  induction errs as [|n errs IH]; intros s Hnd Hset; cbv zeta;
    cbn [configure_names].
  - cbn. rewrite app_nil_r. repeat split; auto. intros n [].
  - inversion Hnd as [|? ? Hnin Hnd']; subst.
    unfold DeviceList.delattr. rewrite (Hset n) by (left; reflexivity).
    set (s1 := warn (with_device s _) WarnEqualName).
    assert (Hby : forall m, m <> n ->
                   DeviceList.by_name (device s1) m
                   = DeviceList.by_name (device s) m).
    { intros m Hm. unfold DeviceList.by_name. cbn.
      now apply lookup_remove_other. }
    assert (Hset1 : forall m, In m errs ->
                      DeviceList.hasattr (device s1) m = true).
    { intros m Hm. unfold DeviceList.hasattr. rewrite Hby.
      - apply (Hset m). right. exact Hm.
      - intros ->. contradiction. }
    specialize (IH s1 Hnd' Hset1). cbv zeta in IH.
    destruct IH as (R & N & K & P & O & W & M).
    split; [exact R|]. split.
    { intros m [<-|Hm]; [|now apply N].
      rewrite K by assumption. unfold DeviceList.by_name. cbn.
      apply lookup_remove_same. }
    split.
    { intros m Hm. rewrite K by (simpl in Hm; tauto).
      apply Hby. simpl in Hm. intros ->. tauto. }
    split; [rewrite P; reflexivity|]. split; [rewrite O; reflexivity|].
    split; [|rewrite M; reflexivity].
    rewrite W. subst s1. cbn [List.length repeat warned warn with_device].
    rewrite <- app_assoc. reflexivity.
Qed.

Lemma update_devices_registry f mylist : forall s,
  device (update_devices f mylist s) = device s.
Proof.
  unfold update_devices.
  induction mylist as [|id ids IH]; intros s; cbn [fold_left]; auto.
  destruct (get_dev s id) as [dev|]; rewrite IH; reflexivity.
Qed.

Lemma read_image_then_registry f mylist s :
  device (snd (read_image_then f mylist s)) = device s.
Proof.
  unfold read_image_then, fh_read.
  destruct (fh_ok (_myfh s)).
  - cbn [snd]. now rewrite update_devices_registry.
  - rewrite gotioerror_spec.
    change (threshold_reached (with_myfh s _)) with (threshold_reached s).
    destruct (threshold_reached s); reflexivity.
Qed.

Lemma update_devices_position f mylist i :
  (forall d, dev_position (f d) = dev_position d) ->
  forall s,
    option_map dev_position (get_dev (update_devices f mylist s) i)
    = option_map dev_position (get_dev s i).
Proof.
  intros Hf. unfold update_devices.
  induction mylist as [|id ids IH]; intros s; cbn [fold_left]; auto.
  destruct (get_dev s id) as [dev|] eqn:Hg; rewrite IH; auto.
  destruct (Nat.eq_dec id i) as [->|Hne].
  - rewrite (get_put_same s i dev (f dev) Hg), Hg. cbn. now rewrite Hf.
  - now rewrite get_put_other.
Qed.

Lemma read_image_then_position f mylist s i :
  (forall b d, dev_position (f b d) = dev_position d) ->
  option_map dev_position (get_dev (snd (read_image_then f mylist s)) i)
  = option_map dev_position (get_dev s i).
Proof.
  intros Hf. unfold read_image_then, fh_read.
  destruct (fh_ok (_myfh s)).
  - cbn [snd]. rewrite update_devices_position by apply Hf. reflexivity.
  - rewrite gotioerror_spec.
    change (threshold_reached (with_myfh s _)) with (threshold_reached s).
    destruct (threshold_reached s); reflexivity.
Qed.

Lemma sync_device_position bytesbuff dev :
  dev_position (sync_device bytesbuff dev) = dev_position dev.
Proof. unfold sync_device. destruct (dev_selfupdate dev); reflexivity. Qed.

Lemma read_image_then_unlimited f mylist s :
  _maxioerrors s = 0%Z -> raises (fst (read_image_then f mylist s)) = false.
Proof.
  intros Hm. unfold read_image_then, fh_read.
  destruct (fh_ok (_myfh s)); [reflexivity|].
  rewrite gotioerror_spec. unfold threshold_reached. cbn. rewrite Hm.
  reflexivity.
Qed.

(** What the code does for names that are shared by no more than two
    devices: with regular descriptors at different positions and an
    unlimited number of I/O errors (as it is when the manager is created),
    [_configure] completes, a name that two devices share resolves to no
    device, and every position resolves to the device built for it. *)
Lemma configure_shared_names s ds refresh :
  Forall regular ds -> NoDup (map numbered ds) ->
  (forall n, count_occ string_dec (map d_name ds) n <= 2) ->
  _maxioerrors s = 0%Z ->
  let res := _configure s ds refresh in
  fst res = Return tt
  /\ (forall n, 2 <= count_occ string_dec (map d_name ds) n ->
        DeviceList.by_name (device (snd res)) n = None)
  /\ (forall i d, nth_error ds i = Some d ->
        DeviceList.by_position (device (snd res)) (numbered d) = Some i
        /\ option_map dev_position (get_dev (snd res) i)
           = Some (numbered d)).
Proof.
  intros Hreg Hpos Htwice Hmax. cbv zeta. unfold _configure.
  set (s0 := with_objects (with_device s DeviceList.empty) []).
  assert (Hempty : forall n, DeviceList.hasattr (device s0) n = true
                             <-> In n []).
  { intros n. cbn. intuition discriminate. }
  destruct (fold_err_names ds s0 [] [] Hreg Hempty) as [He Hh].
  pose proof (fold_positions ds s0 [] Hreg Hpos) as Hp. cbv zeta in Hp.
  destruct Hp as (Ho & Hby & _ & _ & Hm & _).
  destruct (fold_left configure_device ds (s0, [])) as [s1 errs].
  cbn [fst snd app] in He, Hh, Ho, Hby, Hm. subst errs.
  assert (Hnd : NoDup (shared [] (map d_name ds))).
  { apply shared_nodup. intros n. specialize (Htwice n).
    destruct (in_dec string_dec n []) as [[]|_]. lia. }
  assert (Hset : forall n, In n (shared [] (map d_name ds)) ->
                   DeviceList.hasattr (device s1) n = true).
  { intros n Hn. apply Hh. left. eapply shared_in; eauto. }
  pose proof (configure_names_spec (shared [] (map d_name ds)) s1 Hnd Hset)
    as Hn. cbv zeta in Hn. destruct Hn as (R & N & _ & P & O & _ & M).
  destruct (configure_names (shared [] (map d_name ds)) s1) as [[u|e] s2];
    cbn [fst snd] in R, N, P, O, M; [|discriminate].
  set (s3 := with_imgwriter s2
               (Some (mkWriter refresh false false 0 (_maxioerrors s2)))).
  assert (Names : forall n, 2 <= count_occ string_dec (map d_name ds) n ->
                    DeviceList.by_name (device s3) n = None).
  { intros n Hn. apply N. apply shared_twice.
    - destruct (in_dec string_dec n []) as [[]|_]. lia.
    - apply (count_occ_In string_dec). lia. }
  assert (Positions : forall i d, nth_error ds i = Some d ->
            DeviceList.by_position (device s3) (numbered d) = Some i
            /\ option_map dev_position (get_dev s3 i) = Some (numbered d)).
  { intros i d Hi. split.
    - unfold DeviceList.by_position. cbn [s3 device with_imgwriter].
      rewrite P. apply (Hby i d Hi).
    - unfold get_dev. cbn [s3 objects with_imgwriter]. rewrite O, Ho.
      cbn [app objects s0 with_objects].
      rewrite nth_error_map, Hi. reflexivity. }
  change (_syncoutputs s3) with (_syncoutputs s2).
  destruct (_syncoutputs s2); [|auto].
  unfold syncoutputs.
  assert (M3 : _maxioerrors s3 = 0%Z)
    by (cbn [s3 _maxioerrors with_imgwriter]; rewrite M, Hm; exact Hmax).
  pose proof (read_image_then_unlimited sync_device
                (DeviceList.iter (device s3)) s3 M3) as Hr.
  pose proof (read_image_then_registry sync_device
                (DeviceList.iter (device s3)) s3) as Hd.
  pose proof (fun i =>
                read_image_then_position sync_device
                  (DeviceList.iter (device s3)) s3 i sync_device_position)
    as Hq.
  destruct (read_image_then sync_device (DeviceList.iter (device s3)) s3)
    as [[b|e] s4]; cbn [fst snd raises] in *; [|discriminate].
  split; [reflexivity|]. split.
  - intros n Hn. rewrite Hd. now apply Names.
  - intros i d Hi. rewrite Hd, Hq. now apply Positions.
Qed.

(** Two devices under one name: the configuration completes with one
    warning, the name resolves to no device, both positions resolve. *)
Lemma configure_two_alike :
  let res := _configure ExampleConfig.fresh ExampleConfig.two_alike 50 in
  fst res = Return tt
  /\ warned (snd res) = [WarnEqualName]
  /\ DeviceList.by_name (device (snd res)) "dio" = None
  /\ DeviceList.by_position (device (snd res)) 0 = Some 0
  /\ DeviceList.by_position (device (snd res)) 1 = Some 1
  /\ map dev_name (objects (snd res)) = ["dio"%string; "dio"%string].
Proof. vm_compute. auto 10. Qed.

(** C9 on three devices under one name: the name is recorded twice, the
    second removal of the attribute raises [AttributeError], and
    [_configure] does not complete. *)
Theorem configure_three_alike :
  snd (fold_left configure_device ExampleConfig.three_alike
         (with_objects (with_device ExampleConfig.fresh DeviceList.empty) [],
          []))
  = ["dio"%string; "dio"%string]
  /\ fst (_configure ExampleConfig.fresh ExampleConfig.three_alike 50)
     = Raise AttributeError
  /\ _imgwriter (snd (_configure ExampleConfig.fresh
                        ExampleConfig.three_alike 50)) = None.
Proof. vm_compute. auto. Qed.

(* ================================================================== *)
(** * Further properties *)

(** ** Byte ranges *)

Lemma getslice_length {A} (l : list A) sl :
  stop sl <= List.length l ->
  List.length (getslice l sl) = stop sl - start sl.
Proof.
  intros H. unfold getslice. rewrite length_firstn, length_skipn. lia.
Qed.

Lemma setslice_length {A} (l : list A) sl new :
  start sl <= stop sl -> stop sl <= List.length l ->
  List.length new = stop sl - start sl ->
  List.length (setslice l sl new) = List.length l.
Proof.
  intros H1 H2 H3. unfold setslice.
  rewrite !length_app, length_firstn, length_skipn. lia.
Qed.

Lemma getslice_setslice_same {A} (l : list A) sl new :
  start sl <= stop sl -> start sl <= List.length l ->
  List.length new = stop sl - start sl ->
  getslice (setslice l sl new) sl = new.
Proof.
  intros H1 H2 H3. unfold getslice, setslice.
  rewrite skipn_app, length_firstn.
  replace (start sl - Nat.min (start sl) (List.length l)) with 0 by lia.
  rewrite (skipn_all2 (firstn (start sl) l))
    by (rewrite length_firstn; lia).
  simpl. rewrite firstn_app, <- H3, firstn_all, Nat.sub_diag. simpl.
  apply app_nil_r.
Qed.

Lemma getslice_setslice_before {A} (l : list A) sl sl' new :
  stop sl' <= start sl -> start sl <= List.length l ->
  getslice (setslice l sl new) sl' = getslice l sl'.
Proof.
  intros H1 H2. unfold getslice, setslice.
  destruct (Nat.le_gt_cases (stop sl') (start sl')) as [Hle|Hlt].
  - replace (stop sl' - start sl') with 0 by lia. reflexivity.
  - rewrite skipn_app, length_firstn.
    replace (start sl' - Nat.min (start sl) (List.length l)) with 0 by lia.
    simpl. rewrite firstn_app.
    rewrite length_skipn, length_firstn.
    replace (stop sl' - start sl'
             - (Nat.min (start sl) (List.length l) - start sl')) with 0
      by lia.
    simpl. rewrite app_nil_r.
    rewrite skipn_firstn_comm, firstn_firstn.
    f_equal. lia.
Qed.

Lemma getslice_setslice_after {A} (l : list A) sl sl' new :
  start sl <= stop sl -> stop sl <= List.length l ->
  List.length new = stop sl - start sl ->
  stop sl <= start sl' ->
  getslice (setslice l sl new) sl' = getslice l sl'.
Proof.
  intros H1 H2 H3 H4. unfold getslice, setslice. f_equal.
  rewrite app_assoc, skipn_app.
  rewrite (skipn_all2 (firstn (start sl) l ++ new))
    by (rewrite length_app, length_firstn; lia).
  rewrite length_app, length_firstn. simpl.
  rewrite skipn_skipn. f_equal. lia.
Qed.

Lemma setslice_getslice {A} (l : list A) sl :
  start sl <= stop sl -> stop sl <= List.length l ->
  setslice l sl (getslice l sl) = l.
Proof.
  intros H1 H2. unfold setslice, getslice.
  rewrite Nat.max_r by exact H1.
  replace (skipn (stop sl) l)
    with (skipn (stop sl - start sl) (skipn (start sl) l))
    by (rewrite skipn_skipn; f_equal; lia).
  rewrite firstn_skipn. apply firstn_skipn.
Qed.

Lemma getslice_firstn {A} (l : list A) n sl :
  stop sl <= n -> getslice (firstn n l) sl = getslice l sl.
Proof.
  intros H. unfold getslice.
  rewrite skipn_firstn_comm, firstn_firstn. f_equal. lia.
Qed.

Lemma getslice_getslice {A} (l : list A) off n sl :
  stop sl <= n ->
  getslice (getslice l (Slice off (off + n))) sl
  = getslice l (Slice (off + start sl) (off + stop sl)).
Proof.
  intros H. unfold getslice. simpl.
  rewrite skipn_firstn_comm, firstn_firstn, skipn_skipn.
  f_equal; [lia | f_equal; lia].
Qed.

(** ** The regions of a device in a transaction *)

Lemma set_ba_devdata_data dev ba :
  dev_ba_devdata (set_ba_devdata dev ba) = ba.
Proof. reflexivity. Qed.

Lemma set_ba_devdata_same dev : set_ba_devdata dev (dev_ba_devdata dev) = dev.
Proof. destruct dev; reflexivity. Qed.

Lemma getslice_setslice_apart {A} (l : list A) sl sl' new :
  start sl <= stop sl -> stop sl <= List.length l ->
  List.length new = stop sl - start sl -> apart sl sl' ->
  getslice (setslice l sl new) sl' = getslice l sl'.
Proof.
  intros H1 H2 H3 [H|H].
  - now apply getslice_setslice_after.
  - apply getslice_setslice_before; lia.
Qed.

Lemma apart_sym a b : apart a b -> apart b a.
Proof. unfold apart. tauto. Qed.

Lemma read_device_regions s dev :
  dev_selfupdate dev = false ->
  regions_ok dev -> within_length s dev -> image_complete s ->
  read_into (_monitoring s) (fh_image (_myfh s)) dev
    (read_device (_monitoring s)
       (firstn (_length s) (fh_image (_myfh s))) dev).
Proof.
  intros Hself ((Hi1 & Hi2 & Ho1 & Ho2 & Hm1 & Hm2) & (Aio & Aim & Aom)
                & (Hinp & Hout & Hmem & Hdev)) Hlen Himg.
  unfold within_length in Hlen. unfold image_complete in Himg.
  unfold read_device. rewrite Hself.
  set (image := fh_image (_myfh s)) in *.
  assert (Hi : List.length (getslice (firstn (_length s) image)
                              (dev_slc_inpoff dev))
               = stop (dev_slc_inp dev) - start (dev_slc_inp dev)).
  { rewrite getslice_length; rewrite Hinp; simpl;
      [lia | rewrite length_firstn; lia]. }
  assert (Hm : List.length (getslice (firstn (_length s) image)
                              (dev_slc_memoff dev))
               = stop (dev_slc_mem dev) - start (dev_slc_mem dev)).
  { rewrite getslice_length; rewrite Hmem; simpl;
      [lia | rewrite length_firstn; lia]. }
  destruct (_monitoring s).
  - (* the whole buffer is taken from the image *)
    unfold read_into. rewrite set_ba_devdata_data.
    rewrite getslice_firstn by lia.
    replace (dev_slc_devoff dev)
      with (Slice (start (dev_slc_devoff dev))
              (start (dev_slc_devoff dev) + List.length (dev_ba_devdata dev)))
      by (destruct (dev_slc_devoff dev); simpl in *; f_equal; lia).
    rewrite !getslice_getslice by lia.
    rewrite Hinp, Hout, Hmem.
    repeat split.
    rewrite getslice_length; simpl; lia.
  - unfold read_into. rewrite set_ba_devdata_data.
    assert (Hl1 : List.length (setslice (dev_ba_devdata dev) (dev_slc_inp dev)
                     (getslice (firstn (_length s) image)
                        (dev_slc_inpoff dev)))
                  = List.length (dev_ba_devdata dev))
      by (apply setslice_length; lia).
    split; [reflexivity|].
    split; [rewrite setslice_length; lia|].
    split.
    { rewrite getslice_setslice_apart
        by (try apply apart_sym; try assumption; lia).
      rewrite getslice_setslice_same by lia.
      apply getslice_firstn. rewrite Hinp. simpl. lia. }
    split.
    { rewrite getslice_setslice_same by lia.
      apply getslice_firstn. rewrite Hmem. simpl. lia. }
    rewrite getslice_setslice_apart
      by (try apply apart_sym; try assumption; lia).
    apply getslice_setslice_apart; try assumption; lia.
Qed.

Lemma sync_device_regions s dev :
  dev_selfupdate dev = false ->
  regions_ok dev -> within_length s dev -> image_complete s ->
  synced_into (fh_image (_myfh s)) dev
    (sync_device (firstn (_length s) (fh_image (_myfh s))) dev).
Proof.
  intros Hself ((Hi1 & Hi2 & Ho1 & Ho2 & Hm1 & Hm2) & (Aio & Aim & Aom)
                & (Hinp & Hout & Hmem & Hdev)) Hlen Himg.
  unfold within_length in Hlen. unfold image_complete in Himg.
  unfold sync_device. rewrite Hself.
  set (image := fh_image (_myfh s)) in *.
  assert (Ho : List.length (getslice (firstn (_length s) image)
                              (dev_slc_outoff dev))
               = stop (dev_slc_out dev) - start (dev_slc_out dev)).
  { rewrite getslice_length; rewrite Hout; simpl;
      [lia | rewrite length_firstn; lia]. }
  unfold synced_into. rewrite set_ba_devdata_data.
  split; [reflexivity|].
  split; [apply setslice_length; lia|].
  split.
  { rewrite getslice_setslice_same by lia.
    apply getslice_firstn. rewrite Hout. simpl. lia. }
  split.
  - apply getslice_setslice_apart; try apply apart_sym; try assumption; lia.
  - apply getslice_setslice_apart; try assumption; lia.
Qed.

Lemma update_devices_other f mylist id : forall s,
  ~ In id mylist -> get_dev (update_devices f mylist s) id = get_dev s id.
Proof.
  unfold update_devices.
  induction mylist as [|x rest IH]; intros s Hnot; simpl.
  - reflexivity.
  - rewrite IH by (simpl in Hnot; tauto).
    destruct (get_dev s x) as [d|] eqn:E; [|reflexivity].
    apply get_put_other. simpl in Hnot. intros ->. tauto.
Qed.

Lemma update_devices_in f mylist id dev : forall s,
  NoDup mylist -> In id mylist -> get_dev s id = Some dev ->
  get_dev (update_devices f mylist s) id = Some (f dev).
Proof.
  induction mylist as [|x rest IH]; intros s Hnd Hin Hget.
  - destruct Hin.
  - inversion Hnd as [|? ? Hx Hrest]; subst.
    change (update_devices f (x :: rest) s)
      with (update_devices f rest
              (match get_dev s x with
               | Some d => put_dev s x (f d)
               | None => s
               end)).
    destruct Hin as [->|Hin].
    + rewrite Hget. rewrite update_devices_other by exact Hx.
      eapply get_put_same; eauto.
    + apply IH; trivial.
      destruct (get_dev s x) as [d|] eqn:E; [|exact Hget].
      rewrite get_put_other; [exact Hget|]. intros ->. tauto.
Qed.

Lemma update_devices_myfh f mylist : forall s,
  _myfh (update_devices f mylist s) = _myfh s.
Proof.
  unfold update_devices.
  induction mylist as [|x rest IH]; intros s; simpl; [reflexivity|].
  rewrite IH. destruct (get_dev s x); reflexivity.
Qed.

Lemma selfupdate_of_get s id dev :
  get_dev s id = Some dev -> selfupdate_of s id = dev_selfupdate dev.
Proof. unfold selfupdate_of. intros ->. reflexivity. Qed.

(** X1: readprocimg on a device that is not self-updating, with the file
    object in order, returns True and leaves the image and the other
    devices untouched. When the regions of the device lie inside its
    buffer without overlapping (in whatever order) and at the offset of
    the device in the image, the configured length covers the device and
    the file is at least that long, the call refreshes the input and the
    memory region of the buffer from the image; the output region is taken
    from the image in monitoring mode only and otherwise stays as the
    program set it; the buffer keeps its length. The same holds for each
    such device when the whole image is read. *)
Theorem readprocimg_regions s id dev :
  get_dev s id = Some dev -> dev_selfupdate dev = false ->
  fh_ok (_myfh s) = true ->
  (forall arg, device_of_registry s arg = Return id ->
     let res := readprocimg s (Some arg) in
     fst res = Return true
     /\ fh_image (_myfh (snd res)) = fh_image (_myfh s)
     /\ (forall id', id' <> id -> get_dev (snd res) id' = get_dev s id')
     /\ (regions_ok dev -> within_length s dev -> image_complete s ->
         exists dev',
           get_dev (snd res) id = Some dev'
           /\ read_into (_monitoring s) (fh_image (_myfh s)) dev dev'))
  /\ (In id (DeviceList.iter (device s)) ->
      NoDup (DeviceList.iter (device s)) ->
      let res := readprocimg s None in
      fst res = Return true
      /\ fh_image (_myfh (snd res)) = fh_image (_myfh s)
      /\ (regions_ok dev -> within_length s dev -> image_complete s ->
          exists dev',
            get_dev (snd res) id = Some dev'
            /\ read_into (_monitoring s) (fh_image (_myfh s)) dev dev')).
Proof.
  intros Hget Hself Hok.
  split.
  - intros arg Harg res. subst res. unfold readprocimg.
    rewrite Harg, (selfupdate_of_get s id dev Hget), Hself.
    rewrite read_image_then_ok by exact Hok.
    cbn [fst snd].
    split; [reflexivity|].
    split; [rewrite update_devices_myfh; reflexivity|].
    split.
    + intros id' Hne. rewrite update_devices_other; [reflexivity|].
      simpl. intros [H|[]]. congruence.
    + intros Hr Hw Hi. eexists.
      split; [|exact (read_device_regions s dev Hself Hr Hw Hi)].
      apply update_devices_in; [repeat constructor; simpl; tauto
                               | left; reflexivity | exact Hget].
  - intros Hin Hnd res. subst res. unfold readprocimg.
    rewrite read_image_then_ok by exact Hok.
    cbn [fst snd].
    split; [reflexivity|].
    split; [rewrite update_devices_myfh; reflexivity|].
    intros Hr Hw Hi. eexists.
    split; [|exact (read_device_regions s dev Hself Hr Hw Hi)].
    apply update_devices_in; assumption.
Qed.

Lemma regions_ok_first : regions_ok ExampleIdle.first.
Proof. unfold regions_ok, apart; simpl; repeat split; lia. Defined.

Lemma regions_ok_swapped : regions_ok ExampleIdle.swapped.
Proof. unfold regions_ok, apart; simpl; repeat split; lia. Defined.

Lemma readprocimg_regions_witness :
  get_dev (ExampleIdle.idle false) 0 = Some ExampleIdle.first
  /\ dev_selfupdate ExampleIdle.first = false
  /\ fh_ok (_myfh (ExampleIdle.idle false)) = true
  /\ regions_ok ExampleIdle.first
  /\ within_length (ExampleIdle.idle false) ExampleIdle.first
  /\ image_complete (ExampleIdle.idle false)
  /\ fst (readprocimg (ExampleIdle.idle false) (Some (ByPosition 0)))
     = Return true
  /\ (exists dev',
        get_dev (snd (readprocimg (ExampleIdle.idle false)
                        (Some (ByPosition 0)))) 0 = Some dev'
        /\ read_into false ExampleIdle.image ExampleIdle.first dev')
  /\ option_map dev_ba_devdata
       (get_dev (snd (readprocimg (ExampleIdle.idle false)
                        (Some (ByPosition 0)))) 0)
     = Some [Byte.x09; Byte.x05].
Proof.
  assert (W : within_length (ExampleIdle.idle false) ExampleIdle.first)
    by (unfold within_length; simpl; lia).
  assert (I : image_complete (ExampleIdle.idle false))
    by (unfold image_complete; simpl; lia).
  split; [reflexivity|]. split; [reflexivity|]. split; [reflexivity|].
  split; [exact regions_ok_first|]. split; [exact W|]. split; [exact I|].
  destruct (proj1 (readprocimg_regions (ExampleIdle.idle false) 0
                     ExampleIdle.first eq_refl eq_refl eq_refl)
              (ByPosition 0) eq_refl) as (R & _ & _ & D).
  split; [exact R|]. split; [exact (D regions_ok_first W I)|].
  reflexivity.
Defined.

(** With a file that is shorter than the configured length the calls still
    return True, and the buffer of the device shrinks, as an assignment to
    a slice of a [bytearray] does with fewer bytes. *)
Lemma short_image_incomplete : ~ image_complete ExampleIdle.short.
Proof. unfold image_complete. simpl. lia. Qed.

Lemma short_image_shrinks :
  fst (syncoutputs ExampleIdle.short (Some (ByObject 0))) = Return true
  /\ option_map dev_ba_devdata
       (get_dev (snd (syncoutputs ExampleIdle.short (Some (ByObject 0)))) 0)
     = Some [Byte.x01]
  /\ fst (readprocimg ExampleIdle.short None) = Return true.
Proof. vm_compute. auto. Qed.

(** X2: syncoutputs on a device that is not self-updating, with the file
    object in order, returns True and leaves the image and the other
    devices untouched. When the regions of the device lie inside its
    buffer without overlapping (in whatever order) and at the offset of
    the device in the image, the configured length covers the device and
    the file is at least that long, the call takes the output region of
    the buffer from the image and leaves the input and the memory region
    of the buffer and its length as they were. The same holds for each
    such device when the whole image is read. *)
Theorem syncoutputs_regions s id dev :
  get_dev s id = Some dev -> dev_selfupdate dev = false ->
  fh_ok (_myfh s) = true ->
  (let res := syncoutputs s (Some (ByObject id)) in
   fst res = Return true
   /\ fh_image (_myfh (snd res)) = fh_image (_myfh s)
   /\ (forall id', id' <> id -> get_dev (snd res) id' = get_dev s id')
   /\ (regions_ok dev -> within_length s dev -> image_complete s ->
       exists dev',
         get_dev (snd res) id = Some dev'
         /\ synced_into (fh_image (_myfh s)) dev dev'))
  /\ (In id (DeviceList.iter (device s)) ->
      NoDup (DeviceList.iter (device s)) ->
      let res := syncoutputs s None in
      fst res = Return true
      /\ fh_image (_myfh (snd res)) = fh_image (_myfh s)
      /\ (regions_ok dev -> within_length s dev -> image_complete s ->
          exists dev',
            get_dev (snd res) id = Some dev'
            /\ synced_into (fh_image (_myfh s)) dev dev')).
Proof.
  intros Hget Hself Hok.
  split.
  - intros res. subst res. unfold syncoutputs, device_of_self.
    rewrite (selfupdate_of_get s id dev Hget), Hself.
    rewrite read_image_then_ok by exact Hok.
    cbn [fst snd].
    split; [reflexivity|].
    split; [rewrite update_devices_myfh; reflexivity|].
    split.
    + intros id' Hne. rewrite update_devices_other; [reflexivity|].
      simpl. intros [H|[]]. congruence.
    + intros Hr Hw Hi. eexists.
      split; [|exact (sync_device_regions s dev Hself Hr Hw Hi)].
      apply update_devices_in; [repeat constructor; simpl; tauto
                               | left; reflexivity | exact Hget].
  - intros Hin Hnd res. subst res. unfold syncoutputs.
    rewrite read_image_then_ok by exact Hok.
    cbn [fst snd].
    split; [reflexivity|].
    split; [rewrite update_devices_myfh; reflexivity|].
    intros Hr Hw Hi. eexists.
    split; [|exact (sync_device_regions s dev Hself Hr Hw Hi)].
    apply update_devices_in; assumption.
Qed.

Lemma syncoutputs_regions_witness :
  get_dev ExampleIdle.simulated 0 = Some ExampleIdle.swapped
  /\ dev_selfupdate ExampleIdle.swapped = false
  /\ fh_ok (_myfh ExampleIdle.simulated) = true
  /\ regions_ok ExampleIdle.swapped
  /\ within_length ExampleIdle.simulated ExampleIdle.swapped
  /\ image_complete ExampleIdle.simulated
  /\ fst (syncoutputs ExampleIdle.simulated (Some (ByObject 0)))
     = Return true
  /\ (exists dev',
        get_dev (snd (syncoutputs ExampleIdle.simulated
                        (Some (ByObject 0)))) 0 = Some dev'
        /\ synced_into ExampleIdle.image ExampleIdle.swapped dev')
  /\ option_map dev_ba_devdata
       (get_dev (snd (syncoutputs ExampleIdle.simulated
                        (Some (ByObject 0)))) 0)
     = Some [Byte.x09; Byte.x05].
Proof.
  assert (W : within_length ExampleIdle.simulated ExampleIdle.swapped)
    by (unfold within_length; simpl; lia).
  assert (I : image_complete ExampleIdle.simulated)
    by (unfold image_complete; simpl; lia).
  split; [reflexivity|]. split; [reflexivity|]. split; [reflexivity|].
  split; [exact regions_ok_swapped|]. split; [exact W|]. split; [exact I|].
  destruct (proj1 (syncoutputs_regions ExampleIdle.simulated 0
                     ExampleIdle.swapped eq_refl eq_refl eq_refl))
    as (R & _ & _ & D).
  split; [exact R|]. split; [exact (D regions_ok_swapped W I)|].
  reflexivity.
Defined.

(** *** Writing and reading back *)

Lemma written_length image pos data :
  List.length (written image pos data)
  = Nat.max (List.length image) (pos + List.length data).
Proof.
  unfold written.
  rewrite !length_app, length_firstn, repeat_length, length_skipn. lia.
Qed.

Lemma written_head_length image pos :
  List.length (firstn pos image ++ repeat Byte.x00 (pos - List.length image))
  = pos.
Proof. rewrite length_app, length_firstn, repeat_length. lia. Qed.

Lemma written_before image pos data :
  firstn pos (written image pos data)
  = firstn pos image ++ repeat Byte.x00 (pos - List.length image).
Proof.
  unfold written. rewrite app_assoc.
  rewrite firstn_app, written_head_length, Nat.sub_diag. cbn [firstn].
  rewrite app_nil_r. apply firstn_all2. rewrite written_head_length. lia.
Qed.

Lemma written_data image pos data :
  getslice (written image pos data) (Slice pos (pos + List.length data))
  = data.
Proof.
  unfold getslice, written. cbn [start stop]. rewrite app_assoc.
  rewrite skipn_app, written_head_length, Nat.sub_diag. cbn [skipn].
  rewrite skipn_all2 by (rewrite written_head_length; lia). cbn [app].
  replace (pos + List.length data - pos) with (List.length data) by lia.
  rewrite firstn_app, Nat.sub_diag, firstn_all. cbn [firstn].
  apply app_nil_r.
Qed.

Lemma written_slice image sl data :
  stop sl = start sl + List.length data ->
  getslice (written image (start sl) data) sl = data.
Proof.
  destruct sl as [a b]. cbn [start stop]. intros ->. apply written_data.
Qed.

Lemma written_behind image pos data :
  skipn (pos + List.length data) (written image pos data)
  = skipn (pos + List.length data) image.
Proof.
  unfold written. rewrite !app_assoc.
  rewrite skipn_app.
  rewrite skipn_all2
    by (rewrite !length_app, length_firstn, repeat_length; lia).
  rewrite !length_app, length_firstn, repeat_length. cbn [app].
  replace (pos + List.length data
           - (Nat.min pos (List.length image) + (pos - List.length image)
              + List.length data)) with 0 by lia.
  reflexivity.
Qed.

Lemma write_devices_single_ok s id dev :
  get_dev s id = Some dev -> dev_selfupdate dev = false ->
  (forall n, fh_fails (_myfh s) n = false) ->
  exists fh,
    write_devices [id] s = (Return true, with_myfh s fh)
    /\ fh_fails fh = fh_fails (_myfh s)
    /\ fh_image fh
       = written (fh_image (_myfh s)) (start (dev_slc_outoff dev))
           (getslice (dev_ba_devdata dev) (dev_slc_out dev)).
Proof.
  intros Hget Hself Hnever.
  unfold write_devices. cbn [fold_left]. unfold write_device.
  rewrite Hget, Hself. unfold fh_write, fh_ok. rewrite Hnever.
  cbn [negb fst snd andb].
  destruct (_buffedwrite s).
  - unfold fh_flush, fh_ok. cbn [fh_logged fh_fails]. rewrite Hnever.
    cbn [negb andb]. eexists. split; [reflexivity|].
    split; reflexivity.
  - cbn [negb]. eexists. split; [reflexivity|]. split; reflexivity.
Qed.

(** X3: the round trip of the outputs. A device that is not self-updating,
    whose regions lie inside its buffer without overlapping and at the
    offset of the device in the image, and which the configured length
    covers, is written with writeprocimg and then read back with
    syncoutputs, the file object being in order: both return True; the
    image holds the output region of the buffer at the output offset of
    the device, is unchanged behind it and before it, a gap between the
    end of a shorter file and the offset being filled with zero bytes; and
    the second transaction leaves every device as it was. *)
Theorem write_sync_round_trip s id dev :
  get_dev s id = Some dev -> dev_selfupdate dev = false ->
  regions_ok dev -> within_length s dev -> _monitoring s = false ->
  (forall n, fh_fails (_myfh s) n = false) ->
  let w := writeprocimg s (Some (ByObject id)) in
  let r := syncoutputs (snd w) (Some (ByObject id)) in
  fst w = Return true
  /\ getslice (fh_image (_myfh (snd w))) (dev_slc_outoff dev)
     = getslice (dev_ba_devdata dev) (dev_slc_out dev)
  /\ firstn (start (dev_slc_outoff dev)) (fh_image (_myfh (snd w)))
     = firstn (start (dev_slc_outoff dev)) (fh_image (_myfh s))
       ++ repeat Byte.x00
            (start (dev_slc_outoff dev) - List.length (fh_image (_myfh s)))
  /\ skipn (stop (dev_slc_outoff dev)) (fh_image (_myfh (snd w)))
     = skipn (stop (dev_slc_outoff dev)) (fh_image (_myfh s))
  /\ fst r = Return true
  /\ (forall id', get_dev (snd r) id' = get_dev s id').
Proof.
  intros Hget Hself Hreg Hlen Hmon Hnever w r.
  destruct (write_devices_single_ok s id dev Hget Hself Hnever)
    as (fh & Hw & Hfails & Himage).
  assert (Ew : w = (Return true, with_myfh s fh)).
  { subst w. unfold writeprocimg, device_of_self.
    rewrite Hmon, (selfupdate_of_get s id dev Hget), Hself. exact Hw. }
  destruct Hreg as ((Hi1 & Hi2 & Ho1 & Ho2 & Hm1 & Hm2) & _
                    & (Hinp & Hout & Hmem & Hdev)).
  unfold within_length in Hlen.
  assert (Hdata : List.length (getslice (dev_ba_devdata dev)
                                 (dev_slc_out dev))
                  = stop (dev_slc_out dev) - start (dev_slc_out dev))
    by (apply getslice_length; lia).
  assert (Hsl : dev_slc_outoff dev
                = Slice (start (dev_slc_outoff dev))
                    (start (dev_slc_outoff dev)
                     + List.length (getslice (dev_ba_devdata dev)
                                      (dev_slc_out dev)))).
  { rewrite Hdata, Hout. simpl. f_equal. lia. }
  assert (Hstop : stop (dev_slc_outoff dev)
                  = start (dev_slc_outoff dev)
                    + List.length (getslice (dev_ba_devdata dev)
                                     (dev_slc_out dev)))
    by (rewrite Hsl at 1; reflexivity).
  assert (Hb3 : stop (dev_slc_outoff dev) <= _length s)
    by (rewrite Hout; simpl; lia).
  assert (Hback : getslice (fh_image fh) (dev_slc_outoff dev)
                  = getslice (dev_ba_devdata dev) (dev_slc_out dev))
    by (rewrite Himage; apply written_slice; exact Hstop).
  assert (Er : r = (Return true,
                    update_devices
                      (sync_device (firstn (_length s) (fh_image fh))) [id]
                      (with_myfh s
                         (fh_logged fh (FhRead (_length s)) (fh_image fh))))).
  { subst r. rewrite Ew. cbn [snd]. unfold syncoutputs, device_of_self.
    rewrite (selfupdate_of_get (with_myfh s fh) id dev Hget), Hself.
    rewrite read_image_then_ok; [reflexivity|].
    unfold fh_ok. cbn [with_myfh _myfh]. rewrite Hfails, Hnever.
    reflexivity. }
  rewrite Ew, Er. cbn [fst snd with_myfh _myfh].
  split; [reflexivity|].
  split; [exact Hback|].
  split; [rewrite Himage; apply written_before|].
  split; [rewrite Himage, Hstop; apply written_behind|].
  split; [reflexivity|].
  intros id'. destruct (Nat.eq_dec id' id) as [->|Hne].
  - rewrite (update_devices_in _ [id] id dev);
      [| repeat constructor; simpl; tauto | left; reflexivity | exact Hget].
    rewrite Hget. f_equal. unfold sync_device. rewrite Hself.
    rewrite getslice_firstn by exact Hb3.
    rewrite Hback, setslice_getslice by lia.
    apply set_ba_devdata_same.
  - rewrite update_devices_other; [reflexivity|].
    simpl. intros [H|[]]. congruence.
Qed.

Lemma write_sync_round_trip_witness :
  get_dev ExampleIdle.short 0 = Some ExampleIdle.first
  /\ dev_selfupdate ExampleIdle.first = false
  /\ regions_ok ExampleIdle.first
  /\ within_length ExampleIdle.short ExampleIdle.first
  /\ _monitoring ExampleIdle.short = false
  /\ (forall n, fh_fails (_myfh ExampleIdle.short) n = false)
  /\ fh_image
       (_myfh (snd (writeprocimg ExampleIdle.short (Some (ByObject 0)))))
     = [Byte.x09; Byte.x05]
  /\ fst (syncoutputs
            (snd (writeprocimg ExampleIdle.short (Some (ByObject 0))))
            (Some (ByObject 0)))
     = Return true.
Proof.
  assert (W : within_length ExampleIdle.short ExampleIdle.first)
    by (unfold within_length; simpl; lia).
  split; [reflexivity|]. split; [reflexivity|].
  split; [exact regions_ok_first|]. split; [exact W|].
  split; [reflexivity|].
  split; [intros n; reflexivity|].
  split; [reflexivity|].
  exact (proj1 (proj2 (proj2 (proj2 (proj2
           (write_sync_round_trip ExampleIdle.short 0
              ExampleIdle.first eq_refl eq_refl regions_ok_first W eq_refl
              (fun n => eq_refl))))))).
Defined.

(** ** Monitoring mode *)

Lemma update_devices_monitoring f mylist : forall s,
  _monitoring (update_devices f mylist s) = _monitoring s.
Proof.
  unfold update_devices.
  induction mylist as [|x rest IH]; intros s; simpl; [reflexivity|].
  rewrite IH. destruct (get_dev s x); reflexivity.
Qed.

(** What a call that only reads leaves of the file object and of the
    monitoring flag. *)
Lemma read_image_then_reads f mylist s :
  _monitoring (snd (read_image_then f mylist s)) = _monitoring s
  /\ fh_image (_myfh (snd (read_image_then f mylist s)))
     = fh_image (_myfh s)
  /\ fh_log (_myfh (snd (read_image_then f mylist s)))
     = fh_log (_myfh s) ++ [FhRead (_length s)].
Proof.
  unfold read_image_then, fh_read.
  destruct (fh_ok (_myfh s)).
  - cbn [snd]. rewrite update_devices_monitoring, update_devices_myfh.
    repeat split.
  - rewrite gotioerror_spec.
    destruct (threshold_reached _); repeat split.
Qed.

Lemma exit_refresh_monitoring todo : forall s,
  _monitoring s = true ->
  _monitoring (snd (exit_refresh todo s)) = true
  /\ _myfh (snd (exit_refresh todo s)) = _myfh s.
Proof.
  induction todo as [|dev rest IH]; intros s Hmon; simpl.
  - auto.
  - set (s1 := with_lst_refresh s (rev rest)).
    set (s2 := match get_dev s1 dev with
               | Some d => put_dev s1 dev (set_selfupdate d false)
               | None => s1
               end).
    assert (H2 : _monitoring s2 = true /\ _myfh s2 = _myfh s)
      by (subst s2 s1; destruct (get_dev _ dev); auto).
    destruct H2 as [H2 H3]. rewrite H2. cbn [negb].
    destruct (IH s2 H2) as [H4 H5]. rewrite H4, H5. auto.
Qed.

Lemma after_call_monitoring s c :
  _monitoring s = true ->
  _monitoring (after_call s c) = true
  /\ fh_image (_myfh (after_call s c)) = fh_image (_myfh s)
  /\ exists reads,
       fh_log (_myfh (after_call s c))
       = fh_log (_myfh s) ++ map FhRead reads.
Proof.
  intros Hmon.
  assert (Hsame : forall s', _monitoring s' = true -> _myfh s' = _myfh s ->
            _monitoring s' = true
            /\ fh_image (_myfh s') = fh_image (_myfh s)
            /\ exists reads,
                 fh_log (_myfh s') = fh_log (_myfh s) ++ map FhRead reads).
  { intros s' H1 H2. rewrite H2. split; [exact H1|]. split; [reflexivity|].
    exists []. simpl. symmetry. apply app_nil_r. }
  assert (Hread : forall f mylist,
            _monitoring (snd (read_image_then f mylist s)) = true
            /\ fh_image (_myfh (snd (read_image_then f mylist s)))
               = fh_image (_myfh s)
            /\ exists reads,
                 fh_log (_myfh (snd (read_image_then f mylist s)))
                 = fh_log (_myfh s) ++ map FhRead reads).
  { intros f mylist.
    destruct (read_image_then_reads f mylist s) as (H1 & H2 & H3).
    rewrite H1, H2, H3. split; [exact Hmon|]. split; [reflexivity|].
    exists [_length s]. reflexivity. }
  destruct c as [arg|arg|arg|full| |value|ms]; cbn [after_call].
  - unfold readprocimg. destruct arg as [arg|]; [|apply Hread].
    destruct (device_of_registry s arg) as [id|e]; [|apply Hsame; auto].
    destruct (selfupdate_of s id); [apply Hsame; auto | apply Hread].
  - unfold syncoutputs. destruct arg as [arg|]; [|apply Hread].
    destruct (device_of_self s arg) as [id|e]; [|apply Hsame; auto].
    destruct (selfupdate_of s id); [apply Hsame; auto | apply Hread].
  - unfold writeprocimg. rewrite Hmon. apply Hsame; auto.
  - unfold exit. destruct full.
    + destruct (exit_refresh_monitoring
                  (rev (_lst_refresh (with_exit s true true)))
                  (stop_imgwriter (with_exit s true true))) as [H1 H2].
      { destruct (stop_imgwriter_frame (with_exit s true true))
          as (_ & _ & _ & H & _). rewrite H. exact Hmon. }
      destruct (stop_imgwriter_frame (with_exit s true true))
        as (_ & _ & H3 & _).
      destruct (exit_refresh _ _) as [[u|e] s2]; cbn [snd] in *;
        apply Hsame; cbn; try rewrite H1; try rewrite H2; try rewrite H3;
        reflexivity.
    + apply Hsame; auto.
  - unfold resetioerrors. cbn.
    destruct (_imgwriter s); apply Hsame; auto.
  - unfold _set_maxioerrors. destruct (0 <=? value)%Z; [|apply Hsame; auto].
    cbn. destruct (_imgwriter s); apply Hsame; auto.
  - unfold _set_cycletime. destruct (_looprunning s); [apply Hsame; auto|].
    destruct (_imgwriter s); apply Hsame; auto.
Qed.

(** X4: in monitoring mode the process image is never written. Whatever
    foreground operations a program calls on the manager, and whether they
    return or raise, the manager stays in monitoring mode, the bytes behind
    the file object stay as they are, and the file object sees nothing but
    reads of the whole image. *)
Theorem monitoring_never_writes calls : forall s,
  _monitoring s = true ->
  _monitoring (after_calls calls s) = true
  /\ fh_image (_myfh (after_calls calls s)) = fh_image (_myfh s)
  /\ exists reads,
       fh_log (_myfh (after_calls calls s))
       = fh_log (_myfh s) ++ map FhRead reads.
Proof.
  unfold after_calls.
  induction calls as [|c rest IH]; intros s Hmon; simpl.
  - split; [exact Hmon|]. split; [reflexivity|].
    exists []. simpl. symmetry. apply app_nil_r.
  - destruct (after_call_monitoring s c Hmon) as (H1 & H2 & reads1 & H3).
    destruct (IH (after_call s c) H1) as (H4 & H5 & reads2 & H6).
    split; [exact H4|]. split; [congruence|].
    exists (reads1 ++ reads2).
    rewrite H6, H3, map_app, app_assoc. reflexivity.
Qed.

Lemma monitoring_never_writes_witness :
  _monitoring (ExampleIdle.idle true) = true
  /\ fh_image
       (_myfh (after_calls
                 [CallWriteprocimg None; CallReadprocimg None;
                  CallSyncoutputs (Some (ByObject 0)); CallExit true]
                 (ExampleIdle.idle true)))
     = fh_image (_myfh (ExampleIdle.idle true)).
Proof.
  split; [reflexivity|].
  exact (proj1 (proj2
           (monitoring_never_writes
              [CallWriteprocimg None; CallReadprocimg None;
               CallSyncoutputs (Some (ByObject 0)); CallExit true]
              (ExampleIdle.idle true) eq_refl))).
Defined.

(** ** The budget of I/O errors *)

Lemma read_image_then_failing f mylist s :
  fh_ok (_myfh s) = false ->
  fst (read_image_then f mylist s)
  = (if threshold_reached s
     then Raise (RuntimeError "reach max io error count on process image")
     else Return false)
  /\ _ioerror (snd (read_image_then f mylist s)) = (_ioerror s + 1)%Z
  /\ _maxioerrors (snd (read_image_then f mylist s)) = _maxioerrors s
  /\ fh_fails (_myfh (snd (read_image_then f mylist s)))
     = fh_fails (_myfh s).
Proof.
  intros Hok. unfold read_image_then, fh_read. rewrite Hok.
  rewrite gotioerror_spec.
  match goal with
  | |- context [threshold_reached ?x] =>
      change (threshold_reached x) with (threshold_reached s)
  end.
  destruct (threshold_reached s); repeat split.
Qed.

Lemma threshold_failure s m c :
  _maxioerrors s = Z.of_nat m -> _ioerror s = Z.of_nat c ->
  (if threshold_reached s
   then Raise (RuntimeError "reach max io error count on process image")
   else Return false)
  = failure m (S c).
Proof.
  intros Hm Hc. unfold threshold_reached, failure. rewrite Hm, Hc.
  replace (negb (Z.of_nat m =? 0)%Z) with (Nat.ltb 0 m)
    by (destruct (Z.eqb_spec (Z.of_nat m) 0), (Nat.ltb_spec 0 m);
        simpl; trivial; lia).
  replace (Z.of_nat m <=? Z.of_nat c + 1)%Z with (Nat.leb m (S c))
    by (destruct (Z.leb_spec (Z.of_nat m) (Z.of_nat c + 1)),
                 (Nat.leb_spec m (S c)); trivial; lia).
  reflexivity.
Qed.

Section Budget.

Variable op : RevPiModIO -> Outcome bool * RevPiModIO.

Hypothesis op_failing : forall s,
  fh_ok (_myfh s) = false ->
  fst (op s)
  = (if threshold_reached s
     then Raise (RuntimeError "reach max io error count on process image")
     else Return false)
  /\ _ioerror (snd (op s)) = (_ioerror s + 1)%Z
  /\ _maxioerrors (snd (op s)) = _maxioerrors s
  /\ fh_fails (_myfh (snd (op s))) = fh_fails (_myfh s).

Lemma attempts_failing m n : forall s c,
  (forall k, fh_fails (_myfh s) k = true) ->
  _maxioerrors s = Z.of_nat m -> _ioerror s = Z.of_nat c ->
  fst (attempts op n s) = map (failure m) (seq (S c) n)
  /\ _ioerror (snd (attempts op n s)) = Z.of_nat (c + n).
Proof.
  induction n as [|n IH]; intros s c Hfails Hm Hc; simpl.
  - split; [reflexivity|]. rewrite Nat.add_0_r. exact Hc.
  - assert (Hok : fh_ok (_myfh s) = false)
      by (unfold fh_ok; rewrite Hfails; reflexivity).
    destruct (op_failing s Hok) as (H1 & H2 & H3 & H4).
    destruct (op s) as [o s1] eqn:E. cbn [fst snd] in *.
    destruct (IH s1 (S c)) as [H5 H6].
    + intros k. rewrite H4. apply Hfails.
    + congruence.
    + rewrite H2, Hc. lia.
    + destruct (attempts op n s1) as [os s2]. cbn [fst snd] in *.
      split.
      * rewrite H1, H5. f_equal. apply threshold_failure; assumption.
      * rewrite H6. f_equal. lia.
Qed.

End Budget.

(** X5: the budget of I/O errors. With a file object on which every
    operation fails, an error counter at 0 and a maximum of m errors, the
    i-th read of the whole image in a row (readprocimg or syncoutputs)
    returns False as long as m is 0 or i is below m, and raises the fatal
    error from the m-th on, every time; the counter goes on counting. *)
Theorem error_budget s m n :
  (forall k, fh_fails (_myfh s) k = true) ->
  _ioerror s = 0%Z -> _maxioerrors s = Z.of_nat m ->
  fst (attempts (fun s => readprocimg s None) n s)
  = map (failure m) (seq 1 n)
  /\ fst (attempts (fun s => syncoutputs s None) n s)
     = map (failure m) (seq 1 n)
  /\ _ioerror (snd (attempts (fun s => readprocimg s None) n s))
     = Z.of_nat n
  /\ _ioerror (snd (attempts (fun s => syncoutputs s None) n s))
     = Z.of_nat n.
Proof.
  intros Hfails Hc Hm.
  destruct (attempts_failing (fun s => readprocimg s None)
              (fun s => read_image_then_failing _ _ s) m n s 0
              Hfails Hm Hc) as [H1 H2].
  destruct (attempts_failing (fun s => syncoutputs s None)
              (fun s => read_image_then_failing _ _ s) m n s 0
              Hfails Hm Hc) as [H3 H4].
  auto.
Qed.

Lemma error_budget_witness :
  (forall k, fh_fails (_myfh (ExampleFlaky.unsteady 3 Example.always)) k
             = true)
  /\ _ioerror (ExampleFlaky.unsteady 3 Example.always) = 0%Z
  /\ _maxioerrors (ExampleFlaky.unsteady 3 Example.always) = Z.of_nat 3
  /\ fst (attempts (fun s => readprocimg s None) 4
            (ExampleFlaky.unsteady 3 Example.always))
     = [Return false; Return false;
        Raise (RuntimeError "reach max io error count on process image");
        Raise (RuntimeError "reach max io error count on process image")].
Proof.
  split; [intros k; reflexivity|].
  split; [reflexivity|]. split; [reflexivity|].
  exact (proj1 (error_budget (ExampleFlaky.unsteady 3 Example.always) 3 4
                  (fun k => eq_refl) eq_refl eq_refl)).
Defined.

Lemma update_devices_ioerror f mylist : forall s,
  _ioerror (update_devices f mylist s) = _ioerror s.
Proof.
  unfold update_devices.
  induction mylist as [|x rest IH]; intros s; simpl; [reflexivity|].
  rewrite IH. destruct (get_dev s x); reflexivity.
Qed.

Lemma counted_unchanged s e : counted s (Raise e, s).
Proof.
  unfold counted. cbn. split; [auto|]. split; [auto | discriminate].
Qed.

Lemma read_image_then_counted f mylist s :
  counted s (read_image_then f mylist s).
Proof.
  unfold counted, read_image_then, fh_read.
  destruct (fh_ok (_myfh s)).
  - cbn [fst snd]. rewrite update_devices_ioerror. cbn.
    split; [auto|]. split; [auto | discriminate].
  - rewrite gotioerror_spec.
    destruct (threshold_reached _); cbn;
      (split; [auto|]); split; auto; discriminate.
Qed.

Lemma write_devices_counted mylist s :
  counted s (write_devices mylist s).
Proof.
  unfold counted, write_devices.
  destruct (fold_left (write_device s) mylist (_myfh s, true)) as [fh1 ok1].
  destruct (if _buffedwrite s
            then let '(ok, fh) := fh_flush fh1 in (fh, ok1 && ok)
            else (fh1, ok1)) as [fh2 workokay].
  destruct workokay; cbn [negb].
  - cbn. split; [auto|]. split; [auto | discriminate].
  - rewrite gotioerror_spec.
    destruct (threshold_reached _); cbn;
      (split; [auto|]); split; auto; discriminate.
Qed.

(** X6: the error counter is cumulative. A transaction (readprocimg,
    syncoutputs or writeprocimg, on the whole image or on one device) moves
    the counter by nothing or by one: it leaves it alone when it returns
    True and adds one when it returns False, so that a success between two
    failures does not start the count again; resetioerrors sets the counter
    to 0. *)
Theorem error_counter_cumulative s device_arg :
  counted s (readprocimg s device_arg)
  /\ counted s (syncoutputs s device_arg)
  /\ counted s (writeprocimg s device_arg)
  /\ _ioerror (snd (resetioerrors s)) = 0%Z.
Proof.
  split; [|split; [|split]].
  - unfold readprocimg. destruct device_arg as [arg|];
      [|apply read_image_then_counted].
    destruct (device_of_registry s arg); [|apply counted_unchanged].
    destruct (selfupdate_of s a);
      [apply counted_unchanged | apply read_image_then_counted].
  - unfold syncoutputs. destruct device_arg as [arg|];
      [|apply read_image_then_counted].
    destruct (device_of_self s arg); [|apply counted_unchanged].
    destruct (selfupdate_of s a);
      [apply counted_unchanged | apply read_image_then_counted].
  - unfold writeprocimg. destruct (_monitoring s);
      [apply counted_unchanged|].
    destruct device_arg as [arg|]; [|apply write_devices_counted].
    destruct (device_of_self s arg); [|apply counted_unchanged].
    destruct (selfupdate_of s a);
      [apply counted_unchanged | apply write_devices_counted].
  - unfold resetioerrors. cbn. destruct (_imgwriter s); reflexivity.
Qed.

(** A failure, a success and a second failure under a maximum of two
    errors: the second failure raises. *)
Lemma error_counter_cumulative_witness :
  let s0 := ExampleFlaky.unsteady 2 ExampleFlaky.flaky in
  let r1 := readprocimg s0 None in
  let r2 := readprocimg (snd r1) None in
  let r3 := readprocimg (snd r2) None in
  fst r1 = Return false
  /\ fst r2 = Return true
  /\ fst r3
     = Raise (RuntimeError "reach max io error count on process image")
  /\ counted (snd r1) r2.
Proof.
  split; [reflexivity|]. split; [reflexivity|]. split; [reflexivity|].
  exact (proj1 (error_counter_cumulative
                  (snd (readprocimg
                          (ExampleFlaky.unsteady 2 ExampleFlaky.flaky) None))
                  None)).
Defined.

(** ** The loop flag *)

Lemma put_dev_but_objects s id d : but_objects (put_dev s id d) = but_objects s.
Proof. reflexivity. Qed.

Lemma mainloop_scan_but_objects s acc :
  but_objects (fst (mainloop_scan s acc)) = but_objects s.
Proof.
  unfold mainloop_scan.
  generalize (_lst_refresh s) as l. intros l. revert s acc.
  induction l as [|id rest IH]; intros s acc; simpl; [reflexivity|].
  destruct (get_dev s id) as [dev|]; [|apply IH].
  destruct (scan_device (refresh_of s) dev acc) as [dev' acc'].
  rewrite IH. reflexivity.
Qed.

Lemma but_objects_looprunning s s' :
  but_objects s' = but_objects s -> _looprunning s' = _looprunning s.
Proof. unfold but_objects. intros H. congruence. Qed.

Lemma mainloop_tick_but_objects s cur locals :
  but_objects (fst (fst (mainloop_tick s cur locals))) = but_objects s.
Proof.
  unfold mainloop_tick.
  pose proof (mainloop_scan_but_objects s locals) as H.
  destruct (mainloop_scan s locals) as [s1 acc].
  destruct (delayed_pass cur acc). exact H.
Qed.

Lemma cycle_run_flag f : forall sched calls s,
  keep_looprunning sched ->
  (forall n s, _looprunning (snd (f n s)) = _looprunning s) ->
  _looprunning s = true ->
  let res := cycle_run sched f calls s in
  (forall v, fst (fst res) = Some (Return v) ->
             _looprunning (snd (fst res)) = false)
  /\ (forall e, fst (fst res) = Some (Raise e) ->
                _looprunning (snd (fst res)) = true).
Proof.
  induction sched as [|st rest IH]; intros calls s Hk Hf Hrun; simpl.
  - destruct (_exit s); cbn; split; intros; try discriminate; reflexivity.
  - destruct (_exit s); [cbn; split; intros; try discriminate; reflexivity|].
    assert (H1 : _looprunning (st_others st s) = true)
      by (rewrite Hk; [exact Hrun | left; reflexivity]).
    assert (Hk' : keep_looprunning rest)
      by (intros st' s' Hin; apply Hk; right; exact Hin).
    destruct (_imgwriter (st_others st s));
      [|cbn; split; intros; try discriminate; exact H1].
    destruct (st_newdata st); cbn [negb].
    + destruct (f calls (st_others st s)) as [ec s2] eqn:E.
      assert (H2 : _looprunning s2 = true).
      { pose proof (Hf calls (st_others st s)) as H. rewrite E in H.
        cbn in H. congruence. }
      destruct ec as [v|]; [cbn; split; intros; try discriminate;
                            reflexivity|].
      apply IH; assumption.
    + destruct (negb (_exit (st_others st s))
                && negb (imgwriter_alive (st_others st s)));
        [cbn; split; intros; try discriminate; exact H1|].
      apply IH; assumption.
Qed.

Lemma main_run_flag : forall sched s locals trace,
  keep_looprunning sched -> _looprunning s = true ->
  let res := main_run sched s locals trace in
  (forall v, fst (fst res) = Some (Return v) ->
             _looprunning (snd (fst res)) = false)
  /\ (forall e, fst (fst res) = Some (Raise e) ->
                _looprunning (snd (fst res)) = true).
Proof.
  induction sched as [|st rest IH]; intros s locals trace Hk Hrun; simpl.
  - destruct (_exit s); cbn; split; intros; try discriminate; reflexivity.
  - destruct (_exit s); [cbn; split; intros; try discriminate; reflexivity|].
    assert (H1 : _looprunning (st_others st s) = true)
      by (rewrite Hk; [exact Hrun | left; reflexivity]).
    assert (Hk' : keep_looprunning rest)
      by (intros st' s' Hin; apply Hk; right; exact Hin).
    destruct (_imgwriter (st_others st s));
      [|cbn; split; intros; try discriminate; exact H1].
    destruct (st_newdata st); cbn [negb].
    + pose proof (mainloop_tick_but_objects (st_others st s) (st_values st)
                    locals) as Hb.
      destruct (mainloop_tick (st_others st s) (st_values st) locals)
        as [[s2 locals'] fired].
      apply IH; [exact Hk'|].
      cbn [fst] in Hb.
      rewrite (but_objects_looprunning _ _ Hb). exact H1.
    + destruct (negb (_exit (st_others st s))
                && negb (imgwriter_alive (st_others st s)));
        [cbn; split; intros; try discriminate; exact H1|].
      apply IH; assumption.
Qed.

Lemma update_devices_but_objects f mylist : forall s,
  but_objects (update_devices f mylist s) = but_objects s.
Proof.
  unfold update_devices.
  induction mylist as [|x rest IH]; intros s; simpl; [reflexivity|].
  rewrite IH. destruct (get_dev s x); reflexivity.
Qed.

(** X7: the loop flag after a loop. When the other threads and the cycle
    function leave the flag alone, a cycleloop or a blocking mainloop that
    returns leaves the manager with no loop marked as running; one that
    raises because the refresh thread is not running leaves the loop marked
    as running, so that every further cycleloop or mainloop is refused and
    the refresh interval cannot be set, until exit clears the flag. *)
Theorem loop_flag s f cycletime freeze sched :
  _looprunning s = false -> keep_looprunning sched ->
  (forall n s, _looprunning (snd (f n s)) = _looprunning s) ->
  let c := cycleloop s (Callable f) cycletime sched in
  let m := mainloop s freeze true sched in
  let dead := RuntimeError "autorefresh thread not running" in
  let stuck := fun s' : RevPiModIO =>
    _looprunning s' = true
    /\ (forall func ct sched',
          exists msg,
            cycleloop s' func ct sched'
            = (Some (Raise (RuntimeError msg)), s', 0))
    /\ (forall fr bl sched',
          exists msg,
            mainloop s' fr bl sched'
            = (Some (Raise (RuntimeError msg)), s', []))
    /\ (forall ms, raises (fst (_set_cycletime s' ms)) = true)
    /\ _looprunning (snd (exit s' false)) = false in
  (forall v, fst (fst c) = Some (Return v) ->
             _looprunning (snd (fst c)) = false)
  /\ (fst (fst c) = Some (Raise dead) -> stuck (snd (fst c)))
  /\ (forall v, fst (fst m) = Some (Return v) ->
                _looprunning (snd (fst m)) = false)
  /\ (fst (fst m) = Some (Raise dead) -> stuck (snd (fst m))).
Proof.
  intros Hidle Hk Hf c m dead stuck.
  assert (Hstuck : forall s', _looprunning s' = true -> stuck s').
  { intros s' H. unfold stuck. split; [exact H|].
    split; [intros; unfold cycleloop; rewrite H; eauto|].
    split; [intros; unfold mainloop; rewrite H; eauto|].
    split; [intros; unfold _set_cycletime; rewrite H; reflexivity|].
    reflexivity. }
  assert (Hc : (forall v, fst (fst c) = Some (Return v) ->
                          _looprunning (snd (fst c)) = false)
               /\ (fst (fst c) = Some (Raise dead) ->
                   _looprunning (snd (fst c)) = true)).
  { subst c. unfold cycleloop. rewrite Hidle.
    destruct (Nat.eqb (List.length (_lst_refresh s)) 0);
      [cbn; split; intros; discriminate|].
    assert (Hrun : forall s1,
              let res := cycle_run sched f 0 (with_looprunning s1 true) in
              (forall v, fst (fst res) = Some (Return v) ->
                         _looprunning (snd (fst res)) = false)
              /\ (fst (fst res) = Some (Raise dead) ->
                  _looprunning (snd (fst res)) = true)).
    { intros s1 res.
      destruct (cycle_run_flag f sched 0 (with_looprunning s1 true) Hk Hf
                  eq_refl) as [H1 H2].
      split; [exact H1 | apply H2]. }
    destruct cycletime as [ct|]; [|apply Hrun].
    destruct (_imgwriter s) as [w|]; [|cbn; split; intros; discriminate].
    destruct (ct =? iw_refresh w)%Z; apply Hrun. }
  assert (Hm : (forall v, fst (fst m) = Some (Return v) ->
                          _looprunning (snd (fst m)) = false)
               /\ (fst (fst m) = Some (Raise dead) ->
                   _looprunning (snd (fst m)) = true)).
  { subst m. unfold mainloop. rewrite Hidle.
    destruct (Nat.eqb (List.length (_lst_refresh s)) 0);
      [cbn; split; intros; discriminate|].
    cbn [negb].
    match goal with
    | |- context [main_run sched ?s2 ?l ?t] =>
        destruct (main_run_flag sched s2 l t Hk) as [H1 H2]
    end.
    { rewrite (but_objects_looprunning _ _
                 (update_devices_but_objects _ _ _)). reflexivity. }
    split; [exact H1 | apply H2]. }
  destruct Hc as [Hc1 Hc2]. destruct Hm as [Hm1 Hm2].
  split; [exact Hc1|]. split; [intros H; apply Hstuck, Hc2, H|].
  split; [exact Hm1|]. intros H; apply Hstuck, Hm2, H.
Qed.

Lemma loop_flag_witness :
  let c :=
    cycleloop ExampleLoop.ready (Callable ExampleLoop.third) None
      [ExampleLoop.fresh_data; ExampleLoop.dies] in
  _looprunning ExampleLoop.ready = false
  /\ keep_looprunning [ExampleLoop.fresh_data; ExampleLoop.dies]
  /\ (forall n s, _looprunning (snd (ExampleLoop.third n s)) = _looprunning s)
  /\ fst (fst c)
     = Some (Raise (RuntimeError "autorefresh thread not running"))
  /\ _looprunning (snd (fst c)) = true.
Proof.
  assert (K : keep_looprunning [ExampleLoop.fresh_data; ExampleLoop.dies])
    by (intros st s [<-|[<-|[]]]; reflexivity).
  split; [reflexivity|]. split; [exact K|].
  split; [reflexivity|]. split; [reflexivity|].
  exact (proj1 (proj1 (proj2
           (loop_flag ExampleLoop.ready ExampleLoop.third None false
              [ExampleLoop.fresh_data; ExampleLoop.dies] eq_refl K
              (fun n s => eq_refl)))
           eq_refl)).
Defined.

(** ** The exit flag at the start of a loop *)

(** X8: the exit flag at the start of a loop. cycleloop does not clear the
    flag: when it is set on entry, as exit(full=False) leaves it, cycleloop
    returns None at once and never calls the cycle function. mainloop
    clears the flag on entry, so a blocking mainloop runs the same whether
    the flag was set or not. *)
Theorem exit_flag_on_entry s f cycletime freeze sched :
  _looprunning s = false -> _lst_refresh s <> [] ->
  (cycletime = None \/ _imgwriter s <> None) ->
  (_exit s = true ->
   fst (fst (cycleloop s (Callable f) cycletime sched))
   = Some (Return None)
   /\ snd (cycleloop s (Callable f) cycletime sched) = 0
   /\ objects (snd (fst (cycleloop s (Callable f) cycletime sched)))
      = objects s)
  /\ (forall e,
        mainloop (with_exit s e (_waitexit s)) freeze true sched
        = mainloop s freeze true sched)
  /\ (_exit (snd (exit s false)) = true
      /\ _looprunning (snd (exit s false)) = false
      /\ _lst_refresh (snd (exit s false)) = _lst_refresh s
      /\ _imgwriter (snd (exit s false)) = _imgwriter s).
Proof.
  intros Hidle Hlist Hct.
  assert (Hn : Nat.eqb (List.length (_lst_refresh s)) 0 = false)
    by (destruct (_lst_refresh s); [congruence | reflexivity]).
  split; [|split].
  - intros Hexit. unfold cycleloop. rewrite Hidle, Hn.
    assert (Hrun : forall s1, _exit s1 = true -> objects s1 = objects s ->
              let r := cycle_run sched f 0 (with_looprunning s1 true) in
              fst (fst r) = Some (Return None)
              /\ snd r = 0 /\ objects (snd (fst r)) = objects s).
    { intros s1 H1 H2 r. subst r.
      destruct sched; simpl; rewrite H1; cbn; auto. }
    destruct cycletime as [ct|]; [|apply Hrun; auto].
    destruct (_imgwriter s) as [w|]; [|destruct Hct; congruence].
    destruct (ct =? iw_refresh w)%Z; apply Hrun; auto.
  - intros e. unfold mainloop. cbn [_looprunning with_exit _lst_refresh].
    rewrite Hidle, Hn. reflexivity.
  - cbn. auto.
Qed.

Lemma exit_flag_on_entry_witness :
  let s := snd (exit ExampleLoop.ready false) in
  _looprunning s = false
  /\ _lst_refresh s <> []
  /\ _exit s = true
  /\ snd (cycleloop s (Callable ExampleLoop.third) (Some 20%Z)
            [ExampleLoop.fresh_data; ExampleLoop.fresh_data]) = 0.
Proof.
  split; [reflexivity|]. split; [discriminate|]. split; [reflexivity|].
  refine (proj1 (proj2 (proj1
            (exit_flag_on_entry (snd (exit ExampleLoop.ready false))
               ExampleLoop.third (Some 20%Z) false
               [ExampleLoop.fresh_data; ExampleLoop.fresh_data] eq_refl _ _)
            eq_refl))).
  - discriminate.
  - right. discriminate.
Defined.

(** ** The calls of the cycle function *)

Lemma cycle_run_calls f : forall sched calls s,
  let res := cycle_run sched f calls s in
  calls <= snd res <= calls + data_ready sched
  /\ (forall v, fst (fst res) = Some (Return (Some v)) ->
        calls < snd res
        /\ exists s0, fst (f (snd res - 1) s0) = Some v)
  /\ (fst (fst res) = Some (Return None) -> _exit (snd (fst res)) = true)
  /\ (fst (fst res) = None -> snd res = calls + data_ready sched).
Proof.
  unfold data_ready.
  induction sched as [|st rest IH]; intros calls s; simpl.
  - destruct (_exit s) eqn:E; cbn.
    + split; [lia|]. split; [intros; discriminate|].
      split; [intros; exact E | intros; discriminate].
    + split; [lia|]. split; [intros; discriminate|].
      split; [intros; discriminate | intros; lia].
  - destruct (_exit s) eqn:E.
    { cbn. split; [lia|]. split; [intros; discriminate|].
      split; [intros; exact E | intros; discriminate]. }
    destruct (_imgwriter (st_others st s)).
    2:{ cbn. split; [lia|]. split; [intros; discriminate|].
        split; intros; discriminate. }
    destruct (st_newdata st); cbn [negb filter List.length].
    + destruct (f calls (st_others st s)) as [ec s2] eqn:Ef.
      destruct ec as [v|].
      * cbn. split; [lia|]. split.
        { intros v' H. injection H as <-. split; [lia|].
          exists (st_others st s).
          rewrite ?Nat.sub_0_r. rewrite Ef. reflexivity. }
        split; intros; discriminate.
      * specialize (IH (S calls) s2). cbn zeta in IH.
        destruct IH as (H1 & H2 & H3 & H4).
        split; [lia|]. split.
        { intros v H. destruct (H2 v H) as [H5 H6]. split; [lia | exact H6]. }
        split; [exact H3|]. intros H. rewrite (H4 H). simpl. lia.
    + destruct (negb (_exit (st_others st s))
                && negb (imgwriter_alive (st_others st s))).
      * cbn. split; [lia|]. split; [intros; discriminate|].
        split; intros; discriminate.
      * apply IH.
Qed.

(** X9: the calls of the cycle function. cycleloop calls the function at
    most once for each wait that comes back with new data, and exactly once
    for each of them as long as it goes on waiting; when it returns a
    value, that value is what the last call of the function returned; when
    it returns None, the exit flag is set. *)
Theorem cycleloop_calls s func cycletime sched :
  let res := cycleloop s func cycletime sched in
  snd res <= data_ready sched
  /\ (forall v, fst (fst res) = Some (Return (Some v)) ->
        1 <= snd res
        /\ exists f s0,
             func = Callable f /\ fst (f (snd res - 1) s0) = Some v)
  /\ (fst (fst res) = Some (Return None) -> _exit (snd (fst res)) = true)
  /\ (fst (fst res) = None -> snd res = data_ready sched).
Proof.
  intros res. subst res. unfold cycleloop.
  assert (Hstop : forall (e : Exn) (s' : RevPiModIO),
            let res := (Some (@Raise (option Z) e), s', 0) in
            snd res <= data_ready sched
            /\ (forall v, fst (fst res) = Some (Return (Some v)) ->
                  1 <= snd res
                  /\ exists f s0,
                       func = Callable f
                       /\ fst (f (snd res - 1) s0) = Some v)
            /\ (fst (fst res) = Some (Return None) ->
                _exit (snd (fst res)) = true)
            /\ (fst (fst res) = None -> snd res = data_ready sched)).
  { intros e s'. cbn. split; [lia|].
    split; [intros; discriminate|]. split; intros; discriminate. }
  destruct (_looprunning s); [apply Hstop|].
  destruct (Nat.eqb (List.length (_lst_refresh s)) 0); [apply Hstop|].
  destruct func as [|f]; [apply Hstop|].
  assert (Hrun : forall s1,
            let res := cycle_run sched f 0 s1 in
            snd res <= data_ready sched
            /\ (forall v, fst (fst res) = Some (Return (Some v)) ->
                  1 <= snd res
                  /\ exists f0 s0,
                       Callable f = Callable f0
                       /\ fst (f0 (snd res - 1) s0) = Some v)
            /\ (fst (fst res) = Some (Return None) ->
                _exit (snd (fst res)) = true)
            /\ (fst (fst res) = None -> snd res = data_ready sched)).
  { intros s1 res.
    destruct (cycle_run_calls f sched 0 s1) as (H1 & H2 & H3 & H4).
    fold res in H1, H2, H3, H4.
    split; [lia|]. split.
    - intros v H. destruct (H2 v H) as [H5 [s0 H6]].
      split; [lia|]. exists f, s0. auto.
    - split; [exact H3|]. intros H. rewrite (H4 H). reflexivity. }
  destruct cycletime as [ct|]; [|apply Hrun].
  destruct (_imgwriter s) as [w|]; [|apply Hstop].
  destruct (ct =? iw_refresh w)%Z; apply Hrun.
Qed.

Lemma cycleloop_calls_witness :
  let res :=
    cycleloop ExampleLoop.ready (Callable ExampleLoop.third) None
      [ExampleLoop.fresh_data; ExampleLoop.no_data; ExampleLoop.fresh_data;
       ExampleLoop.fresh_data; ExampleLoop.fresh_data] in
  fst (fst res) = Some (Return (Some 7%Z))
  /\ snd res = 3
  /\ snd res
     <= data_ready
          [ExampleLoop.fresh_data; ExampleLoop.no_data;
           ExampleLoop.fresh_data; ExampleLoop.fresh_data;
           ExampleLoop.fresh_data].
Proof.
  split; [reflexivity|]. split; [reflexivity|].
  exact (proj1 (cycleloop_calls ExampleLoop.ready
                  (Callable ExampleLoop.third) None
                  [ExampleLoop.fresh_data; ExampleLoop.no_data;
                   ExampleLoop.fresh_data; ExampleLoop.fresh_data;
                   ExampleLoop.fresh_data])).
Defined.

(** ** The device objects in the diff pass *)

Lemma set_ba_datacp_same dev :
  dev_ba_datacp dev = dev_ba_devdata dev ->
  set_ba_datacp dev (dev_ba_devdata dev) = dev.
Proof. destruct dev; simpl; intros ->; reflexivity. Qed.

Lemma scan_device_fst refresh dev acc :
  fst (scan_device refresh dev acc)
  = if Nat.eqb (List.length (dev_dict_events dev)) 0 then dev
    else set_ba_datacp dev (dev_ba_devdata dev).
Proof.
  unfold scan_device.
  destruct (Nat.eqb (List.length (dev_dict_events dev)) 0); simpl;
    [reflexivity|].
  destruct (bytes_eq_dec (dev_ba_datacp dev) (dev_ba_devdata dev)) as [E|E];
    simpl; [|reflexivity].
  symmetry. apply set_ba_datacp_same, E.
Qed.

Lemma rebaselined_nil id dev : rebaselined [] id dev = dev.
Proof. reflexivity. Qed.

Lemma rebaselined_cons_other x l id dev :
  id <> x -> rebaselined (x :: l) id dev = rebaselined l id dev.
Proof.
  intros H. unfold rebaselined. simpl.
  destruct (Nat.eqb_spec id x); [congruence | reflexivity].
Qed.

Lemma rebaselined_cons_same x l dev :
  rebaselined l x (fst (scan_device 0 dev ([], [])))
  = rebaselined (x :: l) x dev.
Proof.
  rewrite scan_device_fst. unfold rebaselined. simpl.
  rewrite Nat.eqb_refl. simpl.
  destruct (Nat.eqb (List.length (dev_dict_events dev)) 0) eqn:E; simpl.
  - rewrite E, andb_false_r. reflexivity.
  - change (dev_dict_events (set_ba_datacp dev (dev_ba_devdata dev)))
      with (dev_dict_events dev).
    rewrite E. simpl. destruct (existsb (Nat.eqb x) l); reflexivity.
Qed.

Lemma scan_fold_store l : forall s acc id,
  get_dev
    (fst (fold_left
            (fun (st : RevPiModIO * Locals) id =>
               match get_dev (fst st) id with
               | Some dev =>
                   let '(dev', acc) :=
                     scan_device (refresh_of (fst st)) dev (snd st) in
                   (put_dev (fst st) id dev', acc)
               | None => st
               end)
            l (s, acc))) id
  = option_map (rebaselined l id) (get_dev s id).
Proof.
  induction l as [|x rest IH]; intros s acc id.
  - simpl. destruct (get_dev s id); reflexivity.
  - cbn [fold_left fst snd].
    destruct (get_dev s x) as [dev|] eqn:E.
    + pose proof (scan_device_fst (refresh_of s) dev acc) as Hfst.
      destruct (scan_device (refresh_of s) dev acc) as [dev' acc'].
      cbn [fst] in Hfst. rewrite IH.
      destruct (Nat.eq_dec id x) as [->|Hne].
      * rewrite (get_put_same s x dev dev' E), E. cbn [option_map]. f_equal.
        rewrite <- rebaselined_cons_same, scan_device_fst, Hfst.
        reflexivity.
      * rewrite get_put_other by congruence.
        destruct (get_dev s id); [|reflexivity].
        cbn [option_map]. f_equal. symmetry.
        apply rebaselined_cons_other, Hne.
    + rewrite IH.
      destruct (Nat.eq_dec id x) as [->|Hne].
      * rewrite E. reflexivity.
      * destruct (get_dev s id); [|reflexivity].
        cbn [option_map]. f_equal. symmetry.
        apply rebaselined_cons_other, Hne.
Qed.

(** X10: what the diff pass of mainloop does to the manager. It changes
    nothing but baseline copies: every device on the refresh list that has
    registrations ends with its baseline copy equal to its live buffer;
    the live buffers, the devices without registrations, the devices that
    are not on the refresh list and all other attributes of the manager
    stay as they are. *)
Theorem diff_pass_store s acc :
  but_objects (fst (mainloop_scan s acc)) = but_objects s
  /\ forall id,
       get_dev (fst (mainloop_scan s acc)) id
       = option_map (rebaselined (_lst_refresh s) id) (get_dev s id).
Proof.
  split; [apply mainloop_scan_but_objects|].
  intros id. unfold mainloop_scan. apply scan_fold_store.
Qed.

(** ** Cycles without a change *)

Lemma replace_nth_same {A} (l : list A) : forall n x,
  nth_error l n = Some x -> replace_nth l n x = l.
Proof.
  induction l as [|y rest IH]; intros [|n] x H; simpl in *;
    try discriminate.
  - congruence.
  - f_equal. apply IH, H.
Qed.

Lemma put_dev_same s id dev : get_dev s id = Some dev -> put_dev s id dev = s.
Proof.
  unfold put_dev, get_dev. intros H.
  rewrite (replace_nth_same _ _ _ H). destruct s; reflexivity.
Qed.

Lemma scan_device_quiet refresh dev acc :
  dev_ba_datacp dev = dev_ba_devdata dev ->
  scan_device refresh dev acc = (dev, acc).
Proof.
  intros H. unfold scan_device.
  destruct (bytes_eq_dec (dev_ba_datacp dev) (dev_ba_devdata dev));
    [|contradiction].
  rewrite orb_true_r. reflexivity.
Qed.

Lemma mainloop_scan_quiet s acc :
  baselines_current s -> mainloop_scan s acc = (s, acc).
Proof.
  unfold baselines_current, mainloop_scan.
  generalize (_lst_refresh s) as l.
  induction l as [|x rest IH]; intros H; simpl; [reflexivity|].
  destruct (get_dev s x) as [dev|] eqn:E.
  - rewrite scan_device_quiet by (apply (H x); simpl; auto).
    rewrite (put_dev_same s x dev E).
    apply IH. intros id d Hin. apply H. right. exact Hin.
  - apply IH. intros id d Hin. apply H. right. exact Hin.
Qed.

Lemma mainloop_tick_quiet s cur :
  baselines_current s -> mainloop_tick s cur ([], []) = (s, ([], []), []).
Proof.
  intros H. unfold mainloop_tick. rewrite (mainloop_scan_quiet s _ H).
  reflexivity.
Qed.

Lemma main_run_quiet : forall sched s trace,
  keep_devices sched -> baselines_current s ->
  snd (main_run sched s ([], []) trace) = trace.
Proof.
  induction sched as [|st rest IH]; intros s trace Hk Hb; simpl.
  - destruct (_exit s); reflexivity.
  - destruct (_exit s); [reflexivity|].
    assert (Hb1 : baselines_current (st_others st s)).
    { destruct (Hk st s (or_introl eq_refl)) as [Ho Hl].
      intros id dev Hin Hget. rewrite Hl in Hin.
      unfold get_dev in Hget. rewrite Ho in Hget.
      exact (Hb id dev Hin Hget). }
    assert (Hk' : keep_devices rest)
      by (intros st' s' Hin; apply Hk; right; exact Hin).
    destruct (_imgwriter (st_others st s)); [|reflexivity].
    destruct (st_newdata st); cbn [negb].
    + rewrite (mainloop_tick_quiet _ _ Hb1). simpl. rewrite app_nil_r.
      apply IH; assumption.
    + destruct (negb (_exit (st_others st s))
                && negb (imgwriter_alive (st_others st s)));
        [reflexivity|].
      apply IH; assumption.
Qed.

Lemma update_devices_idem f l :
  (forall d, f (f d) = f d) ->
  forall s id,
    get_dev (update_devices f l s) id
    = option_map (fun d => if existsb (Nat.eqb id) l then f d else d)
        (get_dev s id).
Proof.
  intros Hf. unfold update_devices.
  induction l as [|x rest IH]; intros s id.
  - simpl. destruct (get_dev s id); reflexivity.
  - cbn [fold_left existsb].
    destruct (get_dev s x) as [dev|] eqn:E.
    + rewrite IH. destruct (Nat.eqb_spec id x) as [->|Hne].
      * rewrite (get_put_same s x dev _ E), E. cbn [option_map orb].
        destruct (existsb (Nat.eqb x) rest); [rewrite Hf|]; reflexivity.
      * rewrite get_put_other by congruence. reflexivity.
    + rewrite IH. destruct (Nat.eqb_spec id x) as [->|Hne].
      * rewrite E. reflexivity.
      * reflexivity.
Qed.

Lemma existsb_eqb_in id l : In id l -> existsb (Nat.eqb id) l = true.
Proof.
  intros H. apply existsb_exists. exists id. split; [exact H|].
  apply Nat.eqb_refl.
Qed.

(** X11: no change, no event. When no other thread changes a device
    object or the refresh list while mainloop runs, no callback is
    dispatched, whatever the schedule of the waits is; in particular a
    difference between live buffer and baseline copy that exists when
    mainloop is entered fires nothing, since the baseline copies are taken
    anew on entry. *)
Theorem no_change_no_event s freeze blocking sched :
  keep_devices sched -> snd (mainloop s freeze blocking sched) = [].
Proof.
  intros Hk. unfold mainloop.
  destruct (_looprunning s); [reflexivity|].
  destruct (Nat.eqb (List.length (_lst_refresh s)) 0); [reflexivity|].
  destruct blocking; cbn [negb]; [|reflexivity].
  apply main_run_quiet; [exact Hk|].
  set (s1 := with_looprunning (with_exit s false (_waitexit s)) true).
  intros id dev Hin Hget.
  assert (Hl : _lst_refresh
                 (update_devices
                    (fun dev => set_ba_datacp dev (dev_ba_devdata dev))
                    (_lst_refresh s1) s1) = _lst_refresh s1).
  { pose proof (update_devices_but_objects
                  (fun dev => set_ba_datacp dev (dev_ba_devdata dev))
                  (_lst_refresh s1) s1) as H.
    unfold but_objects in H. congruence. }
  rewrite Hl in Hin.
  rewrite update_devices_idem in Hget by reflexivity.
  rewrite (existsb_eqb_in _ _ Hin) in Hget.
  destruct (get_dev s1 id) as [d|]; [|discriminate].
  injection Hget as <-. reflexivity.
Qed.

Lemma no_change_no_event_witness :
  keep_devices [ExampleLoop.fresh_data; ExampleLoop.fresh_data]
  /\ dev_ba_datacp (Example.dio true Example.b00 Example.b01)
     <> dev_ba_devdata (Example.dio true Example.b00 Example.b01)
  /\ snd (mainloop ExampleStale.stale false true
            [ExampleLoop.fresh_data; ExampleLoop.fresh_data]) = [].
Proof.
  assert (K : keep_devices [ExampleLoop.fresh_data; ExampleLoop.fresh_data])
    by (intros st s [<-|[<-|[]]]; split; reflexivity).
  split; [exact K|]. split; [discriminate|].
  exact (no_change_no_event ExampleStale.stale false true
           [ExampleLoop.fresh_data; ExampleLoop.fresh_data] K).
Defined.

(** ** The order of the dispatch *)

Lemma delay_step_fired cur l d k :
  fst (delay_step cur (l, d) k) = l ++ (if due cur d k then [k] else []).
Proof.
  unfold delay_step, due. destruct k as [[regfunc name] value].
  cbn [fst snd].
  destruct (reg_overwrite regfunc
            && (if Value_eq_dec (cur name) value then false else true)).
  - simpl. symmetry. apply app_nil_r.
  - cbn [negb andb].
    destruct (Dict.get (regfunc, name, value) d) as [count|].
    + destruct (count - 1 <=? 0)%Z; simpl;
        [reflexivity | symmetry; apply app_nil_r].
    + simpl. symmetry. apply app_nil_r.
Qed.

Lemma delay_step_due cur l d k k' :
  k' <> k -> due cur (snd (delay_step cur (l, d) k)) k' = due cur d k'.
Proof.
  intros Hne. unfold due.
  destruct (delay_step_other cur l d k' k Hne) as [_ H]. rewrite H.
  reflexivity.
Qed.

Lemma delay_fold_fired cur ks : forall l d,
  NoDup ks ->
  fst (fold_left (delay_step cur) ks (l, d)) = l ++ filter (due cur d) ks.
Proof.
  induction ks as [|k rest IH]; intros l d Hnd; cbn [fold_left filter].
  - symmetry. apply app_nil_r.
  - inversion Hnd as [|? ? Hk Hrest]; subst.
    pose proof (delay_step_fired cur l d k) as Hf.
    destruct (delay_step cur (l, d) k) as [l1 d1] eqn:E.
    cbn [fst] in Hf. rewrite IH by exact Hrest. rewrite Hf.
    assert (Hext : filter (due cur d1) rest = filter (due cur d) rest).
    { apply filter_ext_in. intros k' Hin.
      replace d1 with (snd (delay_step cur (l, d) k)) by (rewrite E; reflexivity).
      apply delay_step_due. intros ->. contradiction. }
    rewrite Hext. destruct (due cur d k); simpl.
    + rewrite <- app_assoc. reflexivity.
    + rewrite app_nil_r. reflexivity.
Qed.

Lemma immediate_quiet dev entry :
  dev_ba_datacp dev = dev_ba_devdata dev -> immediate dev entry = [].
Proof.
  intros H. unfold immediate. destruct entry as [io regs]. rewrite H.
  destruct (bytes_eq_dec _ _); [reflexivity | contradiction].
Qed.

Lemma flat_map_immediate_quiet dev events :
  dev_ba_datacp dev = dev_ba_devdata dev ->
  flat_map (immediate dev) events = [].
Proof.
  intros E. induction events as [|e rest IH]; simpl; [reflexivity|].
  rewrite immediate_quiet by exact E. apply IH.
Qed.

Lemma scan_device_lst refresh dev l d :
  fst (snd (scan_device refresh dev (l, d)))
  = l ++ flat_map (immediate dev) (dev_dict_events dev).
Proof.
  unfold scan_device.
  destruct (Nat.eqb (List.length (dev_dict_events dev)) 0) eqn:E0.
  - simpl. destruct (dev_dict_events dev); [|discriminate].
    simpl. symmetry. apply app_nil_r.
  - simpl.
    destruct (bytes_eq_dec (dev_ba_datacp dev) (dev_ba_devdata dev))
      as [E|E]; simpl.
    + rewrite flat_map_immediate_quiet by exact E.
      symmetry. apply app_nil_r.
    + apply scan_events_lst.
Qed.

(** X12: the order of the dispatch within one cycle of mainloop. The
    tuples are fired in the reverse of the order in which they were put on
    lst_fire: first the delayed tuples that have become due in this cycle,
    the one that was armed last first, then the tuples that the diff pass
    has detected in this cycle, the one that was detected last first; for
    one device under cyclic refresh the latter are the immediate tuples of
    its registered points in the order of registration. *)
Theorem dispatch_order s cur d :
  dict_wf d ->
  let scanned := snd (mainloop_scan s ([], d)) in
  tick_fired (mainloop_tick s cur ([], d))
  = rev (filter (due cur (snd scanned)) (Dict.keys (snd scanned)))
    ++ rev (fst scanned)
  /\ (forall id dev,
        _lst_refresh s = [id] -> get_dev s id = Some dev ->
        fst scanned = flat_map (immediate dev) (dev_dict_events dev)).
Proof.
  intros Hwf scanned. split.
  - destruct (mainloop_tick_parts s cur ([], d)) as [_ H]. rewrite H.
    fold scanned. unfold delayed_pass.
    assert (Hwf' : dict_wf (snd scanned)).
    { pose proof (mainloop_scan_frame
                    (mkRegFunc 0 BOTH false 0 false, EmptyString,
                     VBool false) s ([], d)) as (H1 & _).
      apply H1. exact Hwf. }
    destruct scanned as [l' d']. cbn [fst snd] in *.
    rewrite delay_fold_fired by exact Hwf'.
    apply rev_app_distr.
  - intros id dev Hl Hget. subst scanned.
    rewrite (mainloop_scan_single s id dev _ Hl Hget).
    apply (scan_device_lst (refresh_of s) dev [] d).
Qed.

Lemma dispatch_order_witness :
  dict_wf []
  /\ tick_fired Example.cycle2
     = [(Example.rising_fresh, "I_1"%string, VBool true);
        (Example.rising_late, "I_1"%string, VBool true)]
  /\ tick_fired Example.cycle0
     = rev (filter
              (due Example.is_true
                 (snd (snd (mainloop_scan
                              (Example.watching Example.b00 Example.b01)
                              ([], [])))))
              (Dict.keys
                 (snd (snd (mainloop_scan
                              (Example.watching Example.b00 Example.b01)
                              ([], []))))))
       ++ rev (fst (snd (mainloop_scan
                           (Example.watching Example.b00 Example.b01)
                           ([], [])))).
Proof.
  split; [constructor|]. split; [reflexivity|].
  exact (proj1 (dispatch_order (Example.watching Example.b00 Example.b01)
                  Example.is_true [] (NoDup_nil _))).
Defined.

(** ** The pending events after a cycle *)

(** X13: the pending events after a cycle of mainloop. No tuple is left
    on lst_fire, the delayed-event table holds every key once, and every
    countdown that is left in it is at least 1 and one less than it was
    after the diff pass of this cycle. *)
Theorem pending_after_cycle s cur d :
  dict_wf d ->
  let scanned := snd (mainloop_scan s ([], d)) in
  let t := mainloop_tick s cur ([], d) in
  fst (tick_locals t) = []
  /\ dict_wf (tick_dict t)
  /\ forall k c,
       Dict.get k (tick_dict t) = Some c ->
       (1 <= c)%Z /\ Dict.get k (snd scanned) = Some (c + 1)%Z.
Proof.
  intros Hwf scanned t.
  destruct (mainloop_tick_parts s cur ([], d)) as [Hloc _].
  fold t in Hloc. fold scanned in Hloc.
  assert (Hwf' : dict_wf (snd scanned)).
  { pose proof (mainloop_scan_frame
                  (mkRegFunc 0 BOTH false 0 false, EmptyString,
                   VBool false) s ([], d)) as (H1 & _).
    apply H1. exact Hwf. }
  assert (Hd : tick_dict t = snd (delayed_pass cur scanned))
    by (unfold tick_dict; unfold tick_locals in Hloc; rewrite Hloc;
        reflexivity).
  split; [rewrite Hloc; reflexivity|].
  split.
  - rewrite Hd. destruct scanned as [l' d'].
    apply delayed_pass_wf. exact Hwf'.
  - intros k c Hget. rewrite Hd in Hget.
    destruct scanned as [l' d']. cbn [snd] in *.
    pose proof (delayed_pass_effect cur l' d' k Hwf') as He.
    unfold after_delay in He. destruct k as [[regfunc name] value].
    cbn [snd fst] in He.
    destruct (Dict.get (regfunc, name, value) d') as [count|].
    + destruct (reg_overwrite regfunc
                && (if Value_eq_dec (cur name) value then false else true));
        [congruence|].
      destruct (Z.leb_spec (count - 1) 0); [congruence|].
      assert (c = (count - 1)%Z) by congruence. subst c.
      split; [lia | f_equal; lia].
    + congruence.
Qed.

Lemma pending_after_cycle_witness :
  dict_wf []
  /\ Dict.get (Example.rising_late, "I_1"%string, VBool true)
       (tick_dict Example.cycle0) = Some 2%Z
  /\ fst (tick_locals Example.cycle0) = [].
Proof.
  split; [constructor|]. split; [reflexivity|].
  exact (proj1 (pending_after_cycle
                  (Example.watching Example.b00 Example.b01)
                  Example.is_true [] (NoDup_nil _))).
Defined.

(** ** Shutdown, once more *)

Lemma writeprocimg_exit_frame s arg :
  exit_frame (snd (writeprocimg s arg)) = exit_frame s
  /\ _lst_refresh (snd (writeprocimg s arg)) = _lst_refresh s.
Proof.
  assert (Hw : forall mylist,
            exit_frame (snd (write_devices mylist s)) = exit_frame s
            /\ _lst_refresh (snd (write_devices mylist s))
               = _lst_refresh s).
  { intros mylist.
    destruct (io_frame_exit_frame s _ (write_devices_frame s mylist))
      as (H1 & _ & H2). auto. }
  unfold writeprocimg. destruct (_monitoring s); [auto|].
  destruct arg as [arg|]; [|apply Hw].
  destruct (device_of_self s arg); [|auto].
  destruct (selfupdate_of s a); [auto | apply Hw].
Qed.

Lemma exit_refresh_return todo : forall s,
  exit_frame (snd (exit_refresh todo s)) = exit_frame s
  /\ (fst (exit_refresh todo s) = Return tt ->
      _lst_refresh (snd (exit_refresh todo s))
      = match todo with [] => _lst_refresh s | _ :: _ => [] end).
Proof.
  induction todo as [|dev rest IH]; intros s; [simpl; auto|].
  cbn [exit_refresh].
  set (s1 := with_lst_refresh s (rev rest)).
  set (s2 := match get_dev s1 dev with
             | Some d => put_dev s1 dev (set_selfupdate d false)
             | None => s1
             end).
  assert (H2 : exit_frame s2 = exit_frame s /\ _lst_refresh s2 = rev rest)
    by (subst s2 s1; destruct (get_dev _ dev); auto).
  destruct H2 as [F2 L2].
  assert (Hrest : forall s3,
            exit_frame s3 = exit_frame s -> _lst_refresh s3 = rev rest ->
            exit_frame (snd (exit_refresh rest s3)) = exit_frame s
            /\ (fst (exit_refresh rest s3) = Return tt ->
                _lst_refresh (snd (exit_refresh rest s3)) = [])).
  { intros s3 F3 L3. destruct (IH s3) as [H1 H4].
    split; [congruence|]. intros H. rewrite (H4 H).
    destruct rest; [rewrite L3; reflexivity | reflexivity]. }
  destruct (negb (_monitoring s2)); [|apply Hrest; assumption].
  destruct (writeprocimg_exit_frame s2 (Some (ByObject dev))) as [F3 L3].
  destruct (writeprocimg s2 (Some (ByObject dev))) as [[b|e] s3];
    cbn [fst snd] in *.
  - apply Hrest; congruence.
  - split; [congruence | discriminate].
Qed.

Lemma stop_imgwriter_stopped s :
  match _imgwriter s with
  | Some w => iw_alive w = true -> iw_stopped w = true
  | None => True
  end ->
  stop_imgwriter s = s.
Proof.
  unfold stop_imgwriter. destruct (_imgwriter s) as [w|] eqn:E; [|reflexivity].
  intros H. destruct (iw_alive w) eqn:Ea; [|reflexivity].
  specialize (H eq_refl).
  destruct w as [r a st i m]. simpl in *. subst.
  destruct s; simpl in *. subst. reflexivity.
Qed.

Lemma exit_frame_parts s s' :
  exit_frame s' = exit_frame s ->
  _exit s' = _exit s /\ _waitexit s' = _waitexit s
  /\ _imgwriter s' = _imgwriter s /\ _monitoring s' = _monitoring s.
Proof. unfold exit_frame. intros H. inversion H. auto. Qed.

Lemma flags_set s :
  _exit s = true -> _waitexit s = true -> _looprunning s = false ->
  with_looprunning (with_exit s true true) false = s.
Proof. destruct s; simpl. intros -> -> ->. reflexivity. Qed.

Lemma exit_again s :
  _exit s = true -> _waitexit s = true -> _looprunning s = false ->
  _lst_refresh s = [] ->
  match _imgwriter s with
  | Some w => iw_alive w = true -> iw_stopped w = true
  | None => True
  end ->
  forall full, exit s full = (Return tt, s).
Proof.
  intros He Hw Hl Hr Hi full. unfold exit.
  destruct full; [|rewrite flags_set by assumption; reflexivity].
  rewrite stop_imgwriter_stopped by exact Hi.
  cbn [_lst_refresh with_exit]. rewrite Hr. cbn [rev exit_refresh].
  rewrite flags_set by assumption. reflexivity.
Qed.

Lemma exit_returned s :
  fst (exit s true) = Return tt ->
  let s' := snd (exit s true) in
  _exit s' = true /\ _waitexit s' = true /\ _looprunning s' = false
  /\ _lst_refresh s' = []
  /\ match _imgwriter s' with
     | Some w => iw_alive w = true -> iw_stopped w = true
     | None => True
     end.
Proof.
  unfold exit.
  set (s1 := with_exit s true true).
  destruct (exit_refresh_return (rev (_lst_refresh s1)) (stop_imgwriter s1))
    as [F L].
  destruct (stop_imgwriter_frame s1)
    as (_ & Lr & _ & _ & _ & _ & _ & Ex & We & _).
  destruct (exit_refresh (rev (_lst_refresh s1)) (stop_imgwriter s1))
    as [[u|e] s2]; cbn [fst snd] in *; [|discriminate].
  intros _. destruct u. specialize (L eq_refl).
  destruct (exit_frame_parts _ _ F) as (E1 & E2 & E3 & _).
  cbn [with_looprunning _exit _waitexit _looprunning _lst_refresh _imgwriter].
  split; [rewrite E1, Ex; reflexivity|].
  split; [rewrite E2, We; reflexivity|].
  split; [reflexivity|].
  split.
  { rewrite L. destruct (rev (_lst_refresh s1)) eqn:El; [|reflexivity].
    rewrite Lr. apply (f_equal (@rev nat)) in El.
    rewrite rev_involutive in El. exact El. }
  rewrite E3. unfold stop_imgwriter.
  destruct (_imgwriter s1) as [w|] eqn:Ew.
  - destruct (iw_alive w) eqn:Ea.
    + cbn. reflexivity.
    + rewrite Ew. congruence.
  - rewrite Ew. exact I.
Qed.

(** X14: exit is idempotent. Once exit(full=True) has returned, a further
    exit, full or not, returns as well and changes nothing: in particular
    it performs no operation on the file object. *)
Theorem exit_idempotent s full :
  fst (exit s true) = Return tt ->
  exit (snd (exit s true)) full = (Return tt, snd (exit s true)).
Proof.
  intros H. destruct (exit_returned s H) as (H1 & H2 & H3 & H4 & H5).
  apply exit_again; assumption.
Qed.

Lemma exit_idempotent_witness :
  fst (exit ExampleExit.calm true) = Return tt
  /\ fh_log (_myfh (snd (exit ExampleExit.calm true)))
     = [FhWrite 3 [Byte.x00]; FhWrite 1 [Byte.x00]]
  /\ exit (snd (exit ExampleExit.calm true)) true
     = (Return tt, snd (exit ExampleExit.calm true)).
Proof.
  split; [reflexivity|]. split; [reflexivity|].
  exact (exit_idempotent ExampleExit.calm true eq_refl).
Defined.

(** ** The end of the program *)

Lemma exit_refresh_monitoring_returns todo : forall s,
  _monitoring s = true -> fst (exit_refresh todo s) = Return tt.
Proof.
  induction todo as [|dev rest IH]; intros s Hmon; simpl; [reflexivity|].
  set (s1 := with_lst_refresh s (rev rest)).
  set (s2 := match get_dev s1 dev with
             | Some d => put_dev s1 dev (set_selfupdate d false)
             | None => s1
             end).
  assert (H2 : _monitoring s2 = true)
    by (subst s2 s1; destruct (get_dev _ dev); auto).
  rewrite H2. cbn [negb]. apply IH, H2.
Qed.

Lemma exit_monitoring s :
  _monitoring s = true ->
  fst (exit s true) = Return tt /\ _monitoring (snd (exit s true)) = true.
Proof.
  intros Hmon. unfold exit.
  set (s1 := with_exit s true true).
  assert (H0 : _monitoring (stop_imgwriter s1) = true).
  { destruct (stop_imgwriter_frame s1) as (_ & _ & _ & H & _).
    rewrite H. exact Hmon. }
  pose proof (exit_refresh_monitoring_returns (rev (_lst_refresh s1)) _ H0)
    as H1.
  destruct (exit_refresh_monitoring (rev (_lst_refresh s1)) _ H0) as [H2 _].
  destruct (exit_refresh (rev (_lst_refresh s1)) (stop_imgwriter s1))
    as [[u|e] s2]; cbn [fst snd] in *; [|discriminate].
  auto.
Qed.

Lemma readprocimg_monitoring s arg :
  _monitoring (snd (readprocimg s arg)) = _monitoring s.
Proof.
  unfold readprocimg. destruct arg as [arg|].
  - destruct (device_of_registry s arg); [|reflexivity].
    destruct (selfupdate_of s a); [reflexivity|].
    apply read_image_then_reads.
  - apply read_image_then_reads.
Qed.

(** X15: the handler of the termination signals. handlesignalend refuses
    an object that is not callable and installs nothing then; otherwise it
    installs the handler for both signals. The handler gives both signals
    their default disposition back, whatever happens after that; with no
    cleanup function it is a full exit; in monitoring mode with a cleanup
    function it never returns normally: when the last read and the cleanup
    function do not raise, the last write raises the error of the
    monitoring mode, after the cleanup function has run. *)
Theorem signal_handler p :
  (fst (handlesignalend p CleanupNotCallable)
   = Raise (RuntimeError "registered function ist not callable")
   /\ snd (handlesignalend p CleanupNotCallable) = p)
  /\ (forall arg, arg <> CleanupNotCallable ->
        fst (handlesignalend p arg) = Return tt
        /\ pg_sigint (snd (handlesignalend p arg)) = EvtExit
        /\ pg_sigterm (snd (handlesignalend p arg)) = EvtExit
        /\ pg_modio (snd (handlesignalend p arg)) = pg_modio p)
  /\ (pg_sigint (snd (__evt_exit p)) = SIG_DFL
      /\ pg_sigterm (snd (__evt_exit p)) = SIG_DFL)
  /\ (pg_cleanupfunc p = None ->
      fst (__evt_exit p) = fst (exit (pg_modio p) true)
      /\ pg_modio (snd (__evt_exit p)) = snd (exit (pg_modio p) true))
  /\ (forall f,
        pg_cleanupfunc p = Some f -> _monitoring (pg_modio p) = true ->
        (forall s, _monitoring (snd (f s)) = _monitoring s) ->
        monitoring_teardown f (snd (exit (pg_modio p) true)) (__evt_exit p)).
Proof.
  split; [split; reflexivity|].
  split.
  { intros arg Harg. destruct arg; [| congruence |]; repeat split. }
  split.
  { unfold __evt_exit. cbn [pg_modio pg_cleanupfunc].
    destruct (exit (pg_modio p) true) as [[u|e] s1]; [|split; reflexivity].
    destruct (pg_cleanupfunc p) as [f|]; [|split; reflexivity].
    destruct (readprocimg s1 None) as [[b|e] s2]; [|split; reflexivity].
    destruct (f s2) as [[u'|e] s3]; [|split; reflexivity].
    destruct (writeprocimg s3 None) as [[b'|e] s4]; split; reflexivity. }
  split.
  { intros Hnone. unfold __evt_exit. cbn [pg_modio pg_cleanupfunc].
    rewrite Hnone.
    destruct (exit (pg_modio p) true) as [[[]|e] s1]; split; reflexivity. }
  intros f Hf Hmon Hkeep. unfold monitoring_teardown, __evt_exit.
  cbn [pg_modio pg_cleanupfunc]. rewrite Hf.
  destruct (exit_monitoring (pg_modio p) Hmon) as [He Hm1].
  destruct (exit (pg_modio p) true) as [[u|e] s1]; cbn [fst snd] in *;
    [|discriminate].
  pose proof (readprocimg_monitoring s1 None) as Hm2.
  destruct (readprocimg s1 None) as [[b|e] s2]; cbn [fst snd] in *.
  - pose proof (Hkeep s2) as Hm3.
    destruct (f s2) as [[u'|e] s3]; cbn [fst snd] in *.
    + unfold writeprocimg.
      replace (_monitoring s3) with true by congruence.
      cbn. auto.
    + cbn. split; [reflexivity | discriminate].
  - cbn. split; [reflexivity | discriminate].
Qed.

Lemma signal_handler_witness :
  let p :=
    snd (handlesignalend (ExampleProgram.running true)
           (CleanupCallable ExampleProgram.outputs_off)) in
  pg_cleanupfunc p = Some ExampleProgram.outputs_off
  /\ _monitoring (pg_modio p) = true
  /\ (forall s,
        _monitoring (snd (ExampleProgram.outputs_off s)) = _monitoring s)
  /\ pg_sigint p = EvtExit
  /\ pg_sigint (snd (__evt_exit p)) = SIG_DFL
  /\ fst (__evt_exit p)
     = Raise (RuntimeError
         "can not write process image, while system is in monitoring mode").
Proof.
  assert (K : forall s,
            _monitoring (snd (ExampleProgram.outputs_off s)) = _monitoring s)
    by (intros s; unfold ExampleProgram.outputs_off; cbn [snd];
        destruct (get_dev s 0); reflexivity).
  split; [reflexivity|]. split; [reflexivity|]. split; [exact K|].
  split; [reflexivity|]. split; [reflexivity|].
  exact (proj1 (proj2 (proj2 (proj2 (proj2 (proj2
           (signal_handler
              (snd (handlesignalend (ExampleProgram.running true)
                      (CleanupCallable ExampleProgram.outputs_off)))))))
           ExampleProgram.outputs_off eq_refl eq_refl K) eq_refl eq_refl)).
Defined.

(** X16: cleanup and the destructor. Both close the file object (and
    cleanup releases the references) when, and only when, the full exit
    returns: an exit that raises leaves the file object open and the
    references in place. After a cleanup that has returned, the refresh
    list is empty, and a further cleanup or destructor call returns and
    changes nothing. *)
Theorem cleanup_closes p :
  (fst (exit (pg_modio p) true) = Return tt ->
   fst (cleanup p) = Return tt
   /\ pg_closed (snd (cleanup p)) = true
   /\ pg_released (snd (cleanup p)) = true
   /\ pg_modio (snd (cleanup p)) = snd (exit (pg_modio p) true)
   /\ _lst_refresh (pg_modio (snd (cleanup p))) = []
   /\ cleanup (snd (cleanup p)) = (Return tt, snd (cleanup p))
   /\ __del__ (snd (cleanup p)) = (Return tt, snd (cleanup p))
   /\ fst (__del__ p) = Return tt
   /\ pg_closed (snd (__del__ p)) = true)
  /\ (forall e, fst (exit (pg_modio p) true) = Raise e ->
        fst (cleanup p) = Raise e
        /\ pg_closed (snd (cleanup p)) = pg_closed p
        /\ pg_released (snd (cleanup p)) = pg_released p
        /\ fst (__del__ p) = Raise e
        /\ pg_closed (snd (__del__ p)) = pg_closed p).
Proof.
  split.
  - intros H.
    destruct (exit_returned (pg_modio p) H) as (H1 & H2 & H3 & Hl & H5).
    pose proof (exit_again _ H1 H2 H3 Hl H5 true) as Hagain.
    unfold cleanup, __del__.
    destruct (exit (pg_modio p) true) as [[[]|e] s1]; cbn [fst snd] in *;
      [|discriminate].
    cbn [pg_modio pg_closed pg_released pg_cleanupfunc pg_sigint pg_sigterm].
    rewrite Hagain. repeat split. exact Hl.
  - intros e H. unfold cleanup, __del__.
    destruct (exit (pg_modio p) true) as [[u|e'] s1]; cbn [fst snd] in *;
      [discriminate|].
    injection H as ->. repeat split.
Qed.

Lemma cleanup_closes_witness :
  fst (exit (pg_modio (ExampleProgram.running false)) true) = Return tt
  /\ pg_closed (snd (cleanup (ExampleProgram.running false))) = true
  /\ fh_log (_myfh (pg_modio (snd (cleanup (ExampleProgram.running false)))))
     = [FhWrite 3 [Byte.x00]; FhWrite 1 [Byte.x00]].
Proof.
  split; [reflexivity|].
  split; [|reflexivity].
  exact (proj1 (proj2 (proj1 (cleanup_closes (ExampleProgram.running false))
                         eq_refl))).
Defined.

(** ** The position of a legacy adapter *)

Lemma lookup_in {K} (eq_dec : forall a b : K, {a = b} + {a <> b}) k l :
  DeviceList.lookup eq_dec k l <> None <-> In k (map fst l).
Proof.
  induction l as [|[k' v] rest IH]; simpl; [tauto|].
  destruct (eq_dec k k') as [->|Hne].
  - split; [auto | congruence].
  - rewrite IH. split; [auto | intros [H|H]; [congruence | exact H]].
Qed.

Lemma contains_in dl p :
  DeviceList.contains dl p = true <-> In p (positions_of dl).
Proof.
  unfold DeviceList.contains, DeviceList.by_position, positions_of.
  rewrite <- (lookup_in Z.eq_dec).
  destruct (DeviceList.lookup Z.eq_dec p (DeviceList.positions dl));
    split; intros; congruence.
Qed.

Lemma free_position_scan dl : forall fuel p,
  let r := free_position fuel dl p in
  (r <= p)%Z
  /\ (forall q, (r < q <= p)%Z -> DeviceList.contains dl q = true)
  /\ (DeviceList.contains dl r = false \/ r = (p - Z.of_nat fuel)%Z).
Proof.
  induction fuel as [|fuel IH]; intros p; simpl.
  - split; [lia|]. split; [intros; lia | right; lia].
  - destruct (DeviceList.contains dl p) eqn:E.
    + destruct (IH (p - 1)%Z) as (H1 & H2 & H3).
      split; [lia|]. split.
      * intros q Hq. destruct (Z.eq_dec q p) as [->|Hne]; [exact E|].
        apply H2. lia.
      * destruct H3 as [H3|H3]; [left; exact H3 | right; lia].
    + split; [lia|]. split; [intros; lia | left; exact E].
Qed.

Lemma pigeonhole_positions (l : list Z) p n :
  (forall q, (p - Z.of_nat n < q <= p)%Z -> In q l) -> n <= List.length l.
Proof.
  intros H.
  set (range := map (fun i => (p - Z.of_nat i)%Z) (seq 0 n)).
  assert (Hnd : NoDup range).
  { unfold range. apply Finite.Injective_map_NoDup_in; [|apply seq_NoDup].
    intros a b _ _ Hab. lia. }
  assert (Hincl : incl range l).
  { intros q Hq. unfold range in Hq. apply in_map_iff in Hq.
    destruct Hq as (i & <- & Hi). apply in_seq in Hi. apply H. lia. }
  pose proof (NoDup_incl_length Hnd Hincl) as Hlen.
  unfold range in Hlen. rewrite length_map, length_seq in Hlen. exact Hlen.
Qed.

Lemma free_position_free dl fuel :
  DeviceList.len dl < fuel ->
  DeviceList.contains dl (free_position fuel dl (-1)) = false
  /\ (free_position fuel dl (-1) < 0)%Z.
Proof.
  intros Hfuel.
  destruct (free_position_scan dl fuel (-1)) as (H1 & H2 & H3).
  split; [|lia].
  destruct H3 as [H3|H3]; [exact H3|].
  exfalso.
  assert (Hle : fuel <= List.length (positions_of dl)).
  { apply (pigeonhole_positions _ (-1)%Z). intros q Hq.
    apply contains_in, H2. lia. }
  unfold positions_of in Hle. rewrite length_map in Hle.
  unfold DeviceList.len in Hfuel. lia.
Qed.

(** X17: the position of a legacy adapter. The loop that replaces the
    placeholder "adap." comes to an end, and the position it finds is
    negative, is not in the registry, and is the first such one below 0:
    every position between it and 0 is taken. *)
Theorem free_position_fresh dl :
  let p := free_position (S (DeviceList.len dl)) dl (-1) in
  (p < 0)%Z
  /\ DeviceList.contains dl p = false
  /\ (forall q, (p < q < 0)%Z -> DeviceList.contains dl q = true)
  /\ (forall fuel, DeviceList.len dl < fuel ->
        free_position fuel dl (-1) = p).
Proof.
  intros p.
  destruct (free_position_free dl (S (DeviceList.len dl))
              (Nat.lt_succ_diag_r _)) as [H3 H0].
  destruct (free_position_scan dl (S (DeviceList.len dl)) (-1))
    as (H1 & H2 & _).
  fold p in H0, H1, H2, H3.
  split; [exact H0|]. split; [exact H3|].
  split; [intros q Hq; apply H2; lia|].
  intros fuel Hfuel.
  destruct (free_position_scan dl fuel (-1)) as (G1 & G2 & _).
  destruct (free_position_free dl fuel Hfuel) as [G3 _].
  set (r := free_position fuel dl (-1)) in *.
  destruct (Z.lt_trichotomy r p) as [Hlt|[Heq|Hgt]]; [|exact Heq|].
  - rewrite G2 in H3 by lia. discriminate.
  - rewrite H2 in G3 by lia. discriminate.
Qed.

(** ** Devices by position *)

Lemma assign_fresh {K} (eq_dec : forall a b : K, {a = b} + {a <> b}) k v l :
  ~ In k (map fst l) -> DeviceList.assign eq_dec k v l = l ++ [(k, v)].
Proof.
  induction l as [|[k' v'] rest IH]; simpl; intros H; [reflexivity|].
  destruct (eq_dec k k') as [->|Hne]; [tauto|].
  rewrite IH by tauto. reflexivity.
Qed.

Lemma by_position_in dl p i :
  DeviceList.by_position dl p = Some i -> In p (positions_of dl).
Proof.
  intros H. apply contains_in. unfold DeviceList.contains. rewrite H.
  reflexivity.
Qed.

Lemma numbers_nonneg ds q :
  Forall position_ok ds -> In q (numbers ds) -> (0 <= q)%Z.
Proof.
  intros Hok Hin. unfold numbers in Hin. apply in_flat_map in Hin.
  destruct Hin as (d & Hd & Hq).
  rewrite Forall_forall in Hok. specialize (Hok d Hd).
  unfold position_ok in Hok.
  destruct (d_position d) as [|p]; [destruct Hq|].
  destruct (known_type (d_type d)); [|destruct Hq].
  destruct Hq as [<-|[]]. exact Hok.
Qed.

Lemma setattr_fresh dl name position id :
  ~ In position (positions_of dl) ->
  positions_of (DeviceList.setattr dl name position id)
  = positions_of dl ++ [position]
  /\ DeviceList.len (DeviceList.setattr dl name position id)
     = S (DeviceList.len dl)
  /\ DeviceList.by_position (DeviceList.setattr dl name position id) position
     = Some id
  /\ (forall q, In q (positions_of dl) ->
        DeviceList.by_position (DeviceList.setattr dl name position id) q
        = DeviceList.by_position dl q).
Proof.
  intros Hfresh. unfold positions_of, DeviceList.len, DeviceList.setattr,
    DeviceList.by_position in *. cbn [DeviceList.positions].
  rewrite assign_fresh by exact Hfresh.
  split; [rewrite map_app; reflexivity|].
  split; [rewrite length_app; simpl; lia|].
  split.
  - rewrite <- (assign_fresh Z.eq_dec position id) by exact Hfresh.
    apply lookup_assign_same.
  - intros q Hq.
    rewrite <- (assign_fresh Z.eq_dec position id) by exact Hfresh.
    apply lookup_assign_other. intros ->. contradiction.
Qed.

Lemma configure_fold_by_position ds : forall s errs,
  Forall position_ok ds -> NoDup (numbers ds) ->
  (forall q, In q (positions_of (device s)) -> ~ In q (numbers ds)) ->
  by_position_ok s ->
  let s' := fst (fold_left configure_device ds (s, errs)) in
  by_position_ok s'
  /\ List.length (objects s')
     = List.length (objects s)
       + List.length (filter (fun d => known_type (d_type d)) ds).
Proof.
  induction ds as [|d rest IH]; intros s errs Hok Hnd Hdis Hinv.
  - simpl. split; [exact Hinv | lia].
  - inversion Hok as [|? ? Hd Hrest]; subst.
    cbn [fold_left filter].
    destruct (known_type (d_type d)) eqn:Hknown.
    + destruct (configure_device_step s errs d Hknown)
        as (Hobj & Hdev & _).
      destruct (configure_device (s, errs) d) as [s1 errs1].
      cbn [fst snd] in Hobj, Hdev.
      set (p := position_of s d) in *.
      assert (Hfresh : ~ In p (positions_of (device s))).
      { unfold p, position_of. destruct (d_position d) as [|q] eqn:E.
        - destruct (free_position_free (device s)
                      (S (DeviceList.len (device s)))
                      (Nat.lt_succ_diag_r _)) as [H2 _].
          intros Hin. apply contains_in in Hin. congruence.
        - intros Hin. apply (Hdis q Hin). unfold numbers. simpl.
          rewrite E, Hknown. left. reflexivity. }
      assert (Hnext : ~ In p (numbers rest)).
      { unfold p, position_of. destruct (d_position d) as [|q] eqn:E.
        - destruct (free_position_free (device s)
                      (S (DeviceList.len (device s)))
                      (Nat.lt_succ_diag_r _)) as [_ H1].
          intros Hin. pose proof (numbers_nonneg rest _ Hrest Hin). lia.
        - unfold numbers in Hnd. simpl in Hnd. rewrite E, Hknown in Hnd.
          simpl in Hnd. inversion Hnd. assumption. }
      assert (Hnd' : NoDup (numbers rest)).
      { unfold numbers in Hnd. simpl in Hnd.
        apply NoDup_app_remove_l in Hnd. exact Hnd. }
      destruct (setattr_fresh (device s) (d_name d) p
                  (List.length (objects s)) Hfresh)
        as (Hpos & Hlen & Hnew & Hold).
      rewrite <- Hdev in Hpos, Hlen, Hnew, Hold.
      destruct Hinv as [Hget Hcount].
      specialize (IH s1 errs1 Hrest Hnd').
      destruct IH as [IH1 IH2].
      * intros q Hq. rewrite Hpos in Hq. apply in_app_or in Hq.
        destruct Hq as [Hq|[<-|[]]]; [|exact Hnext].
        intros Hin. apply (Hdis q Hq). unfold numbers. simpl.
        apply in_or_app. right. exact Hin.
      * split.
        -- intros i dev Hi. unfold get_dev in Hi. rewrite Hobj in Hi.
           destruct (Nat.lt_ge_cases i (List.length (objects s)))
             as [Hlt|Hge].
           ++ rewrite nth_error_app1 in Hi by exact Hlt.
              rewrite Hold; [apply Hget, Hi|].
              eapply by_position_in. apply Hget, Hi.
           ++ rewrite nth_error_app2 in Hi by exact Hge.
              destruct (i - List.length (objects s)) as [|k] eqn:Ek;
                [|destruct k; discriminate].
              simpl in Hi. injection Hi as <-.
              replace i with (List.length (objects s)) by lia.
              exact Hnew.
        -- rewrite Hlen, Hcount, Hobj, length_app. simpl. lia.
      * split; [exact IH1|]. rewrite IH2, Hobj, length_app. simpl. lia.
    + assert (E : configure_device (s, errs) d
                  = (warn s WarnUnknownType, errs))
        by (unfold configure_device; rewrite Hknown; reflexivity).
      rewrite E.
      apply (IH (warn s WarnUnknownType) errs Hrest).
      * unfold numbers in Hnd. simpl in Hnd. rewrite Hknown in Hnd.
        destruct (d_position d); exact Hnd.
      * intros q Hq Hin. apply (Hdis q Hq). unfold numbers. simpl.
        apply in_or_app. right. exact Hin.
      * exact Hinv.
Qed.

Lemma configure_names_store errs : forall s,
  DeviceList.positions (device (snd (configure_names errs s)))
  = DeviceList.positions (device s)
  /\ objects (snd (configure_names errs s)) = objects s.
Proof.
  induction errs as [|n rest IH]; intros s; simpl; [auto|].
  unfold DeviceList.delattr.
  destruct (DeviceList.hasattr (device s) n); [|auto].
  destruct (IH (warn (with_device s
                        (DeviceList.mk
                           (DeviceList.remove string_dec n
                              (DeviceList.names (device s)))
                           (DeviceList.positions (device s))))
                  WarnEqualName)) as [H1 H2].
  rewrite H1, H2. auto.
Qed.

Lemma replace_nth_length {A} (l : list A) : forall n x,
  List.length (replace_nth l n x) = List.length l.
Proof.
  induction l as [|y rest IH]; intros [|n] x; simpl; auto.
Qed.

Lemma update_devices_objects_length f mylist : forall s,
  List.length (objects (update_devices f mylist s))
  = List.length (objects s).
Proof.
  unfold update_devices.
  induction mylist as [|x rest IH]; intros s; simpl; [reflexivity|].
  rewrite IH. destruct (get_dev s x); [|reflexivity].
  apply replace_nth_length.
Qed.

Lemma read_image_then_objects_length f mylist s :
  List.length (objects (snd (read_image_then f mylist s)))
  = List.length (objects s).
Proof.
  unfold read_image_then, fh_read.
  destruct (fh_ok (_myfh s)).
  - cbn [snd]. rewrite update_devices_objects_length. reflexivity.
  - rewrite gotioerror_spec. destruct (threshold_reached _); reflexivity.
Qed.

Lemma by_position_ok_transfer s s' :
  device s' = device s ->
  (forall i, option_map dev_position (get_dev s' i)
             = option_map dev_position (get_dev s i)) ->
  List.length (objects s') = List.length (objects s) ->
  by_position_ok s -> by_position_ok s'.
Proof.
  intros Hd Hp Hl [H1 H2]. split.
  - intros i dev Hi. rewrite Hd. specialize (Hp i). rewrite Hi in Hp.
    destruct (get_dev s i) as [dev0|] eqn:E; [|discriminate].
    cbn in Hp. injection Hp as Hp. rewrite Hp. apply H1, E.
  - rewrite Hd, Hl. exact H2.
Qed.

(** X18: the devices by position after the configuration. _configure
    builds one device for each descriptor of a known type, and the registry
    then resolves the position of every device to that device and holds as
    many positions as there are devices, whether _configure returns or
    raises; this includes the legacy adapters, whose placeholder is
    replaced by a negative position that is not taken. The numbered
    positions of the descriptors are supposed to differ. *)
Theorem configure_positions s ds refresh :
  Forall position_ok ds -> NoDup (numbers ds) ->
  let res := _configure s ds refresh in
  by_position_ok (snd res)
  /\ List.length (objects (snd res))
     = List.length (filter (fun d => known_type (d_type d)) ds).
Proof.
  intros Hok Hnd res. subst res. unfold _configure.
  set (s0 := with_objects (with_device s DeviceList.empty) []).
  destruct (configure_fold_by_position ds s0 [] Hok Hnd) as [H1 H2].
  { intros q Hq. destruct Hq. }
  { split; [|reflexivity]. intros i dev Hi. destruct i; discriminate. }
  destruct (fold_left configure_device ds (s0, [])) as [s1 err_names].
  cbn [fst] in H1, H2. change (List.length (objects s0)) with 0 in H2.
  destruct (configure_names_store err_names s1) as [Hp Ho].
  assert (H3 : by_position_ok (snd (configure_names err_names s1))
               /\ List.length (objects (snd (configure_names err_names s1)))
                  = List.length (objects s1)).
  { split; [|rewrite Ho; reflexivity].
    destruct H1 as [G1 G2]. split.
    - intros i dev Hi. unfold get_dev in Hi. rewrite Ho in Hi.
      unfold DeviceList.by_position. rewrite Hp. apply (G1 i dev Hi).
    - unfold DeviceList.len. rewrite Hp, Ho. exact G2. }
  destruct (configure_names err_names s1) as [[u|e] s2]; cbn [fst snd] in *;
    [|split; [tauto | lia]].
  destruct H3 as [H3 H4].
  set (s3 := with_imgwriter s2
               (Some (mkWriter refresh false false 0 (_maxioerrors s2)))).
  assert (H5 : by_position_ok s3) by exact H3.
  destruct (_syncoutputs s3); [|split; [exact H5 | cbn; lia]].
  assert (H6 : by_position_ok (snd (syncoutputs s3 None))
               /\ List.length (objects (snd (syncoutputs s3 None)))
                  = List.length (objects s3)).
  { unfold syncoutputs. split.
    - apply (by_position_ok_transfer s3);
        [apply read_image_then_registry
        | intros i; apply read_image_then_position;
          intros; apply sync_device_position
        | apply read_image_then_objects_length
        | exact H5].
    - apply read_image_then_objects_length. }
  destruct (syncoutputs s3 None) as [[b|e] s4]; cbn [fst snd] in *;
    (split; [tauto|]); destruct H6 as [_ H6]; rewrite H6; cbn; lia.
Qed.

Lemma configure_positions_witness :
  Forall position_ok ExampleConfig.mixed
  /\ NoDup (numbers ExampleConfig.mixed)
  /\ map dev_position
       (objects (snd (_configure ExampleConfig.fresh ExampleConfig.mixed 50)))
     = [0%Z; 1%Z; (-1)%Z]
  /\ by_position_ok
       (snd (_configure ExampleConfig.fresh ExampleConfig.mixed 50)).
Proof.
  assert (P : Forall position_ok ExampleConfig.mixed)
    by (repeat constructor; unfold position_ok; simpl; lia).
  assert (N : NoDup (numbers ExampleConfig.mixed)).
  { unfold numbers. simpl. repeat constructor; simpl; intuition lia. }
  split; [exact P|]. split; [exact N|]. split; [reflexivity|].
  exact (proj1 (configure_positions ExampleConfig.fresh ExampleConfig.mixed
                  50 P N)).
Defined.

(** ** The selection of devices *)

Lemma device_filter_fold cls lst_devselect devices : forall lst_found,
  fold_left
    (fun lst_found dev =>
       if searchtype_ok cls dev then
         if name_selected lst_devselect (d_name dev)
         then lst_found ++ [dev]
         else if position_selected lst_devselect (d_position dev)
         then lst_found ++ [dev]
         else lst_found
       else lst_found)
    devices lst_found
  = lst_found ++ filter (selected cls lst_devselect) devices.
Proof.
  induction devices as [|dev rest IH]; intros lst_found; simpl.
  - symmetry. apply app_nil_r.
  - rewrite IH. unfold selected.
    destruct (searchtype_ok cls dev); simpl; [|reflexivity].
    destruct (name_selected lst_devselect (d_name dev)); simpl;
      [rewrite <- app_assoc; reflexivity|].
    destruct (position_selected lst_devselect (d_position dev)); simpl;
      [rewrite <- app_assoc; reflexivity | reflexivity].
Qed.

(** X19: the device filter of _configure. The devices that are found are
    the descriptors of the configuration that are selected, in the order of
    the configuration and each one as often as it is there, also when both
    its name and its position are in the selection; for RevPiModIODriver
    they are all of type VIRTUAL; a position in the selection never selects
    a legacy adapter. *)
Theorem device_filter_spec cls lst_devselect devices :
  device_filter cls lst_devselect devices
  = filter (selected cls lst_devselect) devices
  /\ (cls = ClsRevPiModIODriver ->
      Forall (fun dev => d_type dev = VIRTUAL)
        (device_filter cls lst_devselect devices))
  /\ (forall dev,
        In dev (device_filter cls lst_devselect devices) ->
        d_position dev = Adap ->
        name_selected lst_devselect (d_name dev) = true).
Proof.
  assert (E : device_filter cls lst_devselect devices
              = filter (selected cls lst_devselect) devices)
    by (unfold device_filter; apply (device_filter_fold _ _ _ [])).
  split; [exact E|]. rewrite E. split.
  - intros ->. apply Forall_forall. intros dev Hin.
    apply filter_In in Hin. destruct Hin as [_ Hsel].
    unfold selected, searchtype_ok, is_virtual in Hsel.
    destruct (d_type dev); simpl in Hsel; congruence.
  - intros dev Hin Hadap. apply filter_In in Hin. destruct Hin as [_ Hsel].
    unfold selected in Hsel. rewrite Hadap in Hsel. simpl in Hsel.
    rewrite orb_false_r in Hsel.
    apply andb_true_iff in Hsel. tauto.
Qed.

Lemma device_filter_spec_witness :
  ClsRevPiModIODriver = ClsRevPiModIODriver
  /\ map d_name
       (device_filter ClsRevPiModIOSelected [SelStr "dio02"; SelInt 1; SelInt 0]
          ExampleSelect.config)
     = ["dio01"%string; "dio02"%string]
  /\ Forall (fun dev => d_type dev = VIRTUAL)
       (device_filter ClsRevPiModIODriver [SelInt 64; SelInt 0]
          ExampleSelect.config).
Proof.
  split; [reflexivity|]. split; [reflexivity|].
  exact (proj1 (proj2 (device_filter_spec ClsRevPiModIODriver
                         [SelInt 64; SelInt 0] ExampleSelect.config))
           eq_refl).
Defined.

(** ** The constructor of RevPiModIOSelected *)

Lemma insert_by_key_perm d l : Permutation (insert_by_key d l) (d :: l).
Proof.
  induction l as [|x rest IH]; simpl; [reflexivity|].
  destruct (String.leb (position_key d) (position_key x)); [reflexivity|].
  rewrite IH. apply perm_swap.
Qed.

Lemma sorted_perm l : Permutation (sorted l) l.
Proof.
  unfold sorted. induction l as [|d rest IH]; simpl; [reflexivity|].
  rewrite insert_by_key_perm, IH. reflexivity.
Qed.

Lemma regular_numbers ds :
  Forall regular ds -> numbers ds = map numbered ds.
Proof.
  induction 1 as [|d rest [Hk Hp] _ IH]; [reflexivity|].
  unfold numbers in *. simpl. rewrite IH, Hk. unfold numbered.
  destruct (d_position d); [congruence | reflexivity].
Qed.

Lemma filter_map_nodup {A B} (f : A -> B) (p : A -> bool) l :
  NoDup (map f l) -> NoDup (map f (filter p l)).
Proof.
  induction l as [|x rest IH]; simpl; intros H; [exact H|].
  inversion H as [|? ? Hx Hrest]; subst.
  destruct (p x); simpl; [|apply IH, Hrest].
  constructor; [|apply IH, Hrest].
  intros Hin. apply Hx. apply in_map_iff in Hin.
  destruct Hin as (y & Hy & Hin). apply filter_In in Hin.
  apply in_map_iff. exists y. tauto.
Qed.

Lemma filter_count_occ (p : Descriptor -> bool) l n :
  count_occ string_dec (map d_name (filter p l)) n
  <= count_occ string_dec (map d_name l) n.
Proof.
  induction l as [|x rest IH]; simpl; [lia|].
  destruct (p x); simpl; destruct (string_dec (d_name x) n); lia.
Qed.

Lemma configure_keeps_positions s ds refresh :
  DeviceList.positions (device (snd (_configure s ds refresh)))
  = DeviceList.positions
      (device
         (fst (fold_left configure_device ds
                 (with_objects (with_device s DeviceList.empty) [], [])))).
Proof.
  unfold _configure.
  destruct (fold_left configure_device ds _) as [s1 err_names].
  cbn [fst].
  destruct (configure_names_store err_names s1) as [Hp _].
  destruct (configure_names err_names s1) as [[u|e] s2]; cbn [fst snd] in *;
    [|exact Hp].
  set (s3 := with_imgwriter s2 _).
  destruct (_syncoutputs s3); [|exact Hp].
  pose proof (read_image_then_registry sync_device
                (DeviceList.iter (device s3)) s3) as Hr.
  unfold syncoutputs.
  destruct (read_image_then sync_device (DeviceList.iter (device s3)) s3)
    as [[b|e] s4]; cbn [fst snd] in *; rewrite Hr; exact Hp.
Qed.

Lemma configure_regular s ds refresh :
  Forall regular ds -> Forall position_ok ds -> NoDup (map numbered ds) ->
  (forall n, count_occ string_dec (map d_name ds) n <= 2) ->
  _maxioerrors s = 0%Z ->
  fst (_configure s ds refresh) = Return tt
  /\ DeviceList.len (device (snd (_configure s ds refresh)))
     = List.length ds.
Proof.
  intros Hreg Hok Hnd Hcount Hmax.
  destruct (configure_shared_names s ds refresh Hreg Hnd Hcount Hmax)
    as [Hret _].
  split; [exact Hret|].
  unfold DeviceList.len. rewrite configure_keeps_positions.
  set (s0 := with_objects (with_device s DeviceList.empty) []).
  destruct (configure_fold_by_position ds s0 [] Hok) as [[_ Hlen] Hobj].
  { rewrite regular_numbers by exact Hreg. exact Hnd. }
  { intros q Hq. destruct Hq. }
  { split; [|reflexivity]. intros i dev Hi. destruct i; discriminate. }
  unfold DeviceList.len in Hlen. rewrite Hlen, Hobj.
  change (List.length (objects s0)) with 0. simpl.
  f_equal. apply forallb_filter_id. apply forallb_forall. intros d Hd.
  rewrite Forall_forall in Hreg. apply (Hreg d Hd).
Qed.

Lemma selection_configured lst_devselect s devices refresh :
  Forall regular devices -> Forall position_ok devices ->
  NoDup (map numbered devices) ->
  (forall n, count_occ string_dec (map d_name devices) n <= 2) ->
  _maxioerrors s = 0%Z -> lst_devselect <> [] ->
  let res :=
    _configure_selected ClsRevPiModIOSelected lst_devselect s devices
      refresh in
  fst res = Return tt
  /\ DeviceList.len (device (snd res))
     = List.length
         (filter (selected ClsRevPiModIOSelected lst_devselect) devices).
Proof.
  intros Hreg Hok Hnd Hcount Hmax Hne res. subst res.
  unfold _configure_selected.
  destruct lst_devselect as [|v rest]; [congruence|].
  cbn [List.length Nat.ltb Nat.leb].
  unfold device_filter. rewrite device_filter_fold. cbn [app].
  set (found := filter (selected ClsRevPiModIOSelected (v :: rest)) devices).
  pose proof (sorted_perm found) as Hperm.
  destruct (configure_regular s (sorted found) refresh) as [H1 H2].
  - apply (Permutation_Forall (Permutation_sym Hperm)).
    apply Forall_forall. intros d Hd. apply filter_In in Hd.
    rewrite Forall_forall in Hreg. apply Hreg. tauto.
  - apply (Permutation_Forall (Permutation_sym Hperm)).
    apply Forall_forall. intros d Hd. apply filter_In in Hd.
    rewrite Forall_forall in Hok. apply Hok. tauto.
  - apply (Permutation_NoDup
             (Permutation_map numbered (Permutation_sym Hperm))).
    apply filter_map_nodup, Hnd.
  - intros n.
    rewrite (proj1 (Permutation_count_occ string_dec _ _)
               (Permutation_map d_name Hperm) n).
    etransitivity; [apply filter_count_occ | apply Hcount].
  - exact Hmax.
  - split; [exact H1|]. rewrite H2. apply Permutation_length, Hperm.
Qed.

(** X20: the selection of RevPiModIOSelected at its edges. An entry of
    the selection that is neither an integer nor a string makes the
    constructor raise ValueError before anything is configured: no device
    is built and the file object is not used. With an empty list as
    selection the constructor never returns normally. *)
Theorem selected_init_edges deviceselection monitoring syncoutputs myfh
    devices refresh :
  let res :=
    RevPiModIOSelected__init__ deviceselection monitoring syncoutputs myfh
      devices refresh in
  (existsb not_int_or_str (selection_of deviceselection) = true ->
   res = (Raise ValueError, __init__ monitoring syncoutputs myfh,
          selection_of deviceselection))
  /\ (selection_of deviceselection = [] -> raises (fst (fst res)) = true).
Proof.
  intros res. subst res. unfold RevPiModIOSelected__init__.
  fold (selection_of deviceselection).
  split.
  - intros H. rewrite H. reflexivity.
  - intros H. rewrite H. cbn [existsb List.length].
    destruct (_configure_selected ClsRevPiModIOSelected [] _ devices refresh)
      as [[u|e] s1]; [|reflexivity].
    destruct (Nat.eqb (DeviceList.len (device s1)) 0) eqn:E; [reflexivity|].
    cbn [negb]. reflexivity.
Qed.

Lemma selected_init_edges_witness :
  existsb not_int_or_str (selection_of (SelectList [SelInt 0; SelOther]))
  = true
  /\ selection_of (SelectList []) = []
  /\ fst (fst (RevPiModIOSelected__init__ (SelectList [SelInt 0; SelOther])
                 false true ExampleSelect.file ExampleSelect.config 50))
     = Raise ValueError
  /\ fst (fst (RevPiModIOSelected__init__ (SelectList []) false true
                 ExampleSelect.file ExampleSelect.config 50))
     = Raise (RuntimeError "could not find all given devices in config")
  /\ raises
       (fst (fst (RevPiModIOSelected__init__ (SelectList []) false true
                    ExampleSelect.file ExampleSelect.config 50)))
     = true.
Proof.
  split; [reflexivity|]. split; [reflexivity|].
  split; [reflexivity|]. split; [reflexivity|].
  exact (proj2 (selected_init_edges (SelectList []) false true
                  ExampleSelect.file ExampleSelect.config 50) eq_refl).
Defined.

(** X21: when RevPiModIOSelected can be built. For a configuration of
    devices of known types with numbered positions that differ, in which
    no name is used more than twice, and a selection of integers and
    strings, the constructor returns exactly when the selection is not
    empty and the number of selected descriptors is the number of entries
    of the selection; it raises "could not find any" when no descriptor is
    selected, and "could not find all" when the numbers differ, which is
    also the case when one device is selected by its name and by its
    position. *)
Theorem selected_init_spec deviceselection monitoring syncoutputs myfh
    devices refresh :
  Forall regular devices -> Forall position_ok devices ->
  NoDup (map numbered devices) ->
  (forall n, count_occ string_dec (map d_name devices) n <= 2) ->
  existsb not_int_or_str (selection_of deviceselection) = false ->
  selection_of deviceselection <> [] ->
  let lst_devselect := selection_of deviceselection in
  let found :=
    filter (selected ClsRevPiModIOSelected lst_devselect) devices in
  let res :=
    RevPiModIOSelected__init__ deviceselection monitoring syncoutputs myfh
      devices refresh in
  fst (fst res)
  = (if Nat.eqb (List.length found) 0
     then Raise (RuntimeError "could not find any given devices in config")
     else if Nat.eqb (List.length found) (List.length lst_devselect)
     then Return tt
     else Raise (RuntimeError "could not find all given devices in config"))
  /\ (fst (fst res) = Return tt
      <-> List.length found = List.length lst_devselect).
Proof.
  intros Hreg Hok Hnd Hcount Hvalid Hne lst_devselect found res.
  assert (E : fst (fst res)
              = (if Nat.eqb (List.length found) 0
                 then Raise (RuntimeError
                               "could not find any given devices in config")
                 else if Nat.eqb (List.length found)
                           (List.length lst_devselect)
                 then Return tt
                 else Raise (RuntimeError
                               "could not find all given devices in config"))).
  { subst res. unfold RevPiModIOSelected__init__.
    fold (selection_of deviceselection). fold lst_devselect.
    unfold lst_devselect at 1. rewrite Hvalid.
    destruct (selection_configured lst_devselect
                (__init__ monitoring syncoutputs myfh) devices refresh
                Hreg Hok Hnd Hcount eq_refl Hne) as [H1 H2].
    fold found in H2.
    destruct (_configure_selected ClsRevPiModIOSelected lst_devselect _
                devices refresh) as [[u|e] s1]; cbn [fst snd] in *;
      [|discriminate].
    rewrite H2.
    destruct (Nat.eqb (List.length found) 0); [reflexivity|].
    destruct (Nat.eqb (List.length found) (List.length lst_devselect));
      reflexivity. }
  split; [exact E|]. rewrite E.
  destruct (Nat.eqb_spec (List.length found) 0) as [H0|H0].
  - split; [discriminate|]. intros H. exfalso.
    unfold lst_devselect in H.
    destruct (selection_of deviceselection); [congruence | simpl in H; lia].
  - destruct (Nat.eqb_spec (List.length found) (List.length lst_devselect));
      split; intros; try discriminate; try reflexivity; tauto.
Qed.

Lemma select_config_regular :
  Forall regular ExampleSelect.config
  /\ Forall position_ok ExampleSelect.config
  /\ NoDup (map numbered ExampleSelect.config)
  /\ (forall n,
        count_occ string_dec (map d_name ExampleSelect.config) n <= 2).
Proof.
  split.
  { repeat constructor; discriminate. }
  split.
  { repeat constructor; unfold position_ok; simpl; lia. }
  split.
  { change (NoDup [0%Z; 1%Z; 2%Z; 64%Z]).
    repeat (apply NoDup_cons; [simpl; intuition lia|]).
    apply NoDup_nil. }
  intros n.
  change (map d_name ExampleSelect.config)
    with ["dio01"; "dio02"; "aio01"; "virt01"]%string.
  cbn [count_occ].
  repeat match goal with
         | |- context [string_dec ?a ?b] => destruct (string_dec a b)
         end; try lia; congruence.
Qed.

Lemma selected_init_spec_witness :
  Forall regular ExampleSelect.config
  /\ Forall position_ok ExampleSelect.config
  /\ NoDup (map numbered ExampleSelect.config)
  /\ (forall n,
        count_occ string_dec (map d_name ExampleSelect.config) n <= 2)
  /\ existsb not_int_or_str
       (selection_of (SelectList [SelStr "dio01"; SelInt 0])) = false
  /\ selection_of (SelectList [SelStr "dio01"; SelInt 0]) <> []
  /\ fst (fst (RevPiModIOSelected__init__
                 (SelectList [SelStr "dio02"; SelInt 0]) false true
                 ExampleSelect.file ExampleSelect.config 50))
     = Return tt
  /\ fst (fst (RevPiModIOSelected__init__
                 (SelectList [SelStr "dio01"; SelInt 0]) false true
                 ExampleSelect.file ExampleSelect.config 50))
     = Raise (RuntimeError "could not find all given devices in config").
Proof.
  destruct select_config_regular as (R & P & N & C).
  split; [exact R|]. split; [exact P|]. split; [exact N|].
  split; [exact C|]. split; [reflexivity|]. split; [discriminate|].
  split; [reflexivity|].
  refine (eq_trans
            (proj1 (selected_init_spec
                      (SelectList [SelStr "dio01"; SelInt 0]) false true
                      ExampleSelect.file ExampleSelect.config 50 R P N C
                      eq_refl _))
            eq_refl).
  discriminate.
Defined.

(** ** The configuration file *)

(** X22: the choice of the configuration file. A path that was given is
    the only one that is tried: the two known places play no part, and the
    path is kept whether it can be read or not. Without a path the first
    known place that can be read is taken and kept, so that every later
    call tries that file only: it raises when the file cannot be read any
    more, also when the other known place can; when no known place can be
    read the call raises and keeps no path. *)
Theorem get_jconfigrsc_choice access :
  (forall path,
     get_jconfigrsc access (Some path)
     = (if access path then Return path
        else Raise (RuntimeError
               (String.append "can not access pictory configuration at "
                  path)),
        Some path))
  /\ (forall rscfile,
        fst (get_jconfigrsc access None) = Return rscfile ->
        In rscfile lst_rsc /\ access rscfile = true
        /\ (rscfile = "/opt/KUNBUS/config.rsc"%string ->
            access "/etc/revpi/config.rsc"%string = false)
        /\ snd (get_jconfigrsc access None) = Some rscfile
        /\ forall access',
             fst (get_jconfigrsc access' (snd (get_jconfigrsc access None)))
             = (if access' rscfile then Return rscfile
                else Raise (RuntimeError
                       (String.append
                          "can not access pictory configuration at "
                          rscfile))))
  /\ (raises (fst (get_jconfigrsc access None)) = true <->
      forall rscfile, In rscfile lst_rsc -> access rscfile = false)
  /\ (raises (fst (get_jconfigrsc access None)) = true ->
      snd (get_jconfigrsc access None) = None).
Proof.
  split.
  { intros path. unfold get_jconfigrsc. destruct (access path); reflexivity. }
  unfold get_jconfigrsc, lst_rsc. cbn [find].
  destruct (access "/etc/revpi/config.rsc"%string) eqn:E1.
  - split.
    + intros rscfile H. cbn in H. injection H as <-.
      split; [left; reflexivity|]. split; [exact E1|].
      split; [discriminate|]. split; [reflexivity|].
      intros access'. cbn. destruct (access' _); reflexivity.
    + split; [|discriminate]. cbn. split; [discriminate|].
      intros H. rewrite (H _ (or_introl eq_refl)) in E1. discriminate.
  - destruct (access "/opt/KUNBUS/config.rsc"%string) eqn:E2.
    + split.
      * intros rscfile H. cbn in H. injection H as <-.
        split; [right; left; reflexivity|]. split; [exact E2|].
        split; [intros _; reflexivity|]. split; [reflexivity|].
        intros access'. cbn. destruct (access' _); reflexivity.
      * split; [|discriminate]. cbn. split; [discriminate|].
        intros H. rewrite (H _ (or_intror (or_introl eq_refl))) in E2.
        discriminate.
    + split; [intros rscfile H; discriminate|].
      split; [|reflexivity]. cbn. split; [|reflexivity].
      intros _ rscfile [<-|[<-|[]]]; assumption.
Qed.

(** ** The bit of an I/O point *)

Lemma bool_and_shift_testbit n k :
  (0 <= k)%Z -> bool_and_shift n k = Z.testbit n k.
Proof.
  intros Hk. unfold bool_and_shift.
  rewrite Z.shiftl_1_l.
  destruct (Z.testbit n k) eqn:E.
  - destruct (Z.eqb_spec (Z.land n (2 ^ k)) 0) as [H|H]; [|reflexivity].
    exfalso.
    assert (Hb : Z.testbit (Z.land n (2 ^ k)) k = true)
      by (rewrite Z.land_spec, E, Z.pow2_bits_true by exact Hk; reflexivity).
    rewrite H, Z.bits_0 in Hb. discriminate.
  - assert (H : Z.land n (2 ^ k) = 0%Z).
    { apply Z.bits_inj'. intros m Hm.
      rewrite Z.land_spec, Z.bits_0, Z.pow2_bits_eqb by exact Hk.
      destruct (Z.eqb_spec k m) as [->|Hne];
        [rewrite E; reflexivity | apply andb_false_r]. }
    rewrite H. reflexivity.
Qed.

Lemma byte_range b : (0 <= Z.of_N (Byte.to_N b) < 256)%Z.
Proof. pose proof (Byte.to_N_bounded b). lia. Qed.

Lemma from_little_testbit bs : forall k,
  (0 <= k)%Z -> Z.testbit (from_little bs) k = bit_of_bytes bs k.
Proof.
  induction bs as [|b rest IH]; intros k Hk.
  - unfold bit_of_bytes. simpl.
    destruct (Z.to_nat (k / 8)); rewrite Z.bits_0; reflexivity.
  - cbn [from_little]. pose proof (byte_range b) as Hb.
    set (v := Z.of_N (Byte.to_N b)) in *.
    destruct (Z.lt_ge_cases k 8) as [Hlt|Hge].
    + assert (E : ((v + 256 * from_little rest) mod 2 ^ 8 = v)%Z).
      { change (2 ^ 8)%Z with 256%Z.
        replace (v + 256 * from_little rest)%Z
          with (v + from_little rest * 256)%Z by lia.
        rewrite Z.mod_add by lia. apply Z.mod_small. lia. }
      rewrite <- (Z.mod_pow2_bits_low _ 8 k) by lia. rewrite E.
      unfold bit_of_bytes.
      rewrite Z.div_small, Z.mod_small by lia. reflexivity.
    + assert (E : ((v + 256 * from_little rest) / 2 ^ 8
                   = from_little rest)%Z).
      { change (2 ^ 8)%Z with 256%Z.
        replace (v + 256 * from_little rest)%Z
          with (v + from_little rest * 256)%Z by lia.
        rewrite Z.div_add by lia. rewrite Z.div_small by lia. lia. }
      replace k with (k - 8 + 8)%Z at 1 by lia.
      rewrite <- Z.div_pow2_bits by lia. rewrite E, IH by lia.
      unfold bit_of_bytes.
      replace (k / 8)%Z with ((k - 8) / 8 + 1)%Z
        by (replace k with (k - 8 + 1 * 8)%Z at 2 by lia;
            rewrite Z.div_add by lia; reflexivity).
      replace (k mod 8)%Z with ((k - 8) mod 8)%Z
        by (replace k with (k - 8 + 1 * 8)%Z at 2 by lia;
            rewrite Z.mod_add by lia; reflexivity).
      rewrite Z2Nat.inj_add by (try apply Z.div_pos; lia).
      rewrite Nat.add_comm. reflexivity.
Qed.

(** X23: the bit of an I/O point. For a point with bit index k that is not
    negative, the boolean that mainloop extracts from the bytes of the
    point is bit k mod 8 of byte k / 8, the bytes counted from the first
    one of the range for the byte order little and from the last one for
    big; it is False when the range has no such byte. For ranges of one
    byte the byte order makes no difference. *)
Theorem bit_of_point bs order k :
  (0 <= k)%Z ->
  bool_and_shift (int_from_bytes bs order) k
  = bit_of_bytes (match order with Little => bs | Big => rev bs end) k
  /\ (forall dev io,
        io_bitaddress io = k -> io_byteorder io = order ->
        getslice (dev_ba_devdata dev) (io_slc_address io) = bs ->
        bit_live dev io
        = bit_of_bytes (match order with Little => bs | Big => rev bs end) k)
  /\ (List.length bs <= 1 ->
      bool_and_shift (int_from_bytes bs Little) k
      = bool_and_shift (int_from_bytes bs Big) k).
Proof.
  intros Hk.
  assert (E : forall o,
            bool_and_shift (int_from_bytes bs o) k
            = bit_of_bytes (match o with Little => bs | Big => rev bs end) k).
  { intros o. rewrite bool_and_shift_testbit by exact Hk.
    destruct o; apply from_little_testbit, Hk. }
  split; [apply E|]. split.
  - intros dev io H1 H2 H3. unfold bit_live. rewrite H1, H2, H3. apply E.
  - intros Hlen. rewrite !E.
    destruct bs as [|b [|b' rest]]; [reflexivity | reflexivity|].
    simpl in Hlen. lia.
Qed.

Lemma bit_of_point_witness :
  (0 <= 9)%Z
  /\ bool_and_shift (int_from_bytes [Byte.x00; Byte.x02] Little) 9 = true
  /\ bool_and_shift (int_from_bytes [Byte.x00; Byte.x02] Big) 9 = false
  /\ bit_of_bytes [Byte.x00; Byte.x02] 9 = true.
Proof.
  split; [lia|]. split; [reflexivity|]. split; [reflexivity|].
  exact (eq_trans
           (eq_sym (proj1 (bit_of_point [Byte.x00; Byte.x02] Little 9
                             (proj1 (Z.leb_le 0 9) eq_refl))))
           eq_refl).
Defined.

(** ** Points without a bit index *)

(** X24: a change of a point without a bit index. When the bytes of such a
    point differ between baseline copy and live buffer, the diff pass puts
    the tuple of every registration without delay on lst_fire once,
    whatever edge the registration names, with the bytes of the live range
    as value; when the bytes are the same it does nothing. *)
Theorem byte_point_fires refresh dev io regs l d rf :
  (io_bitaddress io < 0)%Z -> NoDup regs -> In rf regs ->
  reg_delay rf = 0%Z ->
  let cp := getslice (dev_ba_datacp dev) (io_slc_address io) in
  let live := getslice (dev_ba_devdata dev) (io_slc_address io) in
  let after := scan_io refresh dev (l, d) (io, regs) in
  (cp <> live ->
   firings (fst after) (rf, io_name io, VBytes live)
   = S (firings l (rf, io_name io, VBytes live))
   /\ Dict.get (rf, io_name io, VBytes live) (snd after)
      = Dict.get (rf, io_name io, VBytes live) d)
  /\ (cp = live -> after = (l, d)).
Proof.
  intros Hbit Hnd Hin Hdelay cp live after. subst after.
  unfold scan_io. fold cp. fold live.
  destruct (bytes_eq_dec cp live) as [E|E].
  - split; [intros H; contradiction | reflexivity].
  - split; [|intros H; contradiction]. intros _.
    destruct (Z.leb_spec 0 (io_bitaddress io)) as [H|_]; [lia|].
    rewrite (io_value_bytes dev io Hbit). fold live.
    split.
    + rewrite fire_nobit_lst, firings_app, firings_tuples.
      rewrite count_occ_filter, Hdelay. cbn [Z.eqb].
      rewrite (proj1 (NoDup_count_occ' RegFunc_eq_dec regs) Hnd rf Hin).
      lia.
    + apply (fold_zero_delay
               (fire_nobit refresh (io_name io) (VBytes live))).
      intros a x. apply fire_nobit_zero_delay. exact Hdelay.
Qed.

Lemma byte_point_fires_witness :
  (io_bitaddress Example.Counter_1 < 0)%Z
  /\ NoDup [ExampleBytes.counter_now]
  /\ In ExampleBytes.counter_now [ExampleBytes.counter_now]
  /\ reg_delay ExampleBytes.counter_now = 0%Z
  /\ fst (scan_io 50 ExampleBytes.counting ([], [])
            (Example.Counter_1, [ExampleBytes.counter_now]))
     = [(ExampleBytes.counter_now, "Counter_1"%string, VBytes [Byte.x05])]
  /\ firings
       (fst (scan_io 50 ExampleBytes.counting ([], [])
               (Example.Counter_1, [ExampleBytes.counter_now])))
       (ExampleBytes.counter_now, "Counter_1"%string, VBytes [Byte.x05])
     = 1.
Proof.
  assert (N : NoDup [ExampleBytes.counter_now])
    by (constructor; [simpl; tauto | constructor]).
  split; [reflexivity|]. split; [exact N|].
  split; [left; reflexivity|]. split; [reflexivity|].
  split; [reflexivity|].
  refine (proj1 (proj1 (byte_point_fires 50 ExampleBytes.counting
                          Example.Counter_1 [ExampleBytes.counter_now]
                          [] [] ExampleBytes.counter_now eq_refl N
                          (or_introl eq_refl) eq_refl) _)).
  discriminate.
Defined.

(** ** After the shutdown *)

Lemma exit_releases s :
  (forall id, In id (_lst_refresh s) -> get_dev s id <> None) ->
  no_escalation s ->
  fst (exit s true) = Return tt
  /\ (forall id, In id (_lst_refresh s) -> plain_device (snd (exit s true)) id)
  /\ fh_fails (_myfh (snd (exit s true))) = fh_fails (_myfh s)
  /\ _monitoring (snd (exit s true)) = _monitoring s.
Proof.
  intros Hv Hsafe. unfold exit.
  set (s1 := with_exit s true true).
  destruct (stop_imgwriter_frame s1)
    as (Ob & Lr & Fh & Mo & Bu & Mx & Ie & Ex & We & Lo).
  set (s0 := stop_imgwriter s1) in *.
  assert (V0 : forall id, In id (rev (_lst_refresh s1)) ->
                          get_dev s0 id <> None).
  { intros id Hin. unfold get_dev. rewrite Ob. apply Hv.
    now apply in_rev. }
  assert (S0 : no_escalation s0).
  { unfold no_escalation. rewrite Mo, Mx, Fh. exact Hsafe. }
  destruct (exit_refresh_spec (rev (_lst_refresh s1)) s0 V0 S0)
    as (R & L & F & Lg & Fr & D).
  destruct (exit_refresh (rev (_lst_refresh s1)) s0) as [[u|e] s2];
    cbn [fst snd] in *; [|discriminate].
  split; [reflexivity|].
  unfold exit_frame in Fr. inversion Fr as [[Fm Fb Fe Fw Fi Fl Fx Ff]].
  split.
  - intros id Hin.
    assert (Hsel : selfupdate_of s2 id = false)
      by (apply F; right; apply -> in_rev; exact Hin).
    assert (Hval : get_dev s2 id <> None).
    { apply (same_data_valid s0 s2 id D). unfold get_dev. rewrite Ob.
      apply Hv, Hin. }
    unfold plain_device.
    change (get_dev (with_looprunning s2 false) id) with (get_dev s2 id).
    unfold selfupdate_of in Hsel.
    destruct (get_dev s2 id) as [dev|]; [|congruence].
    exists dev. auto.
  - cbn [with_looprunning _myfh _monitoring]. rewrite Ff, Fh, Fm, Mo.
    auto.
Qed.

(** X25: after the shutdown. When exit(full=True) meets no failing file
    operation, every device of the refresh list is handed back to the
    foreground: readprocimg and syncoutputs on it, and writeprocimg unless
    the manager is in monitoring mode, are no longer refused and return
    True. *)
Theorem exit_hands_back s id :
  (forall id, In id (_lst_refresh s) -> get_dev s id <> None) ->
  (forall n, fh_fails (_myfh s) n = false) ->
  In id (_lst_refresh s) ->
  let s' := snd (exit s true) in
  selfupdate_of s' id = false
  /\ fst (readprocimg s' (Some (ByObject id))) = Return true
  /\ fst (syncoutputs s' (Some (ByObject id))) = Return true
  /\ (_monitoring s = false ->
      fst (writeprocimg s' (Some (ByObject id))) = Return true).
Proof.
  intros Hv Hnever Hin s'.
  destruct (exit_releases s Hv) as (_ & Hplain & Hf & Hm).
  { right. right. exact Hnever. }
  fold s' in Hplain, Hf, Hm.
  specialize (Hplain id Hin).
  pose proof (selfupdate_of_plain s' id Hplain) as Hsel.
  assert (Hok : fh_ok (_myfh s') = true)
    by (unfold fh_ok; rewrite Hf, Hnever; reflexivity).
  split; [exact Hsel|].
  split.
  { unfold readprocimg, device_of_registry. rewrite Hsel.
    rewrite read_image_then_ok by exact Hok. reflexivity. }
  split.
  { unfold syncoutputs, device_of_self. rewrite Hsel.
    rewrite read_image_then_ok by exact Hok. reflexivity. }
  intros Hmon. unfold writeprocimg, device_of_self.
  rewrite Hm, Hmon, Hsel. apply write_devices_ok.
  intros n. rewrite Hf. apply Hnever.
Qed.

Lemma exit_hands_back_witness :
  (forall id, In id (_lst_refresh ExampleExit.calm) ->
              get_dev ExampleExit.calm id <> None)
  /\ (forall n, fh_fails (_myfh ExampleExit.calm) n = false)
  /\ In 1 (_lst_refresh ExampleExit.calm)
  /\ raises (fst (readprocimg ExampleExit.calm (Some (ByObject 1)))) = true
  /\ fst (readprocimg (snd (exit ExampleExit.calm true)) (Some (ByObject 1)))
     = Return true.
Proof.
  assert (V : forall id, In id (_lst_refresh ExampleExit.calm) ->
                         get_dev ExampleExit.calm id <> None)
    by (intros id [<-|[<-|[]]]; discriminate).
  split; [exact V|]. split; [intros n; reflexivity|].
  split; [right; left; reflexivity|]. split; [reflexivity|].
  exact (proj1 (proj2 (exit_hands_back ExampleExit.calm 1 V
                         (fun n => eq_refl)
                         (or_intror (or_introl eq_refl))))).
Defined.

(** ** Devices by name *)

Lemma by_name_setattr dl name position id n :
  DeviceList.by_name (DeviceList.setattr dl name position id) n
  = if string_dec n name then Some id else DeviceList.by_name dl n.
Proof.
  unfold DeviceList.by_name, DeviceList.setattr. cbn [DeviceList.names].
  destruct (string_dec n name) as [->|Hne].
  - apply lookup_assign_same.
  - apply lookup_assign_other, Hne.
Qed.

Lemma count_occ_snoc (l : list string) x n :
  count_occ string_dec (l ++ [x]) n
  = count_occ string_dec l n + (if string_dec x n then 1 else 0).
Proof.
  rewrite count_occ_app. simpl. destruct (string_dec x n); lia.
Qed.

Lemma configure_fold_names ds : forall s errs,
  names_ok s errs ->
  names_ok (fst (fold_left configure_device ds (s, errs)))
    (snd (fold_left configure_device ds (s, errs))).
Proof.
  induction ds as [|d rest IH]; intros s errs Hinv; [exact Hinv|].
  cbn [fold_left].
  destruct (known_type (d_type d)) eqn:Hknown.
  - destruct (configure_device_step s errs d Hknown)
      as (Hobj & Hdev & Herr & _).
    destruct (configure_device (s, errs) d) as [s1 errs1].
    cbn [fst snd] in Hobj, Hdev, Herr.
    apply IH.
    destruct Hinv as (Ha & Hb & Hc & Hd).
    assert (Hnames : device_names s1 = device_names s ++ [d_name d]).
    { unfold device_names. rewrite Hobj, map_app. reflexivity. }
    assert (Hhas : DeviceList.hasattr (device s) (d_name d) = true
                   <-> In (d_name d) (device_names s)).
    { unfold DeviceList.hasattr. split.
      - destruct (DeviceList.by_name (device s) (d_name d)) as [i|] eqn:E;
          [|discriminate].
        intros _. eapply nth_error_In. apply (Ha _ _ E).
      - intros Hin. specialize (Hb _ Hin).
        destruct (DeviceList.by_name (device s) (d_name d));
          [reflexivity | congruence]. }
    unfold names_ok. rewrite Hnames, Hdev.
    split; [|split; [|split]].
    + intros n i. rewrite by_name_setattr.
      destruct (string_dec n (d_name d)) as [->|Hne].
      * intros H. injection H as <-.
        unfold device_names. rewrite nth_error_app2, length_map by
          (rewrite length_map; lia).
        rewrite Nat.sub_diag. reflexivity.
      * intros H. specialize (Ha n i H).
        rewrite nth_error_app1; [exact Ha|].
        apply nth_error_Some. congruence.
    + intros n Hin. rewrite by_name_setattr.
      destruct (string_dec n (d_name d)); [discriminate|].
      apply Hb. apply in_app_or in Hin.
      destruct Hin as [Hin|[Heq|[]]]; [exact Hin | congruence].
    + intros n Hin. rewrite count_occ_snoc. rewrite Herr in Hin.
      destruct (DeviceList.hasattr (device s) (d_name d)) eqn:E.
      * apply in_app_or in Hin. destruct Hin as [Hin|[<-|[]]].
        -- specialize (Hc n Hin). lia.
        -- destruct (string_dec (d_name d) (d_name d)); [|congruence].
           assert (1 <= count_occ string_dec (device_names s) (d_name d))
             by (apply count_occ_In, Hhas; reflexivity).
           lia.
      * specialize (Hc n Hin). lia.
    + intros n. rewrite count_occ_snoc, Herr. intros Hcount.
      destruct (string_dec (d_name d) n) as [<-|Hne].
      * assert (Hin : In (d_name d) (device_names s))
          by (apply (count_occ_In string_dec); lia).
        rewrite (proj2 Hhas Hin). apply in_or_app. right. left. reflexivity.
      * assert (Hin : In n errs) by (apply Hd; lia).
        destruct (DeviceList.hasattr (device s) (d_name d));
          [apply in_or_app; left; exact Hin | exact Hin].
  - assert (E : configure_device (s, errs) d
                = (warn s WarnUnknownType, errs))
      by (unfold configure_device; rewrite Hknown; reflexivity).
    rewrite E. apply IH. exact Hinv.
Qed.

Lemma configure_names_returned errs : forall s,
  fst (configure_names errs s) = Return tt ->
  (forall n, In n errs ->
     DeviceList.by_name (device (snd (configure_names errs s))) n = None)
  /\ (forall n, ~ In n errs ->
        DeviceList.by_name (device (snd (configure_names errs s))) n
        = DeviceList.by_name (device s) n).
Proof.
  induction errs as [|e rest IH]; intros s; simpl.
  - intros _. split; [intros n [] | reflexivity].
  - unfold DeviceList.delattr.
    destruct (DeviceList.hasattr (device s) e); [|discriminate].
    set (s1 := warn (with_device s
                       (DeviceList.mk
                          (DeviceList.remove string_dec e
                             (DeviceList.names (device s)))
                          (DeviceList.positions (device s))))
                 WarnEqualName).
    intros Hret. destruct (IH s1 Hret) as [H1 H2].
    assert (He : forall n,
              DeviceList.by_name (device s1) n
              = if string_dec n e then None
                else DeviceList.by_name (device s) n).
    { intros n. unfold DeviceList.by_name. cbn.
      destruct (string_dec n e) as [->|Hne].
      - apply lookup_remove_same.
      - apply lookup_remove_other, Hne. }
    split.
    + intros n [<-|Hin].
      * destruct (in_dec string_dec e rest) as [Hi|Hi]; [apply H1, Hi|].
        rewrite (H2 e Hi), He.
        destruct (string_dec e e); [reflexivity | congruence].
      * apply H1, Hin.
    + intros n Hn. rewrite H2 by tauto. rewrite He.
      destruct (string_dec n e) as [->|]; [tauto | reflexivity].
Qed.

Lemma replace_nth_map {A B} (g : A -> B) (l : list A) : forall n x y,
  nth_error l n = Some y -> g x = g y ->
  map g (replace_nth l n x) = map g l.
Proof.
  induction l as [|a rest IH]; intros [|n] x y H Hg; simpl in *;
    try discriminate.
  - injection H as ->. rewrite Hg. reflexivity.
  - f_equal. eapply IH; eauto.
Qed.

Lemma update_devices_names f mylist :
  (forall d, dev_name (f d) = dev_name d) ->
  forall s, device_names (update_devices f mylist s) = device_names s.
Proof.
  intros Hf. unfold update_devices, device_names.
  induction mylist as [|x rest IH]; intros s; simpl; [reflexivity|].
  rewrite IH. destruct (get_dev s x) as [d|] eqn:E; [|reflexivity].
  unfold put_dev. cbn [objects with_objects].
  eapply replace_nth_map; [exact E | apply Hf].
Qed.

Lemma read_image_then_names f mylist s :
  (forall b d, dev_name (f b d) = dev_name d) ->
  device_names (snd (read_image_then f mylist s)) = device_names s.
Proof.
  intros Hf. unfold read_image_then, fh_read.
  destruct (fh_ok (_myfh s)).
  - cbn [snd]. rewrite update_devices_names by apply Hf. reflexivity.
  - rewrite gotioerror_spec. destruct (threshold_reached _); reflexivity.
Qed.

Lemma sync_device_name bytesbuff dev :
  dev_name (sync_device bytesbuff dev) = dev_name dev.
Proof. unfold sync_device. destruct (dev_selfupdate dev); reflexivity. Qed.

Lemma count_occ_unique (l : list string) n : forall i j,
  count_occ string_dec l n = 1 ->
  nth_error l i = Some n -> nth_error l j = Some n -> i = j.
Proof.
  induction l as [|x rest IH]; intros i j Hc Hi Hj.
  - destruct i; discriminate.
  - simpl in Hc. destruct (string_dec x n) as [->|Hne].
    + assert (Hnot : ~ In n rest)
        by (apply (count_occ_not_In string_dec); lia).
      destruct i as [|i], j as [|j]; simpl in *; try reflexivity.
      * exfalso. apply Hnot. eapply nth_error_In; eauto.
      * exfalso. apply Hnot. eapply nth_error_In; eauto.
      * exfalso. apply Hnot. eapply nth_error_In; eauto.
    + destruct i as [|i], j as [|j]; simpl in *; try congruence.
      f_equal. eapply IH; eauto.
Qed.

(** X26: the devices by name after the configuration. When _configure
    returns, the registry resolves a name to a device exactly when one
    device, and no other, has that name, and it resolves it to that
    device; this holds for every list of descriptors. *)
Theorem device_by_name s ds refresh :
  let res := _configure s ds refresh in
  fst res = Return tt ->
  forall n i,
    DeviceList.by_name (device (snd res)) n = Some i
    <-> nth_error (device_names (snd res)) i = Some n
        /\ count_occ string_dec (device_names (snd res)) n = 1.
Proof.
  intros res. subst res. unfold _configure.
  set (s0 := with_objects (with_device s DeviceList.empty) []).
  assert (H0 : names_ok s0 []).
  { unfold names_ok, device_names. cbn. repeat split.
    - intros n i H. discriminate.
    - intros n [].
    - intros n [].
    - intros n H. lia. }
  pose proof (configure_fold_names ds s0 [] H0) as H1.
  destruct (fold_left configure_device ds (s0, [])) as [s1 err_names].
  cbn [fst snd] in H1.
  destruct (configure_names_store err_names s1) as [_ Ho].
  pose proof (configure_names_returned err_names s1) as H2.
  destruct (configure_names err_names s1) as [[[]|e] s2]; cbn [fst snd] in *;
    [|discriminate].
  destruct (H2 eq_refl) as [Hgone Hkept]. clear H2.
  set (s3 := with_imgwriter s2
               (Some (mkWriter refresh false false 0 (_maxioerrors s2)))).
  assert (Hfinal : forall s4,
            device s4 = device s2 -> device_names s4 = device_names s1 ->
            forall n i,
              DeviceList.by_name (device s4) n = Some i
              <-> nth_error (device_names s4) i = Some n
                  /\ count_occ string_dec (device_names s4) n = 1).
  { intros s4 Hd Hn n i. rewrite Hd, Hn.
    destruct H1 as (Ha & Hb & Hc & Hd').
    split.
    - intros H.
      assert (Hnot : ~ In n err_names)
        by (intros Hin; rewrite (Hgone n Hin) in H; discriminate).
      rewrite (Hkept n Hnot) in H.
      split; [apply Ha, H|].
      assert (1 <= count_occ string_dec (device_names s1) n).
      { apply count_occ_In. eapply nth_error_In. apply (Ha n i H). }
      destruct (Nat.le_gt_cases 2 (count_occ string_dec (device_names s1) n))
        as [Hge|Hlt]; [|lia].
      exfalso. apply Hnot, Hd', Hge.
    - intros [Hi Hone].
      assert (Hnot : ~ In n err_names)
        by (intros Hin; specialize (Hc n Hin); lia).
      rewrite (Hkept n Hnot).
      destruct (DeviceList.by_name (device s1) n) as [j|] eqn:E.
      + f_equal. apply (count_occ_unique (device_names s1) n);
          [exact Hone | apply Ha, E | exact Hi].
      + exfalso. apply (Hb n); [|exact E].
        eapply nth_error_In. exact Hi. }
  destruct (_syncoutputs s3).
  - pose proof (read_image_then_registry sync_device
                  (DeviceList.iter (device s3)) s3) as Hr.
    pose proof (read_image_then_names sync_device
                  (DeviceList.iter (device s3)) s3 sync_device_name) as Hn.
    unfold syncoutputs.
    destruct (read_image_then sync_device (DeviceList.iter (device s3)) s3)
      as [[b|e] s4]; cbn [fst snd] in *; [|discriminate].
    intros _. apply Hfinal; [exact Hr|].
    rewrite Hn. unfold device_names. cbn. rewrite Ho. reflexivity.
  - intros _. apply Hfinal; [reflexivity|].
    unfold device_names. cbn. rewrite Ho. reflexivity.
Qed.

Lemma device_by_name_witness :
  fst (_configure ExampleConfig.fresh ExampleConfig.mixed 50) = Return tt
  /\ device_names (snd (_configure ExampleConfig.fresh ExampleConfig.mixed 50))
     = ["core"; "gateway"; "virt"]%string
  /\ DeviceList.by_name
       (device (snd (_configure ExampleConfig.fresh ExampleConfig.mixed 50)))
       "virt" = Some 2.
Proof.
  split; [reflexivity|]. split; [reflexivity|].
  refine (proj2 (device_by_name ExampleConfig.fresh ExampleConfig.mixed 50
                   eq_refl "virt"%string 2) _).
  split; reflexivity.
Defined.

(** ** The last write of the signal handler *)

Lemma but_objects_parts s s' :
  but_objects s' = but_objects s ->
  _myfh s' = _myfh s /\ _monitoring s' = _monitoring s
  /\ _buffedwrite s' = _buffedwrite s /\ device s' = device s.
Proof. unfold but_objects. intros H. inversion H. auto. Qed.

(** X27: the last write of the signal handler. With a cleanup function
    that returns and touches nothing but device objects, no monitoring
    mode and a file object in order, the handler returns, and the last
    thing it does is to write the output region of every device of the
    registry that is not self-updating as the cleanup function has left
    it, in the order of the registry, followed by a flush in buffered
    mode. *)
Theorem handler_writes_outputs p f :
  pg_cleanupfunc p = Some f -> tidy f ->
  _monitoring (pg_modio p) = false ->
  (forall n, fh_fails (_myfh (pg_modio p)) n = false) ->
  (forall id, In id (_lst_refresh (pg_modio p)) ->
              get_dev (pg_modio p) id <> None) ->
  let s3 := cleaned f (pg_modio p) in
  fst (__evt_exit p) = Return tt
  /\ objects (pg_modio (snd (__evt_exit p))) = objects s3
  /\ fh_log (_myfh (pg_modio (snd (__evt_exit p))))
     = fh_log (_myfh s3)
       ++ device_writes s3 (DeviceList.iter (device s3))
       ++ (if _buffedwrite s3 then [FhFlush] else []).
Proof.
  intros Hf Htidy Hmon Hnever Hv s3. subst s3. unfold cleaned, __evt_exit.
  cbn [pg_modio pg_cleanupfunc]. rewrite Hf.
  destruct (exit_releases (pg_modio p) Hv) as (He & _ & Hf1 & Hm1).
  { right. right. exact Hnever. }
  destruct (exit (pg_modio p) true) as [[u|e] s1]; cbn [fst snd] in *;
    [|discriminate].
  assert (Hok1 : fh_ok (_myfh s1) = true)
    by (unfold fh_ok; rewrite Hf1, Hnever; reflexivity).
  assert (Hr : readprocimg s1 None
               = (Return true,
                  update_devices
                    (read_device (_monitoring s1)
                       (firstn (_length s1) (fh_image (_myfh s1))))
                    (DeviceList.iter (device s1))
                    (with_myfh s1
                       (fh_logged (_myfh s1) (FhRead (_length s1))
                          (fh_image (_myfh s1))))))
    by (unfold readprocimg; apply read_image_then_ok, Hok1).
  rewrite Hr. cbn [fst snd].
  set (s2 := update_devices _ _ _).
  assert (H2 : fh_fails (_myfh s2) = fh_fails (_myfh s1)
               /\ _monitoring s2 = _monitoring s1).
  { unfold s2. rewrite update_devices_myfh, update_devices_monitoring.
    split; reflexivity. }
  destruct H2 as [Hf2 Hm2].
  destruct (Htidy s2) as [Hret Hbut].
  destruct (but_objects_parts _ _ Hbut) as (B1 & B2 & B3 & B4).
  destruct (f s2) as [[u'|e] s3]; cbn [fst snd] in *; [|discriminate].
  assert (Hnever3 : forall n, fh_fails (_myfh s3) n = false)
    by (intros n; rewrite B1, Hf2, Hf1; apply Hnever).
  assert (Hw : writeprocimg s3 None
               = write_devices (DeviceList.iter (device s3)) s3).
  { unfold writeprocimg. rewrite B2, Hm2, Hm1, Hmon. reflexivity. }
  pose proof (write_devices_ok s3 (DeviceList.iter (device s3)) Hnever3)
    as Hwok.
  pose proof (write_devices_log s3 (DeviceList.iter (device s3))) as Hlog.
  pose proof (write_devices_objects s3 (DeviceList.iter (device s3)))
    as Hobj.
  rewrite Hw.
  destruct (write_devices (DeviceList.iter (device s3)) s3)
    as [[b|e] s4]; cbn [fst snd] in *; [|discriminate].
  cbn [with_modio pg_modio]. auto.
Qed.

Lemma handler_writes_outputs_witness :
  let p :=
    snd (handlesignalend (ExampleProgram.running false)
           (CleanupCallable ExampleProgram.outputs_off)) in
  pg_cleanupfunc p = Some ExampleProgram.outputs_off
  /\ tidy ExampleProgram.outputs_off
  /\ _monitoring (pg_modio p) = false
  /\ (forall n, fh_fails (_myfh (pg_modio p)) n = false)
  /\ (forall id, In id (_lst_refresh (pg_modio p)) ->
                 get_dev (pg_modio p) id <> None)
  /\ fh_log (_myfh (pg_modio (snd (__evt_exit p))))
     = [FhWrite 3 [Byte.x00]; FhWrite 1 [Byte.x00]; FhRead 4;
        FhWrite 1 [Byte.x00]; FhWrite 3 [Byte.x00]]
  /\ fst (__evt_exit p) = Return tt.
Proof.
  assert (T : tidy ExampleProgram.outputs_off).
  { intros s. unfold ExampleProgram.outputs_off. cbn [fst snd].
    split; [reflexivity|]. destruct (get_dev s 0); reflexivity. }
  assert (V : forall id,
            In id (_lst_refresh (pg_modio (ExampleProgram.running false))) ->
            get_dev (pg_modio (ExampleProgram.running false)) id <> None)
    by (intros id [<-|[<-|[]]]; discriminate).
  split; [reflexivity|]. split; [exact T|]. split; [reflexivity|].
  split; [intros n; reflexivity|]. split; [exact V|].
  split; [reflexivity|].
  exact (proj1 (handler_writes_outputs
                  (snd (handlesignalend (ExampleProgram.running false)
                          (CleanupCallable ExampleProgram.outputs_off)))
                  ExampleProgram.outputs_off eq_refl T eq_refl
                  (fun n => eq_refl) V)).
Defined.
